(* ===== verification/_CoqProject ===== *)
-Q . S2P
Prelude.v
Tir.v
Frames.v
Region.v
NpuirOps.v
NpuirReduce.v
NpuirShape.v
Sync.v
AscendOps.v
BestFit.v
Factors.v
DynShape.v
Layouts.v
Kernel.v
StateSchema.v
Statectl.v
StatectlInv.v
StatectlRun.v
Migration.v
PerfRecords.v
PerfAccept.v
Integration.v
IntegrationAccept.v
KernelLint.v
DocLints.v
DocAccept.v
Graph.v
TileSearch.v
SmemUsage.v
RollerPolicy.v
RollerHints.v
RollerTotal.v
ShapeInfer.v
ShapeCover.v
ShapeTotal.v
CubePolicy.v
CubeTotal.v
Quantize.v
KernelCache.v
Anneal.v
AnnealTotal.v
Autotune.v
