(* ===== verification/Prelude.v ===== *)
(** * tilelang-mlir-ascend: the tile frontend and its call path

    ** The program

    TileLang programs are Python functions whose body is executed to build TIR.
    The parts modelled here, and how they interact:

    - the language layer ([src/tilelang/language]): inside [with T.Kernel(...)]
      (launch frames) and [with T.rs(...)] (resource frames), operators such as
      [T.copy], [T.npuir_add] or [T.npuir_reduce] turn their operands into tile
      region descriptors and return, or emit, intrinsic calls.  Names bound by an
      enclosing let are resolved through the stack of let frames;
    - the compiler's operators ([src/src/op/ascend.cc], [op.cc]): each intrinsic
      is registered with a number of inputs, and its constructor decodes the
      arguments;
    - the call path ([src/tilelang/jit/jit_npu.py]): a compiled kernel is called
      with tensors, from whose shapes the symbolic dimensions are recovered, the
      outputs allocated and the argument list of the launch built;
    - the kernel cache ([src/tilelang/cache]): requests to compile are answered
      from memory, from the files of an earlier process, or by the compiler;
    - the scheduler ([src/tilelang/carver/roller]): from a function, or a graph of
      operators, a policy searches the tiles that fit the buffers of the chip and
      emits hints: tiles, reduction steps and vector widths.  It stands on the
      shared-memory allocator, the factor and coalescing arithmetic, the graph of
      nodes, the tables of chips, and the inference of what part of every buffer a
      tile needs ([shape_inference/tir.py]);
    - the annealing search ([src/tilelang/carver/anneal]): another way to tiles,
      for templates with constraints given as polynomials and functions;
    - the autotuner ([src/tilelang/autotuner]): it compiles the configurations of a
      function through the kernel cache, measures them and keeps the best;
    - the conversions of low-precision numbers ([src/tilelang/quantize]);
    - the layouts ([src/tilelang/intrinsics]): the index maps of fragments,
      swizzles and fractals;
    - the workflow controller ([src/.agents/tools]): the command-line program
      that agents writing operators run to move an operator through its stages,
      with its state in a JSON file beside an event log, and the lints that decide
      whether the documents and data of a stage pass its gate.

    ** The files

    - [Prelude]: Python's exceptions, lists, integers and strings; the result
      type [res] and the state monad [prog], whose state survives an exception;
      decimal and comma-separated round trips; the tactics [inv_ok] and
      [run_prog].
    - [Tir]: the TIR objects the frontend reads and builds, the Python values an
      operator receives, and the class [TVM] of what the code calls of TVM, with
      what the theorems rely on as [TVMLaws].  [ConstTVM] is an instance on
      constants; the witnesses evaluate with it.
    - [Frames]: [frame.py].  The [FrameStack] of let frames (deque and map), the
      context manager [LetFrame], [has_let_value], [get_let_value]; [Scope]
      relates them to lexical lookup.
    - [Region]: [copy.py].  Region descriptors, [T.copy], and the compiler's
      [RegionOp] that decodes a descriptor.
    - [NpuirOps]: lines 1-788 of [customize_npuir.py], the element-wise, matrix
      and format operators that return one call.
    - [NpuirReduce]: the operators that emit statements (reductions, exp2, log2,
      clamp) and [allocate.py], over the frontend state [fe]: let stack, emitted
      statements, allocated buffers and the caller's lists, which are shared.
    - [NpuirShape]: the shape and indexing operators, [npuir_concat] and
      [npuir_pad] among them.
    - [Sync]: the launch [FrameStack], [ResourceSpecializeFrame], flags and
      barriers, and their consumers.
    - [AscendOps]: the operator registry, the argument forms of every
      constructor and the decoders of reductions and paddings.
    - [BestFit]: [bestfit.py], the block list with object identities.
    - [Factors]: [policy/common.py].
    - [DynShape]: symbolic dimensions, output positions, parameter information
      and the argument list of a call in [jit_npu.py].
    - [Layouts]: [mma_layout.py], [mfma_layout.py], [ascend_layout.py], [utils.py]
      of the intrinsics and the constructor of [Layout].
    - [Kernel]: [kernel.py], [warpgroup.py] and the frame constructors
      [KernelLaunch] and [WarpSpecialize] of [src/src/ir.cc].
    - [StateSchema]: the schema part of [gate_lint.py] over JSON values, the
      typed record of a workflow state and its encoding.
    - [Statectl]: the commands of [statectl.py] as programs over the files and
      the event log; hashing, time stamps and the text lints of the gates are
      the classes [Host] and [GateLints].
    - [StatectlInv]: the accepted transitions as a relation, its invariant, the
      measure that bounds them and progress.
    - [StatectlRun]: sequences of commands with the agents' writes in between,
      and the summary of the log.
    - [Migration]: the [migration] commands and their aggregate state.
    - [PerfRecords], [PerfAccept]: the lint of the performance records of
      [gate_lint.py] (inventory, JSON lines, final table of the log) with Unicode
      text, paths and floats, and what passing it means.
    - [Integration], [IntegrationAccept]: the lints of the scaffold and of the
      integration package, and what passing them means.
    - [KernelLint]: the lint of kernel files, over syntax trees.
    - [DocLints], [DocAccept]: the lints of design, review and feedback documents,
      their regular expressions as functions, the splitting into sections, the whole
      gate of the tuning stage, and what passing them means.
    - [Graph]: the nodes and edges of [roller/node.py], how graphs are built, and
      [find_topo_sort].
    - [TileSearch]: Python's numbers ([int] or [float], the memory multiplier among
      them), and the priority search of [dfs_smem_tile].
    - [SmemUsage]: [_compute_shared_memory_usage] of [policy/default.py], a run of
      the best-fit allocator along the sorted graph.
    - [RollerPolicy]: shape propagation and footprint of a [PrimFuncNode], strides,
      the chips of [npu_arch.py], and [emit_config] over the records [Methods] and
      [Policy] of what a policy overrides, with [AscendDefaultPolicy] as one.
    - [RollerHints]: lemmas on the generic loops, and the addresses of strides.
    - [RollerTotal]: the class [MethodLaws] of what [emit_config] relies on, its
      correctness for the default policy, and the completeness of the search.
    - [ShapeInfer]: [shape_inference/tir.py], over what the code asks of TIR blocks.
    - [ShapeCover]: the inferred shapes cover what a tile needs; the class of sound
      interval arithmetic it relies on, and an instance.
    - [ShapeTotal]: the inference answers, so it is an analyzer of the kind the
      policies are verified against.
    - [CubePolicy], [CubeTotal]: [AscendCubePolicy], the choice of a policy, and
      correctness of the hints of a matrix product.
    - [Quantize]: [quantization.py] and the packing of [quantize/utils.py].
    - [Anneal], [AnnealTotal]: [policy.py] and [customtemplate.py] of the
      annealing, with the generator of random numbers as state, and what the
      search returns.
    - [KernelCache]: [kernel_cache.py], with the constructor of a kernel, and
      [compile] of [jit_npu.py] with the workspace override and the device.
    - [Autotune]: [tuner.py] and [param.py] over the kernel cache, and the wrapper of
      [jit/__init__.py].

    A definition keeps the name it has in the source; a Python method is a
    function of its object, a mutating one a [prog] over the state it mutates, an
    exception a value of [res].  An [if ... raise] or an [assert] is a guard in
    the same place.

    ** What the theorems show

    - Frontend against compiler: every call the operators return on buffers, loads,
      slices and scalars is accepted by the registered constructor
      ([frontend_calls_accepted]; a variable bound by a let is refused,
      [let_operand_refused]); the encodings of paddings and of reduced
      dimensions are read back as they were meant ([npuir_pad_roundtrip],
      [reduce_dims_roundtrip]); the two sides of a flag decode to the same pair
      ([flags_pair]).
    - Cache: after any history of calls, restarts, other processes and versions,
      failed writes and lost files in one environment, a returned kernel is one the
      running version compiles for the request ([cache_transparent]); which requests
      fail while launchers are where they were put ([cache_errors]); when nothing is compiled ([compile_once],
      [restart_hit]).
    - Scheduler: the sort terminates with every needed node behind its inputs
      ([find_topo_sort_correct]); the computed shared memory covers what is live
      ([shared_memory_covers]); the emitted hints exist, and what they are counted to
      need, times the multiplier, fits the buffers ([emit_config_correct]; for the
      steps first assigned [cube_config_correct]); on small monotone grids the
      search is exhaustive ([dfs_smem_tile_exhaustive]); strided tiles do not
      overlap themselves ([strided_addresses]); for
      functions of a regular form the shapes inferred for a tile cover every element it
      needs ([infer_covers]) and exist ([inference_implements]).
    - Annealing: whatever the random numbers, the search ends with different tiles
      of the searched space that passed the constraints, or with [ValueError]
      where something does not fit, if the axes are well formed and constraints and
      cost defined ([anneal_configs_correct]), as they are for a matrix product of
      multiples of 16 ([matmul_template_correct]).
    - Autotuner: the result is a fastest measurement of a kernel compiled for its own
      configuration, when configurations are compiled directly ([run_selects_best]); a tuning is not repeated ([retune_hits]).
    - Low-precision numbers: packed weights are read back ([compress_roundtrip]),
      interleaving permutes fields ([interleave_permutes]), the 4-bit code is the
      nearest ([f4_nearest]).
    - Operators: the total behaviour of [copy], the calls each reduction emits in
      order, which operands broadcasts, casts, dots and cumulative sums accept,
      and the extents each descriptor gets.
    - Frames: in every reachable state a let lookup that answers gives the innermost
      binding, and it answers for every variable that is not bound twice; scopes of a
      new variable restore their stack when the body raises; launches bind the variables of their grid
      and their accessors read them back, warp groups select their threads.
    - Calls: an affine reading of a dimension agrees with its run-time value,
      symbolic values are recovered from the shapes of inputs (a binding at an output
      raises), and the launch arguments are in parameter order.
    - Allocator: an invariant of every reachable state (blocks tile the address
      space, free neighbours are coalesced), and refinement of the interval
      specification by [malloc] and [free], best fit included.
    - Arithmetic and layouts: divisors, prime factors and contiguous runs;
      bijectivity of the fragment maps but one, involution and bank spreading of the
      swizzle, injectivity of the fractal layouts, coordinates of a linear index.
    - Workflow: in whatever order commands come, the state file is readable,
      passes its schema and satisfies the invariant ([reachable_state_sound]); a
      refused command changes nothing; failure is final; the dispatches are
      bounded by the retry budget ([dispatches_bounded]); a workflow that has not
      failed can be finished once the gates of its stages pass on its files
      ([workflow_can_finish]); the
      one-pass summary equals the counts per stage.  A migration is only done
      with all functions done and an integration passed, moves forward only, and
      is what the gates of stages 0 and 5 read.
    - Gates: each lint is equivalent to a specification of the documents it accepts:
      the performance records, for finite claims ([perf_lint_accepts]), the
      integration, for a readable report ([integration_accepts]), the design, for
      sections that are not empty ([design_accepts]), the review
      ([review_accepts]), the scaffold ([meta_lint_nil]) and the kernel
      ([kernel_lint_nil]); the gate of the tuning stage implies those of its parts
      ([perf_gate_sound]); sections are split as a reference says
      ([split_sections_spec]).

    Where the code does not do what its comments say, the theorem states what it
    does: [copy_slice_to_buffer], [compound_index_shifts_extents],
    [size_override_raises], [deinterleave_float_extent], [concat_two_size],
    [npuir_cumsum_dims], [scalar_first_argument_fails], [enter_block_load],
    [rebinding_drops_outer], [swizzle_addresses_distinct], [ascend_layouts_raise],
    [smooth_32x16_leaves_warp], [launch_accessors_overrun],
    [cpu_four_blocks_raise], [redesign_escapes_review], [done_can_be_blocked],
    [pass_survives_failure], [after_reduce_inverted], [vector_size_bits],
    [arch_910_95_specs], [steps_exceed_l0], [short_axis_raises],
    [bf16_nan_to_zero], [e4m3_zero], [interleave_special_raises],
    [lost_launcher_raises], [none_served_as_empty], [func_mul_adds],
    [flash_first_axis_unlimited], [one_axis_raises], [usage_beyond_capacity],
    [lower_bound_rounded_down], [decorated_configs_share_kernel],
    [key_ignores_out_idx], [transposed_tile], [columns_lost], [gather_raises],
    [gate5_by_meta_rejected], [unreadable_report_passes], [inf_claim_reconciles],
    [huge_duration_raises], [inventory_required], [region_never_blank],
    [empty_sections_pass], [bare_heading], [scaffold_of_five], [let_operand_refused],
    [environment_not_in_key], [second_reduction_fails] and [shared_memory_fails].

    ** Bounds and fuel

    The loops are structural except these.  [factorize] runs on fuel [2 * n + 1]:
    a step either divides [n] by the candidate or increases the candidate, and
    [factorize_primes] proves the result for every [n >= 1], so the fuel never
    runs out.  [find_topo_sort] has one more step than the graph has nodes, a
    bound on the depth of a graph without cycles.  The tile search pops at most
    2001 tiles, the limit the source itself has.  The growth of reduction steps
    has one more step than the candidate lists have entries, since each round
    advances one of them; a list of powers of two, one more than the extent.  The
    search for a path between tensors has one more step than there are nodes, the
    search for an unused name one more than there are names.  The theorems on
    [find_topo_sort], [emit_config] and [inference_implements] state that a result is
    returned, so these bounds suffice.  The patterns that scan a text have its length
    as fuel, and each step consumes a character.  [get_all_factors] takes NumPy's square root as a
    parameter, exact in the sense documented below 2^52.  [std::stoi] throws
    outside 32-bit integers, so the decoders are stated for dimensions in that
    range.  Python's integers are unbounded and are [Z] everywhere else.

    ** Not modelled

    TVM (its arithmetic, printing, constant folding and IR builder) is the class
    [TVM]; its simplifier and the [eval] of a grid expression are parameters of
    [DynShape]; its interval arithmetic and affine maps are parameters of [ShapeInfer],
    with what is relied on as [ArithLaws] and [BoundsNonempty].  What the block
    analyzer reads from a TVM schedule is an argument of the scheduler's files.

    Lowering to MLIR, the rewriting and parsing of MLIR text and the launcher sources in
    [jit_npu.py], code generation, device launch and the profiler are text in other
    languages, processes or device I/O.  The passes of [engine] and [transform] call
    TVM.  The macro generators of [intrinsics] emit GPU intrinsics through TVM script.
    The definitions under [language/ast] and [language/tir] wrap TVM functions one by
    one.  The kernels under [examples] are programs in the language, not parts of it.
    [shape_inference/common.py] is used by nothing that is modelled.

    In [KernelCache] a read of an entry is not interrupted by another process, the
    annotations the autotuner makes on a kernel after it was cached are not followed,
    and all processes share one [Environment] (the override of the workspace size and
    the device); lowering, the text of the launcher and its build are parameters.  In
    [Autotune] measurements, correctness checks and Python signatures are parameters
    (laws in [TunerLaws]), the pool's order is an argument, and its setters, number of
    workers and cached input tensors are left out.  In the lints the texts of messages,
    the parsers of JSON and Python, [float] of a text, SHA-256 and the file system are
    parameters; the state machine takes the lints as parameters ([GateLints]), over
    files as its typed view has them.  Messages of the commands, and files of the
    workflow with types other than the schema's, are outside of the typed view.

    ** This file

    Python's results, lists, integers and strings, and the automation the other
    files share. *)
From stdpp Require Import base list strings gmap numbers sorting.
From Stdlib Require Import ZArith Lia DecimalString DecimalZ DecimalPos.

#[global] Open Scope Z_scope.
#[global] Set Default Proof Using "Type".

(** ** Python exceptions and results *)

(** The exception classes the modelled code raises, itself or through the
    language ([IndexError] of a subscript, [KeyError] of a dict, ...). *)
Inductive exn :=
  | AssertionError
  | ValueError
  | TypeError
  | IndexError
  | KeyError
  | AttributeError
  | ZeroDivisionError
  | NotImplementedError
  | UnboundLocalError
  | RuntimeError
  | OverflowError
  | ImportError
  | Exception
  | OSError.

#[export] Instance exn_eq_dec : EqDecision exn.
Proof. solve_decision. Defined.

(** The outcome of a Python call: a value or a raised exception. *)
Inductive res (A : Type) :=
  | Ok (a : A)
  | Raise (e : exn).
Arguments Ok {A} a.
Arguments Raise {A} e.

#[export] Instance res_ret : MRet res := @Ok.
#[export] Instance res_bind : MBind res := λ A B f r,
  match r with Ok a => f a | Raise e => Raise e end.
#[export] Instance res_fmap : FMap res := λ A B f r,
  match r with Ok a => Ok (f a) | Raise e => Raise e end.

(** [assert b]. *)
Definition py_assert (b : bool) : res unit :=
  if b then Ok tt else Raise AssertionError.

(** An [option] read as a lookup that raises [e] when it finds nothing. *)
Definition or_raise {A} (e : exn) (o : option A) : res A :=
  match o with Some a => Ok a | None => Raise e end.

(** ** Stateful code: a state monad whose state survives an exception *)

Definition prog (S A : Type) : Type := S → res A * S.

#[export] Instance prog_ret S : MRet (prog S) := λ A a s, (Ok a, s).
#[export] Instance prog_bind S : MBind (prog S) := λ A B f m s,
  match m s with
  | (Ok a, s') => f a s'
  | (Raise e, s') => (Raise e, s')
  end.

Definition lift {S A} (r : res A) : prog S A := λ s, (r, s).
Definition raise {S A} (e : exn) : prog S A := λ s, (Raise e, s).
Definition get {S} : prog S S := λ s, (Ok s, s).
Definition modify {S} (f : S → S) : prog S unit := λ s, (Ok tt, f s).

(** A [for] loop that appends to a list: the body's results in order, the
    first exception stops it. *)
Fixpoint mmap {A B} (f : A → res B) (l : list A) : res (list B) :=
  match l with
  | [] => Ok []
  | x :: l' => y ← f x; ys ← mmap f l'; Ok (y :: ys)
  end.

(** A [for] loop that threads an accumulator. *)
Fixpoint mfold {A B} (f : B → A → res B) (b : B) (l : list A) : res B :=
  match l with
  | [] => Ok b
  | x :: l' => b' ← f b x; mfold f b' l'
  end.

(** ** Python lists *)

Section py_list.
Context {A : Type}.
Implicit Types (l : list A) (i : Z).

(** [len(l)]. *)
Definition len l : Z := Z.of_nat (length l).

(** The position a subscript [i] denotes: negative counts from the end. *)
Definition norm_idx l i : Z := if i <? 0 then len l + i else i.

(** [l[i]]. *)
Definition py_index l i : res A :=
  let j := norm_idx l i in
  if (j <? 0) || (len l <=? j) then Raise IndexError
  else or_raise IndexError (l !! Z.to_nat j).

(** [l[i] = x]: Python raises out of range, where stdpp's insert is the identity. *)
Definition py_setitem l i (x : A) : res (list A) :=
  let j := norm_idx l i in
  if (j <? 0) || (len l <=? j) then Raise IndexError
  else Ok (<[Z.to_nat j := x]> l).

(** The clamped bound of a slice. *)
Definition slice_bound l i : nat :=
  Z.to_nat (Z.max 0 (Z.min (len l) (norm_idx l i))).

(** [l[i:]] and [l[:i]]. *)
Definition py_from l i : list A := drop (slice_bound l i) l.
Definition py_to l i : list A := take (slice_bound l i) l.

(** [zip(l, k, strict=True)] consumed in full: a length mismatch raises. *)
Definition zip_strict {B} l (k : list B) : res (list (A * B)) :=
  if decide (length l = length k) then Ok (zip l k) else Raise ValueError.
End py_list.

(** [x in l] and [l.index(x)] for elements with decidable equality. *)
Definition py_in {A} `{EqDecision A} (x : A) (l : list A) : bool := bool_decide (x ∈ l).

Fixpoint py_find {A} `{EqDecision A} (x : A) (l : list A) : res Z :=
  match l with
  | [] => Raise ValueError
  | y :: l' => if decide (x = y) then Ok 0 else n ← py_find x l'; Ok (n + 1)
  end.

(** ** Python integers *)

(** [a // b] and [a % b] round toward minus infinity as [Z.div] and [Z.modulo];
    a zero divisor raises. *)
Definition py_floordiv (a b : Z) : res Z :=
  if b =? 0 then Raise ZeroDivisionError else Ok (a / b).
Definition py_mod (a b : Z) : res Z :=
  if b =? 0 then Raise ZeroDivisionError else Ok (a mod b).

(** [np.prod(l)] of a list of ints. *)
Definition prod (l : list Z) : Z := foldr Z.mul 1 l.

(** [(a + b - 1) // b]. *)
Definition ceil_div (a b : Z) : Z := (a + b - 1) / b.

(** [str(z)] of an int, and C++'s [std::stoi] on it: the decimal reading, which
    throws outside the range of a 32-bit [int]. *)
Definition str_of_Z (z : Z) : string := NilZero.string_of_int (Z.to_int z).

Definition int32 (z : Z) : bool := (- 2 ^ 31 <=? z) && (z <? 2 ^ 31).

Definition stoi (s : string) : option Z :=
  d ← NilZero.int_of_string s;
  let z := Z.of_int d in
  if int32 z then Some z else None.

(** ** Strings: [",".join] and [std::getline(ss, s, ',')] *)

Definition comma : Ascii.ascii := Ascii.Ascii false false true true false true false false.

Fixpoint join (l : list string) : string :=
  match l with
  | [] => ""
  | [s] => s
  | s :: l' => s +:+ String comma (join l')
  end.

(** The pieces between the separators of a string read so far as [acc]. *)
Fixpoint split_from (acc : string) (s : string) : list string :=
  match s with
  | EmptyString => [acc]
  | String c s' =>
      if Ascii.eqb c comma then acc :: split_from "" s'
      else split_from (acc +:+ String c "") s'
  end.

(** A stream that is empty from the start yields no piece; [std::getline] also
    yields none for an empty piece at the very end of the stream. *)
Definition getline_all (s : string) : list string :=
  match split_from "" s with
  | l => if decide (last l = Some "") then removelast l else l
  end.

Fixpoint no_comma (s : string) : bool :=
  match s with
  | EmptyString => true
  | String c s' => negb (Ascii.eqb c comma) && no_comma s'
  end.

(** ** Automation: inverting the monads and the runtime's guards *)

Create HintDb py.
Create HintDb pyrw.

Lemma bind_Ok {A B} (r : res A) (f : A → res B) b :
  r ≫= f = Ok b ↔ ∃ a, r = Ok a ∧ f a = Ok b.
Proof. destruct r; simpl; naive_solver. Qed.

Lemma bind_Raise {A B} (r : res A) (f : A → res B) e :
  r ≫= f = Raise e ↔ r = Raise e ∨ ∃ a, r = Ok a ∧ f a = Raise e.
Proof. destruct r; simpl; naive_solver. Qed.

Lemma py_assert_Ok b u : py_assert b = Ok u ↔ b = true.
Proof. destruct b, u; simpl; naive_solver. Qed.

Lemma prog_bind_Ok {S A B} (m : prog S A) (f : A → prog S B) s b s' :
  (m ≫= f) s = (Ok b, s') ↔ ∃ a s1, m s = (Ok a, s1) ∧ f a s1 = (Ok b, s').
Proof.
  unfold mbind, prog_bind. destruct (m s) as [[a|e] s1]; naive_solver.
Qed.

(** Runs the state monad: exposes the next call of a program applied to a state. *)
Ltac run_prog :=
  unfold mbind, prog_bind, mret, prog_ret, lift, raise, get, modify; simpl.

(** Splits every hypothesis that says a composed call returned. *)
Ltac inv_ok :=
  repeat match goal with
  | H : mbind _ _ = Ok _ |- _ => apply bind_Ok in H as (? & ? & ?)
  | H : py_assert _ = Ok _ |- _ => apply py_assert_Ok in H
  | H : mret _ = _ |- _ => unfold mret, res_ret in H
  | H : Ok _ = Ok _ |- _ => injection H as H; subst
  | H : Ok _ = Raise _ |- _ => discriminate H
  | H : Raise _ = Ok _ |- _ => discriminate H
  | H : (_, _) = (_, _) |- _ => injection H as ?; subst
  | H : _ && _ = true |- _ => apply andb_true_iff in H as [? ?]
  | H : _ ∧ _ |- _ => destruct H
  end; simplify_eq/=.

Lemma mmap_Ok {A B} (f : A → res B) l k :
  mmap f l = Ok k ↔ Forall2 (λ x y, f x = Ok y) l k.
Proof.
  revert k. induction l as [|x l IH]; intros k; simpl.
  - split; [intros; inv_ok; constructor | inversion 1; done].
  - rewrite bind_Ok. split.
    + intros (y & Hy & H). inv_ok. constructor; [done|]. by apply IH.
    + inversion 1 as [|? y ? ys Hy Hys]; subst. exists y. split; [done|].
      apply IH in Hys. by rewrite Hys.
Qed.

Lemma mmap_length {A B} (f : A → res B) l k : mmap f l = Ok k → length k = length l.
Proof. intros H%mmap_Ok. symmetry. by eapply Forall2_length. Qed.

Lemma mmap_pure {A B} (f : A → B) (g : A → res B) l :
  (∀ x, x ∈ l → g x = Ok (f x)) → mmap g l = Ok (f <$> l).
Proof.
  induction l as [|x l IH]; intros H; simpl; [done|].
  rewrite H by set_solver. simpl. rewrite IH; [done|set_solver].
Qed.

Lemma mfold_inv {A B} (P : B → Prop) (f : B → A → res B) b l b' :
  P b → (∀ c x c', P c → x ∈ l → f c x = Ok c' → P c') → mfold f b l = Ok b' → P b'.
Proof.
  revert b. induction l as [|x l IH]; simpl; intros b Hb Hf H; inv_ok; [done|].
  eapply IH; [|intros; eapply Hf; [done|by right|done]|done].
  eapply Hf; [done|by left|done].
Qed.

Lemma mfold_app {A B} (f : B → A → res B) b l k :
  mfold f b (l ++ k) = mfold f b l ≫= λ c, mfold f c k.
Proof.
  revert b. induction l as [|x l IH]; intros b; simpl; [done|].
  destruct (f b x); simpl; [apply IH|done].
Qed.

(** ** Lists *)

Section list_lemmas.
Context {A : Type}.
Implicit Types (l : list A) (i : Z).

Lemma len_nonneg l : 0 ≤ len l.
Proof. unfold len. lia. Qed.

Lemma py_index_nat l (n : nat) x :
  l !! n = Some x → py_index l (Z.of_nat n) = Ok x.
Proof.
  intros H. pose proof (lookup_lt_Some _ _ _ H) as Hlt.
  unfold py_index, norm_idx, len. destruct (Z.of_nat n <? 0) eqn:E; [lia|].
  rewrite E, (proj2 (Z.leb_gt _ _)) by lia. simpl.
  by rewrite Nat2Z.id, H.
Qed.

(** A subscript returns exactly when it denotes a position of the list. *)
Lemma py_index_Ok l i x :
  py_index l i = Ok x ↔
    0 ≤ norm_idx l i < len l ∧ l !! Z.to_nat (norm_idx l i) = Some x.
Proof.
  unfold py_index. destruct (_ || _) eqn:E.
  - split; [done|]. lia.
  - destruct (l !! _) eqn:Hl; simpl; split; intros; inv_ok; try done.
    split; [lia|done].
Qed.

Lemma py_setitem_length l i x k : py_setitem l i x = Ok k → length k = length l.
Proof.
  unfold py_setitem. destruct (_ || _); intros; inv_ok. by rewrite length_insert.
Qed.

(** [l[-n:]] of a list with at least [n] elements, [n] positive: its last [n]. *)
Lemma py_from_neg l (n : nat) :
  (0 < n)%nat → (n ≤ length l)%nat →
  py_from l (- Z.of_nat n) = drop (length l - n) l.
Proof.
  intros. unfold py_from, slice_bound, norm_idx, len.
  rewrite (proj2 (Z.ltb_lt _ _)) by lia. f_equal. lia.
Qed.

(** ... of a shorter list, or with [n = 0] ([-0] is [0]): the whole list. *)
Lemma py_from_neg_all l (n : nat) :
  (length l ≤ n)%nat ∨ n = 0%nat → py_from l (- Z.of_nat n) = l.
Proof.
  intros Hn. unfold py_from, slice_bound, norm_idx, len.
  replace (Z.to_nat _) with 0%nat; [by rewrite drop_0|].
  destruct (_ <? _) eqn:E; lia.
Qed.

Lemma py_index_last l (x : A) : py_index (l ++ [x]) (-1) = Ok x.
Proof.
  apply py_index_Ok. unfold norm_idx, len. rewrite length_app. simpl.
  split; [lia|]. replace (Z.to_nat _) with (length l) by lia. apply list_lookup_middle. done.
Qed.

Lemma py_to_last l (x : A) : py_to (l ++ [x]) (-1) = l.
Proof.
  unfold py_to, slice_bound, norm_idx, len. rewrite length_app. simpl.
  replace (Z.to_nat _) with (length l) by lia. by rewrite take_app_length.
Qed.

Lemma py_find_Ok `{EqDecision A} (x : A) l n :
  py_find x l = Ok n → 0 ≤ n ∧ l !! Z.to_nat n = Some x.
Proof.
  revert n. induction l as [|y l IH]; simpl; intros n H; [done|].
  case_decide; inv_ok; [done|]. destruct (IH _ H) as [? Hl].
  split; [lia|]. by rewrite Z2Nat.inj_add, Nat.add_1_r by lia.
Qed.

Lemma py_find_elem `{EqDecision A} (x : A) l :
  x ∈ l ↔ ∃ n, py_find x l = Ok n.
Proof.
  induction l as [|y l IH]; simpl.
  - split; [by intros ?%not_elem_of_nil|by intros []].
  - rewrite elem_of_cons. case_decide; [naive_solver|].
    split.
    + intros [?|Hin]; [done|]. apply IH in Hin as [n Hn]. rewrite Hn. by eexists.
    + intros [n Hn]. inv_ok. right. apply IH. by eexists.
Qed.
End list_lemmas.

#[export] Hint Resolve len_nonneg : py.

(** ** Integers *)

Lemma prod_cons x l : prod (x :: l) = x * prod l.
Proof. done. Qed.

Lemma prod_app l k : prod (l ++ k) = prod l * prod k.
Proof. induction l as [|x l IH]; simpl; [lia|]. rewrite IH. lia. Qed.

Lemma prod_pos l : Forall (λ x, 0 < x) l → 0 < prod l.
Proof. induction 1; simpl; lia. Qed.

Lemma ceil_div_spec a b : 0 < b → a ≤ ceil_div a b * b < a + b.
Proof. unfold ceil_div. intros. pose proof (Z.div_mod (a + b - 1) b).
  pose proof (Z.mod_pos_bound (a + b - 1) b). lia. Qed.

Lemma ceil_div_le a b c : 0 < b → a ≤ c * b → ceil_div a b ≤ c.
Proof.
  intros. unfold ceil_div. enough (a + b - 1 < b * (c + 1)).
  { pose proof (Z.div_lt_upper_bound (a + b - 1) b (c + 1)). lia. }
  lia.
Qed.

Lemma ceil_div_pos a b : 0 < a → 0 < b → 0 < ceil_div a b.
Proof. intros. pose proof (ceil_div_spec a b). nia. Qed.

#[export] Hint Rewrite prod_cons prod_app : pyrw.

(** ** Decimal strings and comma-separated lists *)

Lemma int_of_str_of_Z z : NilZero.int_of_string (str_of_Z z) = Some (Z.to_int z).
Proof.
  unfold str_of_Z. rewrite NilZero.isi; [done|..].
  - destruct z; [done| |done]. intros [= E]. by apply DecimalPos.Unsigned.to_uint_nonnil in E.
  - destruct z; [done|done|]. intros [= E]. by apply DecimalPos.Unsigned.to_uint_nonnil in E.
Qed.

Lemma stoi_str_of_Z z : int32 z = true → stoi (str_of_Z z) = Some z.
Proof.
  intros Hz. unfold stoi. rewrite int_of_str_of_Z. simpl. by rewrite DecimalZ.of_to, Hz.
Qed.

#[export] Instance str_of_Z_inj : Inj (=) (=) str_of_Z.
Proof.
  intros x y E. apply (f_equal NilZero.int_of_string) in E. rewrite !int_of_str_of_Z in E.
  injection E as E. by rewrite <-(DecimalZ.of_to x), E, DecimalZ.of_to.
Qed.

Lemma no_comma_uint d : no_comma (NilEmpty.string_of_uint d) = true.
Proof. by induction d. Qed.

Lemma no_comma_str_of_Z z : no_comma (str_of_Z z) = true.
Proof.
  unfold str_of_Z, NilZero.string_of_int, NilZero.string_of_uint.
  destruct (Z.to_int z) as [d|d]; destruct d; simpl; rewrite ?no_comma_uint; done.
Qed.

Lemma str_of_Z_nonempty z : str_of_Z z ≠ "".
Proof.
  unfold str_of_Z, NilZero.string_of_int, NilZero.string_of_uint.
  by destruct (Z.to_int z) as [d|d]; destruct d.
Qed.

Lemma string_app_assoc (a b c : string) : (a +:+ b) +:+ c = a +:+ (b +:+ c).
Proof. induction a as [|x a IH]; [done|]. exact (f_equal (String x) IH). Qed.

Lemma string_app_nil_r (a : string) : a +:+ "" = a.
Proof. induction a as [|x a IH]; [done|]. exact (f_equal (String x) IH). Qed.

Lemma split_from_plain acc s : no_comma s = true → split_from acc s = [acc +:+ s].
Proof.
  revert acc. induction s as [|c s IH]; simpl; intros acc Hs.
  - by rewrite string_app_nil_r.
  - inv_ok. rewrite (proj1 (negb_true_iff _)) by done. rewrite IH by done.
    by rewrite string_app_assoc.
Qed.

Lemma split_from_sep acc s t :
  no_comma s = true → split_from acc (s +:+ String comma t) = (acc +:+ s) :: split_from "" t.
Proof.
  revert acc. induction s as [|c s IH]; simpl; intros acc Hs.
  - by rewrite string_app_nil_r.
  - inv_ok. rewrite (proj1 (negb_true_iff _)) by done. rewrite IH by done.
    by rewrite string_app_assoc.
Qed.

Lemma split_join l : l ≠ [] → Forall (λ s, no_comma s = true) l → split_from "" (join l) = l.
Proof.
  induction l as [|s l IH]; [done|]. intros _ [Hs Hl]%Forall_cons_1.
  destruct l as [|t l]; [by apply split_from_plain|].
  change (join (s :: t :: l)) with (s +:+ String comma (join (t :: l))).
  rewrite split_from_sep by done. simpl. f_equal. by apply IH.
Qed.

Lemma getline_join l :
  Forall (λ s, no_comma s = true ∧ s ≠ "") l → getline_all (join l) = l.
Proof.
  intros Hl. destruct (decide (l = [])) as [->|Hne]; [done|]. unfold getline_all.
  rewrite split_join; [|done|eapply Forall_impl; naive_solver].
  rewrite decide_False; [done|]. intros Hlast%last_Some_elem_of.
  rewrite Forall_forall in Hl. naive_solver.
Qed.

(** Reading back [",".join(str(d) for d in l)] with [std::getline] and
    [std::stoi]. *)
Definition parse_ints (s : string) : option (list Z) := mapM stoi (getline_all s).

Lemma parse_join_ints l :
  Forall (λ z, int32 z = true) l → parse_ints (join (str_of_Z <$> l)) = Some l.
Proof.
  intros Hl. unfold parse_ints. rewrite getline_join.
  - apply mapM_Some. rewrite Forall2_fmap_l. apply Forall_Forall2_diag.
    eapply Forall_impl; [done|]. intros z. apply stoi_str_of_Z.
  - apply Forall_fmap, Forall_true. intros z. split; [apply no_comma_str_of_Z|apply str_of_Z_nonempty].
Qed.
