(* ===== verification/Tir.v ===== *)
(** * The TIR objects the frontend builds

    The part of TVM's Python object model that [src/tilelang/language] reads
    and constructs: expressions, buffers, buffer regions, intrinsic calls, and
    the Python values an operator may receive.  TVM itself is not part of the
    repository, so what the code calls of it is the class [TVM] of parameters,
    and what it relies on is the class [TVMLaws]. *)
From Stdlib Require Import ZArith SpecFloat.
From stdpp Require Import base strings gmap numbers list.
From S2P Require Import Prelude.

(** A [tir.Buffer]; [buf_id] is its identity. *)
Record buffer_ (E : Type) := Buffer {
  buf_id : nat;
  buf_name : string;
  buf_dtype : string;
  buf_scope : string;
  buf_shape : list E;
}.
Arguments Buffer {E} _ _ _ _ _.
Arguments buf_id {E} _.
Arguments buf_name {E} _.
Arguments buf_dtype {E} _.
Arguments buf_scope {E} _.
Arguments buf_shape {E} _.

Inductive binop := OpAdd | OpSub | OpMul | OpFloorDiv | OpDiv | OpFloorMod | OpMod | OpMax | OpMin.

(** [tir.PrimExpr]: the nodes the code tests with [isinstance]; every other
    node is [OtherExpr] with its operands. *)
Inductive expr :=
  | Var (id : nat) (name dtype : string)
  | IntImm (dtype : string) (value : Z)
  | FloatImm (dtype : string) (value : spec_float)
  | BinOp (op : binop) (a b : expr)
  | Ramp (base stride lanes : expr)
  | BufferLoad (b : buffer_ expr) (indices : list expr)
  | OtherExpr (kind : string) (args : list expr).

Notation buffer := (buffer_ expr).

(** A constant of TVM's default integer type. *)
Notation int32_imm z := (IntImm "int32" z).

(** A [Range] given by its [min] and [extent]. *)
Notation range := (expr * expr)%type.

(** The Python values an operator of the language receives or returns.  A
    [tir.Call] keeps the arguments in the form the code passes them to
    [tir.call_intrin]. *)
Inductive value :=
  | VBuffer (b : buffer)
  | VRegion (b : buffer) (r : list range)
  | VExpr (e : expr)
  | VCall (op : string) (args : list value)
  | VInt (z : Z)
  | VFloat (f : spec_float)
  | VBool (b : bool)
  | VStr (s : string)
  | VNone
  | VList (l : list value).

(** [isinstance(v, tir.PrimExpr)]. *)
Definition is_PrimExpr (v : value) : bool :=
  match v with VExpr _ | VCall _ _ => true | _ => false end.

(** [isinstance(v, tir.Var)]. *)
Definition is_Var (v : value) : bool :=
  match v with VExpr (Var _ _ _) => true | _ => false end.

(** The Python comparison operators. *)
Inductive cmpop := CmpEq | CmpNe | CmpGe.

Definition cmpZ (c : cmpop) (x y : Z) : bool :=
  match c with
  | CmpEq => x =? y
  | CmpNe => negb (x =? y)
  | CmpGe => y <=? x
  end.

(** What the language layer calls of TVM, its Python wrappers included:
    - [tvm_const v dt]: [tir.const(v, dt)] of a Python number;
    - [tvm_bits dt]: [runtime.DataType(dt).bits];
    - [tvm_lanes e]: [DataType(e.dtype).lanes];
    - [tvm_expr_dtype e]: [e.dtype] of an expression other than the ones whose
      node stores it;
    - [tvm_cmp c a b]: the truth value of [a c b] when [a] or [b] is a
      [PrimExpr] (it may raise);
    - [tvm_arith o a b]: [a o b] when [a] or [b] is a [PrimExpr];
    - [tvm_str e]: [str(e)];
    - [math_log2]: the binary64 number [math.log(2.0)] returns on the platform. *)
Class TVM := {
  tvm_const : value → string → res expr;
  tvm_bits : string → res Z;
  tvm_lanes : expr → Z;
  tvm_expr_dtype : expr → string;
  tvm_cmp : cmpop → value → value → res bool;
  tvm_arith : binop → value → value → res value;
  tvm_str : expr → string;
  math_log2 : spec_float;
}.

(** The dtypes of a scalar ([lanes = 1]) the tile buffers have. *)
Definition scalar_dtypes : list string :=
  ["bool"; "int8"; "uint8"; "int16"; "int32"; "int64"; "float16"; "bfloat16"; "float32"; "float64"].

(** What the theorems rely on: TVM folds comparisons and arithmetic of integer
    constants, a constant of a scalar dtype is an immediate of that dtype, a [Ramp] of constant
    width has that many lanes and a scalar has one, and a variable prints as its
    name. *)
Class TVMLaws `{TVM} := {
  tvm_const_int z dt : dt = "int32" → tvm_const (VInt z) dt = Ok (IntImm dt z);
  tvm_const_scalar v dt e :
    dt ∈ scalar_dtypes → tvm_const v dt = Ok e →
    (∃ z, e = IntImm dt z) ∨ (∃ f, e = FloatImm dt f);
  tvm_lanes_var i n dt : tvm_lanes (Var i n dt) = 1;
  tvm_lanes_imm dt z : tvm_lanes (IntImm dt z) = 1;
  tvm_lanes_ramp b s dt n : tvm_lanes (Ramp b s (IntImm dt n)) = n;
  tvm_cmp_imm c dt dt' x y :
    tvm_cmp c (VExpr (IntImm dt x)) (VExpr (IntImm dt' y)) = Ok (cmpZ c x y);
  tvm_cmp_imm_int c dt x y :
    tvm_cmp c (VExpr (IntImm dt x)) (VInt y) = Ok (cmpZ c x y);
  tvm_str_var i n dt : tvm_str (Var i n dt) = n;
}.

(** [a c b] as a condition, for Python ints and expressions. *)
Definition py_cmp `{TVM} (c : cmpop) (a b : value) : res bool :=
  match a, b with
  | VInt x, VInt y => Ok (cmpZ c x y)
  | _, _ => tvm_cmp c a b
  end.

(** [a o b] for Python ints and expressions; the language layer uses [+], [*]
    and [%] only. *)
Definition py_arith `{TVM} (o : binop) (a b : value) : res value :=
  match o, a, b with
  | OpAdd, VInt x, VInt y => Ok (VInt (x + y))
  | OpMul, VInt x, VInt y => Ok (VInt (x * y))
  | OpMod, VInt x, VInt y => VInt <$> py_mod x y
  | _, _, _ => tvm_arith o a b
  end.

(** [v.dtype]: a [Buffer] and a [PrimExpr] have the attribute, a
    [BufferRegion] and the Python values do not. *)
Definition expr_dtype `{TVM} (e : expr) : string :=
  match e with
  | Var _ _ dt | IntImm dt _ | FloatImm dt _ => dt
  | _ => tvm_expr_dtype e
  end.

Definition get_dtype `{TVM} (v : value) : res string :=
  match v with
  | VBuffer b => Ok (buf_dtype b)
  | VExpr e => Ok (expr_dtype e)
  | VCall _ _ => Ok "handle"
  | _ => Raise AttributeError
  end.

(** [v.shape] and [v.buffer]. *)
Definition get_shape (v : value) : res (list expr) :=
  match v with VBuffer b => Ok (buf_shape b) | _ => Raise AttributeError end.

Definition get_buffer (v : value) : res buffer :=
  match v with
  | VRegion b _ | VExpr (BufferLoad b _) => Ok b
  | _ => Raise AttributeError
  end.

(** The Python ints in an argument of [tir.BufferLoad] become [int32]
    immediates when they cross into TVM. *)
Definition to_index (v : value) : res expr :=
  match v with
  | VExpr e => Ok e
  | VInt z => Ok (IntImm "int32" z)
  | _ => Raise TypeError
  end.

(** [tir.call_intrin("handle", Op.get(op), *args)]. *)
Definition call_intrin (op : string) (args : list value) : value := VCall op args.

(** Operands as the language hands them over: a [BufferLoad] has one index
    per dimension of its buffer, a [BufferRegion] one range per dimension. *)
Definition ranked (v : value) : bool :=
  match v with
  | VExpr (BufferLoad b idx) => bool_decide (length idx = length (buf_shape b))
  | VRegion b r => bool_decide (length r = length (buf_shape b))
  | _ => true
  end.

(** The operands with a memory footprint. *)
Definition is_tile (v : value) : bool :=
  match v with
  | VBuffer _ | VRegion _ _ | VExpr (BufferLoad _ _) => true
  | _ => false
  end.

(** ** An instance on constants, for evaluating the definitions

    Comparison and arithmetic fold integer immediates as TVM does; on other
    expressions comparison is identity of variables. *)
Module ConstTVM.

Definition num (v : value) : option Z :=
  match v with VInt z | VExpr (IntImm _ z) => Some z | _ => None end.

Definition same_var (a b : value) : bool :=
  match a, b with
  | VExpr (Var i _ _), VExpr (Var j _ _) => bool_decide (i = j)
  | _, _ => false
  end.

Definition cmp (c : cmpop) (a b : value) : res bool :=
  match num a, num b with
  | Some x, Some y => Ok (cmpZ c x y)
  | _, _ =>
      match c with
      | CmpEq => Ok (same_var a b)
      | CmpNe => Ok (negb (same_var a b))
      | CmpGe => Raise ValueError
      end
  end.

Definition arith (o : binop) (a b : value) : res value :=
  match num a, num b with
  | Some x, Some y =>
      match o with
      | OpAdd => Ok (VExpr (IntImm "int32" (x + y)))
      | OpMul => Ok (VExpr (IntImm "int32" (x * y)))
      | OpMod => z ← py_mod x y; Ok (VExpr (IntImm "int32" z))
      | _ => Raise NotImplementedError
      end
  | _, _ =>
      match a, b with
      | VExpr e, VExpr f => Ok (VExpr (BinOp o e f))
      | VExpr e, VInt z => Ok (VExpr (BinOp o e (IntImm "int32" z)))
      | VInt z, VExpr f => Ok (VExpr (BinOp o (IntImm "int32" z) f))
      | _, _ => Raise TypeError
      end
  end.

Definition bits (dt : string) : res Z :=
  if bool_decide (dt ∈ ["int8"; "uint8"]) then Ok 8
  else if bool_decide (dt ∈ ["int16"; "float16"; "bfloat16"]) then Ok 16
  else if bool_decide (dt ∈ ["int32"; "float32"]) then Ok 32
  else if bool_decide (dt ∈ ["int64"; "float64"]) then Ok 64
  else Raise ValueError.

#[export] Instance const_tvm : TVM := {
  tvm_const v dt :=
    match v with
    | VInt z => if bool_decide (dt ∈ ["float16"; "float32"])
                then Ok (FloatImm dt (binary_normalize 53 1024 z 0 false)) else Ok (IntImm dt z)
    | VFloat f => Ok (FloatImm dt f)
    | _ => Raise ValueError
    end;
  tvm_bits := bits;
  tvm_lanes e := match e with Ramp _ _ (IntImm _ n) => n | _ => 1 end;
  tvm_expr_dtype e := match e with BufferLoad b _ => buf_dtype b | _ => "int32" end;
  tvm_cmp := cmp;
  tvm_arith := arith;
  tvm_str e := match e with Var _ n _ => n | IntImm _ z => str_of_Z z | _ => "" end;
  math_log2 := S754_finite false 6243314768165359 (-53);
}.

#[export] Instance const_tvm_laws : TVMLaws.
Proof.
  split; [by intros; subst| |done..]. intros v dt e _. destruct v; simpl; try done.
  - case_bool_decide; intros [= <-]; eauto.
  - intros [= <-]; eauto.
Qed.

End ConstTVM.
