(* ===== verification/Frames.v ===== *)
(** * Let frames: the variable environment of the frontend

    [src/tilelang/language/frame.py]: the thread-local [FrameStack] of active
    let bindings and the [LetFrame] context manager that pushes and pops it.
    A deque is kept from its top to its bottom.  What [get_let_value] answers is
    shown to be the innermost active binding, and to be the lexical lookup for a
    variable that is not bound twice at a time (a second binding hides the first
    for good, [rebinding_drops_outer]); a [with] statement over a new variable
    leaves the stack as it found it. *)
From stdpp Require Import base list strings gmap relations.
From S2P Require Import Prelude Tir.

Module FrameStack.

(** A frame object: its identity, and its [var] and [value] attributes where
    it has them. *)
Record item := Item {
  it_id : nat;
  it_var : option nat;
  it_value : option value;
}.

Record t := St {
  _stack : list item;
  _var_value_map : gmap nat value;
}.

Definition init : t := St [] ∅.

Definition push (i : item) (s : t) : t :=
  St (i :: _stack s)
     (match it_var i, it_value i with
      | Some v, Some x => <[v := x]> (_var_value_map s)
      | _, _ => _var_value_map s
      end).

Definition pop : prog t item := λ s,
  match _stack s with
  | i :: st =>
      (Ok i, St st (match it_var i with
                    | Some v => delete v (_var_value_map s)
                    | None => _var_value_map s
                    end))
  | [] => (Raise IndexError, s)
  end.

Definition get_value (s : t) (v : nat) : option value := _var_value_map s !! v.
Definition has_value (s : t) (v : nat) : bool := bool_decide (is_Some (_var_value_map s !! v)).

Definition top (s : t) : res item := or_raise IndexError (head (_stack s)).

Definition __len__ (s : t) : Z := len (_stack s).
Definition __bool__ (s : t) : bool := bool_decide (_stack s ≠ []).

End FrameStack.
Import FrameStack.

Module LetFrame.

(** A [LetFrame]: the bound variable and the value, a [PrimExpr] until
    [__enter__] may replace it. *)
Record t := LF { lf_id : nat; lf_var : nat; lf_value : value }.

Section lanes.
Context `{TVM}.

(** [any(DataType(index.dtype).lanes > 1 for index in indices[:-1])]. *)
Definition is_block_load (indices : list expr) : bool :=
  existsb (λ i, 1 <? tvm_lanes i) (py_to indices (-1)).

(** [Range(x.base, x.lanes)]: only a [Ramp] has the attributes. *)
Definition ramp_range (x : expr) : res range :=
  match x with
  | Ramp base _ lanes => Ok (base, lanes)
  | _ => Raise AttributeError
  end.

(** The value [__enter__] binds. *)
Definition enter_value (v : value) : res value :=
  match v with
  | VExpr (BufferLoad b indices) =>
      if is_block_load indices
      then rs ← mmap ramp_range indices; Ok (VRegion b rs)
      else Ok v
  | _ => Ok v
  end.

Definition __enter__ (f : t) : prog FrameStack.t t :=
  v ← lift (enter_value (lf_value f));
  let f' := LF (lf_id f) (lf_var f) v in
  modify (push (Item (lf_id f') (Some (lf_var f')) (Some (lf_value f'))));;
  mret f'.

(** [stack.top() is self] compares identities. *)
Definition __exit__ (f : t) : prog FrameStack.t unit :=
  s ← get;
  i ← lift (top s);
  if bool_decide (it_id i = lf_id f) then pop;; mret tt else mret tt.

(** [with f as v: body]: the exit runs whether the body returns or raises,
    and not at all when entering raises. *)
Definition with_let {A} (f : t) (body : prog FrameStack.t A) : prog FrameStack.t A :=
  λ s, match __enter__ f s with
       | (Ok f', s1) =>
           let '(r, s2) := body s1 in
           match __exit__ f' s2 with
           | (Ok _, s3) => (r, s3)
           | (Raise e, s3) => (Raise e, s3)
           end
       | (Raise e, s1) => (Raise e, s1)
       end.

Definition Current (s : FrameStack.t) : res item := top s.

End lanes.

End LetFrame.

Definition has_let_value (s : FrameStack.t) (v : nat) : bool := has_value s v.
Definition get_let_value (s : FrameStack.t) (v : nat) : option value := get_value s v.

(** [if isinstance(data, tir.Var) and T.has_let_value(data):
    data = T.get_let_value(data)], the preamble of the operators. *)
Definition let_bound (s : FrameStack.t) (data : value) : option value :=
  match data with
  | VExpr (Var v _ _) => get_let_value s v
  | _ => None
  end.

Definition resolve (s : FrameStack.t) (data : value) : value := default data (let_bound s data).

(** ** The lexical environment *)

Module Scope.

(** The abstract environment: the active bindings, innermost first. *)
Definition env := list (nat * value).

Fixpoint lookup (e : env) (v : nat) : option value :=
  match e with
  | [] => None
  | (w, x) :: e' => if decide (v = w) then Some x else lookup e' v
  end.

Definition binding (i : item) : option (nat * value) :=
  match it_var i, it_value i with Some v, Some x => Some (v, x) | _, _ => None end.

Definition abs (s : FrameStack.t) : env := omap binding (_stack s).

(** The moves of a thread on its let stack: entering a let frame and leaving
    one.  [R] says which variables the run may bind again while a frame that
    binds them is active: with [λ _, True] these are all moves there are, with
    [λ _, False] no variable is ever rebound. *)
Inductive step `{TVM} (R : nat → Prop) : FrameStack.t → FrameStack.t → Prop :=
  | step_enter s f f' s' :
      (LetFrame.lf_var f ∈ (abs s).*1 → R (LetFrame.lf_var f)) →
      LetFrame.__enter__ f s = (Ok f', s') → step R s s'
  | step_exit s f u s' :
      LetFrame.__exit__ f s = (Ok u, s') → step R s s'.

(** Only the variables of [R] are bound twice. *)
Fixpoint once (R : nat → Prop) (e : env) : Prop :=
  match e with
  | [] => True
  | (v, _) :: e' => (v ∈ e'.*1 → R v) ∧ once R e'
  end.

(** Frames are let frames; what the map holds is an innermost binding, and all
    of these for the variables that are not rebound. *)
Definition ok (R : nat → Prop) (s : FrameStack.t) : Prop :=
  Forall (λ i, is_Some (binding i)) (_stack s) ∧
  once R (abs s) ∧
  (∀ v x, _var_value_map s !! v = Some x → lookup (abs s) v = Some x) ∧
  (∀ v, ¬ R v → _var_value_map s !! v = lookup (abs s) v).

Section scope.
Context `{TVM}.

Lemma lookup_None (e : env) v : lookup e v = None ↔ v ∉ e.*1.
Proof.
  induction e as [|[w x] e IH]; simpl; [split; [intros _; apply not_elem_of_nil|done]|].
  rewrite not_elem_of_cons. case_decide; [naive_solver|]. rewrite IH. tauto.
Qed.

Lemma lookup_Some (e : env) v : is_Some (lookup e v) ↔ v ∈ e.*1.
Proof.
  rewrite <- not_eq_None_Some, lookup_None. destruct (decide (v ∈ e.*1)); tauto.
Qed.

Lemma ok_push R v x n s :
  (v ∈ (abs s).*1 → R v) → ok R s → ok R (push (Item n (Some v) (Some x)) s).
Proof.
  intros Hv (Hf & Ho & Hs & Hc).
  unfold ok. change (abs (push _ s)) with ((v, x) :: abs s). simpl.
  split; [constructor; [by eexists|done]|]. split; [done|].
  split; intros w; rewrite lookup_insert; case_decide; subst.
  - by rewrite decide_True.
  - rewrite decide_False by done. apply Hs.
  - by rewrite decide_True.
  - rewrite decide_False by done. apply Hc.
Qed.

Lemma ok_pop R s i s' :
  ok R s → pop s = (Ok i, s') → ok R s' ∧ abs s = option_list (binding i) ++ abs s'.
Proof.
  intros (Hf & Ho & Hs & Hc). unfold pop, ok, abs in *.
  destruct (_stack s) as [|j st] eqn:E; intros; inv_ok.
  apply Forall_cons in Hf as [[[v x] Hi] Hf]. simpl in *. rewrite Hi in *. simpl in *.
  unfold binding in Hi. destruct (it_var i), (it_value i); simplify_eq.
  split; [|done]. split; [done|]. destruct Ho as [Hv Ho]. split; [done|].
  split; intros w; rewrite lookup_delete; case_decide as Hw; subst; [done| | |].
  - intros y Hy%Hs. by rewrite decide_False in Hy by done.
  - intros Hw. symmetry. apply lookup_None. tauto.
  - intros HR. rewrite (Hc w HR). by rewrite decide_False by done.
Qed.

Lemma exit_cases f s u s' :
  LetFrame.__exit__ f s = (Ok u, s') → s' = s ∨ ∃ i, pop s = (Ok i, s').
Proof.
  unfold LetFrame.__exit__. intros (s1 & s2 & Hg & H1)%prog_bind_Ok.
  unfold get in Hg. inv_ok. apply prog_bind_Ok in H1 as (i & s3 & Hl & H2).
  unfold lift in Hl. inv_ok. case_bool_decide; [|by inversion H2; left].
  apply prog_bind_Ok in H2 as (j & s4 & Hp & H3). inversion H3; subst. eauto.
Qed.

Lemma enter_push f f' s s' :
  LetFrame.__enter__ f s = (Ok f', s') →
  LetFrame.enter_value (LetFrame.lf_value f) = Ok (LetFrame.lf_value f') ∧
  LetFrame.lf_id f' = LetFrame.lf_id f ∧ LetFrame.lf_var f' = LetFrame.lf_var f ∧
  s' = push (Item (LetFrame.lf_id f) (Some (LetFrame.lf_var f))
                  (Some (LetFrame.lf_value f'))) s.
Proof.
  unfold LetFrame.__enter__. intros (v & s1 & Hl & H1)%prog_bind_Ok.
  unfold lift in Hl. inv_ok. apply prog_bind_Ok in H1 as (u & s2 & Hm & H2).
  unfold modify in Hm. unfold mret, prog_ret in H2. by inv_ok.
Qed.

Lemma step_ok R s s' : step R s s' → ok R s → ok R s'.
Proof.
  destruct 1 as [s f f' s' Hv He|s f u s' He]; intros Hok.
  - apply enter_push in He as (_ & _ & _ & ->). by apply ok_push.
  - apply exit_cases in He as [->|[i Hp]]; [done|]. by eapply ok_pop.
Qed.

Lemma init_ok R : ok R init.
Proof. repeat split; simpl; auto using Forall_nil. Qed.

Lemma reachable_ok R s : rtc (step R) init s → ok R s.
Proof.
  revert s. apply rtc_ind_r; [apply init_ok|]. intros; by eapply step_ok.
Qed.

(** C24: in every state a thread reaches by entering and leaving let frames
    in any order, rebinding of variables included, a value [get_let_value]
    answers is the one the innermost active frame of the variable binds, and
    [has_let_value] is only true of a variable an active frame binds; for a
    variable that was never bound again while it was bound (the other ones are
    those of [R]), [get_let_value] and [has_let_value] answer exactly the
    lexical lookup in the active frames. *)
Theorem get_let_value_lexical R s :
  rtc (step R) init s →
  (∀ v x, get_let_value s v = Some x → lookup (abs s) v = Some x) ∧
  (∀ v, has_let_value s v = true → v ∈ (abs s).*1) ∧
  (∀ v, ¬ R v →
    get_let_value s v = lookup (abs s) v ∧
    has_let_value s v = bool_decide (v ∈ (abs s).*1)).
Proof.
  intros (_ & _ & Hs & Hc)%reachable_ok.
  unfold get_let_value, get_value, has_let_value, has_value.
  split; [exact Hs|]. split; [|intros v HR; split; [by apply Hc|]].
  - intros v [x Hx%Hs]%bool_decide_eq_true. apply lookup_Some. by exists x.
  - apply bool_decide_ext. by rewrite (Hc v HR), lookup_Some.
Qed.


(** Entering a block load ([A[...]] with a vector index before the last
    one) succeeds exactly when every index is a vector, and then binds the
    region with one [base]/[lanes] range per index; with a scalar index among
    them it raises [AttributeError] and leaves the stack as it was. *)
Theorem enter_block_load n v b indices s :
  LetFrame.is_block_load indices = true →
  match LetFrame.__enter__ (LetFrame.LF n v (VExpr (BufferLoad b indices))) s with
  | (Ok f', s') =>
      ∃ rs, LetFrame.lf_value f' = VRegion b rs ∧
        Forall2 (λ i r, ∃ st, i = Ramp r.1 st r.2) indices rs ∧
        get_let_value s' v = Some (VRegion b rs)
  | (Raise e, s') => e = AttributeError ∧ s' = s ∧ ∃ i, i ∈ indices ∧ ∀ b' st l, i ≠ Ramp b' st l
  end.
Proof.
  intros Hb. unfold LetFrame.__enter__, mbind, prog_bind, lift. simpl. rewrite Hb.
  destruct (mmap LetFrame.ramp_range indices) as [rs|e] eqn:E; simpl.
  - exists rs. split; [done|]. split.
    + apply mmap_Ok in E. eapply Forall2_impl; [done|]. intros i r Hi. simpl in Hi.
      destruct i; inv_ok. by eexists.
    + unfold get_let_value, get_value; simpl. by rewrite lookup_insert_eq.
  - clear Hb. induction indices as [|i l IH]; simpl in E; [done|].
    apply bind_Raise in E as [E|(r & Hr & E)].
    + destruct i; inv_ok; (split; [done|split; [done|]]); eexists; (split; [by left|done]).
    + apply bind_Raise in E as [E|(? & _ & E)]; [|by inv_ok].
      destruct (IH E) as (-> & _ & j & Hj & Hn).
      split; [done|split; [done|]]. exists j. split; [by right|done].
Qed.

(** A frame that rebinds a variable: leaving it also drops the outer binding
    that is still active. *)
Lemma rebinding_drops_outer v x y s :
  let s2 := push (Item 1 (Some v) (Some y)) (push (Item 0 (Some v) (Some x)) s) in
  match pop s2 with
  | (Ok _, s3) => lookup (abs s3) v = Some x ∧ get_let_value s3 v = None
  | _ => False
  end.
Proof.
  simpl. split; [by rewrite decide_True by done|].
  unfold get_let_value, get_value; simpl. by rewrite lookup_delete_eq.
Qed.

End scope.

End Scope.

(** ** Evaluation on concrete frames *)

Module ScopeEx.
Import ConstTVM.

(** [with let x = 3: with let y = A[0:4, 0:8]: ...]. *)
Definition A : buffer := Buffer 0 "A" "float16" "global" [int32_imm 4; int32_imm 8].
Definition block : expr :=
  BufferLoad A [Ramp (int32_imm 0) (int32_imm 1) (int32_imm 4);
                Ramp (int32_imm 0) (int32_imm 1) (int32_imm 8)].
Definition ranges : list range := [(int32_imm 0, int32_imm 4); (int32_imm 0, int32_imm 8)].
Definition fx : LetFrame.t := LetFrame.LF 0 10 (VExpr (int32_imm 3)).
Definition fy : LetFrame.t := LetFrame.LF 1 11 (VExpr block).
Definition two : FrameStack.t := (LetFrame.__enter__ fy (LetFrame.__enter__ fx init).2).2.

Lemma two_reachable : rtc (Scope.step (λ _, False)) init two.
Proof.
  apply (rtc_l _ _ (LetFrame.__enter__ fx init).2).
  - by apply (Scope.step_enter _ _ fx fx); [intros []%elem_of_nil|].
  - apply rtc_once.
    refine (Scope.step_enter _ _ fy (LetFrame.LF 1 11 (VRegion A ranges)) _ _ _); [|reflexivity].
    intros Hin. cut (bool_decide (11%nat ∈ [10%nat]) = true); [done|]. by apply bool_decide_true.
Qed.

Lemma get_let_value_lexical_witness :
  get_let_value two 10 = Some (VExpr (int32_imm 3)) ∧ has_let_value two 10 = true.
Proof.
  exact (proj2 (proj2 (Scope.get_let_value_lexical _ two two_reachable)) 10%nat (λ H, H)).
Defined.


Lemma enter_block_load_witness :
  ∃ rs, get_let_value (LetFrame.__enter__ fy init).2 11 = Some (VRegion A rs) ∧
        rs = ranges.
Proof.
  pose proof (Scope.enter_block_load 1 11 A
    [Ramp (int32_imm 0) (int32_imm 1) (int32_imm 4);
     Ramp (int32_imm 0) (int32_imm 1) (int32_imm 8)] init eq_refl) as H.
  simpl in H. destruct H as (rs & Hv & _ & Hg). exists rs. split; [exact Hg|].
  by injection Hv as <-.
Defined.

End ScopeEx.
