(* ===== verification/Region.v ===== *)
(** * Tile regions and [T.copy]

    [src/tilelang/language/copy.py]: the [tl.region] descriptors every tile
    operator passes to the compiler, and the extent inference of [T.copy]; the
    consumer of a descriptor is [RegionOp] of [src/src/op/op.cc]. *)
From stdpp Require Import base strings gmap numbers list.
From S2P Require Import Prelude Tir Frames.

(** [{"r": 1, "w": 2, "rw": 3}[access_type]]; the code passes one of the keys. *)
Inductive access := R | W | RW.
Definition access_mask (a : access) : Z :=
  match a with R => 1 | W => 2 | RW => 3 end.

Definition region (load : expr) (access_type : access) (args : list value) : value :=
  call_intrin "tl.region" (VExpr load :: VInt (access_mask access_type) :: args).

(** [T.BufferLoad(buffer, [0, ..., 0])]. *)
Definition load_zeros (b : buffer) : expr :=
  BufferLoad b (replicate (length (buf_shape b)) (IntImm "int32" 0)).

Definition buffer_to_tile_region (b : buffer) (access_type : access) : value :=
  region (load_zeros b) access_type (VExpr <$> buf_shape b).

(** [new_extents]: ones in front, one per index that has no extent. *)
Definition pad_extents (indices : list expr) (extents : list value) : list value :=
  if bool_decide (length extents < length indices)%nat
  then replicate (length indices - length extents) (VInt 1) ++ extents
  else extents.

(** The first coordinate of an index. *)
Definition index_head (idx : expr) : expr :=
  match idx with Ramp base _ _ => base | _ => idx end.

Definition buffer_load_to_tile_region (b : buffer) (indices : list expr)
    (access_type : access) (extents : list value) : res value :=
  let extents := pad_extents indices extents in
  py_assert (bool_decide (length indices = length extents));;
  Ok (region (BufferLoad b (index_head <$> indices)) access_type extents).

Definition buffer_region_to_tile_region (b : buffer) (r : list range)
    (access_type : access) (extents : list value) : res value :=
  let mins := r.*1 in
  let region_extents := VExpr <$> r.*2 in
  py_assert (bool_decide (length extents ≤ length region_extents)%nat);;
  Ok (region (BufferLoad b mins) access_type region_extents).

(** ** [T.copy] *)

Section copy.
Variable lets : FrameStack.t.

(** [get_extent]. *)
Definition copy_get_extent (data : value) : option (list value) :=
  match resolve lets data with
  | VBuffer b => Some (VExpr <$> buf_shape b)
  | VRegion _ r => Some (VExpr <$> r.*2)
  | _ => None
  end.

Definition _is_slice (data : value) : bool :=
  match resolve lets data with VRegion _ _ => true | _ => false end.

(** [size is not None and len(size) > 0]. *)
Definition has_explicit_size (size : option (list value)) : bool :=
  match size with Some (_ :: _) => true | _ => false end.

Definition _borrowed_extent (size : option (list value)) (data : value)
    (peer_extent : option (list value)) : res (list value) :=
  if has_explicit_size size then Ok (default [] size)
  else match data with
  | VBuffer b => Ok (VExpr <$> buf_shape b)
  | VRegion _ r => Ok (VExpr <$> r.*2)
  | _ => or_raise AssertionError peer_extent
  end.

(** [extent[-ndim:] if len(extent) >= ndim else extent]. *)
Definition trailing (ndim : Z) (extent : list value) : list value :=
  if ndim <=? len extent then py_from extent (- ndim) else extent.

(** The conversion of one operand inside [copy]. *)
Definition copy_to_region (size : option (list value)) (data : value)
    (access_type : access) (peer_extent : option (list value)) (peer_is_slice : bool) :
    res value :=
  match resolve lets data with
  | VBuffer b =>
      let ndim := len (buf_shape b) in
      let zeros := replicate (length (buf_shape b)) (IntImm "int32" 0) in
      if negb (has_explicit_size size) then
        match peer_is_slice, peer_extent with
        | true, Some pe =>
            if bool_decide (length pe = length (buf_shape b))
            then buffer_load_to_tile_region b zeros access_type pe
            else Ok (buffer_to_tile_region b access_type)
        | _, _ => Ok (buffer_to_tile_region b access_type)
        end
      else
        extent ← _borrowed_extent size (VBuffer b) peer_extent;
        buffer_load_to_tile_region b zeros access_type (trailing ndim extent)
  | VRegion b r =>
      buffer_region_to_tile_region b r access_type (VExpr <$> r.*2)
  | data' =>
      b ← get_buffer data';
      extent ← _borrowed_extent size data' peer_extent;
      match data' with
      | VExpr (BufferLoad b indices) =>
          buffer_load_to_tile_region b indices access_type (trailing (len (buf_shape b)) extent)
      | _ => Raise AttributeError
      end
  end.

Definition copy (src dst : value) (coalesced_width : option value)
    (size : option (list value)) : res value :=
  if has_explicit_size size && (_is_slice src || _is_slice dst) then Raise ValueError
  else
    let src_extent := copy_get_extent src in
    let dst_extent := copy_get_extent dst in
    src' ← copy_to_region size src R dst_extent (_is_slice dst);
    (* [_is_slice(src)] after [src] was rebound to the region call: the call is
       neither a variable nor a [BufferRegion] *)
    dst' ← copy_to_region size dst W src_extent (_is_slice src');
    Ok (call_intrin "tl.copy" ([src'; dst'] ++ option_list coalesced_width)).

End copy.

(** ** The consumer of a descriptor *)

Record region_op := RegionOp_ {
  ro_buffer : buffer;
  ro_mask : Z;
  ro_ranges : list (expr * value);
}.

(** [*as_const_int(e)]. *)
Definition as_const_int (v : value) : option Z :=
  match v with VInt z | VExpr (IntImm _ z) => Some z | _ => None end.

(** [RegionOp::RegionOp]; [None] is a failed [ICHECK]. *)
Definition RegionOp (args : list value) : option region_op :=
  match args with
  | VExpr (BufferLoad b indices) :: mask :: extents =>
      if bool_decide (length indices = length extents)
      then m ← as_const_int mask; Some (RegionOp_ b m (zip indices extents))
      else None
  | _ => None
  end.

(** The descriptor behind an operand of an intrinsic call: [ICHECK(call)], then
    its arguments. *)
Definition decode_region (v : value) : option region_op :=
  match v with VCall _ args => RegionOp args | _ => None end.

(** ** What a descriptor should say *)

(** The buffer an operand addresses and the coordinates it starts at. *)
Definition tile_buffer (v : value) : option buffer :=
  match v with
  | VBuffer b | VRegion b _ | VExpr (BufferLoad b _) => Some b
  | _ => None
  end.

Definition tile_mins (v : value) : list expr :=
  match v with
  | VBuffer b => replicate (length (buf_shape b)) (IntImm "int32" 0)
  | VRegion _ r => r.*1
  | VExpr (BufferLoad _ idx) => index_head <$> idx
  | _ => []
  end.

Definition tile_rank (v : value) : nat :=
  match tile_buffer v with Some b => length (buf_shape b) | None => 0 end.

(** Tile operands of a positive rank, as the language hands them over. *)
Definition tile_ok (v : value) : bool :=
  is_tile v && ranked v && bool_decide (tile_rank v ≠ 0)%nat.

(** A list of extents brought to rank [n]: the last [n] of them, or ones in
    front of a shorter list. *)
Definition fit (n : nat) (extents : list value) : list value :=
  replicate (n - length extents) (VInt 1) ++ drop (length extents - n) extents.

(** The descriptor of operand [v] with the given access and extents. *)
Definition describes (v : value) (a : access) (extents : list value) (call : value) : Prop :=
  ∃ b, tile_buffer v = Some b ∧
       length (tile_mins v) = length extents ∧
       decode_region call = Some (RegionOp_ b (access_mask a) (zip (tile_mins v) extents)).

(** ** Lemmas *)

Lemma fit_length n l : length (fit n l) = n.
Proof. unfold fit. rewrite length_app, length_replicate, length_drop. lia. Qed.

Lemma fit_id n l : length l = n → fit n l = l.
Proof. intros <-. unfold fit. by rewrite Nat.sub_diag, drop_0. Qed.

Lemma trailing_pad (idx : list expr) n extents :
  length idx = n → n ≠ 0%nat →
  pad_extents idx (trailing (Z.of_nat n) extents) = fit n extents.
Proof.
  intros Hi Hn. unfold trailing, fit, pad_extents, len. destruct (_ <=? _) eqn:E.
  - rewrite py_from_neg by lia. rewrite bool_decide_false by (rewrite length_drop; lia).
    by replace (n - length extents)%nat with 0%nat by lia.
  - rewrite bool_decide_true by lia. subst n. f_equal.
    by replace (length extents - length idx)%nat with 0%nat by lia.
Qed.

Lemma region_describes v b a extents :
  tile_buffer v = Some b → length (tile_mins v) = length extents →
  describes v a extents (region (BufferLoad b (tile_mins v)) a extents).
Proof.
  intros Hb Hl. exists b. split; [done|]. split; [done|].
  unfold decode_region, region, call_intrin, RegionOp. by rewrite bool_decide_true.
Qed.

Lemma tile_ok_mins v : tile_ok v = true → length (tile_mins v) = tile_rank v ∧ tile_rank v ≠ 0%nat.
Proof.
  unfold tile_ok, tile_rank, tile_mins. intros Hv. inv_ok.
  destruct v as [b|b r|[]| | | | | | | ]; simpl in *; try done; inv_ok;
    repeat match goal with H : bool_decide _ = true |- _ => apply bool_decide_eq_true in H end;
    rewrite ?length_replicate, ?length_fmap; done.
Qed.

Lemma load_region_fit b idx a extents :
  length idx = length (buf_shape b) → length (buf_shape b) ≠ 0%nat →
  buffer_load_to_tile_region b idx a (trailing (len (buf_shape b)) extents) =
  Ok (region (BufferLoad b (index_head <$> idx)) a (fit (length (buf_shape b)) extents)).
Proof.
  intros Hi Hn. unfold buffer_load_to_tile_region, len. rewrite trailing_pad by done.
  by rewrite fit_length, bool_decide_true.
Qed.

Lemma index_head_zeros n :
  index_head <$> replicate n (IntImm "int32" 0) = replicate n (IntImm "int32" 0).
Proof. by rewrite fmap_replicate. Qed.

Lemma zeros_region b a extents :
  length extents = length (buf_shape b) →
  buffer_load_to_tile_region b (replicate (length (buf_shape b)) (IntImm "int32" 0)) a extents =
  Ok (region (load_zeros b) a extents).
Proof.
  intros Hl. unfold buffer_load_to_tile_region, pad_extents.
  rewrite length_replicate, bool_decide_false, bool_decide_true, index_head_zeros by lia. done.
Qed.

(** ** [T.copy]: which extents it infers, and when it refuses *)

Section copy_theorems.
Variable lets : FrameStack.t.

(** The extents of a (resolved) operand, given the peer's and whether the peer
    counts as a slice; [None] when there is nothing to infer them from. *)
Definition copy_extents (size : option (list value)) (v : value)
    (peer : option (list value)) (peer_slice : bool) : option (list value) :=
  if has_explicit_size size then Some (fit (tile_rank v) (default [] size))
  else match v with
  | VBuffer b =>
      match peer with
      | Some pe => if peer_slice && bool_decide (length pe = tile_rank v)
                   then Some pe else Some (VExpr <$> buf_shape b)
      | None => Some (VExpr <$> buf_shape b)
      end
  | VRegion _ r => Some (VExpr <$> r.*2)
  | _ => fit (tile_rank v) <$> peer
  end.

Definition is_region (v : value) : bool := match v with VRegion _ _ => true | _ => false end.
Definition is_load (v : value) : bool :=
  match v with VExpr (BufferLoad _ _) => true | _ => false end.

Lemma copy_extents_length size v peer sl ext :
  tile_ok v = true → has_explicit_size size && is_region v = false →
  copy_extents size v peer sl = Some ext → length ext = tile_rank v.
Proof.
  unfold copy_extents. intros Hv Hs Hx. destruct (has_explicit_size size).
  { simplify_eq. apply fit_length. }
  apply tile_ok_mins in Hv as [Hm Hr].
  destruct v as [b|b r|[]| | | | | | | ]; simpl in *; try done.
  - destruct peer as [pe|]; [destruct sl; [simpl in Hx; case_bool_decide|]|];
      simplify_eq/=; rewrite ?length_fmap; done.
  - simplify_eq. by rewrite !length_fmap in *.
  - destruct peer; simplify_eq/=. apply fit_length.
Qed.

Lemma copy_to_region_spec size v a peer sl :
  tile_ok (resolve lets v) = true →
  has_explicit_size size && is_region (resolve lets v) = false →
  copy_to_region lets size v a peer sl =
  match copy_extents size (resolve lets v) peer sl, tile_buffer (resolve lets v) with
  | Some ext, Some b => Ok (region (BufferLoad b (tile_mins (resolve lets v))) a ext)
  | _, _ => Raise AssertionError
  end.
Proof.
  intros Hv Hs. pose proof (tile_ok_mins _ Hv) as [Hm Hr].
  unfold copy_to_region, copy_extents, _borrowed_extent, tile_rank in *.
  destruct (resolve lets v) as [b|b r|e| | | | | | | ]; try done; simpl in Hm, Hr.
  - destruct (has_explicit_size size); simpl.
    + rewrite load_region_fit by (rewrite ?length_replicate; done).
      by rewrite index_head_zeros.
    + destruct peer as [pe|], sl; try done. simpl. case_bool_decide; [|done].
      by rewrite zeros_region.
  - destruct (has_explicit_size size); [done|]. simpl.
    unfold buffer_region_to_tile_region. by rewrite bool_decide_true.
  - destruct e as [| | | | |b idx|]; try done. simpl in *. rewrite length_fmap in Hm.
    destruct (has_explicit_size size); simpl.
    + by rewrite load_region_fit.
    + destruct peer; simpl; [|done]. by rewrite load_region_fit.
Qed.

Lemma copy_spec src dst cw size :
  let s := resolve lets src in
  let d := resolve lets dst in
  tile_ok s = true → tile_ok d = true →
  match copy lets src dst cw size with
  | Raise ValueError => has_explicit_size size = true ∧ (is_region s || is_region d) = true
  | Raise AssertionError => has_explicit_size size = false ∧ is_load s = true ∧ is_load d = true
  | Raise _ => False
  | Ok call =>
      has_explicit_size size && (is_region s || is_region d) = false ∧
      ∃ cs cd es ed,
        call = VCall "tl.copy" ([cs; cd] ++ option_list cw) ∧
        copy_extents size s (copy_get_extent lets dst) (is_region d) = Some es ∧
        copy_extents size d (copy_get_extent lets src) false = Some ed ∧
        describes s R es cs ∧ describes d W ed cd
  end.
Proof.
  intros s d Hs Hd. subst s d. unfold copy.
  change (_is_slice lets src) with (is_region (resolve lets src)).
  change (_is_slice lets dst) with (is_region (resolve lets dst)).
  remember (resolve lets src) as s eqn:Rs. remember (resolve lets dst) as d eqn:Rd.
  destruct (has_explicit_size size && (is_region s || is_region d)) eqn:E.
  { by apply andb_true_iff in E. }
  assert (has_explicit_size size && is_region s = false ∧
          has_explicit_size size && is_region d = false) as [Es Ed].
  { destruct (has_explicit_size size), (is_region s), (is_region d); simpl in *; done. }
  rewrite copy_to_region_spec, <- Rs by (rewrite <- Rs; done).
  pose proof (tile_ok_mins _ Hs) as [Hms _]. pose proof (tile_ok_mins _ Hd) as [Hmd _].
  assert (∃ bs, tile_buffer s = Some bs) as [bs Hbs]
    by (clear -Hs; by destruct s as [| |[]| | | | | | | ]; try done; eexists).
  assert (∃ bd, tile_buffer d = Some bd) as [bd Hbd]
    by (clear -Hd; by destruct d as [| |[]| | | | | | | ]; try done; eexists).
  rewrite Hbs. destruct (copy_extents size s _ _) as [es|] eqn:Hes; simpl.
  - change (_is_slice lets (region _ _ _)) with false.
    rewrite copy_to_region_spec, <- Rd, Hbd by (rewrite <- Rd; done).
    destruct (copy_extents size d _ _) as [ed|] eqn:Hed; simpl.
    + split; [done|]. do 4 eexists. split; [done|]. do 2 (split; [done|]).
      split; apply region_describes; try done; rewrite ?Hms, ?Hmd; symmetry;
        by eapply copy_extents_length.
    + revert Hed Hes. unfold copy_extents, copy_get_extent. rewrite <-?Rs, <-?Rd.
      destruct (has_explicit_size size); [done|].
      destruct s as [| |[]| | | | | | | ], d as [| |[]| | | | | | | ]; try done.
  - revert Hes. unfold copy_extents, copy_get_extent. rewrite <-?Rs, <-?Rd.
    destruct (has_explicit_size size); [done|].
    destruct s as [| |[]| | | | | | | ], d as [| |[]| | | | | | | ]; try done; simpl;
      repeat case_match; done.
Qed.

(** A slice without a size into a plain buffer of the same rank: the one case in
    which the destination does not take the extents the rule gives it, see
    [copy_slice_to_buffer]. *)
Definition slice_into_buffer (size : option (list value)) (s d : value) : bool :=
  match s, d with
  | VRegion _ r, VBuffer b =>
      negb (has_explicit_size size) && bool_decide (length r = length (buf_shape b))
  | _, _ => false
  end.

Lemma copy_extents_peer size src d :
  tile_ok d = true → slice_into_buffer size (resolve lets src) d = false →
  copy_extents size d (copy_get_extent lets src) (is_region (resolve lets src)) =
  copy_extents size d (copy_get_extent lets src) false.
Proof.
  intros Hd Hn. unfold copy_extents, copy_get_extent. destruct (has_explicit_size size) eqn:Hs; [done|].
  destruct d as [b|b r|e| | | | | | | ]; try done.
  destruct (resolve lets src) as [b'|b' r'|[]| | | | | | | ]; try done.
  simpl in *. rewrite Hs in Hn. simpl in Hn. rewrite !length_fmap. unfold tile_rank. simpl. by rewrite Hn.
Qed.

(** C13: on tile operands of positive rank (let-bound variables resolved),
    [T.copy] raises [ValueError] for an explicit size together with a slice, raises
    for two [BufferLoad]s without a size, and otherwise returns the [tl.copy] call
    of two descriptors the compiler decodes to the operands' buffers, start
    coordinates and read and write access, with one extent per dimension: the size
    if there is one, else the slice's own extents, the peer's for a load and for
    a plain buffer paired with a slice of its rank, and the shape of any other plain
    buffer.  The extents of the destination are not stated for a slice that is
    copied without a size into a plain buffer of its rank. *)
Theorem copy_total src dst cw size :
  let s := resolve lets src in
  let d := resolve lets dst in
  tile_ok s = true → tile_ok d = true →
  match copy lets src dst cw size with
  | Raise e =>
      has_explicit_size size && (is_region s || is_region d) = true ∧ e = ValueError ∨
      negb (has_explicit_size size) && is_load s && is_load d = true
  | Ok call =>
      has_explicit_size size && (is_region s || is_region d) = false ∧
      negb (has_explicit_size size) && is_load s && is_load d = false ∧
      ∃ cs cd es ed,
        call = VCall "tl.copy" ([cs; cd] ++ option_list cw) ∧
        describes s R es cs ∧ describes d W ed cd ∧
        copy_extents size s (copy_get_extent lets dst) (is_region d) = Some es ∧
        (slice_into_buffer size s d = false →
         copy_extents size d (copy_get_extent lets src) (is_region s) = Some ed)
  end.
Proof.
  intros s d Hs Hd. pose proof (copy_spec src dst cw size Hs Hd) as Hc. fold s d in Hc.
  destruct (copy lets src dst cw size) as [call|e].
  - destruct Hc as (Hg & cs & cd & es & ed & -> & He & He' & Hds & Hdd). split; [done|]. split.
    + destruct (has_explicit_size size) eqn:Hz; [done|]. destruct (is_load s) eqn:Hl; [|done]. simpl.
      unfold copy_extents, copy_get_extent in He. fold d in He. rewrite Hz in He.
      by destruct s as [| |[]| | | | | | | ], d as [| |[]| | | | | | | ].
    + exists cs, cd, es, ed. do 4 (split; [done|]). intros Hn. unfold s. by rewrite copy_extents_peer.
  - destruct e; try done; first [left; destruct Hc as [Ha Hb]; by rewrite Ha, Hb
                                |right; destruct Hc as (Ha & Hb & Hc); by rewrite Ha, Hb, Hc].
Qed.

Lemma copy_extents_agree size src dst es ed :
  let s := resolve lets src in
  let d := resolve lets dst in
  tile_ok s = true → tile_ok d = true → tile_rank s = tile_rank d →
  has_explicit_size size || is_load s || is_load d || (is_region d && negb (is_region s)) = true →
  copy_extents size s (copy_get_extent lets dst) (is_region d) = Some es →
  copy_extents size d (copy_get_extent lets src) false = Some ed →
  es = ed.
Proof.
  intros s d Hs Hd Hr Hc. pose proof (tile_ok_mins _ Hs) as [Hms _].
  pose proof (tile_ok_mins _ Hd) as [Hmd _]. unfold copy_extents, copy_get_extent. fold s d.
  destruct (has_explicit_size size); [intros; simplify_eq; by rewrite Hr|].
  revert Hs Hd Hr Hc Hms Hmd. clearbody s d. unfold tile_rank.
  destruct s as [| |[]| | | | | | | ], d as [| |[]| | | | | | | ]; simpl; try done; intros;
    rewrite ?length_fmap in *; simplify_eq/=;
    rewrite ?bool_decide_true in * by (rewrite ?length_fmap; congruence); simplify_eq/=;
    rewrite ?fit_id by (rewrite ?length_fmap; congruence); done.
Qed.

(** When both operands have the same rank and a size is given, one
    operand is a [BufferLoad], or a plain buffer is copied into a slice, the two
    descriptors of the [tl.copy] call have the same extents. *)
Theorem copy_shapes_agree src dst cw size call :
  let s := resolve lets src in
  let d := resolve lets dst in
  tile_ok s = true → tile_ok d = true → tile_rank s = tile_rank d →
  has_explicit_size size || is_load s || is_load d || (is_region d && negb (is_region s)) = true →
  copy lets src dst cw size = Ok call →
  ∃ cs cd ext, call = VCall "tl.copy" ([cs; cd] ++ option_list cw) ∧
    describes s R ext cs ∧ describes d W ext cd.
Proof.
  intros s d Hs Hd Hr Hc Hok. pose proof (copy_spec src dst cw size Hs Hd) as H.
  rewrite Hok in H. destruct H as (_ & cs & cd & es & ed & -> & He1 & He2 & Hd1 & Hd2).
  pose proof (copy_extents_agree _ _ _ _ _ Hs Hd Hr Hc He1 He2) as ->. by eauto 10.
Qed.

(** A slice copied into a plain buffer, whatever the slice's extents: the
    destination descriptor is the whole buffer, because the test for a slice
    source sees the descriptor [src] was rebound to.  The mirrored copy, a plain
    buffer into a slice, reads the slice's extents. *)
Theorem copy_slice_to_buffer src dst cw b r b' :
  resolve lets src = VRegion b r → resolve lets dst = VBuffer b' →
  tile_ok (VRegion b r) = true → tile_ok (VBuffer b') = true →
  ∃ cs, copy lets src dst cw None =
    Ok (VCall "tl.copy" ([cs; buffer_to_tile_region b' W] ++ option_list cw)) ∧
    describes (VRegion b r) R (VExpr <$> r.*2) cs.
Proof.
  intros Hs Hd Hso Hdo. unfold copy. simpl.
  rewrite copy_to_region_spec by (rewrite ?Hs; done). rewrite Hs. simpl.
  rewrite copy_to_region_spec by (rewrite ?Hd; done). rewrite Hd. simpl.
  unfold copy_get_extent. rewrite Hs. simpl. eexists. split; [done|].
  apply region_describes; [done|]. simpl. by rewrite !length_fmap.
Qed.

End copy_theorems.

(** ** Evaluation on concrete operands *)

Module RegionEx.

Definition A : buffer := Buffer 0 "A" "float16" "global" [int32_imm 128; int32_imm 256].
Definition UB : buffer := Buffer 1 "UB" "float16" "shared" [int32_imm 32; int32_imm 64].
Definition bx : expr := Var 7 "bx" "int32".
Definition load : value := VExpr (BufferLoad A [bx; int32_imm 64]).
Definition slice : value := VRegion A [(int32_imm 0, int32_imm 16); (bx, int32_imm 64)].

(** [T.copy(A[bx, 64], UB)] copies a 32x64 tile. *)
Lemma copy_total_witness :
  ∃ cs cd, copy FrameStack.init load (VBuffer UB) None None = Ok (VCall "tl.copy" [cs; cd]) ∧
    describes load R [VExpr (int32_imm 32); VExpr (int32_imm 64)] cs.
Proof.
  pose proof (copy_total FrameStack.init load (VBuffer UB) None None eq_refl eq_refl) as H.
  destruct (copy _ _ _ _ _) as [call|e] eqn:E; [|discriminate E].
  destruct H as (_ & _ & cs & cd & es & ed & -> & Hd & _ & He & _).
  exists cs, cd. split; [reflexivity|]. vm_compute in He. injection He as <-. exact Hd.
Defined.

Lemma copy_shapes_agree_witness :
  ∃ cs cd ext, copy FrameStack.init (VBuffer UB) slice None None =
      Ok (VCall "tl.copy" [cs; cd]) ∧
    describes (VBuffer UB) R ext cs ∧ describes slice W ext cd.
Proof.
  destruct (copy FrameStack.init (VBuffer UB) slice None None) as [call|e] eqn:E; [|discriminate E].
  destruct (copy_shapes_agree FrameStack.init (VBuffer UB) slice None None call
              eq_refl eq_refl eq_refl eq_refl E) as (cs & cd & ext & -> & H).
  exists cs, cd, ext. split; [reflexivity|exact H].
Defined.

Lemma copy_slice_to_buffer_witness :
  ∃ cs, copy FrameStack.init slice (VBuffer UB) None None =
      Ok (VCall "tl.copy" [cs; buffer_to_tile_region UB W]) ∧
    describes slice R [VExpr (int32_imm 16); VExpr (int32_imm 64)] cs.
Proof.
  exact (copy_slice_to_buffer FrameStack.init slice (VBuffer UB) None
           A _ UB eq_refl eq_refl eq_refl eq_refl).
Defined.
End RegionEx.
