(* ===== verification/NpuirOps.v ===== *)
(** * The NPUIR operators of the language: element-wise, matrix and format ops

    [src/tilelang/language/customize_npuir.py], lines 1-788: operand conversion
    ([_get_extent], [_to_region]), the unary and binary operator builders and
    the operators that only build a call.  Each operator reads the let stack
    and returns the [tir.Call] or raises. *)
From Stdlib Require Import ZArith SpecFloat.
From stdpp Require Import base strings gmap numbers list.
From S2P Require Import Prelude Tir Frames Region.

Section ops.
Context `{TVM}.
Variable lets : FrameStack.t.

(** The extent of one index of a [BufferLoad]; an index of another kind adds
    nothing to the list. *)
Definition index_extent (idx : expr) : option value :=
  match idx with
  | Var _ _ _ | IntImm _ _ => Some (VExpr (int32_imm 1))
  | Ramp _ _ lanes => Some (VExpr lanes)
  | _ => None
  end.

Definition _get_extent (data : value) : list value :=
  match resolve lets data with
  | VBuffer b => VExpr <$> buf_shape b
  | VRegion _ r => VExpr <$> r.*2
  | VExpr (BufferLoad _ indices) => omap index_extent indices
  | _ => []
  end.

Definition _buffer_to_tile_region_with_extent (b : buffer) (access_type : access)
    (extent : list value) : value :=
  region (load_zeros b) access_type extent.

(** A let-bound variable is replaced by its value, as it is. *)
Definition _to_region (data : value) (access_type : access) (extent : list value) : res value :=
  match let_bound lets data with
  | Some v => Ok v
  | None =>
      match data with
      | VBuffer b => Ok (_buffer_to_tile_region_with_extent b access_type extent)
      | VRegion b r =>
          buffer_region_to_tile_region b r access_type (py_from extent (- len (buf_shape b)))
      | VExpr (IntImm _ _) | VExpr (FloatImm _ _) => Ok data
      | VExpr (BufferLoad b indices) =>
          buffer_load_to_tile_region b indices access_type (py_from extent (- len (buf_shape b)))
      | _ => Raise AttributeError
      end
  end.

Definition _legalize_dim (buffer : value) (dim : Z) : res Z :=
  if dim <? 0 then shape ← get_shape buffer; Ok (len shape + dim) else Ok dim.

(** [_get_extent(data) if size is None else size]. *)
Definition extent_or (size : option (list value)) (data : value) : list value :=
  default (_get_extent data) size.

(** ** Unary and binary operators *)

(** [isinstance(v, (int, float))]; a [bool] is an [int]. *)
Definition is_number (v : value) : bool :=
  match v with VInt _ | VFloat _ | VBool _ => true | _ => false end.

Definition binary_src1 (src1 dst : value) : res value :=
  if is_number src1 then dt ← get_dtype dst; VExpr <$> tvm_const src1 dt
  else if is_Var src1 then Ok src1
  else _to_region src1 R (_get_extent src1).

(** [AscendBinaryOp(opName, src0, src1, dst).buildTirCall()]. *)
Definition AscendBinaryOp (opName : string) (src0 src1 dst : value) : res value :=
  src0' ← _to_region src0 R (_get_extent src0);
  src1' ← binary_src1 src1 dst;
  dst' ← _to_region dst W (_get_extent dst);
  Ok (call_intrin ("tl.npuir_" +:+ opName) [src0'; src1'; dst']).

Definition npuir_add := AscendBinaryOp "add".
Definition npuir_sub := AscendBinaryOp "sub".
Definition npuir_mul := AscendBinaryOp "mul".
Definition npuir_div := AscendBinaryOp "div".
Definition npuir_max := AscendBinaryOp "max".
Definition npuir_min := AscendBinaryOp "min".
Definition npuir_or := AscendBinaryOp "or".
Definition npuir_and := AscendBinaryOp "and".
Definition npuir_xor := AscendBinaryOp "xor".
Definition npuir_pow := AscendBinaryOp "pow".
Definition npuir_shl := AscendBinaryOp "shl".
Definition npuir_floordiv := AscendBinaryOp "floordiv".

(** [AscendUnaryOp(opName, src, dst).buildTirCall()]. *)
Definition AscendUnaryOp (opName : string) (src dst : value) : res value :=
  src' ← _to_region src R (_get_extent src);
  dst' ← _to_region dst W (_get_extent dst);
  Ok (call_intrin ("tl.npuir_" +:+ opName) [src'; dst']).

Definition npuir_exp := AscendUnaryOp "exp".
Definition npuir_relu := AscendUnaryOp "relu".
Definition npuir_sigmoid := AscendUnaryOp "sigmoid".
Definition npuir_ln := AscendUnaryOp "ln".
Definition npuir_sqrt := AscendUnaryOp "sqrt".
Definition npuir_rsqrt := AscendUnaryOp "rsqrt".
Definition npuir_abs := AscendUnaryOp "abs".
Definition npuir_rec := AscendUnaryOp "rec".
Definition npuir_not := AscendUnaryOp "not".
Definition npuir_floor := AscendUnaryOp "floor".

(** ** Selection, comparison, shifts *)

(** The condition takes the extents of [A]. *)
Definition npuir_select (Cond A B Out : value) : res value :=
  Cond' ← _to_region Cond R (_get_extent A);
  A' ← _to_region A R (_get_extent A);
  B' ← _to_region B R (_get_extent B);
  Out' ← _to_region Out W (_get_extent Out);
  Ok (call_intrin "tl.npuir_select" [Cond'; A'; B'; Out']).

Definition valid_cmp_mode : list string := ["eq"; "ne"; "lt"; "gt"; "ge"; "le"].

Definition npuir_cmp (A B C : value) (cmp_mod : string) : res value :=
  py_assert (py_in cmp_mod valid_cmp_mode);;
  A' ← _to_region A R (_get_extent A);
  B' ← _to_region B R (_get_extent B);
  C' ← _to_region C W (_get_extent C);
  Ok (call_intrin "tl.npuir_cmp" [A'; B'; C'; VStr cmp_mod]).

Definition npuir_shr (A B C : value) (round : bool) : res value :=
  A' ← _to_region A R (_get_extent A);
  B' ← _to_region B R (_get_extent B);
  C' ← _to_region C W (_get_extent C);
  Ok (call_intrin "tl.npuir_shr" [A'; B'; C'; VBool round]).

(** ** Matrix multiplication and format conversion *)

(** The extents of [A], [B] and [C] for a size [[m, k, n]]. *)
Definition dot_extents (A B C : value) (size : option (list value))
    (a_transpose b_transpose : bool) : res (list value * list value * list value) :=
  match size with
  | None => Ok (_get_extent A, _get_extent B, _get_extent C)
  | Some [m; k; n] =>
      Ok (if a_transpose then [k; m] else [m; k],
          if b_transpose then [n; k] else [k; n],
          [m; n])
  | Some _ => Raise AssertionError
  end.

Definition npuir_dot (A B C : value) (size : option (list value))
    (initC a_transpose b_transpose : bool) : res value :=
  '(A_extent, B_extent, C_extent) ← dot_extents A B C size a_transpose b_transpose;
  A' ← _to_region A R A_extent;
  B' ← _to_region B R B_extent;
  C' ← _to_region C RW C_extent;
  Ok (call_intrin "tl.npuir_dot"
        [A'; B'; C'; VBool initC; VBool a_transpose; VBool b_transpose]).

Definition npuir_load_nd2nz (src dst : value) (size : option (list value)) : res value :=
  src' ← _to_region src R (extent_or size src);
  dst' ← _to_region dst W (extent_or size dst);
  Ok (call_intrin "tl.npuir_load_nd2nz" [src'; dst'; VBool true]).

Definition npuir_store_nz2nd (src dst : value) (size : option (list value)) : res value :=
  src' ← _to_region src R (extent_or size src);
  dst' ← _to_region dst W (extent_or size dst);
  Ok (call_intrin "tl.npuir_store_nz2nd" [src'; dst']).

(** The conversions the fixpipe performs on the way out. *)
Definition fixpipe_quant_ok (s d : string) : bool :=
  bool_decide (s = d)
  || (bool_decide (s = "float32") && bool_decide (d = "float16"))
  || (bool_decide (s = "float32") && bool_decide (d = "bfloat16"))
  || (bool_decide (s = "int32") && bool_decide (d = "int8")).

Definition pre_relu_map (mode : string) : res Z :=
  if decide (mode = "") then Ok 0
  else if decide (mode = "relu") then Ok 1
  else if decide (mode = "leaky_relu") then Ok 2
  else if decide (mode = "prelu") then Ok 3
  else Raise KeyError.

Definition npuir_store_fixpipe (src dst : value) (size : option (list value))
    (enable_nz2nd channel_split : bool) (pre_relu_mode : string) : res value :=
  sdt ← get_dtype src;
  ddt ← get_dtype dst;
  py_assert (fixpipe_quant_ok sdt ddt);;
  src' ← _to_region src R (extent_or size src);
  dst' ← _to_region dst W (extent_or size dst);
  mode ← pre_relu_map pre_relu_mode;
  Ok (call_intrin "tl.npuir_store_fixpipe"
        [src'; dst'; VBool enable_nz2nd; VBool channel_split; VInt mode]).

(** ** Broadcast, fill, cast *)

(** [for i in range(len(src_extent)): if src_extent[i] != 1: assert
    src_extent[i] == dst_extent[i]]. *)
Fixpoint check_broadcast (src_extent dst_extent : list value) : res unit :=
  match src_extent with
  | [] => Ok tt
  | x :: src_extent' =>
      ne ← py_cmp CmpNe x (VInt 1);
      (if ne : bool then
         y ← or_raise IndexError (head dst_extent);
         eq ← py_cmp CmpEq x y;
         py_assert eq
       else Ok tt);;
      check_broadcast src_extent' (tail dst_extent)
  end.

Definition npuir_brc (src dst : value) : res value :=
  let src_extent := _get_extent src in
  let dst_extent := _get_extent dst in
  (if is_PrimExpr src then Ok tt
   else py_assert (bool_decide (length src_extent = length dst_extent));;
        check_broadcast src_extent dst_extent);;
  src_region ← (match src_extent with [] => Ok src | _ => _to_region src R src_extent end);
  dst_region ← _to_region dst W dst_extent;
  Ok (call_intrin "tl.npuir_brc" [src_region; dst_region]).

Definition npuir_fill (buffer value : value) : res Tir.value :=
  match buffer with
  | VBuffer _ | VRegion _ _ =>
      if is_PrimExpr value then npuir_brc value buffer else Raise TypeError
  | _ => Raise TypeError
  end.

Definition npuir_clear (buffer : value) : res value :=
  zero ← tvm_const (VInt 0) "int32";
  match let_bound lets buffer with
  | Some buffer_region =>
      match buffer_region with
      | VRegion _ _ => npuir_fill buffer_region (VExpr zero)
      | _ => Raise ValueError
      end
  | None => npuir_fill buffer (VExpr zero)
  end.

Definition valid_round_mode : list string :=
  ["round"; "rint"; "floor"; "ceil"; "trunc"; "odd"].

Definition npuir_cast (src dst : value) (size : option (list value)) (round_mode : string) :
    res value :=
  let src_extent := extent_or size src in
  let dst_extent := extent_or size dst in
  py_assert (negb (is_Var src));;
  py_assert (bool_decide (length src_extent = length dst_extent));;
  py_assert (py_in round_mode valid_round_mode);;
  check_broadcast src_extent dst_extent;;
  src' ← _to_region src R src_extent;
  dst' ← _to_region dst W dst_extent;
  Ok (call_intrin "tl.npuir_cast" [src'; dst'; VStr round_mode]).

End ops.

(** ** Operand conversion *)

Lemma py_from_neg_length {A} (l : list A) (n : nat) :
  n ≠ 0%nat → (length (py_from l (- Z.of_nat n)) ≤ n)%nat.
Proof.
  intros Hn. destruct (decide (n ≤ length l)%nat).
  - rewrite py_from_neg, length_drop by lia. lia.
  - rewrite py_from_neg_all by lia. lia.
Qed.

Lemma pad_py_from (idx : list expr) n extents :
  length idx = n → n ≠ 0%nat →
  pad_extents idx (py_from extents (- Z.of_nat n)) = fit n extents.
Proof.
  intros Hi Hn. rewrite <- (trailing_pad idx n) by done. unfold trailing, len.
  destruct (_ <=? _) eqn:E; [done|]. by rewrite py_from_neg_all by lia.
Qed.

(** The extents the descriptor of [v] carries when the operator asks for
    [extents]: a region keeps its own, a load brings them to its rank. *)
Definition region_extents (v : value) (extents : list value) : list value :=
  match v with
  | VRegion _ r => VExpr <$> r.*2
  | VExpr (BufferLoad _ _) => fit (tile_rank v) extents
  | _ => extents
  end.

(** A plain buffer takes the extents unchecked, so their number must be right. *)
Definition extents_ok (v : value) (extents : list value) : bool :=
  match v with VBuffer b => bool_decide (length extents = length (buf_shape b)) | _ => true end.

(** An operand of a call built from [v]. *)
Definition operand_of (v : value) (a : access) (extents : list value) : value :=
  match tile_buffer v with
  | Some b => region (BufferLoad b (tile_mins v)) a (region_extents v extents)
  | None => v
  end.

Section operands.
Context `{TVM}.
Variable lets : FrameStack.t.

Lemma to_region_tile v a extents :
  tile_ok v = true → _to_region lets v a extents = Ok (operand_of v a extents).
Proof.
  intros Hv. pose proof (tile_ok_mins _ Hv) as [Hm Hr]. unfold _to_region, operand_of, tile_rank in *.
  destruct v as [b|b r|[| | | | |b idx|]| | | | | | | ]; try done; simpl in *.
  - unfold buffer_region_to_tile_region. rewrite bool_decide_true; [done|].
    rewrite !length_fmap in *. rewrite Hm. unfold len. by apply py_from_neg_length.
  - unfold buffer_load_to_tile_region, len. rewrite length_fmap in Hm.
    rewrite pad_py_from by done. by rewrite fit_length, bool_decide_true.
Qed.

Lemma operand_of_describes v a extents :
  tile_ok v = true → extents_ok v extents = true →
  describes v a (region_extents v extents) (operand_of v a extents).
Proof.
  intros Hv He. pose proof (tile_ok_mins _ Hv) as [Hm _]. unfold operand_of.
  destruct v as [b|b r|[| | | | |b idx|]| | | | | | | ]; try done;
    (apply region_describes; [done|]); rewrite Hm; simpl in *.
  - by apply bool_decide_eq_true in He.
  - rewrite length_fmap in Hm. by rewrite !length_fmap.
  - by rewrite fit_length.
Qed.

Lemma tile_not_let v : tile_ok v = true → resolve lets v = v.
Proof. intros. by destruct v as [| |[]| | | | | | | ]. Qed.

Lemma own_extents_ok v : tile_ok v = true → extents_ok v (_get_extent lets v) = true.
Proof.
  intros Hv. unfold _get_extent. rewrite tile_not_let by done. destruct v; try done.
  simpl. apply bool_decide_eq_true. by rewrite length_fmap.
Qed.

(** Converting a tile operand with its own extents never fails, and the
    descriptor decodes to the operand's buffer and start coordinates with one
    extent per dimension: the shape of a buffer, the extents of a slice, and
    for a [BufferLoad] whose indices are variables, constants and ramps, 1 or
    the number of lanes index by index. *)
Theorem to_region_own_extent v a :
  tile_ok v = true →
  ∃ c ext, _to_region lets v a (_get_extent lets v) = Ok c ∧ describes v a ext c ∧
    match v with
    | VBuffer b => ext = VExpr <$> buf_shape b
    | VRegion _ r => ext = VExpr <$> r.*2
    | VExpr (BufferLoad _ idx) =>
        Forall (λ i, is_Some (index_extent i)) idx → Forall2 (λ i x, index_extent i = Some x) idx ext
    | _ => False
    end.
Proof.
  intros Hv. eexists _, _. split; [by apply to_region_tile|].
  split; [apply operand_of_describes, own_extents_ok; done|].
  pose proof (tile_ok_mins _ Hv) as [Hm _].
  unfold _get_extent. rewrite tile_not_let by done.
  destruct v as [b|b r|[| | | | |b idx|]| | | | | | | ]; try done. simpl. intros Hi.
  assert (Forall2 (λ i x, index_extent i = Some x) idx (omap index_extent idx)) as Hf.
  { clear -Hi. induction Hi as [|i l [x Hx] _ IH]; simpl; [done|].
    rewrite Hx. by constructor. }
  rewrite fit_id; [done|]. simpl in Hm. rewrite length_fmap in Hm. rewrite <- Hm.
  symmetry. by eapply Forall2_length.
Qed.

(** ** Broadcasting *)

Definition imms (s : list Z) : list value := (λ z, VExpr (int32_imm z)) <$> s.

(** A source shape broadcasts to a destination shape of the same rank. *)
Definition broadcastable (s d : list Z) : bool :=
  bool_decide (length s = length d) && forallb (λ p, (p.1 =? 1) || (p.1 =? p.2)) (zip s d).

Lemma check_broadcast_imms `{!TVMLaws} s d :
  length s = length d →
  check_broadcast (imms s) (imms d) =
  if broadcastable s d then Ok tt else Raise AssertionError.
Proof.
  intros Hl. unfold broadcastable. rewrite bool_decide_true by done. simpl.
  revert d Hl. induction s as [|x s IH]; intros [|y d] Hl; simplify_eq/=; [done|].
  rewrite tvm_cmp_imm_int. simpl. destruct (x =? 1); simpl; [by apply IH|].
  rewrite tvm_cmp_imm. simpl. destruct (x =? y); simpl; [by apply IH|done].
Qed.

Lemma imms_length s : length (imms s) = length s.
Proof. apply length_fmap. Qed.

(** [T.npuir_brc] on a buffer or slice source of constant shape accepts
    exactly the shapes that broadcast (same rank, every source dimension 1 or
    equal to the destination's); it then builds the call on both descriptors and
    otherwise raises [AssertionError]. *)
Theorem npuir_brc_accepts_broadcast `{!TVMLaws} src dst s d :
  tile_ok src = true → tile_ok dst = true → is_PrimExpr src = false →
  _get_extent lets src = imms s → _get_extent lets dst = imms d →
  npuir_brc lets src dst =
  if broadcastable s d
  then Ok (VCall "tl.npuir_brc" [operand_of src R (imms s); operand_of dst W (imms d)])
  else Raise AssertionError.
Proof.
  intros Hs Hd Hp Es Ed. unfold npuir_brc. rewrite Hp, Es, Ed, !imms_length.
  destruct (decide (length s = length d)) as [Hl|Hl].
  - rewrite bool_decide_true, check_broadcast_imms by done. simpl.
    destruct (broadcastable s d); [|done]. simpl. rewrite !to_region_tile by done.
    destruct s as [|x s]; [|done]. exfalso. pose proof (tile_ok_mins _ Hs) as [Hm Hr].
    revert Es. unfold _get_extent. rewrite tile_not_let by done.
    destruct src; try done; simpl in *; intros E%fmap_nil_inv; revert Hm Hr; unfold tile_rank;
      simpl; rewrite ?length_fmap.
    + by rewrite E.
    + apply fmap_nil_inv in E. by rewrite E.
  - rewrite bool_decide_false by done. simpl. unfold broadcastable.
    by rewrite bool_decide_false.
Qed.

(** [T.npuir_cast] of tile operands with constant extents returns the cast
    call exactly when the round mode is one of the six and the extents
    broadcast; any violation raises [AssertionError]. *)
Theorem npuir_cast_accepts `{!TVMLaws} src dst s d mode :
  tile_ok src = true → tile_ok dst = true →
  _get_extent lets src = imms s → _get_extent lets dst = imms d →
  npuir_cast lets src dst None mode =
  if py_in mode valid_round_mode && broadcastable s d
  then Ok (VCall "tl.npuir_cast"
             [operand_of src R (imms s); operand_of dst W (imms d); VStr mode])
  else Raise AssertionError.
Proof.
  intros Hs Hd Es Ed. unfold npuir_cast, extent_or. simpl. rewrite Es, Ed, !imms_length.
  assert (is_Var src = false) as -> by (by destruct src as [| |[]| | | | | | | ]). simpl.
  destruct (decide (length s = length d)) as [Hl|Hl].
  - rewrite bool_decide_true, check_broadcast_imms by done. simpl.
    destruct (py_in _ _); [|done]. simpl. destruct (broadcastable s d); [|done]. simpl.
    by rewrite !to_region_tile.
  - rewrite bool_decide_false by done. simpl. unfold broadcastable.
    by rewrite (bool_decide_false (length s = length d)), andb_false_r.
Qed.

(** [T.npuir_dot] with [size = [m, k, n]] on buffers and loads of rank 2
    builds descriptors of extents m x k and k x n (each swapped when its operand
    is transposed) and a read-write m x n accumulator; a size of another length
    raises [AssertionError]. *)
Theorem npuir_dot_size A B C size initC ta tb :
  Forall (λ v, tile_ok v = true ∧ tile_rank v = 2%nat ∧ is_region v = false) [A; B; C] →
  match size, npuir_dot lets A B C (Some size) initC ta tb with
  | [m; k; n], Ok call =>
      ∃ a b c,
        call = VCall "tl.npuir_dot" [a; b; c; VBool initC; VBool ta; VBool tb] ∧
        describes A R (if ta then [k; m] else [m; k]) a ∧
        describes B R (if tb then [n; k] else [k; n]) b ∧
        describes C RW [m; n] c
  | [_; _; _], Raise _ => False
  | _, r => r = Raise AssertionError
  end.
Proof.
  intros [(HA & RA & PA) [(HB & RB & PB) [(HC & RC & PC) _]%Forall_cons_1]%Forall_cons_1]%Forall_cons_1.
  destruct size as [|m [|k [|n [|]]]]; try done. unfold npuir_dot. simpl.
  rewrite !to_region_tile by done. simpl. do 3 eexists. split; [done|].
  assert (∀ v a x y, tile_ok v = true → tile_rank v = 2%nat → is_region v = false →
            describes v a [x; y] (operand_of v a [x; y])) as Hd.
  { intros v a x y Hv Hr Hn.
    replace [x; y] with (region_extents v [x; y]) at 1; [apply operand_of_describes; [done|]|].
    - destruct v; try done. unfold tile_rank in Hr. simpl in *. by rewrite Hr.
    - destruct v as [| |[]| | | | | | | ]; try done. unfold region_extents. by rewrite Hr. }
  destruct ta, tb; split_and!; by apply Hd.
Qed.

(** The extents of a [BufferLoad] leave out an index that is neither a
    variable, a constant nor a ramp, and the missing extents are filled in
    front: [A[s:s+n, i + 1]] of a 2-d buffer is described as 1 x n at
    [(s, i + 1)], where n x 1 is indexed. *)
Theorem compound_index_shifts_extents b base st lanes op x y a :
  length (buf_shape b) = 2%nat →
  let v := VExpr (BufferLoad b [Ramp base st lanes; BinOp op x y]) in
  ∃ c, _to_region lets v a (_get_extent lets v) = Ok c ∧
    describes v a [VInt 1; VExpr lanes] c.
Proof.
  intros Hb v. assert (tile_ok v = true) as Hv.
  { unfold tile_ok, tile_rank. simpl. by rewrite Hb. }
  eexists. split; [by apply to_region_tile|].
  replace [VInt 1; VExpr lanes] with (region_extents v (_get_extent lets v)).
  - by apply operand_of_describes, own_extents_ok.
  - unfold region_extents, tile_rank. simpl. by rewrite Hb.
Qed.

End operands.

(** ** Evaluation on concrete operands *)

Module NpuirOpsEx.
Import ConstTVM.

Definition A : buffer := Buffer 0 "A" "float16" "shared" [int32_imm 32; int32_imm 1].
Definition B : buffer := Buffer 1 "B" "float16" "shared" [int32_imm 32; int32_imm 64].
Definition i : expr := Var 7 "i" "int32".
Definition load : value := VExpr (BufferLoad B [i; Ramp (int32_imm 0) (int32_imm 1) (int32_imm 16)]).

(** [B[i, 0:16]] is the 1 x 16 tile at (i, 0). *)
Lemma to_region_own_extent_witness :
  ∃ c ext, _to_region FrameStack.init load R (_get_extent FrameStack.init load) = Ok c ∧
    describes load R ext c ∧ ext = [VExpr (int32_imm 1); VExpr (int32_imm 16)].
Proof.
  destruct (to_region_own_extent FrameStack.init load R eq_refl) as (c & ext & H1 & H2 & H3).
  exists c, ext. split; [exact H1|]. split; [exact H2|].
  assert (Forall (λ i, is_Some (index_extent i)) [i; Ramp (int32_imm 0) (int32_imm 1) (int32_imm 16)])
    as Hf by (repeat constructor; eexists; reflexivity).
  specialize (H3 Hf). inversion H3 as [|? ? ? ? E1 H4]; subst.
  inversion H4 as [|? ? ? ? E2 H5]; subst. inversion H5; subst.
  injection E1 as <-. by injection E2 as <-.
Defined.

Lemma npuir_brc_accepts_broadcast_witness :
  npuir_brc FrameStack.init (VBuffer A) (VBuffer B) =
  Ok (VCall "tl.npuir_brc" [operand_of (VBuffer A) R (imms [32; 1]);
                            operand_of (VBuffer B) W (imms [32; 64])]).
Proof.
  exact (npuir_brc_accepts_broadcast FrameStack.init (VBuffer A) (VBuffer B) [32; 1] [32; 64]
           eq_refl eq_refl eq_refl eq_refl eq_refl).
Defined.

Lemma npuir_cast_accepts_witness :
  npuir_cast FrameStack.init (VBuffer B) (VBuffer A) None "rint" = Raise AssertionError.
Proof.
  exact (npuir_cast_accepts FrameStack.init (VBuffer B) (VBuffer A) [32; 64] [32; 1] "rint"
           eq_refl eq_refl eq_refl eq_refl).
Defined.

Lemma npuir_dot_size_witness :
  ∃ a b c, npuir_dot FrameStack.init (VBuffer B) (VBuffer B) (VBuffer A)
             (Some [VInt 32; VInt 64; VInt 1]) true false true =
           Ok (VCall "tl.npuir_dot" [a; b; c; VBool true; VBool false; VBool true]) ∧
    describes (VBuffer B) R [VInt 32; VInt 64] a ∧
    describes (VBuffer B) R [VInt 1; VInt 64] b ∧
    describes (VBuffer A) RW [VInt 32; VInt 1] c.
Proof.
  pose proof (npuir_dot_size FrameStack.init (VBuffer B) (VBuffer B) (VBuffer A)
                [VInt 32; VInt 64; VInt 1] true false true) as H.
  simpl in H. destruct H as (a & b & c & He & H); [repeat constructor; reflexivity|].
  exists a, b, c. split; [|exact H]. rewrite <- He. reflexivity.
Defined.

Lemma compound_index_shifts_extents_witness :
  ∃ c, _to_region FrameStack.init
         (VExpr (BufferLoad B [Ramp (int32_imm 0) (int32_imm 1) (int32_imm 4);
                               BinOp OpAdd i (int32_imm 1)])) R
         [VExpr (int32_imm 4)] = Ok c ∧
    describes (VExpr (BufferLoad B [Ramp (int32_imm 0) (int32_imm 1) (int32_imm 4);
                                    BinOp OpAdd i (int32_imm 1)])) R
      [VInt 1; VExpr (int32_imm 4)] c.
Proof.
  exact (compound_index_shifts_extents FrameStack.init B (int32_imm 0) (int32_imm 1) (int32_imm 4)
           OpAdd i (int32_imm 1) R eq_refl).
Defined.

End NpuirOpsEx.
