(* ===== verification/NpuirReduce.v ===== *)
(** * Operators that emit statements: reductions, exp2, log2, clamp

    [src/tilelang/language/customize_npuir.py] (the operators that call
    [T.evaluate] and allocate temporaries) and [allocate.py].  The frontend state
    is the let stack, the statements and buffers of the kernel under
    construction, and the Python lists the caller passed, which an operator may
    change in place. *)
From Stdlib Require Import ZArith SpecFloat.
From stdpp Require Import base strings gmap numbers list.
From S2P Require Import Prelude Tir Frames Region NpuirOps.

(** ** The frontend state *)

Record fe := FE {
  fe_lets : FrameStack.t;
  fe_stmts : list value;            (* the calls given to [T.evaluate], in order *)
  fe_allocs : list buffer;          (* the buffers [T.alloc_buffer] made *)
  fe_fresh : nat;                   (* the next buffer identity *)
  fe_heap : gmap nat (list value);  (* the caller's lists, by reference *)
}.

Definition get_lets : prog fe FrameStack.t := s ← get; mret (fe_lets s).

(** [T.evaluate(call)]. *)
Definition evaluate (call : value) : prog fe unit :=
  modify (λ s, FE (fe_lets s) (fe_stmts s ++ [call]) (fe_allocs s) (fe_fresh s) (fe_heap s)).

(** [T.alloc_buffer(shape, dtype, scope=scope)]: a new buffer. *)
Definition alloc_buffer (shape : list expr) (dtype scope : string) : prog fe buffer := λ s,
  let b := Buffer (fe_fresh s) "" dtype scope shape in
  (Ok b, FE (fe_lets s) (fe_stmts s) (fe_allocs s ++ [b]) (S (fe_fresh s)) (fe_heap s)).

(** [l.copy()] and [l[i] = x] of a list the caller owns. *)
Definition list_copy (l : nat) : prog fe (list value) :=
  s ← get; lift (or_raise RuntimeError (fe_heap s !! l)).

Definition list_set (l : nat) (i : Z) (x : value) : prog fe unit :=
  k ← list_copy l;
  k' ← lift (py_setitem k i x);
  modify (λ s, FE (fe_lets s) (fe_stmts s) (fe_allocs s) (fe_fresh s) (<[l := k']> (fe_heap s))).

(** ** [allocate.py] *)

Definition alloc_shared (shape : list expr) (dtype scope : string) : prog fe buffer :=
  alloc_buffer shape dtype (if decide (dtype = "bool") then "shared" else scope).
Definition alloc_local (shape : list expr) (dtype scope : string) : prog fe buffer :=
  alloc_buffer shape dtype scope.
Definition alloc_fragment (shape : list expr) (dtype scope : string) : prog fe buffer :=
  alloc_buffer shape dtype scope.
Definition alloc_var (dtype scope : string) : prog fe buffer :=
  alloc_buffer [int32_imm 1] dtype scope.
Definition alloc_L1 (shape : list expr) (dtype : string) : prog fe buffer :=
  alloc_buffer shape dtype "shared.dyn".
Definition alloc_L0A (shape : list expr) (dtype : string) : prog fe buffer :=
  alloc_buffer shape dtype "wmma.matrix_a".
Definition alloc_L0B (shape : list expr) (dtype : string) : prog fe buffer :=
  alloc_buffer shape dtype "wmma.matrix_b".
Definition alloc_L0C (shape : list expr) (dtype : string) : prog fe buffer :=
  alloc_buffer shape dtype "wmma.accumulator".
Definition alloc_ub (shape : list expr) (dtype : string) : prog fe buffer :=
  alloc_buffer shape dtype "shared".

(** ** Strings: [s.lower().strip()] on ASCII *)

Definition is_upper (c : Ascii.ascii) : bool :=
  (65 <=? Z.of_N (Ascii.N_of_ascii c)) && (Z.of_N (Ascii.N_of_ascii c) <=? 90).
Definition lower_ascii (c : Ascii.ascii) : Ascii.ascii :=
  if is_upper c then Ascii.ascii_of_N (Ascii.N_of_ascii c + 32) else c.
Fixpoint lower (s : string) : string :=
  match s with EmptyString => "" | String c s' => String (lower_ascii c) (lower s') end.

(** Space, the controls 9-13 and the separators 28-31. *)
Definition is_space (c : Ascii.ascii) : bool :=
  let n := Z.of_N (Ascii.N_of_ascii c) in
  (n =? 32) || ((9 <=? n) && (n <=? 13)) || ((28 <=? n) && (n <=? 31)).
Fixpoint lstrip (s : string) : string :=
  match s with
  | String c s' => if is_space c then lstrip s' else s
  | EmptyString => ""
  end.
Fixpoint rstrip (s : string) : string :=
  match s with
  | EmptyString => ""
  | String c s' =>
      match rstrip s' with
      | EmptyString => if is_space c then "" else String c ""
      | t => String c t
      end
  end.
Definition strip (s : string) : string := rstrip (lstrip s).

Section emit.
Context `{TVM}.

(** The environment variable [TILELANG_ASCEND_MODE]. *)
Variable TILELANG_ASCEND_MODE : option string.

(** ** exp2, log2, clamp *)

Definition npuir_exp2 (A B Tmp : value) : prog fe unit :=
  lets ← get_lets;
  dt ← lift (get_dtype A);
  ln2 ← lift (tvm_const (VFloat math_log2) dt);
  mul_call ← lift (AscendBinaryOp lets "mul" A (VExpr ln2) Tmp);
  exp_call ← lift (AscendUnaryOp lets "exp" Tmp B);
  evaluate mul_call;;
  evaluate exp_call.

(** [1.0]. *)
Definition one_float : spec_float := S754_finite false 4503599627370496 (-52).

Definition npuir_log2 (A B Tmp : value) : prog fe unit :=
  lets ← get_lets;
  log_call ← lift (AscendUnaryOp lets "ln" A Tmp);
  dt ← lift (get_dtype A);
  inv_ln2 ← lift (tvm_const (VFloat (SFdiv 53 1024 one_float math_log2)) dt);
  mul_call ← lift (AscendBinaryOp lets "mul" Tmp (VExpr inv_ln2) B);
  evaluate log_call;;
  evaluate mul_call.

(** A bound of a clamp: a buffer becomes a region, a scalar stays. *)
Definition clamp_bound (lets : FrameStack.t) (v : value) : res value :=
  match v with
  | VBuffer b => _to_region lets v RW (VExpr <$> buf_shape b)
  | _ => Ok v
  end.

Definition npuir_clamp (src dst min_val max_val : value) : prog fe unit :=
  lets ← get_lets;
  src_extent ← lift (get_shape src);
  src_tmp ← lift (_to_region lets src RW (VExpr <$> src_extent));
  dst_extent ← lift (get_shape dst);
  dst_tmp ← lift (_to_region lets dst RW (VExpr <$> dst_extent));
  min_ub_tmp ← lift (clamp_bound lets min_val);
  evaluate (call_intrin "tl.npuir_max" [src_tmp; min_ub_tmp; dst_tmp]);;
  max_ub_tmp ← lift (clamp_bound lets max_val);
  evaluate (call_intrin "tl.npuir_min" [dst_tmp; max_ub_tmp; dst_tmp]).

(** ** Reductions *)

Definition _get_tmp_buffer_exp (data : value) : prog fe buffer :=
  match data with
  | VBuffer b => alloc_ub (buf_shape b) (buf_dtype b)
  | VExpr (BufferLoad b _ as e) => alloc_ub (buf_shape b) (expr_dtype e)
  | _ => raise TypeError
  end.

Definition _get_tmp_buffer_dev (data : value) : prog fe buffer :=
  match data with
  | VBuffer b => alloc_shared (buf_shape b) (buf_dtype b) "shared.dyn"
  | VExpr (BufferLoad b _ as e) => alloc_shared (buf_shape b) (expr_dtype e) "shared.dyn"
  | VRegion b _ => alloc_shared (buf_shape b) (buf_dtype b) "shared.dyn"
  | _ => raise TypeError
  end.

Definition valid_reduce_mode : list string :=
  ["sum"; "prod"; "max"; "min"; "max_with_index_left"; "max_with_index_right";
   "min_with_index_left"; "min_with_index_right"; "any"; "all"; "xori"; "ori";
   "abssum"; "absmax"; "none"].
Definition valid_reduce_clear_false_mode : list string := ["sum"; "max"; "min"; "abssum"; "absmax"].
Definition reduce_abs_mode_map (mode : string) : option string :=
  if decide (mode = "abssum") then Some "sum"
  else if decide (mode = "absmax") then Some "max" else None.
Definition redeuce_op_for_clear_map (mode : string) : res string :=
  if decide (mode = "sum") then Ok "add"
  else if decide (mode = "max") then Ok "max"
  else if decide (mode = "min") then Ok "min" else Raise KeyError.

(** [TILELANG_ASCEND_MODE is None or ....lower().strip() in ["expert", "exp", "e"]]. *)
Definition expert_mode : bool :=
  match TILELANG_ASCEND_MODE with
  | None => true
  | Some m => py_in (strip (lower m)) ["expert"; "exp"; "e"]
  end.

(** [dims]: an int is read as the list of it. *)
Inductive dims_arg := DInt (z : Z) | DList (l : list Z).
Definition dims_list (d : dims_arg) : list Z := match d with DInt z => [z] | DList l => l end.

(** The source's and the destination's extents; with a size, its entries at
    [dims] are set to 1 in the caller's list in between. *)
Fixpoint set_ones (l : nat) (dims : list Z) : prog fe unit :=
  match dims with
  | [] => mret tt
  | d :: dims' => list_set l d (VInt 1);; set_ones l dims'
  end.

Definition reduce_extents (src dst : value) (dims : list Z) (size : option nat) :
    prog fe (list value * list value) :=
  lets ← get_lets;
  match size with
  | None => mret (_get_extent lets src, _get_extent lets dst)
  | Some l =>
      src_extent ← list_copy l;
      set_ones l dims;;
      dst_extent ← list_copy l;
      mret (src_extent, dst_extent)
  end.

(** The [abs] in front of an absolute mode, in place on [src]. *)
Definition reduce_abs (src : value) (mode : string) : prog fe string :=
  match reduce_abs_mode_map mode with
  | Some mode' =>
      lets ← get_lets;
      abs_call ← lift (AscendUnaryOp lets "abs" src src);
      evaluate abs_call;;
      mret mode'
  | None => mret mode
  end.

Definition reduce_tmp (dst : value) : prog fe buffer :=
  if expert_mode then _get_tmp_buffer_exp dst else _get_tmp_buffer_dev dst.

(** [clear=False]: reduce into a temporary, then combine it with [dst]. *)
Definition reduce_accumulate (src_region dst : value) (dst_extent : list value)
    (reduce_dims mode : string) : prog fe unit :=
  lets ← get_lets;
  tmp ← reduce_tmp dst;
  let tmp_extent := _get_extent lets (VBuffer tmp) in
  lift (py_assert (bool_decide (length dst_extent = length tmp_extent)));;
  lift (py_assert (py_in mode valid_reduce_clear_false_mode));;
  tmp_region ← lift (_to_region lets (VBuffer tmp) W tmp_extent);
  evaluate (call_intrin "tl.npuir_reduce" [src_region; tmp_region; VStr reduce_dims; VStr mode]);;
  op ← lift (redeuce_op_for_clear_map mode);
  binary_call ← lift (AscendBinaryOp lets op dst (VBuffer tmp) dst);
  evaluate binary_call.

Definition npuir_reduce (src dst : value) (dims : dims_arg) (reduce_mode : string)
    (size : option nat) (clear : bool) : prog fe unit :=
  mode ← reduce_abs src reduce_mode;
  let dims := dims_list dims in
  lets ← get_lets;
  '(src_extent, dst_extent) ← reduce_extents src dst dims size;
  lift (py_assert (bool_decide (length src_extent = length dst_extent)));;
  lift (py_assert (py_in mode valid_reduce_mode));;
  lift (py_assert (bool_decide (dims ≠ [])));;
  src_region ← lift (_to_region lets src R src_extent);
  dst_region ← lift (_to_region lets dst W dst_extent);
  let reduce_dims := join (str_of_Z <$> dims) in
  if clear
  then evaluate (call_intrin "tl.npuir_reduce" [src_region; dst_region; VStr reduce_dims; VStr mode])
  else reduce_accumulate src_region dst dst_extent reduce_dims mode.

Definition reduce_max (buffer out : value) (dim : Z) (size : option nat) (clear : bool) : prog fe unit :=
  dim' ← lift (_legalize_dim buffer dim);
  npuir_reduce buffer out (DInt dim') "max" size clear.
Definition reduce_min (buffer out : value) (dim : Z) (size : option nat) (clear : bool) : prog fe unit :=
  dim' ← lift (_legalize_dim buffer dim);
  npuir_reduce buffer out (DInt dim') "min" size clear.
Definition reduce_sum (buffer out : value) (dim : Z) (size : option nat) (clear : bool) : prog fe unit :=
  dim' ← lift (_legalize_dim buffer dim);
  npuir_reduce buffer out (DInt dim') "sum" size clear.
Definition reduce_abssum (buffer out : value) (dim : Z) : prog fe unit :=
  dim' ← lift (_legalize_dim buffer dim);
  npuir_reduce buffer out (DInt dim') "abssum" None true.
Definition reduce_absmax (buffer out : value) (dim : Z) (clear : bool) : prog fe unit :=
  dim' ← lift (_legalize_dim buffer dim);
  npuir_reduce buffer out (DInt dim') "absmax" None clear.

End emit.

(** ** What a reduction emits *)

(** The state after [T.evaluate(call)]. *)
Definition emit (call : value) (s : fe) : fe :=
  FE (fe_lets s) (fe_stmts s ++ [call]) (fe_allocs s) (fe_fresh s) (fe_heap s).

(** The state after allocating [b]. *)
Definition with_alloc (b : buffer) (s : fe) : fe :=
  FE (fe_lets s) (fe_stmts s) (fe_allocs s ++ [b]) (S (fe_fresh s)) (fe_heap s).

(** The mode an absolute mode reduces with, and the state its [abs] leaves. *)
Definition plain_mode (mode : string) : string := default mode (reduce_abs_mode_map mode).

#[local] Arguments AscendBinaryOp : simpl never.
#[local] Arguments AscendUnaryOp : simpl never.

Section reduce_theorems.
Context `{TVM}.
Variable env : option string.

Definition own_operand (s : fe) (v : value) (a : access) : value :=
  operand_of v a (_get_extent (fe_lets s) v).

Definition after_abs (src : value) (mode : string) (s : fe) : fe :=
  match reduce_abs_mode_map mode with
  | Some _ => emit (VCall "tl.npuir_abs" [own_operand s src R; own_operand s src W]) s
  | None => s
  end.

Lemma after_abs_lets src mode s : fe_lets (after_abs src mode s) = fe_lets s.
Proof. unfold after_abs. by destruct (reduce_abs_mode_map mode). Qed.

Lemma unary_tile lets op src dst :
  tile_ok src = true → tile_ok dst = true →
  AscendUnaryOp lets op src dst =
  Ok (VCall ("tl.npuir_" +:+ op) [operand_of src R (_get_extent lets src);
                                 operand_of dst W (_get_extent lets dst)]).
Proof. intros. unfold AscendUnaryOp. by rewrite !to_region_tile. Qed.

Lemma binary_tile lets op a b c :
  tile_ok a = true → tile_ok b = true → tile_ok c = true →
  AscendBinaryOp lets op a b c =
  Ok (VCall ("tl.npuir_" +:+ op) [operand_of a R (_get_extent lets a);
                                 operand_of b R (_get_extent lets b);
                                 operand_of c W (_get_extent lets c)]).
Proof.
  intros. unfold AscendBinaryOp, binary_src1. rewrite !to_region_tile by done.
  by destruct b as [| |[]| | | | | | | ].
Qed.

Lemma reduce_abs_spec src mode s :
  tile_ok src = true →
  reduce_abs src mode s = (Ok (plain_mode mode), after_abs src mode s).
Proof.
  intros Hs. unfold reduce_abs, after_abs, plain_mode, own_operand.
  destruct (reduce_abs_mode_map mode); [|done]. simpl. unfold get_lets. run_prog.
  by rewrite unary_tile.
Qed.

(** The checks of a reduction without a size. *)
Definition reduce_guard (s : fe) (src dst : value) (dims : list Z) (mode : string) : bool :=
  bool_decide (length (_get_extent (fe_lets s) src) = length (_get_extent (fe_lets s) dst))
  && py_in (plain_mode mode) valid_reduce_mode && bool_decide (dims ≠ []).

(** The call that reduces [src] into [dst]. *)
Definition reduce_call (s : fe) (src dst : value) (dims : list Z) (mode : string) : value :=
  VCall "tl.npuir_reduce" [own_operand s src R; own_operand s dst W;
                           VStr (join (str_of_Z <$> dims)); VStr (plain_mode mode)].

Lemma npuir_reduce_guarded src dst dims mode clear s :
  tile_ok src = true → tile_ok dst = true →
  npuir_reduce env src dst dims mode None clear s =
  if reduce_guard s src dst (dims_list dims) mode then
    (if clear
     then (Ok tt, emit (reduce_call s src dst (dims_list dims) mode) (after_abs src mode s))
     else reduce_accumulate env (own_operand s src R) dst (_get_extent (fe_lets s) dst)
            (join (str_of_Z <$> dims_list dims)) (plain_mode mode) (after_abs src mode s))
  else (Raise AssertionError, after_abs src mode s).
Proof.
  intros Hs Hd. unfold npuir_reduce, reduce_guard, reduce_extents, get_lets, evaluate.
  unfold mbind at 1, prog_bind at 1. rewrite reduce_abs_spec by done.
  unfold mbind, prog_bind, mret, prog_ret, lift, get, modify. simpl.
  rewrite after_abs_lets. destruct (bool_decide (length _ = _)); [|done]. simpl.
  destruct (py_in _ _); [|done]. simpl. destruct (bool_decide (_ ≠ [])); [|done]. simpl.
  rewrite !to_region_tile by done. by destruct clear.
Qed.

(** A clearing reduction of tile operands without a size checks that both
    have the same number of extents, that the mode is known and that there is a
    dimension to reduce; it then emits the one [npuir_reduce] call, after the
    in-place [npuir_abs] of the source in the absolute modes.  A failed check
    raises [AssertionError], the [npuir_abs] already being emitted. *)
Theorem npuir_reduce_clear src dst dims mode s :
  tile_ok src = true → tile_ok dst = true →
  npuir_reduce env src dst dims mode None true s =
  if reduce_guard s src dst (dims_list dims) mode
  then (Ok tt, emit (reduce_call s src dst (dims_list dims) mode) (after_abs src mode s))
  else (Raise AssertionError, after_abs src mode s).
Proof. intros. by rewrite npuir_reduce_guarded. Qed.

(** The temporary of an accumulating reduction: of the shape of the destination's
    buffer and of the destination's dtype.  In expert mode there is none for a
    region. *)
Definition tmp_buffer (s : fe) (dst : value) : option buffer :=
  let make (b : buffer) (dt : string) :=
    Buffer (fe_fresh s) "" dt
      (if expert_mode env || bool_decide (dt = "bool") then "shared" else "shared.dyn")
      (buf_shape b) in
  match dst with
  | VBuffer b => Some (make b (buf_dtype b))
  | VExpr (BufferLoad b idx) => Some (make b (expr_dtype (BufferLoad b idx)))
  | VRegion b _ => if expert_mode env then None else Some (make b (buf_dtype b))
  | _ => None
  end.

Lemma tmp_buffer_spec dst s :
  tile_ok dst = true →
  reduce_tmp env dst s =
  match tmp_buffer s dst with
  | Some tmp => (Ok tmp, with_alloc tmp s)
  | None => (Raise TypeError, s)
  end.
Proof.
  intros Ht. unfold reduce_tmp, tmp_buffer, with_alloc.
  destruct dst as [b|b r|[]| | | | | | | ]; try done; destruct (expert_mode env); simpl; try done;
    unfold alloc_shared, alloc_buffer; rewrite <- decide_bool_decide; by destruct (decide _).
Qed.

Lemma tmp_buffer_shape dst s tmp b :
  tmp_buffer s dst = Some tmp → tile_buffer dst = Some b → buf_shape tmp = buf_shape b.
Proof.
  unfold tmp_buffer. intros Ht Hb. destruct dst as [b'|b' r|[]| | | | | | | ]; simplify_eq/=; try done.
  destruct (expert_mode env); by simplify_eq/=.
Qed.

(** The modes that accumulate, with the operator that combines. *)
Definition combine_op (mode : string) : option string :=
  if decide (mode = "sum") then Some "add"
  else if decide (mode = "max") then Some "max"
  else if decide (mode = "min") then Some "min" else None.

Lemma combine_op_spec mode :
  match combine_op (plain_mode mode) with
  | Some op => py_in (plain_mode mode) valid_reduce_clear_false_mode = true ∧
               redeuce_op_for_clear_map (plain_mode mode) = Ok op
  | None => py_in (plain_mode mode) valid_reduce_clear_false_mode = false
  end.
Proof.
  unfold combine_op, redeuce_op_for_clear_map.
  destruct (decide (plain_mode mode = "sum")) as [->|]; [done|].
  destruct (decide (plain_mode mode = "max")) as [->|]; [done|].
  destruct (decide (plain_mode mode = "min")) as [->|]; [done|].
  apply bool_decide_eq_false. unfold plain_mode, reduce_abs_mode_map in *.
  repeat case_decide; simplify_eq/=; try done. set_solver.
Qed.

(** C23: an accumulating reduction ([clear=False]) of tile operands without a
    size, whose operands have the same number of extents, a known mode and a
    dimension to reduce: in the absolute modes it first emits the in-place
    [npuir_abs] of the source.  It then allocates a fresh temporary of the shape
    of the destination's buffer and the destination's dtype (there is none for a
    region in expert mode, which raises [TypeError]).  When the destination has an
    extent for every dimension of its buffer and the mode is a sum, maximum or
    minimum (absolute or not), it emits the reduction of the source into the
    temporary and the combination of destination and temporary into the
    destination (add for sum, max for max, min for min), in this order; otherwise
    it raises [AssertionError] and emits no reduction. *)
Theorem npuir_reduce_accumulate src dst dims mode s :
  tile_ok src = true → tile_ok dst = true →
  reduce_guard s src dst (dims_list dims) mode = true →
  let s1 := after_abs src mode s in
  npuir_reduce env src dst dims mode None false s =
  match tmp_buffer s1 dst with
  | None => (Raise TypeError, s1)
  | Some tmp =>
      let s2 := with_alloc tmp s1 in
      match combine_op (plain_mode mode) with
      | Some op =>
          if bool_decide (length (_get_extent (fe_lets s) dst) = tile_rank dst) then
            (Ok tt,
             emit (VCall ("tl.npuir_" +:+ op)
                     [own_operand s dst R; own_operand s (VBuffer tmp) R; own_operand s dst W])
               (emit (reduce_call s src (VBuffer tmp) (dims_list dims) mode) s2))
          else (Raise AssertionError, s2)
      | None => (Raise AssertionError, s2)
      end
  end.
Proof.
  intros Hs Hd Hg s1. rewrite npuir_reduce_guarded, Hg by done.
  unfold reduce_accumulate, get_lets. unfold mbind, prog_bind, mret, prog_ret, lift, get. simpl.
  rewrite after_abs_lets. fold s1. rewrite tmp_buffer_spec by done.
  destruct (tmp_buffer s1 dst) as [tmp|] eqn:Htmp; [|done].
  pose proof (tile_ok_mins _ Hd) as [_ Hrank]. unfold tile_rank in *.
  destruct (tile_buffer dst) as [b|] eqn:Hb; [|done].
  pose proof (tmp_buffer_shape _ _ _ _ Htmp Hb) as Hshape.
  assert (tile_ok (VBuffer tmp) = true) as Ht.
  { unfold tile_ok, tile_rank. simpl. rewrite Hshape. by apply bool_decide_eq_true. }
  change (_get_extent (fe_lets s) (VBuffer tmp)) with (VExpr <$> buf_shape tmp).
  rewrite length_fmap, Hshape. pose proof (combine_op_spec mode) as Hc.
  destruct (bool_decide (length _ = length _)); simpl; [|by destruct (combine_op _)].
  destruct (combine_op _) as [op|]; [destruct Hc as [Hc1 Hc2]; rewrite Hc1; simpl|by rewrite Hc].
  change (_to_region (fe_lets s) (VBuffer tmp) W (VExpr <$> buf_shape tmp))
    with (Ok (_buffer_to_tile_region_with_extent tmp W (VExpr <$> buf_shape tmp))).
  simpl. rewrite Hc2. simpl. rewrite binary_tile by done. rewrite <- Hshape. reflexivity.
Qed.

(** [size] with its entries at [dims] set to 1. *)
Definition ones_at (dims : list Z) (size : list value) : list value :=
  foldl (λ k d, <[Z.to_nat (norm_idx k d) := VInt 1]> k) size dims.

Definition in_range (n : nat) (d : Z) : Prop := - Z.of_nat n ≤ d < Z.of_nat n.

Definition set_list (l : nat) (k : list value) (s : fe) : fe :=
  FE (fe_lets s) (fe_stmts s) (fe_allocs s) (fe_fresh s) (<[l := k]> (fe_heap s)).

Lemma py_setitem_range {A} (k : list A) d x :
  in_range (length k) d → py_setitem k d x = Ok (<[Z.to_nat (norm_idx k d) := x]> k).
Proof.
  unfold in_range, py_setitem, norm_idx, len. intros Hd.
  destruct (_ || _) eqn:E; [|done]. destruct (d <? 0) eqn:?; lia.
Qed.

Lemma set_ones_spec l dims k s :
  fe_heap s !! l = Some k → Forall (in_range (length k)) dims →
  set_ones l dims s = (Ok tt, set_list l (ones_at dims k) s).
Proof.
  revert k s. induction dims as [|d dims IH]; intros k s Hl Hd; simpl.
  - run_prog. unfold set_list. rewrite insert_id by done. by destruct s.
  - apply Forall_cons_1 in Hd as [Hd Hds]. unfold list_set, list_copy. run_prog.
    rewrite Hl. simpl. rewrite py_setitem_range by done. simpl.
    erewrite IH; [| simpl; by rewrite lookup_insert_eq | by rewrite length_insert].
    unfold set_list; simpl. by rewrite insert_insert_eq.
Qed.

Lemma ones_at_length dims k : length (ones_at dims k) = length k.
Proof.
  unfold ones_at. revert k. induction dims as [|d dims IH]; intros k; simpl; [done|].
  by rewrite IH, length_insert.
Qed.

(** With an explicit size (a list the caller passes by reference) a
    clearing reduction over dimensions in range describes the source with the
    size as passed and the destination with 1 at the reduced dimensions, and the
    caller's list is left with those ones in it. *)
Theorem npuir_reduce_size src dst dims mode l k s :
  tile_ok src = true → tile_ok dst = true →
  reduce_abs_mode_map mode = None → py_in mode valid_reduce_mode = true →
  dims_list dims ≠ [] → fe_heap s !! l = Some k → Forall (in_range (length k)) (dims_list dims) →
  npuir_reduce env src dst dims mode (Some l) true s =
  (Ok tt,
   emit (VCall "tl.npuir_reduce"
           [operand_of src R k; operand_of dst W (ones_at (dims_list dims) k);
            VStr (join (str_of_Z <$> dims_list dims)); VStr mode])
     (set_list l (ones_at (dims_list dims) k) s)).
Proof.
  intros Hs Hd Ha Hm Hne Hl Hr. unfold npuir_reduce, reduce_abs, reduce_extents, get_lets.
  rewrite Ha. unfold mbind, prog_bind, mret, prog_ret, lift, get, list_copy. run_prog.
  rewrite Hl. simpl. erewrite set_ones_spec by done. simpl. rewrite lookup_insert_eq. simpl.
  rewrite ones_at_length, bool_decide_true, Hm, bool_decide_true by done. simpl.
  by rewrite !to_region_tile.
Qed.

End reduce_theorems.

(** ** Evaluation on concrete operands *)

Module NpuirReduceEx.
Import ConstTVM.

Definition A : buffer := Buffer 0 "A" "float32" "shared" [int32_imm 32; int32_imm 64].
Definition O : buffer := Buffer 1 "O" "float32" "shared" [int32_imm 32; int32_imm 1].
Definition s0 : fe := FE FrameStack.init [] [] 2 {[ 0%nat := [VInt 16; VInt 64] ]}.

Lemma npuir_reduce_clear_witness :
  ∃ r w, npuir_reduce (Some "dev") (VBuffer A) (VBuffer O) (DInt 1) "absmax" None true s0 =
    (Ok tt, emit (VCall "tl.npuir_reduce" [r; w; VStr "1"; VStr "max"])
              (after_abs (VBuffer A) "absmax" s0)).
Proof.
  rewrite (npuir_reduce_clear (Some "dev") (VBuffer A) (VBuffer O) (DInt 1) "absmax" s0 eq_refl eq_refl).
  do 2 eexists. reflexivity.
Defined.

Lemma npuir_reduce_accumulate_witness :
  (npuir_reduce None (VBuffer A) (VBuffer O) (DInt 1) "prod" None false s0).1 = Raise AssertionError ∧
  (npuir_reduce None (VBuffer A) (VBuffer O) (DInt 1) "sum" None false s0).1 = Ok tt.
Proof.
  split.
  - rewrite (npuir_reduce_accumulate None (VBuffer A) (VBuffer O) (DInt 1) "prod" s0 eq_refl eq_refl eq_refl).
    reflexivity.
  - rewrite (npuir_reduce_accumulate None (VBuffer A) (VBuffer O) (DInt 1) "sum" s0 eq_refl eq_refl eq_refl).
    reflexivity.
Defined.

Lemma npuir_reduce_size_witness :
  fe_heap (npuir_reduce None (VBuffer A) (VBuffer O) (DInt (-1)) "sum" (Some 0%nat) true s0).2 !! 0%nat =
  Some [VInt 16; VInt 1].
Proof.
  rewrite (npuir_reduce_size None (VBuffer A) (VBuffer O) (DInt (-1)) "sum" 0 [VInt 16; VInt 64] s0
             eq_refl eq_refl eq_refl eq_refl).
  - reflexivity.
  - discriminate.
  - reflexivity.
  - repeat constructor; unfold in_range; simpl; lia.
Defined.

End NpuirReduceEx.
