(* ===== verification/NpuirShape.v ===== *)
(** * Operators that move, index and reshape data

    [src/tilelang/language/customize_npuir.py], lines 1056-1789: cumulative sum,
    sort, atomic add, gather, interleave, transpose, arange, concat, pad, flip,
    bitcast, the transcendental operators, print and reshape. *)
From Stdlib Require Import ZArith SpecFloat.
From stdpp Require Import base strings gmap numbers list.
From S2P Require Import Prelude Tir Frames Region NpuirOps NpuirReduce.

Section shape_ops.
Context `{TVM}.
Variable lets : FrameStack.t.

(** [dst] defaults to [src]; the operands must have a [shape]. *)
Definition npuir_cumsum (src : value) (dst : option value) (dim : Z) (reverse : bool) : res value :=
  shape ← get_shape src;
  if (len shape <=? dim) || (dim <=? - len shape) then Raise ValueError
  else
    let dim := if dim <? 0 then len shape + dim else dim in
    let dst := default src dst in
    src_extent ← get_shape src;
    out_extent ← get_shape dst;
    src_tmp ← _to_region lets src R (VExpr <$> src_extent);
    dst_tmp ← _to_region lets dst W (VExpr <$> out_extent);
    Ok (call_intrin "tl.npuir_cumsum" [src_tmp; dst_tmp; VStr (str_of_Z dim); VBool reverse]).

Definition npuir_sort (src dst_value dst_index : value) (descending : bool) (sort_axis : Z) : res value :=
  src_region ← _to_region lets src R (_get_extent lets src);
  dst_value_region ← _to_region lets dst_value W (_get_extent lets dst_value);
  dst_index_region ← _to_region lets dst_index W (_get_extent lets dst_index);
  Ok (call_intrin "tl.npuir_sort"
        [src_region; dst_value_region; dst_index_region; VBool descending; VInt sort_axis]).

Definition npuir_atomic_add (dst src : value) (size : option (list value)) : res value :=
  src' ← _to_region lets src R (extent_or lets size src);
  dst' ← _to_region lets dst W (extent_or lets size dst);
  Ok (call_intrin "tl.npuir_atomic_add" [dst'; src']).

(** The same intrinsic as [npuir_atomic_add]. *)
Definition npuir_atomic_addx4 (dst src : value) (size : option (list value)) : res value :=
  src' ← _to_region lets src R (extent_or lets size src);
  dst' ← _to_region lets dst W (extent_or lets size dst);
  Ok (call_intrin "tl.npuir_atomic_add" [dst'; src']).

Definition npuir_gather (src dst indices : value) (size : option (list value)) : res value :=
  src' ← _to_region lets src R (extent_or lets size src);
  indices' ← _to_region lets indices R (extent_or lets size indices);
  dst' ← _to_region lets dst W (extent_or lets size dst);
  Ok (call_intrin "tl.npuir_gather" [src'; dst'; indices']).

(** [*srcs, dst = args]. *)
Definition unpack_last (args : list value) : res (list value * value) :=
  dst ← or_raise ValueError (last args); Ok (removelast args, dst).

(** [size[:-1] + [f(size[-1])] if size is not None else []]. *)
Definition scale_last (f : value → res value) (size : option (list value)) : res (list value) :=
  match size with
  | None => Ok []
  | Some s => x ← py_index s (-1); y ← f x; Ok (py_to s (-1) ++ [y])
  end.

(** One operand per loop iteration, checked against the rank of the peer. *)
Definition ranked_region (a : access) (peer : list value) (size : option (list value)) (v : value) :
    res value :=
  let extent := extent_or lets size v in
  py_assert (bool_decide (length extent = length peer));;
  _to_region lets v a extent.

Definition npuir_interleave (args : list value) (channel_nums : Z) (size : option (list value)) :
    res value :=
  '(srcs, dst) ← unpack_last args;
  dst_size ← scale_last (λ x, py_arith OpMul x (VInt 2)) size;
  let dst_extent := match size with None => _get_extent lets dst | Some _ => dst_size end in
  dst' ← _to_region lets dst W dst_extent;
  srcs_arr ← mmap (ranked_region R dst_extent size) srcs;
  Ok (call_intrin "tl.npuir_interleave" (VInt channel_nums :: dst' :: srcs_arr)).

(** [x * 0.5]: a float for an int. *)
Definition half_float : spec_float := S754_finite false 4503599627370496 (-53).
Definition half (x : value) : res value :=
  match x with
  | VInt z => Ok (VFloat (SFmul 53 1024 (binary_normalize 53 1024 z 0 false) half_float))
  | _ => tvm_arith OpMul x (VFloat half_float)
  end.

Definition valid_index_mode : list string := ["CHANNEL_0"; "CHANNEL_1"; "ALL_CHANNELS"].

Definition npuir_deinterleave (args : list value) (channel_nums : Z) (index_mode : string)
    (size : option (list value)) : res value :=
  match args with
  | [] => Raise ValueError
  | src :: dsts =>
      py_assert (py_in index_mode valid_index_mode);;
      let src_extent := extent_or lets size src in
      x ← py_index src_extent (-1);
      m ← py_arith OpMod x (VInt channel_nums);
      z ← py_cmp CmpEq m (VInt 0);
      py_assert z;;
      src' ← _to_region lets src R src_extent;
      dst_size ← scale_last half size;
      dsts_arr ← mmap (λ dst,
        let dst_extent := match size with None => _get_extent lets dst | Some _ => dst_size end in
        py_assert (bool_decide (length src_extent = length dst_extent));;
        _to_region lets dst W dst_extent) dsts;
      Ok (call_intrin "tl.npuir_deinterleave"
            (VInt channel_nums :: VStr index_mode :: src' :: dsts_arr))
  end.

(** [for i in range(len(size)): dst_size[i] = rhs(i); check(dst_size[i])] on a
    list that starts empty. *)
Definition fill_empty (size : list value) (rhs : Z → res value) (check : value → res unit) :
    res (list value) :=
  mfold (λ dst_size i,
    x ← rhs (Z.of_nat i);
    dst_size' ← py_setitem dst_size (Z.of_nat i) x;
    y ← py_index dst_size' (Z.of_nat i);
    check y;;
    Ok dst_size') [] (seq 0 (length size)).

(** [permutation] left out is the object [Union[list, tuple]], which is neither
    subscripted with an int nor iterated. *)
Definition npuir_transpose (src dst : value) (permutation : option (list Z))
    (size : option (list value)) : res value :=
  let src_extent := extent_or lets size src in
  dst_size ← match size with
             | None => Ok []
             | Some s => fill_empty s (λ i,
                 p ← or_raise TypeError permutation; j ← py_index p i; py_index s j)
                 (λ _, Ok tt)
             end;
  let dst_extent := match size with None => _get_extent lets dst | Some _ => dst_size end in
  py_assert (bool_decide (length src_extent = length dst_extent));;
  src' ← _to_region lets src R src_extent;
  dst' ← _to_region lets dst W dst_extent;
  p ← or_raise TypeError permutation;
  Ok (call_intrin "tl.npuir_transpose" [src'; dst'; VStr (join (str_of_Z <$> p))]).

Definition npuir_arange (dst : value) (strides : list value) (offset : value) : res value :=
  dst' ← _to_region lets dst W (_get_extent lets dst);
  Ok (call_intrin "tl.npuir_arange" (dst' :: strides ++ [offset])).

(** ** Padding *)

(** One dimension: whether it is padded.  A variable amount counts as padding;
    [or] stops at the first true test. *)
Definition pads (l h : value) : res bool :=
  if is_Var l || is_Var h then Ok true
  else nl ← py_cmp CmpNe l (VInt 0); if nl : bool then Ok true else py_cmp CmpNe h (VInt 0).

Record pad_acc := PadAcc {
  pa_dynamic : list value;
  pa_num_dynamic_low : Z;
  pa_static_low : list value;
  pa_static_high : list value;
  pa_dim : Z;
}.

Definition pad_init : pad_acc := PadAcc [] 0 [] [] (-1).

Definition pad_step (acc : pad_acc) (x : nat * (value * value)) : res pad_acc :=
  let '(idx, (l, h)) := x in
  p ← pads l h;
  pad_dim ← (if p : bool
             then (if pa_dim acc <? 0 then Ok (Z.of_nat idx) else Raise ValueError)
             else Ok (pa_dim acc));
  let dyn1 := if is_Var l then pa_dynamic acc ++ [l] else pa_dynamic acc in
  let dyn2 := if is_Var h then dyn1 ++ [h] else dyn1 in
  Ok (PadAcc dyn2
        (if is_Var l then pa_num_dynamic_low acc + 1 else pa_num_dynamic_low acc)
        (pa_static_low acc ++ [if is_Var l then VInt 0 else l])
        (pa_static_high acc ++ [if is_Var h then VInt 0 else h])
        pad_dim).

(** [str(v)] of an entry of [static_low] or [static_high]: an int or an expression. *)
Definition str_static (v : value) : string :=
  match v with VInt z => str_of_Z z | VExpr e => tvm_str e | _ => "" end.

Definition enumerate {A} (l : list A) : list (nat * A) := zip (seq 0 (length l)) l.

Definition npuir_pad (src dst pad_value : value) (low high : list value)
    (size : option (list value)) : res value :=
  let src_extent := extent_or lets size src in
  dst_size ← match size with
             | None => Ok []
             | Some s => fill_empty s (λ i,
                 x ← py_index s i; l ← py_index low i; xl ← py_arith OpAdd x l;
                 h ← py_index high i; py_arith OpAdd xl h)
                 (λ x, ge ← py_cmp CmpGe x (VInt 0); py_assert ge)
             end;
  let dst_extent := match size with None => _get_extent lets dst | Some _ => dst_size end in
  py_assert (bool_decide (length src_extent = length dst_extent));;
  py_assert (bool_decide (length src_extent = length low));;
  py_assert (bool_decide (length src_extent = length high));;
  src' ← _to_region lets src R src_extent;
  dst' ← _to_region lets dst W dst_extent;
  lh ← zip_strict low high;
  acc ← mfold pad_step pad_init (enumerate lh);
  Ok (call_intrin "tl.npuir_pad"
        ([src'; dst'; pad_value; VInt (pa_dim acc);
          VStr (join (str_static <$> pa_static_low acc));
          VStr (join (str_static <$> pa_static_high acc));
          VInt (pa_num_dynamic_low acc)] ++ pa_dynamic acc)).

Definition npuir_flip (src dst : value) (axis : Z) (size : option (list value)) : res value :=
  src' ← _to_region lets src R (extent_or lets size src);
  dst' ← _to_region lets dst W (extent_or lets size dst);
  Ok (call_intrin "tl.npuir_flip" [src'; dst'; VInt axis]).

(** [src.dtype if isinstance(src, tir.Buffer) else src.buffer.dtype]. *)
Definition storage_dtype (src : value) : res string :=
  match src with
  | VBuffer b => Ok (buf_dtype b)
  | _ => b ← get_buffer src; Ok (buf_dtype b)
  end.

Definition npuir_bitcast (src : value) (dtype : string) (size : option (list value)) : res value :=
  src_dtype ← storage_dtype src;
  src_bits ← tvm_bits src_dtype;
  src' ← _to_region lets src RW (extent_or lets size src);
  bits ← tvm_bits dtype;
  py_assert (bits =? src_bits);;
  Ok (call_intrin "tl.npuir_bitcast" [src'; VStr dtype]).

(** ** Transcendental operators: [dst] first, then the sources *)

Definition vmath (op : string) (args : list value) (size : option (list value)) : res value :=
  '(srcs, dst) ← unpack_last args;
  srcs_arr ← mmap (λ src,
    let src_extent := extent_or lets size src in
    py_assert (match size with
               | None => bool_decide (length src_extent = length (_get_extent lets dst))
               | Some _ => true
               end);;
    _to_region lets src R src_extent) srcs;
  dst' ← _to_region lets dst W (extent_or lets size dst);
  Ok (call_intrin op (dst' :: srcs_arr)).

Definition npuir_vcos := vmath "tl.npuir_vcos".
Definition npuir_vsin := vmath "tl.npuir_vsin".
Definition npuir_verf := vmath "tl.npuir_verf".
Definition npuir_vtanh := vmath "tl.npuir_vtanh".

(** ** Print and reshape *)

(** [sub in s]. *)
Definition str_in (sub s : string) : bool := bool_decide (is_Some (String.index 0 sub s)).

Definition or_msg (msg default_ : string) : string := if decide (msg = "") then default_ else msg.

Definition npuir_print (obj : value) (msg : string) (hex : bool) : res value :=
  match obj with
  | VExpr (Var _ _ dtype as e) =>
      py_assert (str_in "int" dtype || str_in "float" dtype);;
      Ok (call_intrin "tl.npuir_debug_print_var"
            [obj; VStr (or_msg msg ("expr<" +:+ tvm_str e +:+ ">")); VBool hex])
  | VBuffer b =>
      if py_in (buf_scope b) ["shared"; "shared.dyn"; "global"] then
        obj' ← _to_region lets obj R (_get_extent lets obj);
        Ok (call_intrin "tl.npuir_debug_print_buffer_value"
              [obj'; VStr (or_msg msg ("buffer<" +:+ buf_name b +:+ ", " +:+ buf_dtype b +:+ ">"));
               VBool hex])
      else Raise ValueError
  | VExpr (BufferLoad b _) | VRegion b _ =>
      obj' ← _to_region lets obj R (_get_extent lets obj);
      Ok (call_intrin "tl.npuir_debug_print_buffer_value"
            [obj'; VStr (or_msg msg ("subview<" +:+ buf_name b +:+ ", " +:+ buf_dtype b +:+ ">"));
             VBool hex])
  | _ => Raise ValueError
  end.

Definition npuir_reshape (src dst : value) : res value :=
  src' ← _to_region lets src W (_get_extent lets src);
  dst' ← _to_region lets dst R (_get_extent lets dst);
  Ok (call_intrin "tl.npuir_reshape" [src'; dst']).

End shape_ops.

(** ** Concatenation

    [dst_size = size] is the caller's list itself: multiplying its entry changes
    what the remaining sources copy. *)
Section concat.
Context `{TVM}.

Fixpoint concat_srcs (dst : value) (dim : Z) (n : Z) (size : option nat) (i : Z) (srcs : list value) :
    prog fe (list value) :=
  match srcs with
  | [] => mret []
  | src :: srcs' =>
      lets ← get_lets;
      src_extent ← match size with None => mret (_get_extent lets src) | Some l => list_copy l end;
      lift (py_assert (match size with
                       | None => bool_decide (length src_extent = length (_get_extent lets dst))
                       | Some _ => true
                       end));;
      src' ← lift (_to_region lets src R src_extent);
      match size with
      | Some l =>
          if i =? dim then
            k ← list_copy l; x ← lift (py_index k i); y ← lift (py_arith OpMul x (VInt n));
            list_set l i y
          else mret tt
      | None => mret tt
      end;;
      rest ← concat_srcs dst dim n size (i + 1) srcs';
      mret (src' :: rest)
  end.

(** [*srcs, dst, dim = args]. *)
Definition npuir_concat (srcs : list value) (dst : value) (dim : Z) (size : option nat) : prog fe value :=
  srcs_arr ← concat_srcs dst dim (len srcs) size 0 srcs;
  lets ← get_lets;
  dst_extent ← match size with None => mret (_get_extent lets dst) | Some l => list_copy l end;
  dst' ← lift (_to_region lets dst W dst_extent);
  mret (call_intrin "tl.npuir_concat" (VInt dim :: dst' :: srcs_arr)).

End concat.

(** ** Cumulative sum *)

Section shape_theorems.
Context `{TVM}.
Variable lets : FrameStack.t.

(** [T.npuir_cumsum] of buffers accepts exactly the dimensions with
    [-rank < dim < rank] and passes the non-negative one on as a decimal string
    the compiler reads back as that dimension; the others, [-rank] among them,
    raise [ValueError]. *)
Theorem npuir_cumsum_dims b b' dim reverse :
  tile_ok (VBuffer b) = true → tile_ok (VBuffer b') = true → len (buf_shape b) < 2 ^ 31 →
  let n := len (buf_shape b) in
  match npuir_cumsum lets (VBuffer b) (Some (VBuffer b')) dim reverse with
  | Ok call =>
      - n < dim < n ∧
      ∃ c c' str, call = VCall "tl.npuir_cumsum" [c; c'; VStr str; VBool reverse] ∧
        describes (VBuffer b) R (VExpr <$> buf_shape b) c ∧
        describes (VBuffer b') W (VExpr <$> buf_shape b') c' ∧
        parse_ints str = Some [dim mod n] ∧ 0 ≤ dim mod n < n
  | Raise e => e = ValueError ∧ ¬ (- n < dim < n)
  end.
Proof.
  intros Hb Hb' Hn n. unfold npuir_cumsum. simpl. fold n.
  destruct (_ || _) eqn:E; [split; [done|lia]|].
  split; [lia|]. do 3 eexists. split; [done|].
  assert (∀ c a, tile_ok (VBuffer c) = true →
    describes (VBuffer c) a (VExpr <$> buf_shape c)
      (_buffer_to_tile_region_with_extent c a (VExpr <$> buf_shape c))) as Hd.
  { intros c a Hc. apply (operand_of_describes (VBuffer c) a); [done|].
    exact (own_extents_ok lets (VBuffer c) Hc). }
  split; [by apply Hd|]. split; [by apply Hd|].
  assert ((if dim <? 0 then n + dim else dim) = dim mod n) as ->.
  { destruct (dim <? 0) eqn:?; [|by rewrite Z.mod_small by lia].
    apply (Z.mod_unique_pos _ _ (-1)); lia. }
  pose proof (Z.mod_pos_bound dim n). split; [|lia].
  apply (parse_join_ints [dim mod n]). constructor; [|done].
  unfold int32. apply andb_true_iff. split; [apply Z.leb_le|apply Z.ltb_lt]; lia.
Qed.

(** ** Size overrides that cannot succeed *)

Lemma fill_empty_raises x size rhs check : ∃ e, fill_empty (x :: size) rhs check = Raise e.
Proof.
  unfold fill_empty. simpl. destruct (rhs (Z.of_nat 0)); eexists; reflexivity.
Qed.

(** [T.npuir_transpose] and [T.npuir_pad] with a non-empty size raise on
    every input: the destination size is assigned by index into an empty list. *)
Theorem size_override_raises src dst perm pv low high x size :
  (∃ e, npuir_transpose lets src dst perm (Some (x :: size)) = Raise e) ∧
  (∃ e, npuir_pad lets src dst pv low high (Some (x :: size)) = Raise e).
Proof.
  unfold npuir_transpose, npuir_pad. split.
  - match goal with |- context [fill_empty ?s ?r ?c] =>
      destruct (fill_empty_raises x size r c) as [e He] end.
    rewrite He. by eexists.
  - match goal with |- context [fill_empty ?s ?r ?c] =>
      destruct (fill_empty_raises x size r c) as [e He] end.
    rewrite He. by eexists.
Qed.

(** [T.npuir_deinterleave] of an int size describes every destination with a
    floating-point last extent. *)
Theorem deinterleave_float_extent src dst s z c mode call :
  tile_ok dst = true → is_region dst = false → tile_rank dst = S (length s) →
  npuir_deinterleave lets [src; dst] c mode (Some (s ++ [VInt z])) = Ok call →
  ∃ f d src', call = VCall "tl.npuir_deinterleave" [VInt c; VStr mode; src'; d] ∧
    describes dst W (s ++ [VFloat f]) d.
Proof.
  intros Hd Hr Hk Hc. unfold npuir_deinterleave, extent_or in Hc. simpl in Hc.
  rewrite py_index_last, py_to_last in Hc. inv_ok.
  rewrite to_region_tile in * by done. inv_ok.
  do 3 eexists. split; [done|].
  match goal with |- describes _ _ ?e _ => replace e with (region_extents dst e) at 1 end.
  - apply operand_of_describes; [done|]. destruct dst; try done. simpl.
    apply bool_decide_eq_true. rewrite length_app. unfold tile_rank in Hk. simpl in *. lia.
  - destruct dst as [| |[]| | | | | | | ]; try done. unfold region_extents.
    apply fit_id. rewrite Hk, length_app. simpl. lia.
Qed.

(** ** The encoding of a padding *)

(** The static amount of a dimension. *)
Definition static_amount (v : value) : value := if is_Var v then VInt 0 else v.

(** What the loop has collected after the dimensions [p]: the static amounts
    with 0 for a variable one, the variables (low ones first) and the one padded
    dimension, or -1. *)
Definition pad_inv (p : list (value * value)) (acc : pad_acc) : Prop :=
  pa_static_low acc = static_amount <$> p.*1 ∧
  pa_static_high acc = static_amount <$> p.*2 ∧
  pa_num_dynamic_low acc = len (filter is_Var p.*1) ∧
  pa_dynamic acc = filter is_Var p.*1 ++ filter is_Var p.*2 ∧
  ((pa_dim acc = -1 ∧ Forall (λ x, pads x.1 x.2 = Ok false) p) ∨
   (0 ≤ pa_dim acc ∧ ∀ j x, p !! j = Some x → Z.of_nat j ≠ pa_dim acc → pads x.1 x.2 = Ok false)).

Lemma pads_false l h : pads l h = Ok false → is_Var l = false ∧ is_Var h = false.
Proof. unfold pads. destruct (is_Var l), (is_Var h); done. Qed.

Lemma filter_no_var (p : list (value * value)) :
  Forall (λ x, pads x.1 x.2 = Ok false) p → filter is_Var p.*1 = [] ∧ filter is_Var p.*2 = [].
Proof.
  induction 1 as [|[l h] p Hx _ [IH1 IH2]]; [done|].
  apply pads_false in Hx as [Hl Hh]. simpl in *.
  rewrite !filter_cons_False by (rewrite ?Hl, ?Hh; simpl; tauto). done.
Qed.

Lemma enumerate_snoc {A} (l : list A) x : enumerate (l ++ [x]) = enumerate l ++ [(length l, x)].
Proof.
  unfold enumerate. rewrite length_app, seq_app. simpl.
  by rewrite zip_with_app by (by rewrite length_seq).
Qed.

Lemma filter_snoc (v : value) l :
  filter is_Var (l ++ [v]) = filter is_Var l ++ (if is_Var v then [v] else []).
Proof.
  rewrite filter_app. f_equal. destruct (is_Var v) eqn:E.
  - by rewrite filter_cons_True by (by rewrite E).
  - by rewrite filter_cons_False by (rewrite E; simpl; tauto).
Qed.

Lemma pad_step_inv p l h acc acc' :
  pad_inv p acc → pad_step acc (length p, (l, h)) = Ok acc' → pad_inv (p ++ [(l, h)]) acc'.
Proof.
  intros (Hsl & Hsh & Hn & Hd & Hp) Hs. unfold pad_step in Hs. inv_ok.
  rename x into pb. unfold pad_inv. simpl.
  rewrite !fmap_app, Hsl, Hsh, Hn, Hd. simpl. rewrite !filter_snoc.
  split; [done|]. split; [done|].
  split. { unfold len. destruct (is_Var l); rewrite length_app; simpl; lia. }
  destruct pb; inv_ok.
  - destruct Hp as [[Hdim Hall]|[Hdim _]];
      [|by rewrite (proj2 (Z.ltb_ge _ _)) in H1 by lia].
    rewrite Hdim in H1. simpl in H1. inv_ok. destruct (filter_no_var p Hall) as [-> ->].
    split; [by destruct (is_Var l), (is_Var h)|]. right. split; [lia|].
    intros j y Hj Hne. rewrite lookup_app_l in Hj; [|].
    + rewrite Forall_lookup in Hall. by eapply Hall.
    + apply lookup_lt_Some in Hj. rewrite length_app in Hj. simpl in Hj. lia.
  - destruct (pads_false _ _ H0) as [-> ->]. rewrite !app_nil_r. split; [done|].
    destruct Hp as [[Hdim Hall]|[Hdim Hall]]; [left|right]; (split; [done|]).
    + apply Forall_app. by split; [|constructor].
    + intros j y Hj Hne. apply lookup_snoc_Some in Hj as [[_ Hj]|[_ <-]]; [by eapply Hall|done].
Qed.

Lemma pad_fold_inv p acc : mfold pad_step pad_init (enumerate p) = Ok acc → pad_inv p acc.
Proof.
  revert acc. induction p as [|[l h] p IH] using rev_ind; intros acc Hf.
  - simpl in Hf. inv_ok. repeat split; try done. by left.
  - rewrite enumerate_snoc, mfold_app in Hf. apply bind_Ok in Hf as (a & Ha & Hs).
    unfold mfold in Hs. apply bind_Ok in Hs as (a' & Ha' & [= <-]).
    eapply pad_step_inv; [by apply IH|done].
Qed.

(** ** The aliased size of a concatenation *)

(** One more source in front of what the loop returns for the others. *)
Definition prepend (v : value) (r : res (list value) * fe) : res (list value) * fe :=
  match r with (Ok vs, s) => (Ok (v :: vs), s) | (Raise e, s) => (Raise e, s) end.

Lemma concat_keep dst dim n l i src srcs k {s} :
  fe_heap s !! l = Some k → tile_ok src = true → i ≠ dim →
  concat_srcs dst dim n (Some l) i (src :: srcs) s =
  prepend (operand_of src R k) (concat_srcs dst dim n (Some l) (i + 1) srcs s).
Proof.
  intros Hl Hs Hi. cbn [concat_srcs]. rewrite (proj2 (Z.eqb_neq i dim)) by done.
  unfold get_lets, list_copy. unfold mbind, prog_bind, mret, prog_ret, lift, get.
  cbn [or_raise]. rewrite Hl. cbn. by rewrite to_region_tile.
Qed.

Lemma concat_bump dst dim n l srcs k src z {s} :
  fe_heap s !! l = Some k → k !! Z.to_nat dim = Some (VInt z) → 0 ≤ dim → tile_ok src = true →
  concat_srcs dst dim n (Some l) dim (src :: srcs) s =
  prepend (operand_of src R k)
    (concat_srcs dst dim n (Some l) (dim + 1) srcs
       (set_list l (<[Z.to_nat dim := VInt (z * n)]> k) s)).
Proof.
  intros Hl Hk Hd Hs. pose proof (lookup_lt_Some _ _ _ Hk). cbn [concat_srcs].
  rewrite Z.eqb_refl. unfold get_lets, list_set, list_copy.
  unfold mbind, prog_bind, mret, prog_ret, lift, get, modify.
  cbn [or_raise]. rewrite Hl. cbn. rewrite to_region_tile by done. cbn. rewrite ?Hl. cbn.
  pose proof (py_index_nat k _ _ Hk) as Hidx. rewrite Z2Nat.id in Hidx by done.
  rewrite Hidx. cbn. rewrite ?Hl. cbn. rewrite py_setitem_range by (unfold in_range; lia). cbn.
  unfold norm_idx. by rewrite (proj2 (Z.ltb_ge dim 0)) by done.
Qed.

(** [T.npuir_concat] of two sources with an int size passed by reference:
    along dimension 0 the size is enlarged between the sources, so the second
    one is described with the destination's extents; along dimension 1 both
    sources have the size passed; along a later dimension the destination is not
    enlarged at all.  The caller's list keeps the enlarged entry. *)
Theorem concat_two_size a b dst dim l x y k s :
  tile_ok a = true → tile_ok b = true → tile_ok dst = true →
  fe_heap s !! l = Some (VInt x :: VInt y :: k) → 0 ≤ dim →
  let size := VInt x :: VInt y :: k in
  let size' := if dim =? 0 then VInt (x * 2) :: VInt y :: k
               else if dim =? 1 then VInt x :: VInt (y * 2) :: k else size in
  npuir_concat [a; b] dst dim (Some l) s =
  (Ok (VCall "tl.npuir_concat"
         [VInt dim; operand_of dst W size'; operand_of a R size;
          operand_of b R (if dim =? 0 then size' else size)]),
   set_list l size' s).
Proof.
  intros Ha Hb Hd Hl Hdim size size'. unfold npuir_concat.
  set (s' := set_list l size' s).
  assert (fe_heap s' !! l = Some size') as Hl' by apply lookup_insert_eq.
  enough (concat_srcs dst dim (len [a; b]) (Some l) 0 [a; b] s =
          (Ok [operand_of a R size; operand_of b R (if dim =? 0 then size' else size)], s')) as E.
  { unfold mbind at 1, prog_bind at 1. rewrite E. unfold get_lets, list_copy. run_prog.
    rewrite lookup_insert_eq. simpl. by rewrite to_region_tile. }
  destruct (decide (dim = 0)) as [->|H0]; [|destruct (decide (dim = 1)) as [->|H1]].
  - rewrite (concat_bump dst 0 _ l [b] size a x Hl) by done.
    by rewrite (concat_keep dst 0 _ l _ b [] size' (s := s') Hl').
  - rewrite (concat_keep dst 1 _ l 0 a [b] size Hl) by done.
    by rewrite (concat_bump dst 1 _ l [] size b y Hl).
  - rewrite (concat_keep dst dim _ l 0 a [b] size Hl), (concat_keep dst dim _ l _ b [] size Hl)
      by (done || lia). unfold s', size', set_list.
    rewrite (proj2 (Z.eqb_neq dim 0)), (proj2 (Z.eqb_neq dim 1)) by done.
    rewrite insert_id by done. by destruct s.
Qed.

End shape_theorems.

(** ** Evaluation on concrete operands *)

Module NpuirShapeEx.
Import ConstTVM NpuirReduceEx.

Lemma npuir_cumsum_dims_witness :
  ∃ call, npuir_cumsum FrameStack.init (VBuffer A) (Some (VBuffer A)) (-1) true = Ok call ∧
    ∃ c c' str, call = VCall "tl.npuir_cumsum" [c; c'; VStr str; VBool true] ∧
      parse_ints str = Some [1].
Proof.
  pose proof (npuir_cumsum_dims FrameStack.init A A (-1) true eq_refl eq_refl eq_refl) as H.
  destruct (npuir_cumsum _ _ _ _ _) as [call|e] eqn:E; [|discriminate E].
  destruct H as (_ & c & c' & str & Hc & _ & _ & Hp & _).
  exists call. split; [reflexivity|]. exists c, c', str. split; [exact Hc|exact Hp].
Defined.

Lemma deinterleave_float_extent_witness :
  ∃ f d src',
    npuir_deinterleave FrameStack.init [VBuffer A; VBuffer A] 2 "ALL_CHANNELS"
      (Some ([VInt 4] ++ [VInt 8])) =
    Ok (VCall "tl.npuir_deinterleave" [VInt 2; VStr "ALL_CHANNELS"; src'; d]) ∧
    describes (VBuffer A) W [VInt 4; VFloat f] d.
Proof.
  destruct (npuir_deinterleave FrameStack.init [VBuffer A; VBuffer A] 2 "ALL_CHANNELS"
              (Some ([VInt 4] ++ [VInt 8]))) as [call|e] eqn:E; [|discriminate E].
  destruct (deinterleave_float_extent FrameStack.init (VBuffer A) (VBuffer A) [VInt 4] 8 2
              "ALL_CHANNELS" call eq_refl eq_refl eq_refl E) as (f & d & src' & -> & Hd).
  exists f, d, src'. split; [reflexivity|exact Hd].
Defined.

Lemma concat_two_size_witness :
  fe_heap (npuir_concat [VBuffer A; VBuffer A] (VBuffer A) 0 (Some 0%nat) s0).2 !! 0%nat =
  Some [VInt 32; VInt 64].
Proof.
  rewrite (concat_two_size (VBuffer A) (VBuffer A) (VBuffer A) 0 0 16 64 [] s0
             eq_refl eq_refl eq_refl eq_refl); [reflexivity|lia].
Defined.

End NpuirShapeEx.
