(* ===== verification/Sync.v ===== *)
(** * Resource frames and synchronisation

    The plain [FrameStack] of [src/tilelang/language/kernel.py] and the
    [ResourceSpecializeFrame] of [customize_npuir.py] (lines 1792-2000): the
    stack of active resources, and the flags and barriers that name the current
    one.  The consumers are the constructors of [src/src/op/ascend.cc]. *)
From stdpp Require Import base strings gmap numbers list.
From S2P Require Import Prelude Tir Frames Region.

Module LaunchStack.

Section stack.
Context {F : Type}.

(** The deque, from its top to its bottom. *)
Definition t := list F.

Definition push (item : F) (s : t) : t := item :: s.

Definition pop : prog t F := λ s,
  match s with
  | item :: s' => (Ok item, s')
  | [] => (Raise IndexError, s)
  end.

Definition top (s : t) : res F := or_raise IndexError (head s).
Definition size (s : t) : Z := len s.
Definition __len__ (s : t) : Z := len s.
Definition __bool__ (s : t) : bool := negb (len s =? 0).

End stack.
Arguments t F : clear implicits.

End LaunchStack.

Module Resource.

(** A frame: its identity, the [attr_key]s of the frames TVM built for it, and
    the [name] that [__enter__] gives it. *)
Record frame := Frame { rf_id : nat; rf_attr_keys : list string; rf_name : option string }.

Notation stack := (LaunchStack.t frame).

(** [self.name = ...] on the frame that was just pushed. *)
Definition set_name (n : string) : prog stack unit :=
  modify (λ s, match s with
               | f :: s' => Frame (rf_id f) (rf_attr_keys f) (Some n) :: s'
               | [] => []
               end).

Definition __enter__ (f : frame) : prog stack unit :=
  modify (LaunchStack.push f);;
  key ← lift (py_index (rf_attr_keys f) 0);
  set_name key.

Definition __exit__ (f : frame) : prog stack unit :=
  s ← get;
  g ← lift (LaunchStack.top s);
  if bool_decide (rf_id g = rf_id f) then LaunchStack.pop;; mret tt else mret tt.

(** [with f: body]. *)
Definition with_resource {A} (f : frame) (body : prog stack A) : prog stack A :=
  λ s, match __enter__ f s with
       | (Ok _, s1) =>
           let '(r, s2) := body s1 in
           match __exit__ f s2 with
           | (Ok _, s3) => (r, s3)
           | (Raise e, s3) => (Raise e, s3)
           end
       | (Raise e, s1) => (Raise e, s1)
       end.

Definition Current (s : stack) : res (option frame) :=
  if LaunchStack.__bool__ s then Some <$> LaunchStack.top s else Ok None.

(** [self.name]. *)
Definition name (f : frame) : res string := or_raise AttributeError (rf_name f).

Definition set (f : frame) (other : value) (event_id : value) : res value :=
  n ← name f; Ok (call_intrin "tl.npuir_set_flag" [VStr n; other; event_id]).
Definition wait (f : frame) (other : value) (event_id : value) : res value :=
  n ← name f; Ok (call_intrin "tl.npuir_wait_flag" [other; VStr n; event_id]).
Definition block_barrier (f : frame) (id : value) : res value :=
  n ← name f; Ok (call_intrin "tl.npuir_sync_block" [VInt 0; VStr n; id]).
Definition subblock_barrier (f : frame) (id : value) : res value :=
  n ← name f; Ok (call_intrin "tl.npuir_sync_block" [VInt 1; VStr n; id]).
Definition sync_block_set (f : frame) (id : value) : res value :=
  n ← name f; Ok (call_intrin "tl.npuir_sync_block_set" [VInt 2; VStr n; id]).
Definition sync_block_wait (f : frame) (id : value) : res value :=
  n ← name f; Ok (call_intrin "tl.npuir_sync_block_wait" [VStr n; id]).

End Resource.
Import Resource.

(** [ResourceSpecializeFrame.Current().m(...)]: [None] has no method. *)
Definition on_current {A} (m : frame → res A) : prog stack A :=
  s ← get;
  c ← lift (Current s);
  f ← lift (or_raise AttributeError c);
  lift (m f).

Definition set_flag (other event_id : value) : prog stack value :=
  on_current (λ f, Resource.set f other event_id).
Definition wait_flag (other event_id : value) : prog stack value :=
  on_current (λ f, Resource.wait f other event_id).
Definition pipe_barrier (pipe : value) : value := call_intrin "tl.npuir_pipe_barrier" [pipe].
Definition block_barrier (id : value) : prog stack value :=
  on_current (λ f, Resource.block_barrier f id).
Definition subblock_barrier (id : value) : prog stack value :=
  on_current (λ f, Resource.subblock_barrier f id).
Definition sync_block_set (id : value) : prog stack value :=
  on_current (λ f, Resource.sync_block_set f id).
Definition sync_block_wait (id : value) : prog stack value :=
  on_current (λ f, Resource.sync_block_wait f id).

(** ** The consumers *)

Definition as_str (v : value) : option string := match v with VStr s => Some s | _ => None end.

(** [NpuirSetFlag] and [NpuirWaitFlag]: the producing pipe, the consuming pipe
    and the event. *)
Definition NpuirSetFlag (args : list value) : option (string * string * value) :=
  match args with
  | a :: b :: e :: _ => pipe1 ← as_str a; pipe2 ← as_str b; Some (pipe1, pipe2, e)
  | _ => None
  end.
Definition NpuirWaitFlag (args : list value) : option (string * string * value) :=
  match args with
  | a :: b :: e :: _ => pipe1 ← as_str a; pipe2 ← as_str b; Some (pipe1, pipe2, e)
  | _ => None
  end.

Definition decode_flag (v : value) : option (string * string * value) :=
  match v with
  | VCall op args =>
      if decide (op = "tl.npuir_set_flag") then NpuirSetFlag args
      else if decide (op = "tl.npuir_wait_flag") then NpuirWaitFlag args else None
  | _ => None
  end.

(** ** Theorems *)

(** A frame [rs(p)] before it is entered. *)
Definition rs_frame (n : nat) (p : string) : frame := Frame n [p] None.

Lemma with_resource_body {A} n p (body : prog stack A) s :
  let s1 := Frame n [p] (Some p) :: s in
  (body s1).2 = s1 → with_resource (rs_frame n p) body s = ((body s1).1, s).
Proof.
  intros s1 Hb. unfold with_resource, __enter__. unfold mbind, prog_bind, lift, modify. simpl.
  change (Frame n [p] (Some p) :: s) with s1. destruct (body s1) as [r s2]. simpl in Hb; subst s2.
  unfold __exit__. unfold mbind, prog_bind, lift, get. simpl.
  by rewrite bool_decide_true.
Qed.

Lemma on_current_body {A} n p (m : frame → res A) s :
  with_resource (rs_frame n p) (on_current m) s = (m (Frame n [p] (Some p)), s).
Proof. by rewrite with_resource_body. Qed.

(** [set_flag(q, e)] inside resource [p] and [wait_flag(p, e)] inside
    resource [q] build calls the compiler decodes to the same (producer,
    consumer, event), so the two sides of a flag name each other; neither
    changes the stack of active resources. *)
Theorem flags_pair n m p q e s :
  match with_resource (rs_frame n p) (set_flag (VStr q) e) s,
        with_resource (rs_frame m q) (wait_flag (VStr p) e) s with
  | (Ok c, s1), (Ok c', s2) =>
      decode_flag c = Some (p, q, e) ∧ decode_flag c' = Some (p, q, e) ∧ s1 = s ∧ s2 = s
  | _, _ => False
  end.
Proof.
  unfold set_flag, wait_flag. by rewrite !on_current_body.
Qed.

(** Inside nested resources the synchronisation calls name the innermost
    one, and outside of any resource every one of them raises
    [AttributeError]. *)
Theorem sync_names_innermost n m p q id s :
  with_resource (rs_frame n p) (with_resource (rs_frame m q) (block_barrier id)) s =
    (Ok (VCall "tl.npuir_sync_block" [VInt 0; VStr q; id]), s) ∧
  with_resource (rs_frame n p) (with_resource (rs_frame m q) (sync_block_wait id)) s =
    (Ok (VCall "tl.npuir_sync_block_wait" [VStr q; id]), s) ∧
  Forall (λ op, op [] = (Raise AttributeError, []))
    [set_flag (VStr q) id; wait_flag (VStr q) id; block_barrier id; subblock_barrier id;
     sync_block_set id; sync_block_wait id].
Proof.
  split_and!; [| |by repeat constructor].
  - unfold block_barrier. rewrite with_resource_body; rewrite on_current_body; done.
  - unfold sync_block_wait. rewrite with_resource_body; rewrite on_current_body; done.
Qed.
