(* ===== verification/AscendOps.v ===== *)
(** * The compiler's side of the operator calls

    [src/src/op/ascend.cc]: the registry of the [tl.npuir_*] operators with
    their number of inputs, and what the constructors require of every argument.
    The frontend refines it: what [customize_npuir.py] builds is what the
    constructors read. *)
From Stdlib Require Import ZArith SpecFloat.
From stdpp Require Import base strings gmap numbers list.
From S2P Require Import Prelude Tir Frames Region NpuirOps NpuirReduce NpuirShape Sync.

(** What a constructor asks of an argument. *)
Inductive argk :=
  | KRegion   (* [ICHECK(call)] and a [RegionOp] of its arguments *)
  | KOperand  (* [NpuirOperand::FromExpr] *)
  | KBrc      (* a region, or any expression that is not a call *)
  | KExpr     (* kept as an expression *)
  | KBool     (* [as<Bool>().value()] *)
  | KInt      (* [as<IntImm>().value()] *)
  | KStr      (* [as<StringImm>().value()] *)
  | KInts     (* a string read by [std::getline] and [std::stoi] *)
  | KTile (ranks : list nat) (scopes : list string) (dtype : string).
              (* a region of a rank, in a scope and of a type ([NpuirIndirectLoad]) *)

(** The nodes [NpuirOperand::FromExpr] takes as scalars; the Python numbers
    become immediates on the way. *)
Definition scalar_operand (v : value) : bool :=
  match v with
  | VInt _ | VFloat _ | VBool _ => true
  | VExpr (Var _ _ _) | VExpr (IntImm _ _) | VExpr (FloatImm _ _) => true
  | VExpr (BinOp op _ _) =>
      match op with OpFloorDiv | OpFloorMod => false | _ => true end
  | _ => false
  end.

Definition is_scalar_value (v : value) : bool :=
  match v with VExpr _ | VInt _ | VFloat _ | VBool _ => true | _ => false end.

Definition accept_arg (k : argk) (v : value) : bool :=
  match k with
  | KRegion => bool_decide (is_Some (decode_region v))
  | KOperand =>
      match v with VCall _ _ => bool_decide (is_Some (decode_region v)) | _ => scalar_operand v end
  | KBrc =>
      match v with VCall _ _ => bool_decide (is_Some (decode_region v)) | _ => is_scalar_value v end
  | KExpr => match v with VCall _ _ => true | _ => is_scalar_value v end
  | KBool => match v with VBool _ => true | _ => false end
  | KInt => bool_decide (is_Some (as_const_int v))
  | KStr => bool_decide (is_Some (as_str v))
  | KInts => match v with VStr s => bool_decide (is_Some (parse_ints s)) | _ => false end
  | KTile ranks scopes dtype =>
      match decode_region v with
      | Some r =>
          bool_decide (length (ro_ranges r) ∈ ranks) &&
          bool_decide (buf_scope (ro_buffer r) ∈ scopes) &&
          bool_decide (buf_dtype (ro_buffer r) = dtype)
      | None => false
      end
  end.

(** An operator: its [set_num_inputs] (-1 when variadic), the arguments its
    constructor reads by position, and the kind of the remaining ones. *)
Record op_sig := OpSig {
  sig_num_inputs : Z;
  sig_fixed : list argk;
  sig_rest : option argk;
}.

Definition fixed (l : list argk) : op_sig := OpSig (len l) l None.
Definition variadic (l : list argk) (k : argk) : op_sig := OpSig (-1) l (Some k).

Definition binary_ops : list string :=
  ["add"; "sub"; "mul"; "div"; "max"; "min"; "or"; "and"; "xor"; "pow"; "shl"; "floordiv"].
Definition unary_ops : list string :=
  ["exp"; "ln"; "relu"; "sigmoid"; "sqrt"; "rsqrt"; "abs"; "rec"; "not"; "floor"].

(** [IsSharedScope] and [IsGlobalOrSharedScope]. *)
Definition shared_scopes : list string := ["shared"; "shared.dyn"].
Definition global_or_shared : list string := "global" :: shared_scopes.

Definition registry : list (string * op_sig) :=
  ((λ n, ("tl.npuir_" +:+ n, fixed [KOperand; KOperand; KOperand])) <$> binary_ops) ++
  ((λ n, ("tl.npuir_" +:+ n, fixed [KRegion; KRegion])) <$> unary_ops) ++
  [("tl.npuir_brc", fixed [KBrc; KRegion]);
   ("tl.ascend_copy", fixed [KRegion; KRegion]);
   ("tl.npuir_dot", fixed [KRegion; KRegion; KRegion; KExpr; KBool; KBool]);
   ("tl.npuir_load_nd2nz", fixed [KRegion; KRegion; KBool]);
   ("tl.npuir_store_nz2nd", fixed [KRegion; KRegion]);
   ("tl.npuir_store_fixpipe", fixed [KRegion; KRegion; KBool; KBool; KInt]);
   ("tl.npuir_sync_block_set", fixed [KInt; KStr; KExpr]);
   ("tl.npuir_sync_block_wait", fixed [KStr; KExpr]);
   ("tl.npuir_sync_block", fixed [KInt; KStr; KExpr]);
   ("tl.npuir_pipe_barrier", fixed [KStr]);
   ("tl.npuir_set_flag", fixed [KStr; KStr; KExpr]);
   ("tl.npuir_wait_flag", fixed [KStr; KStr; KExpr]);
   ("tl.npuir_cast", fixed [KRegion; KRegion; KStr]);
   ("tl.npuir_reduce", fixed [KRegion; KRegion; KInts; KStr]);
   ("tl.npuir_cumsum", fixed [KRegion; KRegion; KInts; KBool]);
   ("tl.npuir_sort", fixed [KRegion; KRegion; KRegion; KBool; KInt]);
   ("tl.npuir_atomic_add", fixed [KRegion; KRegion]);
   ("tl.npuir_select", fixed [KRegion; KRegion; KRegion; KRegion]);
   ("tl.npuir_cmp", fixed [KRegion; KRegion; KRegion; KStr]);
   ("tl.npuir_shr", fixed [KRegion; KRegion; KRegion; KBool]);
   ("tl.npuir_debug_print_var", fixed [KExpr; KStr; KBool]);
   ("tl.npuir_debug_print_buffer_value", fixed [KRegion; KStr; KBool]);
   ("tl.npuir_gather", fixed [KRegion; KRegion; KRegion]);
   ("tl.npuir_indirect_load",
    fixed [KTile [1; 2]%nat global_or_shared "float32"; KTile [1; 2]%nat global_or_shared "int32";
           KTile [1]%nat shared_scopes "float32"; KExpr]);
   ("tl.npuir_transpose", fixed [KRegion; KRegion; KInts]);
   ("tl.npuir_interleave", variadic [KInt; KRegion] KRegion);
   ("tl.npuir_deinterleave", variadic [KInt; KStr; KRegion] KRegion);
   ("tl.npuir_arange", variadic [KRegion] KExpr);
   ("tl.npuir_concat", variadic [KInt; KRegion] KRegion);
   ("tl.npuir_pad", variadic [KRegion; KRegion; KExpr; KInt; KInts; KInts; KInt] KExpr);
   ("tl.npuir_flip", fixed [KRegion; KRegion; KInt]);
   ("tl.npuir_bitcast", fixed [KRegion; KStr]);
   ("tl.npuir_vcos", variadic [KRegion] KRegion);
   ("tl.npuir_vsin", variadic [KRegion] KRegion);
   ("tl.npuir_verf", variadic [KRegion] KRegion);
   ("tl.npuir_vtanh", variadic [KRegion] KRegion);
   ("tl.npuir_reshape", fixed [KRegion; KRegion])].

Fixpoint find_op (op : string) (l : list (string * op_sig)) : option op_sig :=
  match l with
  | [] => None
  | (n, s) :: l' => if decide (op = n) then Some s else find_op op l'
  end.

Fixpoint accept_args (l : list argk) (rest : option argk) (args : list value) : bool :=
  match l, args with
  | k :: l', v :: args' => accept_arg k v && accept_args l' rest args'
  | [], _ => match rest with Some k => forallb (accept_arg k) args | None => bool_decide (args = []) end
  | _ :: _, [] => false
  end.

(** The operator exists, the call has its number of inputs and the constructor
    takes every argument. *)
Definition accepted (call : value) : bool :=
  match call with
  | VCall op args =>
      match find_op op registry with
      | Some s => ((sig_num_inputs s =? -1) || (sig_num_inputs s =? len args))
                  && accept_args (sig_fixed s) (sig_rest s) args
      | None => false
      end
  | _ => false
  end.

(** ** The entry points of the language that return a call *)

Inductive front :=
  | FBinary (op : string) (a b c : value)
  | FUnary (op : string) (a b : value)
  | FSelect (Cond A B Out : value)
  | FCmp (A B C : value) (cmp_mod : string)
  | FShr (A B C : value) (round : bool)
  | FDot (A B C : value) (size : option (list value)) (initC ta tb : bool)
  | FLoadNd2nz (src dst : value) (size : option (list value))
  | FStoreNz2nd (src dst : value) (size : option (list value))
  | FStoreFixpipe (src dst : value) (size : option (list value)) (nz2nd split : bool) (relu : string)
  | FBrc (src dst : value)
  | FFill (buffer v : value)
  | FClear (buffer : value)
  | FCast (src dst : value) (size : option (list value)) (round_mode : string)
  | FCumsum (src : value) (dst : option value) (dim : Z) (reverse : bool)
  | FSort (src dv di : value) (descending : bool) (axis : Z)
  | FAtomicAdd (dst src : value) (size : option (list value))
  | FAtomicAddx4 (dst src : value) (size : option (list value))
  | FGather (src dst indices : value) (size : option (list value))
  | FInterleave (args : list value) (channel_nums : Z) (size : option (list value))
  | FDeinterleave (args : list value) (channel_nums : Z) (mode : string) (size : option (list value))
  | FTranspose (src dst : value) (perm : option (list Z)) (size : option (list value))
  | FArange (dst : value) (strides : list value) (offset : value)
  | FConcat (srcs : list value) (dst : value) (dim : Z) (size : option (list value))
  | FPad (src dst pad_value : value) (low high : list value) (size : option (list value))
  | FFlip (src dst : value) (axis : Z) (size : option (list value))
  | FBitcast (src : value) (dtype : string) (size : option (list value))
  | FVmath (op : string) (args : list value) (size : option (list value))
  | FPrint (obj : value) (msg : string) (hex : bool)
  | FReshape (src dst : value).

(** [T.npuir_concat] with a list of the caller's as its size: the call it
    returns, run where the list is the only one there is. *)
Definition concat_call `{TVM} (lets : FrameStack.t) (srcs : list value) (dst : value) (dim : Z)
    (size : option (list value)) : res value :=
  (npuir_concat srcs dst dim ((λ _, 0%nat) <$> size)
     (FE lets [] [] 0 (match size with Some k => {[ 0%nat := k ]} | None => ∅ end))).1.

Definition run_front `{TVM} (lets : FrameStack.t) (f : front) : res value :=
  match f with
  | FBinary op a b c => AscendBinaryOp lets op a b c
  | FUnary op a b => AscendUnaryOp lets op a b
  | FSelect c a b o => npuir_select lets c a b o
  | FCmp a b c m => npuir_cmp lets a b c m
  | FShr a b c r => npuir_shr lets a b c r
  | FDot a b c s i ta tb => npuir_dot lets a b c s i ta tb
  | FLoadNd2nz a b s => npuir_load_nd2nz lets a b s
  | FStoreNz2nd a b s => npuir_store_nz2nd lets a b s
  | FStoreFixpipe a b s x y r => npuir_store_fixpipe lets a b s x y r
  | FBrc a b => npuir_brc lets a b
  | FFill b v => npuir_fill lets b v
  | FClear b => npuir_clear lets b
  | FCast a b s r => npuir_cast lets a b s r
  | FCumsum a b d r => npuir_cumsum lets a b d r
  | FSort a b c d x => npuir_sort lets a b c d x
  | FAtomicAdd d a s => npuir_atomic_add lets d a s
  | FAtomicAddx4 d a s => npuir_atomic_addx4 lets d a s
  | FGather a b i s => npuir_gather lets a b i s
  | FInterleave l c s => npuir_interleave lets l c s
  | FDeinterleave l c m s => npuir_deinterleave lets l c m s
  | FTranspose a b p s => npuir_transpose lets a b p s
  | FArange d st o => npuir_arange lets d st o
  | FConcat l d x s => concat_call lets l d x s
  | FPad a b v l h s => npuir_pad lets a b v l h s
  | FFlip a b x s => npuir_flip lets a b x s
  | FBitcast a d s => npuir_bitcast lets a d s
  | FVmath op l s => vmath lets op l s
  | FPrint o m h => npuir_print lets o m h
  | FReshape a b => npuir_reshape lets a b
  end.

Definition vmath_ops : list string :=
  ["tl.npuir_vcos"; "tl.npuir_vsin"; "tl.npuir_verf"; "tl.npuir_vtanh"].

(** The inputs: tile operands, which are buffers, regions of buffers and loads
    from buffers; a size with one entry per dimension of the buffers it is for;
    scalars where scalars are taken; dimensions and paddings that fit the
    compiler's ints.  A variable that is bound to a region ([let]) is not among
    them, see [let_operand_refused]. *)
Section front_ok.
Context `{TVM}.
Variable lets : FrameStack.t.

Definition sized (size : option (list value)) (v : value) : bool :=
  tile_ok v && match size with None => true | Some s => extents_ok v s end.

(** The second operand of a binary operator. *)
Definition src1_ok (b dst : value) : bool :=
  if is_number b
  then match get_dtype dst with Ok dt => py_in dt scalar_dtypes | Raise _ => true end
  else is_Var b || tile_ok b.

(** An amount of padding. *)
Definition amount_ok (v : value) : bool :=
  is_Var v || match v with VInt z => int32 z | _ => false end.

Definition front_ok (f : front) : bool :=
  match f with
  | FBinary op a b c => py_in op binary_ops && tile_ok a && src1_ok b c && tile_ok c
  | FUnary op a b => py_in op unary_ops && tile_ok a && tile_ok b
  | FSelect c a b o =>
      tile_ok c && extents_ok c (_get_extent lets a) && tile_ok a && tile_ok b && tile_ok o
  | FCmp a b c _ | FShr a b c _ | FSort a b c _ _ => tile_ok a && tile_ok b && tile_ok c
  | FDot a b c s _ _ _ =>
      forallb (λ v, tile_ok v && match s with
                                 | None => true
                                 | Some _ => extents_ok v [VInt 0; VInt 0]
                                 end) [a; b; c]
  | FLoadNd2nz a b s | FStoreNz2nd a b s | FStoreFixpipe a b s _ _ _ | FCast a b s _
  | FAtomicAdd a b s | FAtomicAddx4 a b s | FTranspose a b None s | FFlip a b _ s =>
      sized s a && sized s b
  | FBrc a b | FFill b a =>
      (tile_ok a || (scalar_operand a && bool_decide (let_bound lets a = None))) && tile_ok b
  | FClear b => tile_ok b
  | FCumsum a b _ _ =>
      tile_ok a && match b with Some b => tile_ok b | None => true end &&
      (Z.of_nat (tile_rank a) <? 2 ^ 31)
  | FGather a b i s => sized s a && sized s b && sized s i
  | FInterleave l _ s | FDeinterleave l _ _ s => forallb (sized s) l
  | FConcat l d _ s => forallb (sized s) (d :: l)
  | FVmath op l s => py_in op vmath_ops && forallb (sized s) l
  | FTranspose a b (Some p) s => sized s a && sized s b && forallb int32 p
  | FArange d st o => tile_ok d && forallb (accept_arg KExpr) (o :: st)
  | FPad a b v l h s =>
      sized s a && sized s b && accept_arg KExpr v && forallb amount_ok (l ++ h)
  | FBitcast a _ s => sized s a
  | FPrint o _ _ => tile_ok o || is_Var o
  | FReshape a b => tile_ok a && tile_ok b
  end.

End front_ok.

(** ** Acceptance *)

#[local] Arguments accepted : simpl never.
#[local] Arguments accept_arg : simpl never.
#[local] Arguments parse_ints : simpl never.
#[local] Arguments operand_of : simpl never.

Section acceptance.
Context `{TVM}.
Variable lets : FrameStack.t.

Lemma accepted_intro op s args :
  find_op op registry = Some s →
  (sig_num_inputs s =? -1) || (sig_num_inputs s =? len args) = true →
  accept_args (sig_fixed s) (sig_rest s) args = true →
  accepted (VCall op args) = true.
Proof. unfold accepted. intros -> -> ->. done. Qed.

Lemma region_accepted v a ext :
  tile_ok v = true → extents_ok v ext = true → accept_arg KRegion (operand_of v a ext) = true.
Proof.
  intros Hv He. destruct (operand_of_describes v a ext Hv He) as (b & _ & _ & Hd).
  apply bool_decide_eq_true. rewrite Hd. done.
Qed.

Lemma own_region_accepted v a :
  tile_ok v = true → accept_arg KRegion (operand_of v a (_get_extent lets v)) = true.
Proof. intros. by apply region_accepted, own_extents_ok. Qed.

Lemma sized_region_accepted v a size :
  sized size v = true → accept_arg KRegion (operand_of v a (extent_or lets size v)) = true.
Proof.
  unfold sized, extent_or. intros Hs. inv_ok.
  destruct size; [by apply region_accepted|by apply own_region_accepted].
Qed.

Lemma operand_is_call v a ext : tile_ok v = true → ∃ op args, operand_of v a ext = VCall op args.
Proof.
  intros Hv. unfold operand_of. destruct v as [| |[]| | | | | | | ]; try done; by do 2 eexists.
Qed.

(** A tile operand is also taken where a scalar may stand. *)
Lemma region_as_operand v a ext :
  tile_ok v = true → accept_arg KRegion (operand_of v a ext) = true →
  accept_arg KOperand (operand_of v a ext) = true ∧ accept_arg KBrc (operand_of v a ext) = true.
Proof. intros Hv. by destruct (operand_is_call v a ext Hv) as (? & ? & ->). Qed.

Lemma find_binary op :
  py_in op binary_ops = true →
  find_op ("tl.npuir_" +:+ op) registry = Some (fixed [KOperand; KOperand; KOperand]).
Proof.
  intros Hop%bool_decide_eq_true. revert op Hop. apply Forall_forall. by repeat constructor.
Qed.

Lemma find_unary op :
  py_in op unary_ops = true →
  find_op ("tl.npuir_" +:+ op) registry = Some (fixed [KRegion; KRegion]).
Proof.
  intros Hop%bool_decide_eq_true. revert op Hop. apply Forall_forall. by repeat constructor.
Qed.

Lemma find_vmath op :
  py_in op vmath_ops = true → find_op op registry = Some (variadic [KRegion] KRegion).
Proof.
  intros Hop%bool_decide_eq_true. revert op Hop. apply Forall_forall. by repeat constructor.
Qed.

Lemma binary_src1_accepted `{!TVMLaws} b c v :
  src1_ok b c = true → binary_src1 lets b c = Ok v → accept_arg KOperand v = true.
Proof.
  unfold src1_ok, binary_src1. destruct (is_number b).
  - destruct (get_dtype c) as [dt|]; simpl; [|done]. intros Hdt%bool_decide_eq_true Hv.
    destruct (tvm_const b dt) as [e|] eqn:E; simpl in Hv; [injection Hv as <-|done].
    by destruct (tvm_const_scalar _ _ _ Hdt E) as [[? ->]|[? ->]].
  - destruct (is_Var b) eqn:Hb; simpl.
    + intros _ [= <-]. by destruct b as [| |[]| | | | | | | ].
    + intros Ht. rewrite to_region_tile by done. intros [= <-].
      by apply region_as_operand, own_region_accepted.
Qed.

(** A [for] loop that converts every operand. *)
Lemma mmap_accepted (f : value → res value) l vs :
  (∀ x y, x ∈ l → f x = Ok y → accept_arg KRegion y = true) →
  mmap f l = Ok vs → forallb (accept_arg KRegion) vs = true.
Proof.
  revert vs. induction l as [|x l IH]; simpl; intros vs Hf Hm; inv_ok; [done|].
  apply andb_true_iff. split; [eapply Hf; [by left|done]|].
  eapply IH; [|done]. intros; eapply Hf; [by right|done].
Qed.

Lemma sized_tile size v : sized size v = true → tile_ok v = true.
Proof. unfold sized. intros. by inv_ok. Qed.

Ltac accept_prep :=
  repeat match goal with
  | H : forallb _ (_ :: _) = true |- _ => simpl in H
  | H : _ && _ = true |- _ => apply andb_true_iff in H as [? ?]
  | H : sized _ ?v = true |- _ =>
      lazymatch goal with
      | H' : tile_ok v = true |- _ => fail
      | _ => pose proof (sized_tile _ _ H)
      end
  | H : _ = Ok _ |- _ => rewrite !to_region_tile in H by done
  end; inv_ok.

Ltac accept_solve :=
  accept_prep;
  eapply accepted_intro; [reflexivity|reflexivity|];
  cbn [accept_args fixed sig_fixed sig_rest]; rewrite ?andb_true_iff;
  repeat split; try done;
  eauto using own_region_accepted, sized_region_accepted, region_accepted.

Lemma simple_accepted f call :
  match f with
  | FSelect _ _ _ _ | FCmp _ _ _ _ | FShr _ _ _ _ | FSort _ _ _ _ _ | FReshape _ _
  | FLoadNd2nz _ _ _ | FStoreNz2nd _ _ _ | FAtomicAdd _ _ _ | FAtomicAddx4 _ _ _
  | FGather _ _ _ _ | FFlip _ _ _ _ => True
  | _ => False
  end →
  front_ok lets f = true → run_front lets f = Ok call → accepted call = true.
Proof.
  destruct f; try done; intros _ Hok Hr; simpl in Hok, Hr.
  - unfold npuir_select in Hr. accept_solve.
  - unfold npuir_cmp in Hr. accept_solve.
  - unfold npuir_shr in Hr. accept_solve.
  - unfold npuir_load_nd2nz in Hr. accept_solve.
  - unfold npuir_store_nz2nd in Hr. accept_solve.
  - unfold npuir_sort in Hr. accept_solve.
  - unfold npuir_atomic_add in Hr. accept_solve.
  - unfold npuir_atomic_addx4 in Hr. accept_solve.
  - unfold npuir_gather in Hr. accept_solve.
  - unfold npuir_flip in Hr. accept_solve.
  - unfold npuir_reshape in Hr. accept_solve.
Qed.
Lemma elementwise_accepted `{!TVMLaws} f call :
  match f with FBinary _ _ _ _ | FUnary _ _ _ => True | _ => False end →
  front_ok lets f = true → run_front lets f = Ok call → accepted call = true.
Proof.
  destruct f; try done; intros _ Hok Hr; simpl in Hok, Hr.
  - unfold AscendBinaryOp in Hr. accept_prep.
    eapply accepted_intro; [by apply find_binary|done|]. simpl. rewrite !andb_true_iff.
    repeat split; try done; try (by apply region_as_operand, own_region_accepted).
    by eapply binary_src1_accepted.
  - unfold AscendUnaryOp in Hr. accept_prep.
    eapply accepted_intro; [by apply find_unary|done|]. simpl. rewrite !andb_true_iff.
    repeat split; try done; by apply own_region_accepted.
Qed.

Lemma extents_ok_length v e e' : length e = length e' → extents_ok v e = extents_ok v e'.
Proof. intros Hl. destruct v; try done. simpl. by rewrite Hl. Qed.

Lemma dot_accepted a b c size i ta tb call :
  front_ok lets (FDot a b c size i ta tb) = true →
  npuir_dot lets a b c size i ta tb = Ok call → accepted call = true.
Proof.
  simpl. intros Hok Hr. unfold npuir_dot in Hr. apply bind_Ok in Hr as ([[ea eb] ec] & He & Hr).
  accept_prep. eapply accepted_intro; [reflexivity|reflexivity|]. simpl. rewrite !andb_true_iff.
  destruct size as [[|m [|k [|n [|]]]]|]; simplify_eq/=;
    [|by repeat split; apply own_region_accepted].
  repeat split; try done; apply region_accepted; try done;
    try destruct ta; try destruct tb; done.
Qed.

Lemma fixpipe_cast_accepted f call :
  match f with FStoreFixpipe _ _ _ _ _ _ | FCast _ _ _ _ | FBitcast _ _ _ => True | _ => False end →
  front_ok lets f = true → run_front lets f = Ok call → accepted call = true.
Proof.
  destruct f; try done; intros _ Hok Hr; simpl in Hok, Hr.
  - unfold npuir_store_fixpipe in Hr. accept_solve.
  - unfold npuir_cast in Hr. accept_solve.
  - unfold npuir_bitcast in Hr. accept_solve.
Qed.

Lemma scalar_no_extent v :
  scalar_operand v = true → let_bound lets v = None → _get_extent lets v = [].
Proof.
  intros Hs Hl. unfold _get_extent, resolve. rewrite Hl. by destruct v as [| |[]| | | | | | | ].
Qed.

Lemma brc_accepted a b call :
  front_ok lets (FBrc a b) = true → npuir_brc lets a b = Ok call → accepted call = true.
Proof.
  simpl. intros Hok Hr. unfold npuir_brc in Hr. accept_prep.
  eapply accepted_intro; [reflexivity|reflexivity|]. simpl. rewrite !andb_true_iff.
  repeat split; [|by apply own_region_accepted].
  match goal with H : _ || _ = true |- _ => apply orb_true_iff in H as [Ht|Hs] end.
  - destruct (_get_extent lets a) eqn:E; inv_ok.
    + revert E. unfold _get_extent. rewrite tile_not_let by done.
      pose proof (tile_ok_mins _ Ht) as [Hm Hn]. unfold tile_rank in *.
      destruct x0 as [| |[]| | | | | | | ]; try done; simpl in *.
      * intros E%fmap_nil_inv. by rewrite E in Hn.
      * intros E%fmap_nil_inv%fmap_nil_inv. subst. simpl in Hm. congruence.
    + rewrite to_region_tile in * by done. inv_ok. apply region_as_operand; [done|].
      rewrite <- E. by apply own_region_accepted.
  - inv_ok. match goal with H : bool_decide _ = true |- _ => apply bool_decide_eq_true in H end.
    rewrite scalar_no_extent in * by done. inv_ok.
    by destruct x0 as [| |[]| | | | | | | ].
Qed.

Lemma fill_accepted `{!TVMLaws} f call :
  match f with FFill _ _ | FClear _ => True | _ => False end →
  front_ok lets f = true → run_front lets f = Ok call → accepted call = true.
Proof.
  destruct f; try done; intros _ Hok Hr; simpl in Hok, Hr.
  - unfold npuir_fill in Hr. destruct buffer; try done; destruct (is_PrimExpr v); try done;
      by eapply brc_accepted.
  - unfold npuir_clear in Hr. rewrite tvm_const_int in Hr by done. simpl in Hr.
    unfold npuir_fill in Hr. destruct buffer as [| |[]| | | | | | | ]; try done; simpl in Hr;
      eapply brc_accepted; try exact Hr; simpl; by rewrite Hok.
Qed.

Lemma parse_one z : int32 z = true → parse_ints (str_of_Z z) = Some [z].
Proof. intros. apply (parse_join_ints [z]). by constructor. Qed.

Lemma ints_accepted l : forallb int32 l = true → accept_arg KInts (VStr (join (str_of_Z <$> l))) = true.
Proof.
  intros Hl. apply bool_decide_eq_true. rewrite parse_join_ints; [done|].
  apply Forall_forall. intros z Hz. eapply forallb_forall in Hl; [done|]. by apply list_elem_of_In.
Qed.

Lemma cumsum_accepted a b dim rev call :
  front_ok lets (FCumsum a b dim rev) = true →
  npuir_cumsum lets a b dim rev = Ok call → accepted call = true.
Proof.
  simpl. intros Hok Hr. accept_prep. destruct a as [ba| | | | | | | | | ]; try done.
  unfold npuir_cumsum in Hr. simpl in Hr. destruct (_ || _) eqn:E; [done|].
  assert (∃ bb, default (VBuffer ba) b = VBuffer bb ∧ tile_ok (VBuffer bb) = true) as (bb & Hbb & Ht).
  { destruct b as [[]|]; simpl in *; inv_ok; try done; eauto. }
  rewrite Hbb in Hr. simpl in Hr. inv_ok.
  assert (∀ c a, tile_ok (VBuffer c) = true →
    accept_arg KRegion (_buffer_to_tile_region_with_extent c a (VExpr <$> buf_shape c)) = true) as Hc.
  { intros. by apply (own_region_accepted (VBuffer c)). }
  eapply accepted_intro; [reflexivity|reflexivity|]. simpl. rewrite !andb_true_iff.
  repeat split; try by apply Hc.
  apply bool_decide_eq_true. rewrite parse_one; [done|].
  unfold tile_rank, len in *. simpl in *. unfold int32. apply andb_true_iff.
  split; [apply Z.leb_le|apply Z.ltb_lt]; destruct (dim <? 0) eqn:?; lia.
Qed.

Lemma arange_print_accepted f call :
  match f with FArange _ _ _ | FPrint _ _ _ => True | _ => False end →
  front_ok lets f = true → run_front lets f = Ok call → accepted call = true.
Proof.
  destruct f; try done; intros _ Hok Hr; simpl in Hok, Hr.
  - unfold npuir_arange in Hr. accept_prep.
    eapply accepted_intro; [reflexivity|reflexivity|]. simpl. rewrite !andb_true_iff.
    split; [by apply own_region_accepted|]. rewrite forallb_app. simpl.
    by rewrite !andb_true_iff.
  - unfold npuir_print in Hr.
    destruct obj as [b|b r|[| | | | |b idx|]| | | | | | | ]; try done; simpl in Hok;
      rewrite ?orb_false_r in Hok; [case_match; [|done]| | |]; accept_solve.
Qed.

(** ** Variadic operators *)

Lemma unpack_last_elem args srcs dst :
  unpack_last args = Ok (srcs, dst) → (∀ x, x ∈ srcs → x ∈ args) ∧ dst ∈ args.
Proof.
  unfold unpack_last. intros Hu. inv_ok. destruct (last args) eqn:E; inv_ok.
  apply last_Some in E as [l ->]. rewrite removelast_last. set_solver.
Qed.

Lemma sized_all size l x : forallb (sized size) l = true → x ∈ l → sized size x = true.
Proof. intros Hl Hx. eapply forallb_forall in Hl; [done|]. by apply list_elem_of_In. Qed.

Lemma vmath_accepted op args size call :
  front_ok lets (FVmath op args size) = true →
  vmath lets op args size = Ok call → accepted call = true.
Proof.
  simpl. intros [Hop Hall]%andb_true_iff Hr. unfold vmath in Hr.
  apply bind_Ok in Hr as ([srcs dst] & Hu & Hr).
  destruct (unpack_last_elem _ _ _ Hu) as [Hin Hd]. pose proof (sized_all _ _ _ Hall Hd) as Hsd.
  apply bind_Ok in Hr as (vs & Hvs & Hr).
  rewrite to_region_tile in Hr by (by eapply sized_tile). simpl in Hr. injection Hr as <-.
  eapply accepted_intro; [by apply find_vmath|reflexivity|]. simpl.
  apply andb_true_iff. split; [by apply sized_region_accepted|].
  eapply mmap_accepted; [|done]. intros v w Hv Hw. apply bind_Ok in Hw as (u & _ & Hw).
  pose proof (sized_all _ _ _ Hall (Hin _ Hv)) as Hsx.
  rewrite to_region_tile in Hw by (by eapply sized_tile). injection Hw as <-.
  by apply sized_region_accepted.
Qed.

Lemma scale_last_length f size s :
  scale_last f (Some size) = Ok s → length s = length size.
Proof.
  unfold scale_last. intros Hs. apply bind_Ok in Hs as (x & Hx & Hs).
  apply bind_Ok in Hs as (y & _ & Hs). injection Hs as <-.
  assert (∃ l z, size = l ++ [z]) as (l & z & ->).
  { destruct size using rev_ind; [done|eauto]. }
  by rewrite py_to_last, !length_app.
Qed.

(** The extents a scaled size gives to the other side. *)
Lemma scaled_accepted f size v a s :
  sized size v = true → scale_last f size = Ok s →
  accept_arg KRegion
    (operand_of v a (match size with None => _get_extent lets v | Some _ => s end)) = true.
Proof.
  intros Hv Hs. pose proof (sized_tile _ _ Hv). unfold sized in Hv. inv_ok.
  destruct size as [k|]; [|by apply own_region_accepted].
  apply region_accepted; [done|]. erewrite extents_ok_length; [done|]. by eapply scale_last_length.
Qed.

Lemma interleave_accepted args c size call :
  front_ok lets (FInterleave args c size) = true →
  npuir_interleave lets args c size = Ok call → accepted call = true.
Proof.
  simpl. intros Hall Hr. unfold npuir_interleave in Hr.
  apply bind_Ok in Hr as ([srcs dst] & Hu & Hr).
  destruct (unpack_last_elem _ _ _ Hu) as [Hin Hd]. pose proof (sized_all _ _ _ Hall Hd) as Hsd.
  apply bind_Ok in Hr as (ds & Hds & Hr).
  rewrite to_region_tile in Hr by (by eapply sized_tile). simpl in Hr.
  apply bind_Ok in Hr as (vs & Hvs & Hr). injection Hr as <-.
  eapply accepted_intro; [reflexivity|reflexivity|]. simpl. rewrite !andb_true_iff.
  split; [by eapply scaled_accepted|].
  eapply mmap_accepted; [|done]. unfold ranked_region. intros v w Hv Hw.
  apply bind_Ok in Hw as (u & _ & Hw). pose proof (sized_all _ _ _ Hall (Hin _ Hv)) as Hsx.
  rewrite to_region_tile in Hw by (by eapply sized_tile). injection Hw as <-.
  by apply sized_region_accepted.
Qed.

Lemma deinterleave_accepted args c mode size call :
  front_ok lets (FDeinterleave args c mode size) = true →
  npuir_deinterleave lets args c mode size = Ok call → accepted call = true.
Proof.
  simpl. intros Hall Hr. destruct args as [|src dsts]; [done|]. simpl in Hr.
  apply andb_true_iff in Hall as [Hs Hall].
  rewrite to_region_tile in Hr by (by eapply sized_tile).
  repeat (let x := fresh "x" in let E := fresh "E" in apply bind_Ok in Hr as (x & E & Hr)).
  injection Hr as <-. eapply accepted_intro; [reflexivity|reflexivity|]. simpl.
  rewrite !andb_true_iff. repeat split; try done.
  - simplify_eq; by apply sized_region_accepted.
  - eapply mmap_accepted; [|done]. intros v w Hv Hw. apply bind_Ok in Hw as (u & _ & Hw).
    pose proof (sized_all _ _ _ Hall Hv) as Hsx.
    rewrite to_region_tile in Hw by (by eapply sized_tile). injection Hw as <-.
    by eapply scaled_accepted.
Qed.

(** The list that holds the size keeps its length while the sources are
    converted, and the let stack is not touched. *)
Definition holds (l : option nat) (k : nat) (s : fe) : Prop :=
  match l with
  | Some l => ∃ size, fe_heap s !! l = Some size ∧ length size = k
  | None => True
  end.

(** Whatever size of the right length a tile is given, it is a region. *)
Definition fits (l : option nat) (k : nat) (v : value) : Prop :=
  tile_ok v = true ∧
  match l with Some _ => ∀ size, length size = k → extents_ok v size = true | None => True end.

Lemma list_copy_Ok l s k s' :
  list_copy l s = (Ok k, s') → fe_heap s !! l = Some k ∧ s' = s.
Proof.
  unfold list_copy. intros (h & sa & Hg & H1)%prog_bind_Ok. unfold get in Hg. injection Hg as <- <-.
  unfold lift in H1. injection H1 as H1 <-. by destruct (fe_heap s !! l); simplify_eq/=.
Qed.

Lemma fits_accepted l k v a s ext s1 :
  fits l k v → holds l k s →
  match l with
  | None => mret (_get_extent lets v)
  | Some l => list_copy l
  end s = (Ok ext, s1) →
  accept_arg KRegion (operand_of v a ext) = true ∧ s1 = s.
Proof.
  intros [Ht Hf] Hh. destruct l as [l|].
  - destruct Hh as (size & Hl & Hk). intros [He ->]%list_copy_Ok. split; [|done].
    apply region_accepted; [done|]. apply Hf. congruence.
  - intros [= <- <-]. split; [|done]. by apply own_region_accepted.
Qed.

Lemma bump_holds l k i n s u s1 :
  holds (Some l) k s →
  (k0 ← list_copy l; x ← lift (py_index k0 i); y ← lift (py_arith OpMul x (VInt n));
   list_set l i y) s = (Ok u, s1) →
  holds (Some l) k s1 ∧ fe_lets s1 = fe_lets s.
Proof.
  intros (size & Hl & Hk) (k0 & sa & [Hk0 ->]%list_copy_Ok & H1)%prog_bind_Ok.
  apply prog_bind_Ok in H1 as (x & sb & Hx & H1). unfold lift in Hx. injection Hx as _ <-.
  apply prog_bind_Ok in H1 as (y & sc & Hy & H1). unfold lift in Hy. injection Hy as _ <-.
  unfold list_set in H1. apply prog_bind_Ok in H1 as (k1 & sd & [Hk1 ->]%list_copy_Ok & H1).
  apply prog_bind_Ok in H1 as (k' & se & He & H1). unfold lift in He. injection He as He <-.
  unfold modify in H1. injection H1 as _ <-. split; [|done]. exists k'. cbn.
  split; [by rewrite lookup_insert_eq|]. rewrite (py_setitem_length _ _ _ _ He). congruence.
Qed.

Lemma concat_srcs_accepted dst dim n l k srcs i s vs s1 :
  Forall (fits l k) srcs → holds l k s → fe_lets s = lets →
  concat_srcs dst dim n l i srcs s = (Ok vs, s1) →
  forallb (accept_arg KRegion) vs = true ∧ holds l k s1 ∧ fe_lets s1 = lets.
Proof.
  intros Hall. revert i s vs s1. induction Hall as [|src srcs Hsrc _ IH]; intros i s vs s1 Hh Hlets.
  - simpl. by intros [= <- <-].
  - cbn [concat_srcs]. intros (ls & sa & Hg & Hr)%prog_bind_Ok.
    unfold get_lets, mbind, prog_bind, get, mret, prog_ret in Hg. injection Hg as <- <-.
    rewrite Hlets in Hr. apply prog_bind_Ok in Hr as (ext & sb & He & Hr).
    destruct (fits_accepted l k src R s ext sb Hsrc Hh He) as [Ha ->].
    apply prog_bind_Ok in Hr as (u & sc & Hp & Hr). unfold lift in Hp. injection Hp as _ <-.
    apply prog_bind_Ok in Hr as (r & sd & Ht & Hr). unfold lift in Ht. injection Ht as Ht <-.
    rewrite to_region_tile in Ht by apply Hsrc. injection Ht as <-.
    apply prog_bind_Ok in Hr as (w & se & Hb & Hr).
    assert (holds l k se ∧ fe_lets se = lets) as [Hhe Hle].
    { destruct l as [l|]; [|by injection Hb as _ <-]. destruct (i =? dim); [|by injection Hb as _ <-].
      destruct (bump_holds _ _ _ _ _ _ _ Hh Hb) as [? ->]. done. }
    apply prog_bind_Ok in Hr as (rest & sf & Hrest & Hr). injection Hr as <- <-.
    destruct (IH _ _ _ _ Hhe Hle Hrest) as (Hrs & Hhf & Hlf). cbn [forallb]. by rewrite Ha, Hrs.
Qed.

Lemma concat_accepted srcs dst dim size call :
  front_ok lets (FConcat srcs dst dim size) = true →
  concat_call lets srcs dst dim size = Ok call → accepted call = true.
Proof.
  simpl. intros [Hd Hall]%andb_true_iff. unfold concat_call.
  set (s := FE _ _ _ _ _). set (l := (λ _, 0%nat) <$> size). set (k := length (default [] size)).
  assert (holds l k s) as Hh.
  { destruct size as [size|]; [|done]. exists size. split; [apply lookup_singleton_eq|done]. }
  assert (∀ v, sized size v = true → fits l k v) as Hfit.
  { intros v Hv. split; [by eapply sized_tile|]. destruct size as [size|]; [|done].
    unfold sized in Hv. inv_ok. intros k' Hk'. by erewrite extents_ok_length. }
  destruct (npuir_concat srcs dst dim l s) as [r s'] eqn:E. simpl. intros ->.
  unfold npuir_concat in E. apply prog_bind_Ok in E as (vs & s1 & Hc & Hr).
  destruct (concat_srcs_accepted dst dim (len srcs) l k srcs 0 s vs s1) as (Hvs & Hh1 & Hl1); try done.
  { apply Forall_forall. intros v Hv. apply Hfit. by eapply sized_all. }
  apply prog_bind_Ok in Hr as (ls & sa & Hg & Hr).
  unfold get_lets, mbind, prog_bind, get, mret, prog_ret in Hg. injection Hg as <- <-.
  rewrite Hl1 in Hr. apply prog_bind_Ok in Hr as (ext & sb & He & Hr).
  destruct (fits_accepted l k dst W s1 ext sb (Hfit _ Hd) Hh1 He) as [Ha ->].
  apply prog_bind_Ok in Hr as (r & sd & Ht & Hr). unfold lift in Ht. injection Ht as Ht <-.
  rewrite to_region_tile in Ht by (by eapply sized_tile). injection Ht as <-.
  injection Hr as <- _. eapply accepted_intro; [reflexivity|reflexivity|]. simpl. by rewrite Ha, Hvs.
Qed.

(** A size override of [transpose] and [pad] gets through only when empty. *)
Lemma fill_empty_Ok size rhs check s : fill_empty size rhs check = Ok s → size = [] ∧ s = [].
Proof.
  destruct size as [|x size]; [by intros [= <-]|].
  destruct (fill_empty_raises x size rhs check) as [e He]. by rewrite He.
Qed.

Lemma transpose_accepted a b p size call :
  front_ok lets (FTranspose a b p size) = true →
  npuir_transpose lets a b p size = Ok call → accepted call = true.
Proof.
  intros Hok Hr. assert (sized size a = true ∧ sized size b = true ∧
    match p with Some p => forallb int32 p = true | None => True end) as (Ha & Hb & Hp).
  { destruct p; simpl in Hok; inv_ok; done. }
  unfold npuir_transpose in Hr. apply bind_Ok in Hr as (ds & Hds & Hr).
  apply bind_Ok in Hr as (u & _ & Hr).
  rewrite !to_region_tile in Hr by (by eapply sized_tile). simpl in Hr.
  destruct p as [p|]; [|done]. simpl in Hr. injection Hr as <-.
  eapply accepted_intro; [reflexivity|reflexivity|]. simpl. rewrite !andb_true_iff.
  split; [by apply sized_region_accepted|]. split; [|by rewrite ints_accepted].
  destruct size as [k|]; [|by apply own_region_accepted; eapply sized_tile].
  apply fill_empty_Ok in Hds as [-> ->]. by apply (sized_region_accepted _ _ (Some [])).
Qed.

(** ** Padding: what the compiler reads back *)

Record pad_op := PadOp {
  po_src : region_op; po_dst : region_op; po_value : value; po_dim : Z;
  po_s_low : list Z; po_s_high : list Z; po_low : list value; po_high : list value;
}.

(** [NpuirPad::NpuirPad]. *)
Definition NpuirPad (args : list value) : option pad_op :=
  match args with
  | src :: dst :: v :: dim :: VStr sl :: VStr sh :: nd :: dynamic =>
      src' ← decode_region src; dst' ← decode_region dst; d ← as_const_int dim;
      s_low ← parse_ints sl; s_high ← parse_ints sh; n ← as_const_int nd;
      Some (PadOp src' dst' v d s_low s_high
              (take (Z.to_nat n) dynamic) (drop (Z.to_nat n) dynamic))
  | _ => None
  end.

(** The static amount of a padding, 0 for a variable one. *)
Definition static_int (v : value) : Z := match v with VInt z => z | _ => 0 end.

Lemma static_ints l :
  forallb amount_ok l = true →
  str_static <$> (static_amount <$> l) = str_of_Z <$> (static_int <$> l) ∧
  Forall (λ z, int32 z = true) (static_int <$> l).
Proof.
  induction l as [|v l IH]; [done|]. intros [Hv Hl]%andb_true_iff.
  destruct (IH Hl) as [IH1 IH2]. rewrite !fmap_cons, IH1.
  destruct v as [| |[]| | | | | | | ]; try done; split; try done; by constructor.
Qed.

(** C19: a call [T.npuir_pad] returns is read back by the compiler as the
    operands' regions, the static amounts (0 for a variable one) and the
    variable amounts of the low and the high side; the dimension it names is the
    only one that is padded, and it is -1 only when none is. *)
Theorem npuir_pad_roundtrip a b v low high call :
  front_ok lets (FPad a b v low high None) = true →
  npuir_pad lets a b v low high None = Ok call →
  ∃ args ra rb dim,
    call = VCall "tl.npuir_pad" args ∧
    decode_region (operand_of a R (_get_extent lets a)) = Some ra ∧
    decode_region (operand_of b W (_get_extent lets b)) = Some rb ∧
    NpuirPad args = Some (PadOp ra rb v dim (static_int <$> low) (static_int <$> high)
                            (filter is_Var low) (filter is_Var high)) ∧
    (∀ j l h, low !! j = Some l → high !! j = Some h → Z.of_nat j ≠ dim → pads l h = Ok false).
Proof.
  simpl. intros Hok Hr. accept_prep. unfold npuir_pad in Hr. simpl in Hr.
  rewrite !to_region_tile in Hr by done. simpl in Hr.
  repeat (let E := fresh "E" in apply bind_Ok in Hr as (? & E & Hr)).
  injection Hr as <-. unfold zip_strict in E2. case_decide as Hl; inv_ok.
  apply pad_fold_inv in E3 as (Hsl & Hsh & Hn & Hdyn & Hp).
  rewrite fst_zip in * by lia. rewrite snd_zip in * by lia.
  rewrite forallb_app in *. inv_ok.
  destruct (static_ints low) as [Hlow1 Hlow2]; [done|].
  destruct (static_ints high) as [Hhigh1 Hhigh2]; [done|].
  destruct (operand_of_describes a R (_get_extent lets a)) as (ba & _ & _ & Ha);
    [done|by apply own_extents_ok|].
  destruct (operand_of_describes b W (_get_extent lets b)) as (bb & _ & _ & Hb);
    [done|by apply own_extents_ok|].
  do 4 eexists. split; [done|]. split; [exact Ha|]. split; [exact Hb|]. split.
  - simpl. rewrite Ha, Hb, Hsl, Hsh, Hlow1, Hhigh1. simpl.
    rewrite !parse_join_ints by done. simpl. rewrite Hn, Hdyn. unfold len.
    by rewrite Nat2Z.id, take_app_length, drop_app_length.
  - intros j l h Hlj Hhj Hne. assert (zip low high !! j = Some (l, h)) as Hz.
    { apply lookup_zip_with_Some. eauto. }
    destruct Hp as [[_ Hall]|[_ Hall]]; [|by apply (Hall _ _ Hz)].
    rewrite Forall_lookup in Hall. by apply (Hall _ _ Hz).
Qed.

Lemma ints_accepted_static l :
  forallb amount_ok l = true →
  accept_arg KInts (VStr (join (str_static <$> (static_amount <$> l)))) = true.
Proof.
  intros [-> Hl]%static_ints. apply bool_decide_eq_true. by rewrite parse_join_ints.
Qed.

Lemma vars_accepted l : forallb (accept_arg KExpr) (filter is_Var l) = true.
Proof.
  apply forallb_forall. intros v Hv%list_elem_of_In%list_elem_of_filter.
  destruct Hv as [Hv _]. by destruct v as [| |[]| | | | | | | ].
Qed.

Lemma pad_accepted a b v low high size call :
  front_ok lets (FPad a b v low high size) = true →
  npuir_pad lets a b v low high size = Ok call → accepted call = true.
Proof.
  simpl. intros Hok Hr. accept_prep. rewrite forallb_app in *. inv_ok.
  unfold npuir_pad in Hr. apply bind_Ok in Hr as (ds & Hds & Hr).
  rewrite !to_region_tile in Hr by done. simpl in Hr.
  repeat (let E := fresh "E" in apply bind_Ok in Hr as (? & E & Hr)).
  injection Hr as <-. unfold zip_strict in E2. case_decide as Hl; inv_ok.
  apply pad_fold_inv in E3 as (Hsl & Hsh & _ & Hdyn & _).
  rewrite fst_zip in * by lia. rewrite snd_zip in * by lia.
  eapply accepted_intro; [reflexivity|reflexivity|]. simpl. rewrite Hsl, Hsh, Hdyn, !andb_true_iff.
  repeat split; try done; try (by apply ints_accepted_static); try (by apply sized_region_accepted).
  - destruct size as [k|]; [|by apply own_region_accepted].
    apply fill_empty_Ok in Hds as [-> ->]. by apply (sized_region_accepted _ _ (Some [])).
  - by rewrite forallb_app, !vars_accepted.
Qed.


(** A variable that a [let] binds to a region is documented as an operand, but
    [_to_region] returns what it is bound to as it is, so that the call holds no
    descriptor where the constructor requires one. *)
Theorem let_operand_refused op n name dt b r dst :
  py_in op unary_ops = true → tile_ok dst = true →
  get_let_value lets n = Some (VRegion b r) →
  ∃ call, AscendUnaryOp lets op (VExpr (Var n name dt)) dst = Ok call ∧ accepted call = false.
Proof.
  intros Hop Hd Hv. unfold AscendUnaryOp.
  assert (∀ a e, _to_region lets (VExpr (Var n name dt)) a e = Ok (VRegion b r)) as Hlet.
  { intros a e. unfold _to_region, let_bound. by rewrite Hv. }
  eexists. split; [rewrite Hlet, to_region_tile by done; simpl; reflexivity|].
  unfold call_intrin, accepted. by rewrite find_unary.
Qed.

(** ** Reductions: the dimensions the compiler reads back *)

(** The list [reduce_dims] of [NpuirReduce]: a negative axis counts from the
    rank of the source buffer. *)
Definition NpuirReduce_dims (args : list value) : option (list Z) :=
  match args with
  | src :: _ :: VStr dims :: _ =>
      match decode_region src, parse_ints dims with
      | Some r, Some l =>
          let src_rank := len (buf_shape (ro_buffer r)) in
          Some ((λ axis, if axis <? 0 then axis + src_rank else axis) <$> l)
      | _, _ => None
      end
  | _ => None
  end.

(** C21: the dimensions of a clearing reduction, given as one int or a list,
    negative ones included, are the axes of the source buffer the compiler
    reduces. *)
Theorem reduce_dims_roundtrip env src dst dims mode s s' :
  tile_ok src = true → tile_ok dst = true → Forall (λ d, int32 d = true) (dims_list dims) →
  npuir_reduce env src dst dims mode None true s = (Ok tt, s') →
  ∃ args, last (fe_stmts s') = Some (VCall "tl.npuir_reduce" args) ∧
    NpuirReduce_dims args =
      Some ((λ d, if d <? 0 then d + Z.of_nat (tile_rank src) else d) <$> dims_list dims).
Proof.
  intros Hs Hd Hi Hr. rewrite npuir_reduce_guarded in Hr by done.
  destruct (reduce_guard _ _ _ _ _); [|done]. injection Hr as <-.
  eexists. split; [by apply last_snoc|].
  destruct (operand_of_describes src R (_get_extent (fe_lets s) src)) as (b & Hb & _ & Hdec);
    [done|by apply own_extents_ok|].
  unfold reduce_call, own_operand, NpuirReduce_dims. rewrite Hdec. simpl.
  rewrite parse_join_ints by done. simpl. unfold tile_rank. by rewrite Hb.
Qed.

End acceptance.

(** ** Evaluation on concrete operands *)

Module AscendOpsEx.
Import ConstTVM NpuirReduceEx.

Definition n : value := VExpr (Var 9 "n" "int32").

Lemma npuir_pad_roundtrip_witness :
  ∃ args ra rb,
    npuir_pad FrameStack.init (VBuffer A) (VBuffer A) (VInt 0) [VInt 0; n] [VInt 0; VInt 3] None =
      Ok (VCall "tl.npuir_pad" args) ∧
    NpuirPad args = Some (PadOp ra rb (VInt 0) 1 [0; 0] [0; 3] [n] []).
Proof.
  destruct (npuir_pad_roundtrip FrameStack.init (VBuffer A) (VBuffer A) (VInt 0)
              [VInt 0; n] [VInt 0; VInt 3] _ eq_refl eq_refl) as (args & ra & rb & dim & Hc & _ & _ & Hp & _).
  exists args, ra, rb. split; [rewrite <- Hc; reflexivity|].
  injection Hc as <-. rewrite Hp. vm_compute in Hp. injection Hp as <- <- <-. reflexivity.
Defined.


(** [with T.let(x, A[0:4, 0:8]): T.npuir_exp(x, A)]. *)
Example let_operand_refused_ex :
  ∃ call, AscendUnaryOp ScopeEx.two "exp" (VExpr (Var 11 "x" "handle")) (VBuffer A) = Ok call ∧
    accepted call = false.
Proof.
  by eapply (let_operand_refused ScopeEx.two "exp" 11 "x" "handle" ScopeEx.A ScopeEx.ranges).
Qed.

(** [T.npuir_concat(A, A, A, 0, size=[16, 64])]. *)
Example concat_accepted_ex :
  ∃ call, run_front FrameStack.init
            (FConcat [VBuffer A; VBuffer A] (VBuffer A) 0 (Some [VInt 16; VInt 64])) = Ok call ∧
    accepted call = true.
Proof. eexists. split; [vm_compute; reflexivity|vm_compute; reflexivity]. Qed.

Lemma reduce_dims_roundtrip_witness :
  let s' := (npuir_reduce None (VBuffer A) (VBuffer O) (DList [-1; 0]) "sum" None true s0).2 in
  ∃ args, last (fe_stmts s') = Some (VCall "tl.npuir_reduce" args) ∧ NpuirReduce_dims args = Some [1; 0].
Proof.
  exact (reduce_dims_roundtrip None (VBuffer A) (VBuffer O) (DList [-1; 0]) "sum" s0 _
           eq_refl eq_refl ltac:(repeat constructor) eq_refl).
Defined.

End AscendOpsEx.
