(* ===== verification/BestFit.v ===== *)
(** * The best-fit allocator of the carver

    [src/tilelang/carver/roller/bestfit.py]: [Block] and [BestFit], the
    address-space allocator the roller policies size shared memory with.
    Blocks are objects: the list holds references and a caller keeps the
    reference [malloc] gave it, so every block has an identity. *)
From stdpp Require Import base strings gmap numbers relations list.
From S2P Require Import Prelude.

Record Block := MkBlock {
  bid : nat;
  start : Z;
  end_ : Z;
  is_free : bool;
}.

Definition size (b : Block) : Z := end_ b - start b.

(** [self.merge(other)], its assertion included. *)
Definition merge (b other : Block) : res Block :=
  py_assert (bool_decide (is_free b = is_free other));;
  Ok (MkBlock (bid b) (Z.min (start b) (start other)) (Z.max (end_ b) (end_ other)) (is_free b)).

Record BestFit := MkBestFit {
  limit : Z;
  list_ : list Block;
  align : Z;
  fresh : nat;   (* the identity of the next block object *)
}.

Definition init (align : Z) : BestFit := MkBestFit 0 [] align 0.

(** [(size + align - 1) // align * align]. *)
Definition round_up (size align : Z) : Z := (size + align - 1) / align * align.

(** One iteration of the search: the smallest free block that is large enough,
    the first of them among equals. *)
Definition better (sz : Z) (found : option Block) (b : Block) : bool :=
  is_free b && (sz <=? size b) &&
  match found with None => true | Some f => size b <? size f end.

Definition find_best (sz : Z) (l : list Block) : option Block :=
  foldl (λ found b, if better sz found b then Some b else found) None l.

(** [found.is_free = False], and the remainder split off behind it. *)
Fixpoint alloc_at (new : nat) (i : nat) (sz : Z) (l : list Block) : list Block :=
  match l with
  | [] => []
  | b :: l' =>
      if decide (bid b = i) then
        let remain := size b - sz in
        if remain =? 0 then MkBlock i (start b) (end_ b) false :: l'
        else MkBlock i (start b) (end_ b - remain) false ::
             MkBlock new (end_ b - remain) (end_ b - remain + remain) true :: l'
      else b :: alloc_at new i sz l'
  end.

(** [malloc]: the identity of the block it returns. *)
Definition malloc (sz : Z) : prog BestFit nat := λ s,
  if align s =? 0 then (Raise ZeroDivisionError, s)
  else
    let sz := round_up sz (align s) in
    match find_best sz (list_ s) with
    | Some found =>
        (Ok (bid found),
         MkBestFit (limit s) (alloc_at (fresh s) (bid found) sz (list_ s)) (align s) (S (fresh s)))
    | None =>
        match last (list_ s) with
        | Some b =>
            if is_free b then
              let add := sz - size b in
              (Ok (bid b),
               MkBestFit (end_ b + add)
                 (removelast (list_ s) ++ [MkBlock (bid b) (start b) (end_ b + add) false])
                 (align s) (fresh s))
            else
              (Ok (fresh s),
               MkBestFit (limit s + sz)
                 (list_ s ++ [MkBlock (fresh s) (limit s) (limit s + sz) false])
                 (align s) (S (fresh s)))
        | None =>
            (Ok (fresh s),
             MkBestFit (limit s + sz)
               (list_ s ++ [MkBlock (fresh s) (limit s) (limit s + sz) false])
               (align s) (S (fresh s)))
        end
    end.

(** The block a reference denotes with what is before and after it in the list
    ([self.list.index(block)]). *)
Fixpoint split_at (i : nat) (l : list Block) : option (list Block * Block * list Block) :=
  match l with
  | [] => None
  | b :: l' =>
      if decide (bid b = i) then Some ([], b, l')
      else match split_at i l' with
           | Some (pre, c, post) => Some (b :: pre, c, post)
           | None => None
           end
  end.

(** Merging with a free successor, then with a free predecessor. *)
Definition merge_next (b : Block) (post : list Block) : res (Block * list Block) :=
  match post with
  | n :: post' => if is_free n then b' ← merge b n; Ok (b', post') else Ok (b, post)
  | [] => Ok (b, post)
  end.
Definition merge_prev (pre : list Block) (b : Block) : res (list Block * Block) :=
  match last pre with
  | Some p => if is_free p then b' ← merge b p; Ok (removelast pre, b') else Ok (pre, b)
  | None => Ok (pre, b)
  end.

(** [free] of a reference [malloc] returned.  A reference that has left the
    list still denotes an object that is not free: the assertion holds and
    [list.index] raises. *)
Definition free (i : nat) : prog BestFit unit := λ s,
  match split_at i (list_ s) with
  | None => (Raise ValueError, s)
  | Some (pre, b, post) =>
      if is_free b then (Raise AssertionError, s)
      else
        match ('(b1, post') ← merge_next (MkBlock (fresh s) (start b) (end_ b) true) post;
               '(pre', b2) ← merge_prev pre b1;
               Ok (pre' ++ b2 :: post')) with
        | Ok l => (Ok tt, MkBestFit (limit s) l (align s) (S (fresh s)))
        | Raise e => (Raise e, s)
        end
  end.

(** ** The invariant *)

(** The blocks tile the interval from [a] to [b], in order and in multiples of
    the alignment. *)
Fixpoint tiled (al a : Z) (l : list Block) (b : Z) : Prop :=
  match l with
  | [] => a = b
  | x :: l' => start x = a ∧ 0 ≤ size x ∧ (al | size x) ∧ tiled al (end_ x) l' b
  end.

(** No two neighbours are free; [prev]: the block in front of the list is. *)
Fixpoint no_adjacent (prev : bool) (l : list Block) : Prop :=
  match l with
  | [] => True
  | x :: l' => prev && is_free x = false ∧ no_adjacent (is_free x) l'
  end.

Definition last_free (prev : bool) (l : list Block) : bool :=
  match last l with Some x => is_free x | None => prev end.

Record Inv (s : BestFit) : Prop := {
  inv_align : 0 < align s;
  inv_tiled : tiled (align s) 0 (list_ s) (limit s);
  inv_adjacent : no_adjacent false (list_ s);
  inv_nodup : NoDup (bid <$> list_ s);
  inv_fresh : Forall (λ b, bid b < fresh s)%nat (list_ s);
}.

Lemma tiled_app al a l k b :
  tiled al a (l ++ k) b ↔ ∃ m, tiled al a l m ∧ tiled al m k b.
Proof.
  revert a. induction l as [|x l IH]; simpl; intros a; [naive_solver|].
  setoid_rewrite IH. naive_solver.
Qed.

Lemma tiled_bounds al a l b :
  tiled al a l b → a ≤ b ∧ ∀ x, x ∈ l → a ≤ start x ∧ start x ≤ end_ x ∧ end_ x ≤ b.
Proof.
  revert a. induction l as [|y l IH]; simpl; intros a.
  - intros ->. split; [lia|]. by intros x ?%not_elem_of_nil.
  - unfold size. intros (<- & Hs & _ & Ht). destruct (IH _ Ht) as [Hab Hl].
    split; [lia|]. intros x [->|Hx]%elem_of_cons; [lia|]. pose proof (Hl x Hx). lia.
Qed.

Lemma tiled_aligned al a l b : (al | a) → tiled al a l b → (al | b).
Proof.
  revert a. induction l as [|y l IH]; simpl; intros a Ha; [by intros <-|].
  intros (<- & _ & Hd & Ht). eapply IH; [|done].
  replace (end_ y) with (start y + size y) by (unfold size; lia). by apply Z.divide_add_r.
Qed.

Lemma no_adjacent_app p l k :
  no_adjacent p (l ++ k) ↔ no_adjacent p l ∧ no_adjacent (last_free p l) k.
Proof.
  revert p. induction l as [|x l IH]; simpl; intros p; [naive_solver|].
  rewrite IH. unfold last_free. rewrite last_cons.
  destruct (last l); naive_solver.
Qed.

Lemma last_free_snoc p l x : last_free p (l ++ [x]) = is_free x.
Proof. unfold last_free. by rewrite last_snoc. Qed.

Lemma no_adjacent_false p l : no_adjacent p l → no_adjacent false l.
Proof. destruct l; simpl; naive_solver. Qed.

Lemma no_adjacent_cons_false p x l : is_free x = false → no_adjacent p (x :: l) ↔ no_adjacent false l.
Proof. simpl. intros ->. rewrite andb_false_r. naive_solver. Qed.

(** ** The search *)

Lemma find_best_spec sz l :
  match find_best sz l with
  | Some f => f ∈ l ∧ is_free f = true ∧ sz ≤ size f ∧
              ∀ b, b ∈ l → is_free b = true → sz ≤ size b → size f ≤ size b
  | None => ∀ b, b ∈ l → is_free b = true → size b < sz
  end.
Proof.
  unfold find_best. induction l as [|x l IH] using rev_ind; simpl.
  { by intros b ?%not_elem_of_nil. }
  rewrite foldl_app. simpl. destruct (foldl _ None l) as [f|]; unfold better.
  - destruct IH as (Hin & Hf & Hs & Hmin).
    destruct (is_free x) eqn:Ex, (sz <=? size x) eqn:E1, (size x <? size f) eqn:E2; simpl;
      (split; [set_solver|]); (split; [done|]); (split; [lia|]);
      intros b [Hb|Hb]%elem_of_app Hbf Hbs;
      try (apply list_elem_of_singleton in Hb as ->);
      try (specialize (Hmin b Hb Hbf Hbs)); lia || congruence.
  - destruct (is_free x) eqn:Ex, (sz <=? size x) eqn:E1; simpl;
      try (split; [set_solver|split; [done|split; [lia|]]]);
      intros b [Hb|Hb]%elem_of_app Hbf;
      try (apply list_elem_of_singleton in Hb as ->);
      try (specialize (IH b Hb Hbf)); intros; lia || congruence.
Qed.

Lemma alloc_at_app new f sz l1 l2 :
  bid f ∉ bid <$> l1 →
  alloc_at new (bid f) sz (l1 ++ f :: l2) =
  l1 ++ MkBlock (bid f) (start f) (start f + sz) false ::
    (if size f - sz =? 0 then [] else [MkBlock new (start f + sz) (end_ f) true]) ++ l2.
Proof.
  induction l1 as [|x l1 IH]; simpl; intros Hn.
  - rewrite decide_True by done. unfold size in *. destruct (_ =? 0) eqn:E; simpl.
    + by replace (start f + sz) with (end_ f) by lia.
    + f_equal; [f_equal; lia|]. f_equal. f_equal; lia.
  - apply not_elem_of_cons in Hn as [Hx Hn]. rewrite decide_False by done. by rewrite IH.
Qed.

Lemma split_at_Some i l pre b post :
  split_at i l = Some (pre, b, post) → l = pre ++ b :: post ∧ bid b = i.
Proof.
  revert pre. induction l as [|x l IH]; simpl; intros pre; [done|].
  case_decide; [naive_solver|]. destruct (split_at i l) as [[[p c] q]|]; [|done].
  intros [= <- <- <-]. by destruct (IH _ eq_refl) as [-> ->].
Qed.

Lemma split_at_elem i l : i ∈ bid <$> l ↔ is_Some (split_at i l).
Proof.
  induction l as [|x l IH]; simpl; [split; [by intros ?%not_elem_of_nil|by intros []]|].
  rewrite elem_of_cons. case_decide; [naive_solver|].
  destruct (split_at i l) as [[[]]|]; split; naive_solver.
Qed.

Lemma round_up_spec sz al :
  0 < al → sz ≤ round_up sz al < sz + al ∧ (al | round_up sz al).
Proof.
  intros Hal. split; [exact (ceil_div_spec sz al Hal)|]. unfold round_up. apply Z.divide_factor_r.
Qed.

(** ** Allocation *)

(** The reference [i] denotes the allocated interval from [a] to [b]. *)
Definition live (s : BestFit) (i : nat) (a b : Z) : Prop := MkBlock i a b false ∈ list_ s.

Lemma live_elem s x : is_free x = false → x ∈ list_ s ↔ live s (bid x) (start x) (end_ x).
Proof. unfold live. destruct x; simpl. by intros ->. Qed.

(** The list after [malloc]: the new block between what was and what is left. *)
Definition malloc_post (s : BestFit) (sz : Z) (i : nat) (s' : BestFit) : Prop :=
  ∃ l nb k,
    list_ s' = l ++ nb :: k ∧ bid nb = i ∧ is_free nb = false ∧ size nb = round_up sz (align s) ∧
    align s' = align s ∧ limit s ≤ limit s' ∧
    (∀ x, is_free x = false → x ∈ l ++ k ↔ x ∈ list_ s) ∧
    (∀ x, x ∈ list_ s → is_free x = false → bid x ≠ i).

Lemma NoDup_bid_inj l x y : NoDup (bid <$> l) → x ∈ l → y ∈ l → bid x = bid y → x = y.
Proof.
  intros Hnd [i Hi]%list_elem_of_lookup [j Hj]%list_elem_of_lookup He.
  eapply (NoDup_lookup _ i j) in Hnd;
    [|by rewrite list_lookup_fmap, Hi|by rewrite list_lookup_fmap, Hj, He].
  simplify_eq. done.
Qed.

Lemma fresh_not_in n l : Forall (λ b, bid b < n)%nat l → n ∉ bid <$> l.
Proof.
  intros Hf (x & -> & Hx)%list_elem_of_fmap. rewrite Forall_forall in Hf.
  specialize (Hf x Hx). simpl in Hf. lia.
Qed.

(** Replacing a block of the list by a block of the same identity and a
    remainder with a new one. *)
Lemma Inv_split s l f k r :
  Inv s → list_ s = l ++ f :: k → is_free f = true → 0 ≤ r ≤ size f → (align s | r) →
  Inv (MkBestFit (limit s)
         (l ++ MkBlock (bid f) (start f) (start f + r) false ::
            (if size f - r =? 0 then [] else [MkBlock (fresh s) (start f + r) (end_ f) true]) ++ k)
         (align s) (S (fresh s))).
Proof.
  intros [Hal Ht Ha Hnd Hfr] Hl Hfree Hr Hdiv. rewrite Hl in *.
  apply tiled_app in Ht as (m & Ht1 & Hm & Hs & Hd & Ht2).
  apply no_adjacent_app in Ha as [Ha1 [_ Ha2]]. rewrite Hfree in Ha2.
  rewrite fmap_app in Hnd. apply NoDup_app in Hnd as (Hnd1 & Hdisj & [Hnf Hnd2]%NoDup_cons).
  pose proof (fresh_not_in _ _ Hfr) as Hfresh. rewrite fmap_app, fmap_cons in Hfresh.
  split; simpl; [done|..].
  - apply tiled_app. exists m. split; [done|]. simpl. unfold size in *. simpl.
    split; [done|]. split; [lia|]. split; [by replace (start f + r - start f) with r by lia|].
    destruct (_ =? 0) eqn:E; simpl; [by replace (start f + r) with (end_ f) by lia|].
    split; [done|]. split; [unfold size; simpl; lia|]. split; [|done]. unfold size; simpl.
    replace (end_ f - (start f + r)) with ((end_ f - start f) - r) by lia.
    by apply Z.divide_sub_r.
  - apply no_adjacent_app. split; [done|]. simpl. rewrite andb_false_r. split; [done|].
    destruct (_ =? 0); simpl; [by eapply no_adjacent_false|done].
  - rewrite fmap_app, fmap_cons, fmap_app. apply NoDup_app.
    destruct (_ =? 0); simpl; [split_and!; [done| |by constructor]; set_solver|].
    split_and!; [done|set_solver|]. constructor; [set_solver|]. constructor; [set_solver|done].
  - apply Forall_app in Hfr as [Hf1 [Hf2 Hf3]%Forall_cons_1].
    apply Forall_app. split; [eapply Forall_impl; [done|simpl; lia]|].
    constructor; [simpl; lia|]. apply Forall_app. split; [|eapply Forall_impl; [done|simpl; lia]].
    destruct (_ =? 0); repeat constructor.
Qed.

Lemma other_ids l f k x :
  NoDup (bid <$> l ++ f :: k) → x ∈ l ++ f :: k → is_free x = false → is_free f = true →
  bid x ≠ bid f ∧ x ∈ l ++ k.
Proof.
  intros Hnd Hx Hxf Hff. assert (x ≠ f) by congruence. split; [|set_solver].
  intros He. by eapply (NoDup_bid_inj _ x f) in He; [| |done|set_solver].
Qed.

Lemma malloc_found s sz f :
  Inv s → 0 ≤ sz → find_best (round_up sz (align s)) (list_ s) = Some f →
  ∃ s', malloc sz s = (Ok (bid f), s') ∧ Inv s' ∧ malloc_post s sz (bid f) s' ∧ limit s' = limit s.
Proof.
  intros HI Hsz Hf. pose proof (find_best_spec (round_up sz (align s)) (list_ s)) as Hs.
  rewrite Hf in Hs. destruct Hs as (Hin & Hfree & Hle & _).
  pose proof (inv_align _ HI). destruct (round_up_spec sz (align s)) as [Hr Hdiv]; [done|].
  unfold malloc. rewrite (proj2 (Z.eqb_neq _ _)) by lia. rewrite Hf.
  eexists. split; [done|]. apply list_elem_of_split in Hin as (l & k & Hl).
  pose proof (inv_nodup _ HI) as Hnd. rewrite Hl in Hnd |- *. rewrite alloc_at_app; cycle 1.
  { rewrite fmap_app in Hnd. apply NoDup_app in Hnd as (_ & Hd & _).
    intros Hb. eapply Hd; [done|by left]. }
  split; [apply Inv_split; by (done || lia)|]. split; [|done].
  eexists l, _, _. split; [done|]. simpl. unfold size; simpl. rewrite Hl.
  split_and!; try done; try lia.
  - intros x Hx. assert (x ∈ l ++ f :: k ↔ x ∈ l ++ k) as ->.
    { split; [|set_solver]. intros Hin. by eapply other_ids. }
    destruct (_ =? 0); [done|]. rewrite !elem_of_app, list_elem_of_singleton.
    split; [|naive_solver]. intros [?|[->|?]]; [by left|done|by right].
  - intros x Hin Hx. by eapply other_ids.
Qed.

Lemma malloc_extend s sz l b :
  Inv s → 0 ≤ sz → find_best (round_up sz (align s)) (list_ s) = None →
  list_ s = l ++ [b] → is_free b = true →
  ∃ s', malloc sz s = (Ok (bid b), s') ∧ Inv s' ∧ malloc_post s sz (bid b) s' ∧
    limit s' - limit s ≤ round_up sz (align s).
Proof.
  intros HI Hsz Hf Hl Hb. pose proof (find_best_spec (round_up sz (align s)) (list_ s)) as Hs.
  rewrite Hf in Hs. assert (size b < round_up sz (align s)) as Hlt.
  { apply Hs; [|done]. rewrite Hl. apply elem_of_app. right. by left. }
  destruct HI as [Hal Ht Ha Hnd Hfr]. destruct (round_up_spec sz (align s) Hal) as [Hr Hdiv].
  unfold malloc. rewrite (proj2 (Z.eqb_neq _ _)) by lia. rewrite Hf, Hl in *.
  rewrite last_snoc, Hb, removelast_last.
  apply tiled_app in Ht as (m & Ht1 & Hm & Hs0 & Hd & Hlim). simpl in Hlim.
  apply no_adjacent_app in Ha as [Ha1 Ha2].
  replace (end_ b + (round_up sz (align s) - size b)) with (start b + round_up sz (align s))
    by (unfold size; lia).
  eexists. split; [done|]. unfold size in *. split; [split; simpl; try done|split].
  - apply tiled_app. exists m. split; [done|]. simpl. unfold size; simpl.
    split; [done|]. split; [lia|].
    by replace (start b + round_up sz (align s) - start b) with (round_up sz (align s)) by lia.
  - apply no_adjacent_app. split; [done|]. simpl. by rewrite andb_false_r.
  - rewrite fmap_app in *. done.
  - apply Forall_app in Hfr as [Hf1 [Hf2 _]%Forall_cons_1]. apply Forall_app. by repeat constructor.
  - eexists l, _, []. split; [done|]. rewrite Hl. unfold size; simpl. rewrite app_nil_r.
    split_and!; try done; try lia.
    + intros x Hx. split; [set_solver|]. intros Hin.
      destruct (other_ids l b [] x) as [_ ?]; try done. by rewrite app_nil_r in *.
    + intros x Hin Hx. by eapply (other_ids l b []).
  - simpl. lia.
Qed.

Lemma malloc_append s sz :
  Inv s → 0 ≤ sz → find_best (round_up sz (align s)) (list_ s) = None →
  last_free false (list_ s) = false →
  ∃ s', malloc sz s = (Ok (fresh s), s') ∧ Inv s' ∧ malloc_post s sz (fresh s) s' ∧
    limit s' - limit s = round_up sz (align s).
Proof.
  intros HI Hsz Hf Hlast. destruct HI as [Hal Ht Ha Hnd Hfr].
  destruct (round_up_spec sz (align s) Hal) as [Hr Hdiv].
  pose proof (fresh_not_in _ _ Hfr) as Hfresh.
  set (nb := MkBlock (fresh s) (limit s) (limit s + round_up sz (align s)) false).
  assert (malloc sz s = (Ok (fresh s),
    MkBestFit (limit s + round_up sz (align s)) (list_ s ++ [nb]) (align s) (S (fresh s)))) as ->.
  { unfold malloc. rewrite (proj2 (Z.eqb_neq _ _)) by lia. rewrite Hf.
    unfold last_free in Hlast. destruct (last (list_ s)); [by rewrite Hlast|done]. }
  eexists. split; [done|]. split; [split; simpl; try done|split; [|simpl; lia]].
  - apply tiled_app. exists (limit s). split; [done|]. simpl. unfold size; simpl.
    split; [done|]. split; [lia|].
    by replace (limit s + round_up sz (align s) - limit s) with (round_up sz (align s)) by lia.
  - apply no_adjacent_app. split; [done|]. simpl. by rewrite andb_false_r.
  - rewrite fmap_app. apply NoDup_app. split_and!; [done| |by repeat constructor; apply not_elem_of_nil].
    intros i Hi Hi'%list_elem_of_singleton. subst. done.
  - apply Forall_app. split; [eapply Forall_impl; [done|simpl; lia]|by repeat constructor].
  - exists (list_ s), nb, []. simpl. unfold size; simpl. rewrite app_nil_r.
    split_and!; try done; try lia.
    intros x Hin _ He. apply Hfresh. rewrite <- He. by apply list_elem_of_fmap_2.
Qed.

Lemma malloc_ok s sz :
  Inv s → 0 ≤ sz → ∃ i s', malloc sz s = (Ok i, s') ∧ Inv s' ∧ malloc_post s sz i s'.
Proof.
  intros HI Hsz. destruct (find_best (round_up sz (align s)) (list_ s)) as [f|] eqn:Hf.
  - destruct (malloc_found s sz f) as (s' & ? & ? & ? & _); eauto.
  - destruct (last_free false (list_ s)) eqn:Hl.
    + unfold last_free in Hl. destruct (last (list_ s)) as [b|] eqn:Hb; [|done].
      apply last_Some in Hb as [l Hb].
      destruct (malloc_extend s sz l b) as (s' & ? & ? & ? & _); eauto.
    + destruct (malloc_append s sz) as (s' & ? & ? & ? & _); eauto.
Qed.

Lemma tiled_disjoint al a l x k b y :
  tiled al a (l ++ x :: k) b → y ∈ l ++ k → end_ y ≤ start x ∨ end_ x ≤ start y.
Proof.
  intros (m & Hl & Hx & _ & _ & Hk)%tiled_app Hy.
  apply tiled_bounds in Hl as [_ Hl]. apply tiled_bounds in Hk as [_ Hk].
  apply elem_of_app in Hy as [Hy|Hy]; [left|right]; [destruct (Hl y Hy)|destruct (Hk y Hy)]; lia.
Qed.

(** ** Release *)

Lemma tiled_divide al a l b : tiled al a l b → (al | b - a).
Proof.
  revert a. induction l as [|x l IH]; simpl; intros a.
  - intros ->. rewrite Z.sub_diag. apply Z.divide_0_r.
  - intros (<- & _ & Hd & Ht). apply IH in Ht.
    replace (b - start x) with ((b - end_ x) + size x) by (unfold size; lia).
    by apply Z.divide_add_r.
Qed.

(** Replacing a run of blocks by one free block between blocks that are not. *)
Lemma Inv_coalesce s p mid q m1 m2 :
  Inv s → list_ s = p ++ mid ++ q →
  tiled (align s) 0 p m1 → tiled (align s) m1 mid m2 → tiled (align s) m2 q (limit s) →
  no_adjacent false p → last_free false p = false → no_adjacent true q →
  Inv (MkBestFit (limit s) (p ++ MkBlock (fresh s) m1 m2 true :: q) (align s) (S (fresh s))).
Proof.
  intros [Hal _ _ Hnd Hfr] Hl Ht1 Ht2 Ht3 Hap Hlf Haq. rewrite Hl in *.
  pose proof (fresh_not_in _ _ Hfr) as Hfresh. rewrite !fmap_app in Hnd, Hfresh.
  apply NoDup_app in Hnd as (Hnd1 & Hd1 & (Hnd2 & Hd2 & Hnd3)%NoDup_app).
  rewrite !Forall_app in Hfr. destruct Hfr as (Hf1 & _ & Hf3).
  split; simpl; [done|..].
  - apply tiled_app. exists m1. split; [done|]. simpl. unfold size; simpl.
    split; [done|]. split; [apply tiled_bounds in Ht2; lia|]. split; [by eapply tiled_divide|done].
  - apply no_adjacent_app. split; [done|]. simpl. by rewrite Hlf.
  - rewrite fmap_app, fmap_cons. apply NoDup_app. split_and!; [done|set_solver|].
    constructor; [set_solver|done].
  - apply Forall_app. split; [eapply Forall_impl; [done|simpl; lia]|].
    constructor; [simpl; lia|]. eapply Forall_impl; [done|simpl; lia].
Qed.

Lemma no_adjacent_head p x l : no_adjacent p (x :: l) → is_free x = false → no_adjacent true (x :: l).
Proof. simpl. intros [_ H] E. rewrite E in *. done. Qed.

(** The successor's merge: the free block grows over it. *)
Lemma merge_next_spec al n a b post lim :
  0 ≤ b - a → tiled al b post lim → no_adjacent false post →
  ∃ m mid post', merge_next (MkBlock n a b true) post = Ok (MkBlock n a m true, post') ∧
    post = mid ++ post' ∧ tiled al b mid m ∧ tiled al m post' lim ∧ no_adjacent true post' ∧
    Forall (λ x, is_free x = true) mid.
Proof.
  intros Hab Ht Ha. destruct post as [|x post]; simpl.
  { exists b, [], []. split_and!; done || constructor. }
  destruct (is_free x) eqn:Hx.
  - simpl in Ht, Ha. rewrite Hx in Ha. destruct Ht as (Hs & Hz & Hd & Ht), Ha as [_ Ha].
    unfold merge. simpl. rewrite Hx, bool_decide_true by done. simpl.
    exists (end_ x), [x], post. unfold size in Hz.
    rewrite Z.min_l, Z.max_r by lia. split_and!; try done. by constructor.
  - exists b, [], (x :: post). split_and!; try done. by eapply no_adjacent_head.
Qed.

(** The predecessor's merge. *)
Lemma merge_prev_spec al n a b pre :
  0 ≤ b - a → tiled al 0 pre a → no_adjacent false pre →
  ∃ m mid pre', merge_prev pre (MkBlock n a b true) = Ok (pre', MkBlock n m b true) ∧
    pre = pre' ++ mid ∧ tiled al 0 pre' m ∧ tiled al m mid a ∧
    no_adjacent false pre' ∧ last_free false pre' = false ∧ Forall (λ x, is_free x = true) mid.
Proof.
  intros Hab Ht Ha. unfold merge_prev. destruct (last pre) as [x|] eqn:Hl.
  - apply last_Some in Hl as [l ->]. rewrite removelast_last.
    apply no_adjacent_app in Ha as [Ha1 Ha2].
    destruct (is_free x) eqn:Hx.
    + apply tiled_app in Ht as (m & Ht1 & Hs & Hz & Hd & He). simpl in He, Ha2.
      unfold merge. simpl. rewrite Hx, bool_decide_true by done. simpl. unfold size in *.
      rewrite Z.min_r, Z.max_l by lia. subst m. rewrite Hx, andb_true_r in Ha2.
      exists (start x), [x], l. split_and!; try done; [by destruct Ha2|by constructor].
    + exists a, [], (l ++ [x]). rewrite app_nil_r. split_and!; try done.
      * by apply no_adjacent_app.
      * by rewrite last_free_snoc.
  - destruct pre as [|y pre]; [|by rewrite last_cons in Hl; destruct (last pre)].
    exists a, [], []. split_and!; done || constructor.
Qed.

Lemma free_ok s i a b :
  Inv s → live s i a b →
  ∃ s', free i s = (Ok tt, s') ∧ Inv s' ∧ limit s' = limit s ∧
    (∀ x, is_free x = false → x ∈ list_ s' ↔ x ∈ list_ s ∧ bid x ≠ i) ∧
    i ∉ bid <$> list_ s'.
Proof.
  intros HI Hlive. pose proof HI as [Hal Ht Ha Hnd Hfr]. unfold free.
  assert (i ∈ bid <$> list_ s) as [[[pre blk] post] Hsp]%split_at_elem
    by (by apply (list_elem_of_fmap_2 bid) in Hlive).
  rewrite Hsp. apply split_at_Some in Hsp as [Hl Hi].
  assert (blk = MkBlock i a b false) as ->.
  { eapply NoDup_bid_inj; [done| |done|done]. rewrite Hl. apply elem_of_app. right. by left. }
  rewrite Hl in Ht, Ha. simpl.
  apply tiled_app in Ht as (m & Ht1 & Hm & Hz & Hd & Ht2). simpl in Hm, Ht2. subst m.
  unfold size in Hz; simpl in Hz. apply no_adjacent_app in Ha as [Ha1 [_ Ha2]]. simpl in Ha2.
  destruct (merge_next_spec (align s) (fresh s) a b post (limit s))
    as (m2 & midn & post' & -> & Hpost & Hn1 & Hn2 & Hn3 & Hn4); [done..|].
  pose proof (tiled_bounds _ _ _ _ Hn1) as [Hbm _]. simpl.
  destruct (merge_prev_spec (align s) (fresh s) a m2 pre)
    as (m1 & midp & pre' & -> & Hpre & Hp1 & Hp2 & Hp3 & Hp4 & Hp5); [lia|done..|]. simpl.
  eexists. split; [done|]. split; [|split; [done|]].
  - apply (Inv_coalesce s pre' (midp ++ MkBlock i a b false :: midn) post'); try done.
    + rewrite Hl, Hpre, Hpost. by rewrite <- !app_assoc.
    + apply tiled_app. exists a. split; [done|]. simpl. unfold size; simpl. done.
  - assert (i ∉ bid <$> pre' ∧ i ∉ bid <$> post') as [Hni1 Hni2].
    { rewrite Hl, Hpre, Hpost, !fmap_app, fmap_cons, fmap_app in Hnd. simpl in Hnd.
      apply NoDup_app in Hnd as (_ & Hd1 & [Hd2 _]%NoDup_cons).
      split; intros Hin; [apply (Hd1 i)|apply Hd2]; rewrite ?elem_of_app, ?elem_of_cons; eauto. }
    split; cycle 1.
    { simpl. rewrite fmap_app, fmap_cons, not_elem_of_app, not_elem_of_cons. simpl.
      split_and!; try done. rewrite Forall_forall in Hfr. specialize (Hfr _ Hlive).
      simpl in Hfr. lia. }
    intros x Hx. simpl. rewrite Hl, Hpre, Hpost, !elem_of_app, !elem_of_cons, !elem_of_app.
    rewrite Forall_forall in Hn4, Hp5. split.
    + intros Hin. assert (x ∈ pre' ∨ x ∈ post') as Hin' by (destruct Hin as [?|[->|?]]; by eauto).
      split; [naive_solver|]. intros <-.
      destruct Hin' as [Hin'|Hin']; apply (list_elem_of_fmap_2 bid) in Hin'; done.
    + intros [[[?|Hm]|[->|[Hm|?]]] Hne]; try naive_solver.
      * specialize (Hp5 _ Hm). simpl in Hp5. congruence.
      * specialize (Hn4 _ Hm). simpl in Hn4. congruence.
Qed.

(** ** The allocator's contract *)

(** A client allocates non-negative sizes and frees what is live. *)
Inductive step : BestFit → BestFit → Prop :=
  | step_malloc s sz i s' : 0 ≤ sz → malloc sz s = (Ok i, s') → step s s'
  | step_free s i s' : (∃ a b, live s i a b) → free i s = (Ok tt, s') → step s s'.

Lemma step_Inv s s' : step s s' → Inv s → Inv s'.
Proof.
  destruct 1 as [s sz i s' Hsz Hm|s i s' (a & b & Hl) Hf]; intros HI.
  - destruct (malloc_ok s sz HI Hsz) as (j & t & Hm' & Ht & _). congruence.
  - destruct (free_ok s i a b HI Hl) as (t & Hf' & Ht & _). congruence.
Qed.

Lemma init_Inv al : 0 < al → Inv (init al).
Proof. intros. split; simpl; try done; constructor. Qed.

Lemma reachable_Inv al s : 0 < al → rtc step (init al) s → Inv s.
Proof.
  intros Hal. revert s. apply rtc_ind_r; [by apply init_Inv|]. intros; by eapply step_Inv.
Qed.

(** C18: in every state a client can reach, the blocks tile the address space
    from 0 to [limit] in multiples of the alignment, free neighbours are always
    coalesced, and distinct allocated intervals do not overlap. *)
Theorem allocator_invariant al s :
  0 < al → rtc step (init al) s →
  tiled al 0 (list_ s) (limit s) ∧ no_adjacent false (list_ s) ∧
  ∀ i a b j c d, live s i a b → live s j c d → i ≠ j → b ≤ c ∨ d ≤ a.
Proof.
  intros Hal Hr. pose proof (reachable_Inv _ _ Hal Hr) as HI.
  assert (align s = al) as <-.
  { clear HI. revert s Hr. apply rtc_ind_r; [done|]. intros s s' Hr Hs <-.
    pose proof (reachable_Inv _ _ Hal Hr) as HI. destruct Hs as [s sz i s' Hsz Hm|s i s' (a & b & Hl) Hf].
    - destruct (malloc_ok s sz HI Hsz) as (j & t & Hm' & _ & l & nb & k & _ & _ & _ & _ & He & _).
      congruence.
    - unfold free in Hf. repeat case_match; simplify_eq/=; done. }
  split; [apply HI|]. split; [apply HI|]. intros i a b j c d Hi Hj Hne.
  apply list_elem_of_split in Hi as (l & k & Hl). pose proof (inv_tiled _ HI) as Ht.
  unfold live in Hj. rewrite Hl in Ht, Hj.
  eapply (tiled_disjoint _ _ _ _ _ _ (MkBlock j c d false)) in Ht; [simpl in Ht; lia|].
  apply elem_of_app in Hj as [Hj|[Hj|Hj]%elem_of_cons]; apply elem_of_app; [by left|congruence|by right].
Qed.

(** C8: in a reachable state, [malloc] of a non-negative size returns a block
    of the size rounded up to the alignment, at an aligned offset below the
    limit, that overlaps no block in use; the blocks in use keep their place and
    the limit does not shrink. *)
Theorem malloc_correct al s sz :
  0 < al → rtc step (init al) s → 0 ≤ sz →
  ∃ i s' a b, malloc sz s = (Ok i, s') ∧
    b - a = round_up sz (align s) ∧ sz ≤ b - a < sz + align s ∧ (align s | a) ∧
    0 ≤ a ∧ b ≤ limit s' ∧ limit s ≤ limit s' ∧
    (∀ c d, ¬ live s i c d) ∧
    (∀ j c d, live s' j c d ↔ (j = i ∧ c = a ∧ d = b) ∨ live s j c d) ∧
    (∀ j c d, live s j c d → d ≤ a ∨ b ≤ c).
Proof.
  intros Hal Hr Hsz. pose proof (reachable_Inv _ _ Hal Hr) as HI.
  destruct (malloc_ok s sz HI Hsz) as (i & s' & Hm & HI' & l & nb & k & Hl & Hi & Hf & Hs & He & Hlim & Hmem & Hids).
  destruct (round_up_spec sz (align s) (inv_align _ HI)) as [Hru _].
  pose proof (inv_tiled _ HI') as Ht. rewrite Hl in Ht.
  pose proof (tiled_bounds _ _ _ _ Ht) as [_ Hb].
  destruct (Hb nb) as (Hb1 & Hb2 & Hb3); [apply elem_of_app; right; by left|].
  assert (∀ j c d, live s j c d ↔ MkBlock j c d false ∈ l ++ k) as Hlive by (intros; by rewrite Hmem).
  exists i, s', (start nb), (end_ nb). unfold size in Hs.
  split_and!; try done; try lia.
  - apply tiled_app in Ht as (m & Ht1 & Hstart & _). rewrite <- He, Hstart.
    eapply tiled_aligned; [|done]. apply Z.divide_0_r.
  - intros c d Hlv. by apply (Hids _ Hlv).
  - intros j c d. rewrite Hlive. unfold live. rewrite Hl, !elem_of_app, elem_of_cons.
    split; [|destruct nb; simpl in *; subst; naive_solver].
    intros [?|[<-|?]]; naive_solver.
  - intros j c d Hlv%Hlive. eapply tiled_disjoint in Ht; [|done]. simpl in Ht. lia.
Qed.

(** [malloc] is best fit: when a free block is large enough the limit stays
    and the block taken from is a smallest such block; otherwise the limit grows
    by at most the rounded size. *)
Theorem malloc_best_fit al s sz i s' :
  0 < al → rtc step (init al) s → 0 ≤ sz → malloc sz s = (Ok i, s') →
  let r := round_up sz (align s) in
  if bool_decide (Exists (λ b, is_free b = true ∧ r ≤ size b) (list_ s)) then
    limit s' = limit s ∧
    ∃ f, f ∈ list_ s ∧ bid f = i ∧ is_free f = true ∧ r ≤ size f ∧
      ∀ b, b ∈ list_ s → is_free b = true → r ≤ size b → size f ≤ size b
  else limit s' - limit s ≤ r.
Proof.
  intros Hal Hr Hsz Hm r. pose proof (reachable_Inv _ _ Hal Hr) as HI.
  pose proof (find_best_spec r (list_ s)) as Hspec.
  destruct (find_best r (list_ s)) as [f|] eqn:Hf.
  - destruct Hspec as (Hin & Hfree & Hle & Hmin).
    rewrite bool_decide_true by (apply Exists_exists; eauto).
    destruct (malloc_found s sz f HI Hsz Hf) as (t & Ht & _ & _ & Hlim). simplify_eq.
    split; [congruence|]. exists f. rewrite Hm in Ht. simplify_eq. eauto 10.
  - rewrite bool_decide_false; cycle 1.
    { intros (b & Hb & Hbf & Hbs)%Exists_exists. specialize (Hspec b Hb Hbf). lia. }
    destruct (last_free false (list_ s)) eqn:Hlf.
    + unfold last_free in Hlf. destruct (last (list_ s)) as [b|] eqn:Hb; [|done].
      apply last_Some in Hb as [l Hb].
      destruct (malloc_extend s sz l b HI Hsz Hf Hb Hlf) as (t & Ht & _ & _ & ?).
      rewrite Hm in Ht. simplify_eq. done.
    + destruct (malloc_append s sz HI Hsz Hf Hlf) as (t & Ht & _ & _ & ?).
      rewrite Hm in Ht. simplify_eq. unfold r. lia.
Qed.

(** [free] of a block in use releases exactly it, the others and the limit
    staying as they are; freeing it a second time raises [ValueError] and
    changes nothing. *)
Theorem free_correct al s i a b :
  0 < al → rtc step (init al) s → live s i a b →
  ∃ s', free i s = (Ok tt, s') ∧ limit s' = limit s ∧
    (∀ j c d, live s' j c d ↔ live s j c d ∧ j ≠ i) ∧
    free i s' = (Raise ValueError, s').
Proof.
  intros Hal Hr Hl. pose proof (reachable_Inv _ _ Hal Hr) as HI.
  destruct (free_ok s i a b HI Hl) as (s' & Hf & HI' & Hlim & Hmem & Hgone).
  exists s'. split; [done|]. split; [done|]. split; [intros; unfold live; by rewrite Hmem|].
  unfold free. destruct (split_at i (list_ s')) eqn:E; [|done].
  destruct Hgone. apply split_at_elem. by rewrite E.
Qed.

(** ** Evaluation on concrete sizes *)

Module BestFitEx.

(** 40 and 100 bytes allocated at 32-byte alignment, the first freed. *)
Definition s1 : BestFit := (malloc 40 (init 32)).2.
Definition s2 : BestFit := (malloc 100 s1).2.
Definition s3 : BestFit := (free 0 s2).2.

Lemma s3_reachable : rtc step (init 32) s3.
Proof.
  apply (rtc_l _ _ s1); [by eapply (step_malloc _ 40 0)|].
  apply (rtc_l _ _ s2); [by eapply (step_malloc _ 100 1)|].
  apply (rtc_once (R := step)). apply (step_free _ 0); [|done]. exists 0, 64. by left.
Qed.

Lemma allocator_invariant_witness : tiled 32 0 (list_ s3) 192.
Proof. exact (proj1 (allocator_invariant 32 s3 eq_refl s3_reachable)). Defined.

Lemma malloc_correct_witness :
  ∃ i s' a b, malloc 33 s3 = (Ok i, s') ∧ b - a = 64.
Proof.
  destruct (malloc_correct 32 s3 33 eq_refl s3_reachable ltac:(lia)) as (i & s' & a & b & H & H1 & _).
  exists i, s', a, b. split; [exact H|exact H1].
Defined.

Lemma malloc_best_fit_witness : limit (malloc 33 s3).2 = 192.
Proof.
  exact (proj1 (malloc_best_fit 32 s3 33 2 (malloc 33 s3).2 eq_refl s3_reachable ltac:(lia) eq_refl)).
Defined.

Lemma free_correct_witness : (free 1 (free 1 s3).2).1 = Raise ValueError.
Proof.
  destruct (free_correct 32 s3 1 64 192 eq_refl s3_reachable) as (s' & H1 & _ & _ & H2).
  - right. left.
  - rewrite H1. simpl. rewrite H2. reflexivity.
Defined.

End BestFitEx.
