(* ===== verification/Factors.v ===== *)
(** * Divisors, factorisation and coalescing

    [src/tilelang/carver/roller/policy/common.py]: the arithmetic helpers the
    roller policies enumerate tiles with. *)
From Stdlib Require Import ZArith Znumtheory QArith.
From stdpp Require Import base strings gmap numbers sorting list.
From S2P Require Import Prelude.
#[local] Open Scope Z_scope.

(** NumPy's [int(np.ceil(np.sqrt(n)))]: the square root is correctly rounded
    to binary64, so below 2^52 its ceiling is that of the real square root. *)
Class NumPy := { np_ceil_sqrt : Z → Z }.
Class NumPyLaws `{NumPy} := {
  np_ceil_sqrt_exact n : 0 ≤ n < 2 ^ 52 → np_ceil_sqrt n = Z.sqrt_up n;
}.

(** [np.arange(a, b)]. *)
Definition arange (a b : Z) : list Z := seqZ a (b - a).

(** [val] is the divisors below [n0], [val[::-1]] reversed. *)
Definition get_all_factors `{NumPy} (n : Z) : list Z :=
  let n0 := np_ceil_sqrt n in
  let val := List.filter (λ d, n mod d =? 0) (arange 1 n0) in
  let mid := if negb (n0 * n0 =? n) then [] else [n0] in
  val ++ mid ++ ((λ v, n / v) <$> reverse val).

(** The [while n > 1] loop; [None] when the fuel runs out. *)
Fixpoint factorize_loop (fuel : nat) (n i : Z) (result : list Z) : option (list Z) :=
  match fuel with
  | O => None
  | S fuel' =>
      if 1 <? n then
        if n mod i =? 0 then factorize_loop fuel' (n / i) i (result ++ [i])
        else factorize_loop fuel' n (i + 1) result
      else Some result
  end.

Definition factorize (n : Z) : option (list Z) := factorize_loop (Z.to_nat (2 * n) + 1) n 2 [].

(** The recursion on the last dimensions, both lists reversed; [subtensor[-1]]
    and [tensor[-1]] of an empty list raise. *)
Fixpoint coalesced_rev (subtensor tensor : list Z) : res Z :=
  match subtensor, tensor with
  | x :: subtensor', y :: tensor' =>
      if negb (x =? y) || bool_decide (subtensor' = []) then Ok x
      else r ← coalesced_rev subtensor' tensor'; Ok (x * r)
  | _, _ => Raise IndexError
  end.

Definition coalesced_factor (subtensor tensor : list Z) : res Z :=
  coalesced_rev (reverse subtensor) (reverse tensor).

(** The quotient of Python's true division, before it is rounded to a float. *)
Definition coalesced_tensor_shape (subtensor tensor : list Z) (transaction_size : Z) : res Q :=
  let bytes := prod subtensor in
  if bytes =? 0 then Ok 0%Q
  else
    factor ← coalesced_factor subtensor tensor;
    let d := Z.min transaction_size factor in
    if d =? 0 then Raise ZeroDivisionError
    else Ok (inject_Z (transaction_size * bytes) / inject_Z d)%Q.

(** ** All divisors, in increasing order *)

Lemma elem_of_arange a b x : x ∈ arange a b ↔ a ≤ x < b.
Proof. unfold arange. rewrite elem_of_seqZ. lia. Qed.

Lemma arange_sorted a b : StronglySorted Z.lt (arange a b).
Proof.
  unfold arange. generalize (b - a). intros n. unfold seqZ.
  assert (∀ m k : nat, StronglySorted Z.lt ((λ i : nat, a + Z.of_nat i) <$> seq k m)) as Hs.
  { induction m as [|m IH]; intros k; simpl; constructor; [apply IH|].
    apply Forall_fmap, Forall_forall. intros j Hj%elem_of_seq. simpl. lia. }
  erewrite list_fmap_ext; [apply (Hs (Z.to_nat n) 0%nat)|]. intros; simpl; lia.
Qed.

Lemma filter_sorted (f : Z → bool) l : StronglySorted Z.lt l → StronglySorted Z.lt (List.filter f l).
Proof.
  induction 1 as [|x l Hl IH Hx]; simpl; [constructor|].
  destruct (f x); [|done]. constructor; [done|].
  apply Forall_forall. intros y Hy. rewrite Forall_forall in Hx. apply Hx.
  by apply list_elem_of_In, filter_In in Hy as [?%list_elem_of_In _].
Qed.

Lemma StronglySorted_app_lt (l k : list Z) :
  StronglySorted Z.lt l → StronglySorted Z.lt k → (∀ x y, x ∈ l → y ∈ k → x < y) →
  StronglySorted Z.lt (l ++ k).
Proof.
  induction 1 as [|x l Hl IH Hx]; simpl; intros Hk Hlt; [done|].
  constructor; [apply IH; [done|]; intros; apply Hlt; [by right|done]|].
  apply Forall_app. split; [done|]. apply Forall_forall. intros y Hy. apply Hlt; [by left|done].
Qed.

(** Co-divisors of divisors taken downwards go upwards. *)
Lemma quotients_sorted n l :
  0 < n → Forall (λ d, 0 < d ∧ (d | n)) l → StronglySorted Z.lt l →
  StronglySorted Z.lt ((λ v, n / v) <$> reverse l).
Proof.
  intros Hn Hd. induction 1 as [|x l Hl IH Hx]; [constructor|].
  apply Forall_cons_1 in Hd as [[Hx0 Hxd] Hd]. rewrite reverse_cons, fmap_app.
  apply StronglySorted_app_lt; [by apply IH|repeat constructor|].
  intros a b (v & -> & Hv)%list_elem_of_fmap Hb%list_elem_of_singleton. subst b.
  rewrite elem_of_reverse in Hv. rewrite Forall_forall in Hd, Hx.
  destruct (Hd v Hv) as [Hv0 Hvd]. specialize (Hx v Hv). simpl.
  destruct Hvd as [p Hp], Hxd as [q Hq].
  assert (n / v = p) as E1 by (rewrite Hp; apply Z.div_mul; lia).
  assert (n / x = q) as E2 by (rewrite Hq; apply Z.div_mul; lia).
  rewrite E1, E2. clear E1 E2. assert (0 < q) by nia.
  destruct (Z_lt_ge_dec p q); [done|].
  assert (q * x < q * v) by (apply Z.mul_lt_mono_pos_l; lia).
  assert (q * v ≤ p * v) by (apply Z.mul_le_mono_nonneg_r; lia). lia.
Qed.

Lemma get_all_factors_spec `{NumPyLaws} n :
  1 ≤ n < 2 ^ 52 →
  StronglySorted Z.lt (get_all_factors n) ∧
  ∀ d, d ∈ get_all_factors n ↔ 0 < d ∧ (d | n).
Proof.
  intros Hn. unfold get_all_factors. rewrite np_ceil_sqrt_exact by lia.
  set (n0 := Z.sqrt_up n). set (val := List.filter _ _).
  assert (Z.pred n0 * Z.pred n0 < n ≤ n0 * n0) as Hs by (apply Z.sqrt_up_spec; lia).
  assert (0 ≤ n0) by apply Z.sqrt_up_nonneg.
  assert (∀ d, d ∈ val ↔ 0 < d < n0 ∧ (d | n)) as Hval.
  { intros d. unfold val. rewrite list_elem_of_In, filter_In, <- list_elem_of_In, elem_of_arange.
    rewrite Z.eqb_eq. split; intros [? Hd]; (split; [lia|]).
    - apply Z.mod_divide; [lia|done].
    - apply Z.mod_divide; [lia|done]. }
  assert (StronglySorted Z.lt val) as Hvs by apply filter_sorted, arange_sorted.
  assert (∀ d, (∃ v, d = n / v ∧ v ∈ val) ↔ 0 < d ∧ (d | n) ∧ n < d * n0) as Hq.
  { intros d. split.
    - intros (v & -> & [Hv [p Hp]]%Hval). rewrite Hp, Z.div_mul by lia.
      split; [nia|]. split; [exists v; lia|nia].
    - intros (Hd & [p Hp] & Hlt). exists p. split; [by rewrite Hp, Z.mul_comm, Z.div_mul by nia|].
      apply Hval. split; [nia|]. exists d. lia. }
  set (mid := if negb (n0 * n0 =? n) then [] else [n0]).
  assert (∀ d, d ∈ mid ↔ d = n0 ∧ n0 * n0 = n) as Hmid.
  { intros d. unfold mid. destruct (n0 * n0 =? n) eqn:E; simpl.
    - apply Z.eqb_eq in E. rewrite list_elem_of_singleton. naive_solver.
    - apply Z.eqb_neq in E. split; [by intros ?%not_elem_of_nil|naive_solver]. }
  assert (∀ d, d ∈ (λ v, n / v) <$> reverse val ↔ 0 < d ∧ (d | n) ∧ n < d * n0) as Hco.
  { intros d. rewrite <- Hq, list_elem_of_fmap. by setoid_rewrite elem_of_reverse. }
  split.
  - apply StronglySorted_app_lt; [done| |].
    + apply StronglySorted_app_lt.
      * unfold mid. destruct (negb _); repeat constructor.
      * apply quotients_sorted; [lia| |done]. apply Forall_forall. intros d [? ?]%Hval. split; [lia|done].
      * intros x y [-> Hx]%Hmid (_ & _ & Hy)%Hco. nia.
    + intros x y [Hx _]%Hval [[-> Hy]%Hmid|(Hy0 & [p Hp] & Hy)%Hco]%elem_of_app; [lia|].
      assert (p < n0) by nia. destruct (Z_lt_ge_dec x y); [done|].
      assert (p * y ≤ Z.pred n0 * Z.pred n0) by (apply Z.mul_le_mono_nonneg; nia). lia.
  - intros d. rewrite !elem_of_app, Hval, Hmid, Hco. split.
    + intros [[? ?]|[[-> Hm]|(? & ? & ?)]]; split; try done; try lia; try nia; by exists n0.
    + intros [Hd Hdiv]. destruct (decide (d < n0)); [left; split; [lia|done]|].
      destruct (decide (n < d * n0)); [by right; right|]. right; left. nia.
Qed.

(** For 1 <= n < 2^52, [get_all_factors] returns exactly the positive
    divisors of [n], in strictly increasing order. *)
Theorem get_all_factors_divisors `{NumPyLaws} n :
  1 ≤ n < 2 ^ 52 →
  StronglySorted Z.lt (get_all_factors n) ∧
  ∀ d, d ∈ get_all_factors n ↔ 0 < d ∧ (d | n).
Proof. apply get_all_factors_spec. Qed.

(** ** Prime factorisation *)

Lemma least_divisor_prime n i :
  2 ≤ i → (i | n) → (∀ d, 2 ≤ d < i → ¬ (d | n)) → prime i.
Proof.
  intros Hi Hin Hmin. apply prime_alt. split; [lia|]. intros d Hd Hdi.
  apply (Hmin d); [lia|]. by etransitivity.
Qed.

Lemma factorize_loop_spec fuel n i result :
  1 ≤ n → 2 ≤ i → (∀ d, 2 ≤ d < i → ¬ (d | n)) → (Z.to_nat (2 * n - i) + 1 ≤ fuel)%nat →
  ∃ l, factorize_loop fuel n i result = Some (result ++ l) ∧
    prod l = n ∧ Forall prime l ∧ Forall (λ p, i ≤ p) l ∧ StronglySorted Z.le l.
Proof.
  revert n i result. induction fuel as [|fuel IH]; intros n i result Hn Hi Hmin Hfuel; [lia|].
  simpl. destruct (1 <? n) eqn:E1; cycle 1.
  { exists []. rewrite app_nil_r. split_and!; try done; [simpl; lia|constructor]. }
  assert (i ≤ n) by (destruct (decide (i ≤ n)); [done|]; exfalso; apply (Hmin n); [lia|done]).
  destruct (n mod i =? 0) eqn:E2.
  - apply Z.eqb_eq, Z.mod_divide in E2; [|lia]. destruct E2 as [q Hq].
    assert (n / i = q) as -> by (rewrite Hq; apply Z.div_mul; lia).
    destruct (IH q i (result ++ [i])) as (l & -> & Hp & Hprime & Hge & Hs); [nia|done| |nia|].
    + intros d Hd Hdq. apply (Hmin d Hd). rewrite Hq. by apply Z.divide_mul_l.
    + exists (i :: l). rewrite <- app_assoc. split_and!; [done|simpl; lia| | |].
      * constructor; [|done]. apply (least_divisor_prime n); [done|by exists q|done].
      * constructor; [lia|done].
      * by constructor.
  - apply Z.eqb_neq in E2.
    destruct (IH n (i + 1) result) as (l & -> & Hp & Hprime & Hge & Hs); [done|lia| |lia|].
    + intros d Hd Hdn. destruct (decide (d = i)) as [->|]; [|apply (Hmin d); [lia|done]].
      apply E2. apply Z.mod_divide; [lia|done].
    + exists l. split_and!; try done. eapply Forall_impl; [done|]. simpl. lia.
Qed.

(** For every n >= 1 [factorize] terminates with the prime factors of [n]
    with multiplicity, in non-decreasing order. *)
Theorem factorize_primes n :
  1 ≤ n →
  ∃ l, factorize n = Some l ∧ prod l = n ∧ Forall prime l ∧ StronglySorted Z.le l.
Proof.
  intros Hn. unfold factorize.
  destruct (factorize_loop_spec (Z.to_nat (2 * n) + 1) n 2 []) as (l & -> & ? & ? & _ & ?);
    [lia|lia|lia|lia|]. by exists l.
Qed.

(** ** Coalescing *)

(** The row-major offset of a position in a tensor of the given shape. *)
Definition offset (shape idx : list Z) : Z :=
  foldl (λ acc p, acc * p.1 + p.2) 0 (zip shape idx).

Lemma coalesced_rev_spec s t r :
  coalesced_rev s t = Ok r →
  ∃ x run y t' s', s = run ++ x :: s' ∧ t = run ++ y :: t' ∧ r = prod run * x ∧
    (s' = [] ∨ x ≠ y).
Proof.
  revert t r. induction s as [|a s IH]; intros [|b t] r H; try done. simpl in H.
  destruct (negb (a =? b) || bool_decide (s = [])) eqn:E.
  - injection H as <-. exists a, [], b, t, s. split_and!; try done; [simpl; lia|].
    apply orb_true_iff in E as [E|E%bool_decide_eq_true]; [right; lia|by left].
  - apply orb_false_iff in E as [E1 E2]. apply bind_Ok in H as (q & Hq & [= <-]).
    apply IH in Hq as (x & run & y & t' & s' & -> & -> & -> & Hx).
    assert (a = b) as -> by lia. exists x, (b :: run), y, t', s'. split_and!; try done.
    simpl. lia.
Qed.

Lemma offset_acc l acc :
  foldl (λ acc p, acc * p.1 + p.2) acc l = acc * prod l.*1 + foldl (λ acc p, acc * p.1 + p.2) 0 l.
Proof.
  revert acc. induction l as [|[d i] l IH]; intros acc; [simpl; lia|].
  rewrite fmap_cons, prod_cons. cbn [foldl fst snd].
  rewrite (IH (acc * d + i)), (IH (0 * d + i)). lia.
Qed.

Lemma offset_app t1 t2 b1 b2 :
  length t1 = length b1 → length t2 = length b2 →
  offset (t1 ++ t2) (b1 ++ b2) = offset t1 b1 * prod t2 + offset t2 b2.
Proof.
  intros H1 H2. unfold offset. rewrite zip_with_app by done. rewrite foldl_app, offset_acc.
  by rewrite fst_zip by lia.
Qed.

Lemma offset_zeros t : offset t (replicate (length t) 0) = 0.
Proof.
  unfold offset. induction t as [|d t IH]; [done|]. simpl. apply IH.
Qed.

(** [coalesced_factor] of a tile and its tensor is the product of the tile's
    last k dimensions, where the inner k - 1 dimensions are the tensor's and k is
    maximal.  Seen from any position of the outer dimensions, the elements of
    the tile along these k dimensions follow one another in the row-major
    tensor: the tensor offset is the base plus the offset within the run. *)
Theorem coalesced_factor_run sub tensor r :
  coalesced_factor sub tensor = Ok r →
  ∃ so x run tout y, sub = so ++ x :: run ∧ tensor = tout ++ y :: run ∧
    r = prod (x :: run) ∧ (so = [] ∨ x ≠ y) ∧
    ∀ base i idx, length base = length tout → length idx = length run →
      offset tensor (base ++ i :: idx) =
      offset tensor (base ++ replicate (S (length run)) 0) + offset (x :: run) (i :: idx).
Proof.
  unfold coalesced_factor. intros (x & run & y & t' & s' & Hs & Ht & -> & Hx)%coalesced_rev_spec.
  apply (f_equal reverse) in Hs, Ht.
  rewrite reverse_involutive, reverse_app, reverse_cons, <- app_assoc in Hs, Ht.
  exists (reverse s'), x, (reverse run), (reverse t'), y. split_and!; try done.
  - simpl. assert (prod (reverse run) = prod run) as ->; [|lia].
    clear. induction run as [|a run IH]; [done|]. rewrite reverse_cons, prod_app, IH. simpl. lia.
  - destruct Hx as [->|Hx]; [by left|by right].
  - intros base i idx Hb Hi. rewrite Ht. rewrite length_reverse in *.
    rewrite !offset_app by (simpl; rewrite ?length_replicate, ?length_reverse; lia).
    pose proof (offset_zeros (y :: reverse run)) as Hz. simpl length in Hz.
    rewrite length_reverse in Hz. change ([y] ++ reverse run) with (y :: reverse run). rewrite Hz.
    change (offset (y :: reverse run) (i :: idx)) with (offset (x :: reverse run) (i :: idx)). lia.
Qed.

(** ** Evaluation on concrete numbers *)

Module FactorsEx.

#[local] Instance np : NumPy := { np_ceil_sqrt := Z.sqrt_up }.
#[local] Instance np_laws : NumPyLaws.
Proof. split. done. Qed.

Lemma get_all_factors_divisors_witness :
  get_all_factors 12 = [1; 2; 3; 4; 6; 12] ∧ (4 ∈ get_all_factors 12 ↔ 0 < 4 ∧ (4 | 12)).
Proof.
  split; [reflexivity|]. exact (proj2 (get_all_factors_divisors 12 ltac:(lia)) 4).
Defined.

Lemma factorize_primes_witness : ∃ l, factorize 360 = Some l ∧ prod l = 360.
Proof.
  destruct (factorize_primes 360 ltac:(lia)) as (l & H1 & H2 & _). exists l. split; [exact H1|exact H2].
Defined.

Lemma coalesced_factor_run_witness :
  coalesced_factor [2; 8; 16] [4; 32; 16] = Ok 128 ∧ ∃ so x run, [2; 8; 16] = so ++ x :: run ∧ 128 = prod (x :: run).
Proof.
  split; [reflexivity|].
  destruct (coalesced_factor_run [2; 8; 16] [4; 32; 16] 128 eq_refl) as (so & x & run & _ & _ & H1 & _ & H2 & _).
  exists so, x, run. split; [exact H1|exact H2].
Defined.

End FactorsEx.
