(* ===== verification/DynShape.v ===== *)
(** * Dynamic shapes of a compiled kernel

    [src/tilelang/jit/jit_npu.py]: how the symbolic dimensions of a kernel are
    found in its parameters' shapes at compile time, recovered from the tensors
    of a call, and used to size the outputs and the grid. *)
From Stdlib Require Import ZArith SpecFloat.
From stdpp Require Import base strings gmap numbers sorting list.
From S2P Require Import Prelude Tir.

(** A [tir.Var] as an object. *)
Record tvar := TVar { tv_id : nat; tv_name : string; tv_dtype : string }.
Definition var_expr (v : tvar) : expr := Var (tv_id v) (tv_name v) (tv_dtype v).

#[export] Instance tvar_eq_dec : EqDecision tvar.
Proof. solve_decision. Defined.

(** ** Output positions *)

(** [out_idx] as the user gives it. *)
Inductive out_arg := ONone | OInt (i : Z) | OList (l : list Z) | OOther.

Definition normalize_one (total_params i : Z) : res Z :=
  let idx := if 0 <=? i then i else total_params + i in
  if (idx <? 0) || (total_params <=? idx) then Raise ValueError else Ok idx.

Definition _normalize_out_idx (out_idx : out_arg) (total_params : Z) : res (option (list Z)) :=
  match out_idx with
  | ONone => Ok None
  | OInt i => Some <$> mmap (normalize_one total_params) [i]
  | OList l => Some <$> mmap (normalize_one total_params) l
  | OOther => Raise TypeError
  end.

(** ** Expressions over symbolic dimensions *)

(** [tir.stmt_functor.post_order_visit] restricted to the variables. *)
Fixpoint post_order_vars (e : expr) : list tvar :=
  match e with
  | Var i n dt => [TVar i n dt]
  | IntImm _ _ | FloatImm _ _ => []
  | BinOp _ a b => post_order_vars a ++ post_order_vars b
  | Ramp a b c => post_order_vars a ++ post_order_vars b ++ post_order_vars c
  | BufferLoad _ idx =>
      (fix go l := match l with [] => [] | x :: l' => post_order_vars x ++ go l' end) idx
  | OtherExpr _ args =>
      (fix go l := match l with [] => [] | x :: l' => post_order_vars x ++ go l' end) args
  end.

(** The first variable of every name, in order. *)
Definition add_new (acc : list tvar) (v : tvar) : list tvar :=
  if bool_decide (tv_name v ∈ tv_name <$> acc) then acc else acc ++ [v].
Definition first_seen (vs : list tvar) : list tvar := foldl add_new [] vs.

Definition _collect_tir_vars (e : expr) : list tvar := first_seen (post_order_vars e).

(** [(a, b)] when [expr] is read as [a * var + b]. *)
Fixpoint _detect_affine (e : expr) (v : tvar) : res (option (Z * Z)) :=
  match e with
  | Var i n _ =>
      Ok (if bool_decide (i = tv_id v) || bool_decide (n = tv_name v) then Some (1, 0) else None)
  | IntImm _ z => Ok (Some (0, z))
  | BinOp op x y =>
      match op with
      | OpAdd =>
          left ← _detect_affine x v; right ← _detect_affine y v;
          Ok (match left, right with
              | Some (a, b), Some (c, d) => Some (a + c, b + d)
              | _, _ => None
              end)
      | OpSub =>
          left ← _detect_affine x v; right ← _detect_affine y v;
          Ok (match left, right with
              | Some (a, b), Some (c, d) => Some (a - c, b - d)
              | _, _ => None
              end)
      | OpMul =>
          left ← _detect_affine x v; right ← _detect_affine y v;
          Ok (match left, right with
              | Some (a, b), Some (c, d) =>
                  if a =? 0 then Some (c * b, d * b)
                  else if c =? 0 then Some (a * d, b * d) else None
              | _, _ => None
              end)
      | OpFloorDiv =>
          left ← _detect_affine x v;
          match left, y with
          | Some (a, b), IntImm _ divisor =>
              if a =? 0 then q ← py_floordiv b divisor; Ok (Some (0, q)) else Ok None
          | _, _ => Ok None
          end
      | _ => Ok None
      end
  | _ => Ok None
  end.

Section eval.
Context `{TVM}.

(** [arith.Analyzer().simplify] of the expression with the values substituted
    for its variables; the constant when the result is one. *)
Variable simplify : expr → gmap string Z → option Z.

Definition eval_op (op : binop) (x y : Z) : res Z :=
  match op with
  | OpAdd => Ok (x + y)
  | OpSub => Ok (x - y)
  | OpMul => Ok (x * y)
  | OpFloorDiv | OpDiv => py_floordiv x y
  | OpMod => py_mod x y
  | OpMax => Ok (Z.max x y)
  | OpMin => Ok (Z.min x y)
  | OpFloorMod => Raise NotImplementedError
  end.

(** The general case: every variable needs a value, then TVM simplifies. *)
Definition eval_fallback (e : expr) (dynamic_val : gmap string Z) : res Z :=
  if forallb (λ v, bool_decide (is_Some (dynamic_val !! tv_name v))) (_collect_tir_vars e)
  then or_raise ValueError (simplify e dynamic_val)
  else Raise ValueError.

Fixpoint _eval_tir_expr (e : expr) (dynamic_val : gmap string Z) : res Z :=
  match e with
  | Var _ _ _ => or_raise ValueError (dynamic_val !! tvm_str e)
  | IntImm _ z => Ok z
  | BinOp op a b =>
      match op with
      | OpFloorMod => eval_fallback e dynamic_val
      | _ => x ← _eval_tir_expr a dynamic_val; y ← _eval_tir_expr b dynamic_val; eval_op op x y
      end
  | _ => eval_fallback e dynamic_val
  end.

End eval.

(** ** Symbolic dimensions of a kernel *)

(** A [PrimFunc]: its parameters and the buffers of the tensor parameters. *)
Record prim_func := PrimFunc {
  pf_params : list tvar;
  pf_buffer_map : gmap nat buffer;
}.

(** Where the value of a variable is found: dimension [j] of parameter [i], as
    it is or as [a * var + b]. *)
Inductive binding :=
  | Direct (i j : nat)
  | Affine (i j : nat) (a b : Z).

Definition param_shape (f : prim_func) (p : tvar) : list expr :=
  match pf_buffer_map f !! tv_id p with Some b => buf_shape b | None => [] end.

Definition all_vars (f : prim_func) : list tvar :=
  first_seen (p ← pf_params f; e ← param_shape f p; _collect_tir_vars e).

(** The two nested loops over parameters and dimensions, left at the first
    dimension [test] accepts. *)
Fixpoint first_dim {B} (test : expr → res (option B)) (j : nat) (shape : list expr) :
    res (option (nat * B)) :=
  match shape with
  | [] => Ok None
  | e :: shape' =>
      r ← test e;
      match r with
      | Some b => Ok (Some (j, b))
      | None => first_dim test (S j) shape'
      end
  end.

Fixpoint first_param {B} (test : expr → res (option B)) (f : prim_func) (i : nat) (params : list tvar) :
    res (option (nat * nat * B)) :=
  match params with
  | [] => Ok None
  | p :: params' =>
      r ← first_dim test 0 (param_shape f p);
      match r with
      | Some (j, b) => Ok (Some (i, j, b))
      | None => first_param test f (S i) params'
      end
  end.

(** [isinstance(shape, tir.Var) and shape.same_as(var)]. *)
Definition test_direct (v : tvar) (e : expr) : res (option unit) :=
  Ok (match e with
      | Var i _ _ => if bool_decide (i = tv_id v) then Some tt else None
      | _ => None
      end).

Definition test_affine (v : tvar) (e : expr) : res (option (Z * Z)) :=
  match e with
  | Var _ _ _ => Ok None
  | _ => r ← _detect_affine e v;
         Ok (match r with Some (a, b) => if negb (a =? 0) then Some (a, b) else None | None => None end)
  end.

Definition bind_var (f : prim_func) (v : tvar) : res (option binding) :=
  if bool_decide (tv_id v ∈ tv_id <$> pf_params f) then Ok None
  else
    d ← first_param (test_direct v) f 0 (pf_params f);
    match d with
    | Some (i, j, _) => Ok (Some (Direct i j))
    | None =>
        a ← first_param (test_affine v) f 0 (pf_params f);
        Ok (match a with Some (i, j, (a, b)) => Some (Affine i j a b) | None => None end)
    end.

(** The dict, in insertion order. *)
Definition _process_dynamic_symbolic (f : prim_func) : res (list (tvar * binding)) :=
  mfold (λ acc v, b ← bind_var f v;
                  Ok (match b with Some b => acc ++ [(v, b)] | None => acc end)) [] (all_vars f).

(** ** The values of a call *)

(** An argument: a tensor with its shape, or a scalar. *)
Inductive arg := ATensor (shape : list Z) | AScalar.

Definition binding_pos (b : binding) : nat * nat :=
  match b with Direct i j | Affine i j _ _ => (i, j) end.

Definition binding_value (b : binding) (actual_dim : Z) : res Z :=
  match b with
  | Direct _ _ => Ok actual_dim
  | Affine _ _ a b => py_floordiv (actual_dim - b) a
  end.

Definition resolve_one (orig_to_input : gmap nat nat) (args : list arg) (b : binding) : res Z :=
  let '(tensor_idx, dim_idx) := binding_pos b in
  match orig_to_input !! tensor_idx with
  | Some arg_pos =>
      a ← py_index args (Z.of_nat arg_pos);
      match a with
      | ATensor shape =>
          match shape !! dim_idx with
          | Some actual_dim => binding_value b actual_dim
          | None => Raise ValueError
          end
      | AScalar => Raise ValueError
      end
  | None => Raise ValueError
  end.

(** The loop of [_calcu_grid]: the values by name, and the extra arguments. *)
Definition calcu_dynamic `{TVM} (symbolic : list (tvar * binding)) (orig_to_input : gmap nat nat)
    (args : list arg) : res (gmap string Z * list Z) :=
  mfold (λ acc kb,
    value ← resolve_one orig_to_input args kb.2;
    Ok (<[tvm_str (var_expr kb.1) := value]> acc.1, acc.2 ++ [value])) (∅, []) symbolic.

(** ** The grid expression *)

(** [s.replace(key, new)] for a non-empty key: non-overlapping occurrences from
    the left; [skip] characters of the current one are still to be dropped. *)
Fixpoint replace_from (skip : nat) (key new s : string) : string :=
  match s with
  | EmptyString => ""
  | String c s' =>
      match skip with
      | S k => replace_from k key new s'
      | O => if String.prefix key s then new +:+ replace_from (String.length key - 1) key new s'
             else String c (replace_from 0 key new s')
      end
  end.

(** Sorting keys by [(-len(x), x)]. *)
Definition key_le (x y : string) : bool :=
  (String.length y <? String.length x)%nat
  || ((String.length x =? String.length y)%nat && String.leb x y).

Definition by_key (x y : string * Z) : Prop := key_le x.1 y.1 = true.
#[export] Instance by_key_dec : RelDecision by_key.
Proof. unfold by_key. intros x y. apply _. Defined.

Definition replace_by_longest_key (calculate_str : string) (replace_dict : list (string * Z)) : string :=
  let sorted_keys := merge_sort by_key replace_dict in
  foldl (λ result kv, replace_from 0 kv.1 (str_of_Z kv.2) result) calculate_str sorted_keys.

(** A statement as the extractor sees it: the children it has, and the key, the
    thread tag and the value of an attribute node. *)
Inductive stmt_node :=
  | Node (body then_case else_case block : option stmt_node)
         (attr : option (string * string * expr)).

Fixpoint visit_thread_extent (thread : string) (n : stmt_node) : list expr :=
  let '(Node body then_case else_case block attr) := n in
  let child c := match c with Some m => visit_thread_extent thread m | None => [] end in
  child body ++ child then_case ++ child else_case ++ child block ++
  match attr with
  | Some (key, tag, value) =>
      if bool_decide (key = "thread_extent") && bool_decide (tag = thread) then [value] else []
  | None => []
  end.

(** [extract] with a new extractor. *)
Definition extract (n : stmt_node) (thread : string) : option expr :=
  head (visit_thread_extent thread n).

(** ** Parameters and calls *)

Record param_info := ParamInfo {
  pi_dtype : string;
  pi_shape : list expr;
  pi_is_output : bool;
}.

Definition _tvm_dtype_to_torch (dtype_str : string) : string :=
  if bool_decide (dtype_str ∈ ["float16"; "float32"; "float64"; "bfloat16"; "int8"; "int16";
                               "int32"; "int64"; "bool"])
  then "torch." +:+ dtype_str else "torch.float32".

(** [i in {i if i >= 0 else total_params + i for i in out_idx}]. *)
Definition marked_output (out_idx : option (list Z)) (total_params : Z) (i : nat) : bool :=
  match out_idx with
  | None => false
  | Some l => bool_decide (Z.of_nat i ∈ (λ z, if 0 <=? z then z else total_params + z) <$> l)
  end.

Definition extract_param (f : prim_func) (out_idx : option (list Z)) (ip : nat * tvar) : res param_info :=
  let '(i, param) := ip in
  let is_output := marked_output out_idx (len (pf_params f)) i in
  match pf_buffer_map f !! tv_id param with
  | Some b =>
      if is_output && bool_decide (buf_shape b = []) then Raise ValueError
      else Ok (ParamInfo (_tvm_dtype_to_torch (buf_dtype b)) (buf_shape b) is_output)
  | None =>
      if is_output then Raise ValueError
      else Ok (ParamInfo (_tvm_dtype_to_torch (tv_dtype param)) [] false)
  end.

Definition _extract_param_info (f : prim_func) (out_idx : option (list Z)) : res (list param_info) :=
  mmap (extract_param f out_idx) (zip (seq 0 (length (pf_params f))) (pf_params f)).

(** A compiled kernel. *)
Record JitKernel_NPU := JitKernel {
  k_param_info : list param_info;
  k_out_idx : option (list Z);
  k_symbolic : list (tvar * binding);
  k_gridfunc : string;
}.

(** An argument of the launch: one the caller passed, an output that was
    allocated, or a symbolic value. *)
Inductive launch_arg := LInput (a : arg) | LOutput (shape : list Z) (dtype : string) | LExtra (z : Z).

(** [orig_to_input]: the position among the inputs of every parameter that is
    not an output. *)
Fixpoint input_positions (i input_pos : nat) (infos : list param_info) : gmap nat nat :=
  match infos with
  | [] => ∅
  | info :: infos' =>
      if pi_is_output info then input_positions (S i) input_pos infos'
      else <[i := input_pos]> (input_positions (S i) (S input_pos) infos')
  end.

(** The value of the grid expression: a number, or a sequence of numbers. *)
Inductive grid_val := GInt (z : Z) | GSeq (l : list Z).
Definition launch_grid (g : grid_val) : list Z :=
  match g with GInt z => [z; 1; 1] | GSeq l => l end.

Section call.
Context `{TVM}.
Variable simplify : expr → gmap string Z → option Z.

(** Python's [eval] of the grid expression over the symbolic values, its result
    converted with [int]; [None] when either raises. *)
Variable eval_grid : string → gmap string Z → option grid_val.

(** The outputs are allocated on the device of the first argument, if there is
    one: it must be a tensor. *)
Definition output_device (args : list arg) : res unit :=
  match args with AScalar :: _ => Raise AttributeError | _ => Ok tt end.

Fixpoint build_args (dynamic_val : gmap string Z) (args : list arg) (infos : list param_info)
    (inputs : list arg) : res (list launch_arg) :=
  match infos with
  | [] => Ok []
  | info :: infos' =>
      if pi_is_output info then
        shape ← mmap (λ dim, _eval_tir_expr simplify dim dynamic_val) (pi_shape info);
        output_device args;;
        rest ← build_args dynamic_val args infos' inputs;
        Ok (LOutput shape (pi_dtype info) :: rest)
      else
        match inputs with
        | a :: inputs' => rest ← build_args dynamic_val args infos' inputs'; Ok (LInput a :: rest)
        | [] => Raise IndexError
        end
  end.

(** [__call__] up to the launch: the grid, the arguments of the launch and the
    outputs that are returned ([None] without [out_idx]). *)
Definition call_kernel (k : JitKernel_NPU) (args : list arg) :
    res (list Z * list launch_arg * option (list launch_arg)) :=
  let total_params := len (k_param_info k) in
  let num_inputs := total_params - match k_out_idx k with Some l => len l | None => 0 end in
  if negb (len args =? num_inputs) then Raise ValueError
  else
    let orig_to_input := input_positions 0 0 (k_param_info k) in
    '(dynamic_val, extra_args) ← calcu_dynamic (k_symbolic k) orig_to_input args;
    grid ← or_raise ValueError
      (eval_grid (replace_by_longest_key (k_gridfunc k) (map_to_list dynamic_val)) dynamic_val);
    full_args ← build_args dynamic_val args (k_param_info k) args;
    let full_args := full_args ++ (LExtra <$> extra_args) in
    grid3 ← mmap (py_index (launch_grid grid)) [0; 1; 2];
    outs ← match k_out_idx k with
           | None => Ok None
           | Some l => Some <$> mmap (py_index full_args) l
           end;
    Ok (grid3, full_args, outs).

End call.

(** ** Output positions *)

(** [_normalize_out_idx] accepts exactly positions between [-n] and [n - 1]
    for a kernel of [n] parameters and returns each of them modulo [n]; any
    other position raises [ValueError], and a value that is neither an int nor a
    list raises [TypeError]. *)
Theorem normalize_out_idx_spec out n :
  0 ≤ n →
  match out with
  | ONone => _normalize_out_idx out n = Ok None
  | OInt _ | OList _ =>
      let l := match out with OInt i => [i] | OList l => l | _ => [] end in
      _normalize_out_idx out n =
      if forallb (λ i, (- n <=? i) && (i <? n)) l then Ok (Some ((λ i, i mod n) <$> l))
      else Raise ValueError
  | OOther => _normalize_out_idx out n = Raise TypeError
  end.
Proof.
  intros Hn. enough (∀ l, Some <$> mmap (normalize_one n) l =
    if forallb (λ i, (- n <=? i) && (i <? n)) l then Ok (Some ((λ i, i mod n) <$> l))
    else Raise ValueError) as Hl by (destruct out; try done; apply Hl).
  assert (∀ i, normalize_one n i =
    if (- n <=? i) && (i <? n) then Ok (i mod n) else Raise ValueError) as H1.
  { intros i. unfold normalize_one. destruct (0 <=? i) eqn:E0.
    - destruct (i <? n) eqn:E1; [|by destruct (_ || _) eqn:E2; [rewrite andb_false_r|lia]].
      destruct (- n <=? i) eqn:E2; [|lia]. destruct (_ || _) eqn:E3; [lia|].
      simpl. by rewrite Z.mod_small by lia.
    - destruct (- n <=? i) eqn:E2; simpl; [|by destruct (_ || _) eqn:E3; [|lia]].
      destruct (i <? n) eqn:E1; [|lia]. destruct (_ || _) eqn:E3; [lia|].
      f_equal. apply (Z.mod_unique_pos _ _ (-1)); lia. }
  induction l as [|i l IH]; simpl; [done|]. rewrite H1.
  destruct (_ && _); simpl; [|done].
  destruct (mmap (normalize_one n) l), (forallb _ l); simpl in IH; try done;
    injection IH as IH; by subst.
Qed.

(** ** Affine dimensions *)

Section affine.
Context `{TVM}.
Variable simplify : expr → gmap string Z → option Z.

Lemma affine_eval `{!TVMLaws} e v a b env x :
  _detect_affine e v = Ok (Some (a, b)) →
  (∀ w, w ∈ post_order_vars e → tv_id w = tv_id v → tv_name w = tv_name v) →
  env !! tv_name v = Some x →
  _eval_tir_expr simplify e env = Ok (a * x + b).
Proof.
  intros Hd Hid Hx. revert a b Hd Hid. induction e as [i n dt|dt z| |op e1 IH1 e2 IH2| | |];
    intros ca cb Hd Hid; simpl in *; try done.
  - destruct (_ || _) eqn:E; [|done]. injection Hd as <- <-. rewrite tvm_str_var.
    assert (n = tv_name v) as ->.
    { apply orb_true_iff in E as [E%bool_decide_eq_true|E%bool_decide_eq_true]; [|done].
      apply (Hid (TVar i n dt)); [by left|done]. }
    rewrite Hx. simpl. by rewrite Z.mul_1_l, Z.add_0_r.
  - injection Hd as <- <-. done.
  - assert (∀ w, w ∈ post_order_vars e1 → tv_id w = tv_id v → tv_name w = tv_name v) as Hid1 by set_solver.
    assert (∀ w, w ∈ post_order_vars e2 → tv_id w = tv_id v → tv_name w = tv_name v) as Hid2 by set_solver.
    destruct op; try done; apply bind_Ok in Hd as ([[a1 b1]|] & H1 & Hd); try done;
      try (apply bind_Ok in Hd as ([[a2 b2]|] & H2 & Hd); try done).
    1-2: injection Hd as <- <-; rewrite (IH1 _ _ H1 Hid1), (IH2 _ _ H2 Hid2); simpl; f_equal; lia.
    + rewrite (IH1 _ _ H1 Hid1), (IH2 _ _ H2 Hid2). simpl. f_equal.
      destruct (a1 =? 0) eqn:E1; [|destruct (a2 =? 0) eqn:E2; [|done]]; injection Hd as <- <-; nia.
    + destruct e2 as [|dt d| | | | |]; try done. destruct (a1 =? 0) eqn:E1; [|done].
      apply bind_Ok in Hd as (q & Hq & Hd). injection Hd as <- <-.
      apply Z.eqb_eq in E1 as ->. rewrite (IH1 _ _ H1 Hid1). simpl. exact Hq.
Qed.

(** C22: when [_detect_affine] reads an expression as [a * var + b], evaluating
    the expression at run time with the value of the variable gives exactly
    [a * value + b] (variables being told apart by their names). *)
Theorem detect_affine_sound `{!TVMLaws} e v a b env x :
  _detect_affine e v = Ok (Some (a, b)) →
  (∀ w, w ∈ post_order_vars e → tv_id w = tv_id v → tv_name w = tv_name v) →
  env !! tv_name v = Some x →
  _eval_tir_expr simplify e env = Ok (a * x + b).
Proof. apply affine_eval. Qed.

(** ** Where a variable is bound *)

(** The variables of a kernel's shapes, as objects: one identity, one variable. *)
Definition shape_vars (f : prim_func) : list tvar :=
  p ← pf_params f; e ← param_shape f p; post_order_vars e.
Definition coherent (f : prim_func) : Prop :=
  ∀ v w, v ∈ shape_vars f → w ∈ shape_vars f → tv_id v = tv_id w → v = w.

Lemma first_seen_subset vs v : v ∈ first_seen vs → v ∈ vs.
Proof.
  unfold first_seen. revert v. induction vs as [|w vs IH] using rev_ind; simpl; [done|].
  intros v. rewrite foldl_app. simpl. unfold add_new at 1. rewrite elem_of_app.
  case_bool_decide; [intros ?%IH; by left|].
  intros [?%IH|?]%elem_of_app; [by left|by right].
Qed.

Lemma all_vars_shape f v : v ∈ all_vars f → v ∈ shape_vars f.
Proof.
  intros Hv%first_seen_subset. unfold shape_vars.
  apply list_elem_of_bind in Hv as (p & Hp & Hin). apply list_elem_of_bind in Hp as (e & He & Hine).
  apply list_elem_of_bind. exists p. split; [|done].
  apply list_elem_of_bind. exists e. split; [by apply first_seen_subset|done].
Qed.

Lemma shape_vars_elem f i p j e w :
  pf_params f !! i = Some p → param_shape f p !! j = Some e → w ∈ post_order_vars e →
  w ∈ shape_vars f.
Proof.
  intros Hp He Hw. apply list_elem_of_bind. exists p. split; [|by eapply list_elem_of_lookup_2].
  apply list_elem_of_bind. exists e. split; [done|by eapply list_elem_of_lookup_2].
Qed.

Lemma first_dim_spec {B} (test : expr → res (option B)) j0 shape j b :
  first_dim test j0 shape = Ok (Some (j, b)) →
  ∃ k e, j = (j0 + k)%nat ∧ shape !! k = Some e ∧ test e = Ok (Some b).
Proof.
  revert j0. induction shape as [|e shape IH]; intros j0 Hf; simpl in Hf; [done|].
  apply bind_Ok in Hf as ([b'|] & Ht & Hf).
  - injection Hf as <- <-. exists 0%nat, e. split; [lia|done].
  - apply IH in Hf as (k & e' & -> & Hk & He). exists (S k), e'. split; [lia|done].
Qed.

Lemma first_param_spec {B} (test : expr → res (option B)) f i0 params i j b :
  first_param test f i0 params = Ok (Some (i, j, b)) →
  ∃ k p e, i = (i0 + k)%nat ∧ params !! k = Some p ∧ param_shape f p !! j = Some e ∧
    test e = Ok (Some b).
Proof.
  revert i0. induction params as [|p params IH]; intros i0 Hf; simpl in Hf; [done|].
  apply bind_Ok in Hf as ([[j' b']|] & Ht & Hf).
  - injection Hf as <- <- <-. apply first_dim_spec in Ht as (k & e & -> & Hk & He).
    exists 0%nat, p, e. split; [lia|done].
  - apply IH in Hf as (k & q & e & -> & Hk & He). exists (S k), q, e. split; [lia|done].
Qed.

(** The dimension a binding names, and what it says of it. *)
Lemma bind_var_spec f v bd :
  bind_var f v = Ok (Some bd) →
  ∃ p e, pf_params f !! (binding_pos bd).1 = Some p ∧
    param_shape f p !! (binding_pos bd).2 = Some e ∧
    match bd with
    | Direct _ _ => ∃ n dt, e = Var (tv_id v) n dt
    | Affine _ _ a b => a ≠ 0 ∧ _detect_affine e v = Ok (Some (a, b))
    end.
Proof.
  unfold bind_var. case_bool_decide; [done|]. intros Hb.
  apply bind_Ok in Hb as ([[[i j] []]|] & Hd & Hb).
  - injection Hb as <-. apply first_param_spec in Hd as (k & p & e & -> & Hp & He & Ht).
    exists p, e. split; [done|]. split; [done|]. unfold test_direct in Ht.
    destruct e; try done. case_bool_decide; [|done]. subst. eauto.
  - apply bind_Ok in Hb as ([[[i j] [a b]]|] & Ha & Hb); [|done]. injection Hb as <-.
    apply first_param_spec in Ha as (k & p & e & -> & Hp & He & Ht).
    exists p, e. split; [done|]. split; [done|]. unfold test_affine in Ht.
    destruct e; try done; apply bind_Ok in Ht as ([[a' b']|] & Hdet & Ht); try done;
      destruct (a' =? 0) eqn:E; simpl in Ht; try done; injection Ht as <- <-; (split; [lia|done]).
Qed.

Lemma process_spec f sym v bd :
  _process_dynamic_symbolic f = Ok sym → (v, bd) ∈ sym →
  v ∈ all_vars f ∧ bind_var f v = Ok (Some bd).
Proof.
  intros Hp. revert v bd.
  refine (mfold_inv (λ acc, ∀ v bd, (v, bd) ∈ acc → v ∈ all_vars f ∧ bind_var f v = Ok (Some bd))
           _ [] (all_vars f) sym _ _ Hp); [by intros ?? ?%not_elem_of_nil|].
  intros acc v acc' IH Hv Hs. apply bind_Ok in Hs as ([bd|] & Hb & Hs); injection Hs as <-; [|done].
  intros w bd' [?|Hw]%elem_of_app; [by apply IH|].
  apply list_elem_of_singleton in Hw. by simplify_eq.
Qed.

(** Setting the values one after the other. *)
Lemma calcu_fold `{!TVMLaws} orig args (env : gmap string Z) sym (acc : gmap string Z * list Z) :
  Forall (λ vb, ∃ x, resolve_one orig args vb.2 = Ok x ∧ env !! tv_name vb.1 = Some x) sym →
  ∃ dv extra,
    mfold (λ acc kb,
      value ← resolve_one orig args kb.2;
      Ok (<[tvm_str (var_expr kb.1) := value]> acc.1, acc.2 ++ [value])) acc sym =
    Ok (dv, acc.2 ++ extra) ∧
    Forall2 (λ vb x, env !! tv_name vb.1 = Some x) sym extra ∧
    ∀ n, dv !! n = if bool_decide (n ∈ (λ vb, tv_name vb.1) <$> sym) then env !! n else acc.1 !! n.
Proof.
  intros Hall. revert acc. induction Hall as [|[v bd] sym (x & Hr & Hx) Hall IH]; intros [dv0 ex0]; simpl.
  { exists dv0, []. by rewrite app_nil_r. }
  simpl in Hr, Hx. rewrite Hr. simpl.
  assert (tvm_str (var_expr v) = tv_name v) as -> by apply tvm_str_var.
  destruct (IH (<[tv_name v := x]> dv0, ex0 ++ [x])) as (dv & extra & -> & Hf & Hdv).
  exists dv, (x :: extra). simpl. rewrite <- app_assoc. split; [done|]. split; [by constructor|].
  intros n. rewrite Hdv. simpl. destruct (decide (n = tv_name v)) as [->|Hne].
  - rewrite (bool_decide_true (_ ∈ tv_name v :: _)) by (by left). rewrite lookup_insert_eq, Hx.
    by case_bool_decide.
  - rewrite lookup_insert_ne by done.
    rewrite (bool_decide_ext (n ∈ tv_name v :: _) (n ∈ (λ vb, tv_name vb.1) <$> sym)); [done|].
    rewrite elem_of_cons. naive_solver.
Qed.

(** The tensors a call passes have the shapes the kernel declares under the
    values [env]. *)
Definition shapes_agree (f : prim_func) (orig : gmap nat nat) (args : list arg)
    (env : gmap string Z) : Prop :=
  ∀ i p b pos, pf_params f !! i = Some p → pf_buffer_map f !! tv_id p = Some b →
    orig !! i = Some pos →
    ∃ dims, args !! pos = Some (ATensor dims) ∧
      Forall2 (λ e d, _eval_tir_expr simplify e env = Ok d) (buf_shape b) dims.

(** Every variable is bound at a parameter the caller passes. *)
Definition bound_at_inputs (sym : list (tvar * binding)) (orig : gmap nat nat) : bool :=
  forallb (λ vb, bool_decide (is_Some (orig !! (binding_pos vb.2).1))) sym.

Lemma resolve_bound `{!TVMLaws} f sym orig args env v bd x :
  coherent f → _process_dynamic_symbolic f = Ok sym → shapes_agree f orig args env →
  (v, bd) ∈ sym → is_Some (orig !! (binding_pos bd).1) → env !! tv_name v = Some x →
  resolve_one orig args bd = Ok x.
Proof.
  intros Hco Hp Hs Hin [pos Ho] Hx. destruct (process_spec _ _ _ _ Hp Hin) as [Hv Hb].
  apply bind_var_spec in Hb as (p & e & Hpar & He & Hbd).
  assert (∃ b, pf_buffer_map f !! tv_id p = Some b ∧ buf_shape b !! (binding_pos bd).2 = Some e)
    as (b & Hbm & Hbe).
  { unfold param_shape in He. destruct (pf_buffer_map f !! tv_id p) as [b|] eqn:E; [by exists b|].
    by rewrite lookup_nil in He. }
  destruct (Hs _ _ _ _ Hpar Hbm Ho) as (dims & Ha & Hdims).
  destruct (Forall2_lookup_l _ _ _ _ _ Hdims Hbe) as (d & Hd & Hev).
  unfold resolve_one. destruct (binding_pos bd) as [i j] eqn:Hpos. simpl in *.
  rewrite Ho, (py_index_nat _ _ _ Ha). simpl. rewrite Hd.
  assert (∀ w, w ∈ post_order_vars e → tv_id w = tv_id v → tv_name w = tv_name v) as Hid.
  { intros w Hw Hidw. f_equal. apply Hco; [by eapply shape_vars_elem|by apply all_vars_shape|done]. }
  destruct bd as [i' j'|i' j' ca cb]; simpl.
  - destruct Hbd as (n & dt & ->). simpl in Hev. rewrite tvm_str_var in Hev.
    assert (n = tv_name v) as -> by (apply (Hid (TVar (tv_id v) n dt)); [by left|done]).
    rewrite Hx in Hev. simpl in Hev. congruence.
  - destruct Hbd as [Ha0 Hdet]. rewrite (affine_eval _ _ _ _ _ _ Hdet Hid Hx) in Hev.
    injection Hev as <-. unfold py_floordiv. rewrite (proj2 (Z.eqb_neq _ _)) by done.
    f_equal. replace (ca * x + cb - cb) with (x * ca) by lia. by apply Z.div_mul.
Qed.

(** A variable that is bound at an output stops the loop. *)
Lemma calcu_output orig args (env : gmap string Z) sym (acc : gmap string Z * list Z) :
  Forall (λ vb, is_Some (orig !! (binding_pos vb.2).1) → ∃ x, resolve_one orig args vb.2 = Ok x) sym →
  bound_at_inputs sym orig = false →
  mfold (λ acc kb,
    value ← resolve_one orig args kb.2;
    Ok (<[tvm_str (var_expr kb.1) := value]> acc.1, acc.2 ++ [value])) acc sym = Raise ValueError.
Proof.
  intros Hall. revert acc. induction Hall as [|[v bd] sym Hx _ IH]; intros acc Hb; [done|].
  unfold bound_at_inputs in Hb. cbn [forallb snd] in Hb. apply andb_false_iff in Hb. cbn [mfold snd].
  destruct (orig !! (binding_pos bd).1) as [pos|] eqn:E.
  - cbn [snd] in Hx. destruct Hx as [x Hx]; [by rewrite E|]. rewrite Hx. simpl. apply IH.
    destruct Hb as [Hb|Hb]; [|done]. by rewrite bool_decide_true in Hb.
  - unfold resolve_one. destruct (binding_pos bd) as [i j]. simpl in E. by rewrite E.
Qed.

(** C5: the symbolic dimensions are recovered.  Let every tensor of a call have
    the shape its parameter declares under some values of the variables.  When
    every variable of the symbolic map (the variables with a dimension that is
    the variable or affine in it, and that are not parameters themselves) is
    bound at a parameter the caller passes, the call computes exactly these
    values, from a dimension that is the variable itself or by inverting an
    affine one, and appends them as extra arguments in the order of the map; a
    variable that is not in the map gets no value.  When the map binds some
    variable at an output, the call raises [ValueError]. *)
Theorem dynamic_values_recovered `{!TVMLaws} f sym orig args env :
  coherent f → _process_dynamic_symbolic f = Ok sym → shapes_agree f orig args env →
  (∀ v, v ∈ shape_vars f → is_Some (env !! tv_name v)) →
  if bound_at_inputs sym orig then
    ∃ dv extra, calcu_dynamic sym orig args = Ok (dv, extra) ∧
      Forall2 (λ vb x, env !! tv_name vb.1 = Some x) sym extra ∧
      ∀ n, dv !! n = if bool_decide (n ∈ (λ vb, tv_name vb.1) <$> sym) then env !! n else None
  else calcu_dynamic sym orig args = Raise ValueError.
Proof.
  intros Hco Hp Hs Henv.
  assert (∀ v bd, (v, bd) ∈ sym → is_Some (orig !! (binding_pos bd).1) →
    ∃ x, resolve_one orig args bd = Ok x ∧ env !! tv_name v = Some x) as Hres.
  { intros v bd Hin Ho. destruct (process_spec _ _ _ _ Hp Hin) as [Hv _].
    destruct (Henv v) as [x Hx]; [by apply all_vars_shape|]. exists x.
    split; [by eapply resolve_bound|done]. }
  destruct (bound_at_inputs sym orig) eqn:Hb.
  - destruct (calcu_fold orig args env sym (∅, [])) as (dv & extra & Hc & Hf & Hdv).
    + apply Forall_forall. intros [v bd] Hin. apply (Hres v bd Hin).
      eapply forallb_forall in Hb; [|by apply list_elem_of_In]. by apply bool_decide_eq_true in Hb.
    + exists dv, extra. split; [exact Hc|]. split; [done|]. intros n. rewrite Hdv.
      simpl. by rewrite lookup_empty.
  - unfold calcu_dynamic. apply (calcu_output orig args env); [|done].
    apply Forall_forall. intros [v bd] Hin Ho. destruct (Hres v bd Hin Ho) as (x & Hx & _). by exists x.
Qed.

End affine.

(** ** The arguments of a launch *)

Section call_theorems.
Context `{TVM}.
Variable simplify : expr → gmap string Z → option Z.
Variable eval_grid : string → gmap string Z → option grid_val.

(** What stands at position [i] of the launch. *)
Definition placed (dv : gmap string Z) (positions : gmap nat nat) (inputs : list arg)
    (i p0 : nat) (info : param_info) (l : option launch_arg) : Prop :=
  if pi_is_output info then
    ∃ shape, l = Some (LOutput shape (pi_dtype info)) ∧
      Forall2 (λ e d, _eval_tir_expr simplify e dv = Ok d) (pi_shape info) shape
  else
    ∃ pos a, positions !! i = Some (p0 + pos)%nat ∧ inputs !! pos = Some a ∧ l = Some (LInput a).

Lemma build_args_spec dv args infos inputs l i0 p0 :
  build_args simplify dv args infos inputs = Ok l →
  length l = length infos ∧
  ∀ i info, infos !! i = Some info →
    placed dv (input_positions i0 p0 infos) inputs (i0 + i) p0 info (l !! i).
Proof.
  revert inputs l i0 p0. induction infos as [|info infos IH]; intros inputs l i0 p0 Hb; simpl in Hb.
  { injection Hb as <-. done. }
  destruct (pi_is_output info) eqn:Ho.
  - apply bind_Ok in Hb as (shape & Hs & Hb). apply bind_Ok in Hb as (u & _ & Hb).
    apply bind_Ok in Hb as (rest & Hr & Hb). injection Hb as <-.
    destruct (IH _ _ (S i0) p0 Hr) as [Hlen Hpl]. split; [simpl; by f_equal|].
    intros [|i] inf Hi; simpl in Hi; simpl.
    + injection Hi as <-. unfold placed. rewrite Ho. exists shape. split; [done|]. by apply mmap_Ok.
    + specialize (Hpl _ _ Hi). rewrite Ho. by rewrite Nat.add_succ_r.
  - destruct inputs as [|a inputs]; [done|]. apply bind_Ok in Hb as (rest & Hr & Hb).
    injection Hb as <-. destruct (IH _ _ (S i0) (S p0) Hr) as [Hlen Hpl].
    split; [simpl; by f_equal|]. intros [|i] inf Hi; simpl in Hi; simpl; rewrite Ho.
    + injection Hi as <-. unfold placed. rewrite Ho. exists 0%nat, a.
      rewrite !Nat.add_0_r, lookup_insert_eq. done.
    + specialize (Hpl _ _ Hi). unfold placed in *. destruct (pi_is_output inf); [done|].
      destruct Hpl as (pos & b & Hp & Hin & Hl). exists (S pos), b. split; [|done].
      rewrite lookup_insert_ne by lia.
      replace (i0 + S i)%nat with (S i0 + i)%nat by lia. rewrite Hp. f_equal. lia.
Qed.

(** What compilation makes of a kernel: the outputs among its parameters are
    the positions of [out_idx], each named once. *)
Definition well_built (k : JitKernel_NPU) : Prop :=
  (∀ i info, k_param_info k !! i = Some info →
    pi_is_output info = bool_decide (Z.of_nat i ∈ default [] (k_out_idx k))) ∧
  NoDup (default [] (k_out_idx k)) ∧
  Forall (λ i, 0 ≤ i < len (k_param_info k)) (default [] (k_out_idx k)).

(** The parameters [_extract_param_info] describes for positions that
    [_normalize_out_idx] returned are of this kind. *)
Lemma extracted_well_built f out l infos sym grid :
  _normalize_out_idx out (len (pf_params f)) = Ok (Some l) → NoDup l →
  _extract_param_info f (Some l) = Ok infos →
  well_built (JitKernel infos (Some l) sym grid).
Proof.
  intros Hn Hnd Hi. unfold _extract_param_info in Hi.
  pose proof (mmap_length _ _ _ Hi) as Hlen. rewrite length_zip, length_seq, Nat.min_id in Hlen.
  assert (∀ k, Some <$> mmap (normalize_one (len (pf_params f))) k = Ok (Some l) →
               Forall (λ i, 0 ≤ i < len (pf_params f)) l) as Hk.
  { intros k Hk. destruct (mmap _ k) as [l'|] eqn:E; [|done]. injection Hk as ->.
    apply mmap_Ok in E. clear -E. induction E as [|i j is_ js Hij _ IH]; [done|]. constructor; [|done].
    unfold normalize_one in Hij. destruct (_ || _) eqn:Eb; [done|]. injection Hij as <-.
    apply orb_false_iff in Eb as [?%Z.ltb_ge ?%Z.leb_gt]. lia. }
  assert (Forall (λ i, 0 ≤ i < len (pf_params f)) l) as Hr by (destruct out; try done; by eapply Hk).
  split; [|split; [done|]]; simpl.
  - intros i info Hinfo. apply mmap_Ok in Hi.
    destruct (Forall2_lookup_r _ _ _ _ _ Hi Hinfo) as ([i' p] & Hz & He).
    apply lookup_zip_with_Some in Hz as (? & ? & [= <- <-] & Hs & Hp).
    apply lookup_seq in Hs as [-> _]. unfold extract_param in He. rewrite Nat.add_0_l in He.
    assert (marked_output (Some l) (len (pf_params f)) i = bool_decide (Z.of_nat i ∈ l)) as Hm.
    { unfold marked_output. replace ((λ z : Z, _) <$> l) with l; [done|].
      rewrite <- (list_fmap_id l) at 1. apply list_fmap_ext. intros j z Hz.
      rewrite (proj2 (Z.leb_le 0 z)); [done|]. by apply (Forall_lookup_1 _ _ _ _ Hr Hz). }
    rewrite <- Hm. cbv zeta in He. destruct (pf_buffer_map f !! tv_id p) as [b|].
    + destruct (_ && _); [done|]. by injection He as <-.
    + destruct (marked_output _ _ _); [done|]. by injection He as <-.
  - eapply Forall_impl; [done|]. intros z Hz. unfold len in *. by rewrite Hlen.
Qed.

Fixpoint output_positions (i : nat) (infos : list param_info) : list Z :=
  match infos with
  | [] => []
  | info :: infos' => (if pi_is_output info then [Z.of_nat i] else []) ++ output_positions (S i) infos'
  end.

Definition count_inputs (infos : list param_info) : nat :=
  length (List.filter (λ info, negb (pi_is_output info)) infos).

Lemma output_positions_spec i infos z :
  z ∈ output_positions i infos ↔
  ∃ j info, infos !! j = Some info ∧ pi_is_output info = true ∧ z = Z.of_nat (i + j).
Proof.
  revert i. induction infos as [|info infos IH]; intros i; simpl.
  { split; [by intros ?%elem_of_nil|]. intros (j & info & Hj & _). by rewrite lookup_nil in Hj. }
  rewrite elem_of_app, IH. split.
  - intros [Hz|(j & inf & Hj & Ho & ->)].
    + destruct (pi_is_output info) eqn:Ho; [|by apply elem_of_nil in Hz].
      apply list_elem_of_singleton in Hz as ->. exists 0%nat, info. by rewrite Nat.add_0_r.
    + exists (S j), inf. split; [done|]. split; [done|]. lia.
  - intros ([|j] & inf & Hj & Ho & ->); simpl in Hj.
    + injection Hj as ->. left. rewrite Ho, Nat.add_0_r. by left.
    + right. exists j, inf. split; [done|]. split; [done|]. lia.
Qed.

Lemma output_positions_NoDup i infos : NoDup (output_positions i infos).
Proof.
  revert i. induction infos as [|info infos IH]; intros i; simpl; [constructor|].
  destruct (pi_is_output info); simpl; [|done]. constructor; [|done].
  intros (j & inf & _ & _ & Hz)%output_positions_spec. lia.
Qed.

Lemma count_inputs_spec i infos :
  (count_inputs infos + length (output_positions i infos) = length infos)%nat.
Proof.
  unfold count_inputs. revert i. induction infos as [|info infos IH]; intros i; simpl; [done|].
  specialize (IH (S i)). destruct (pi_is_output info); simpl; lia.
Qed.

Lemma well_built_count k :
  well_built k →
  Z.of_nat (count_inputs (k_param_info k)) =
  len (k_param_info k) - match k_out_idx k with Some l => len l | None => 0 end.
Proof.
  intros (Ho & Hnd & Hr). pose proof (count_inputs_spec 0 (k_param_info k)) as Hc.
  assert (output_positions 0 (k_param_info k) ≡ₚ default [] (k_out_idx k)) as Hp.
  { apply NoDup_Permutation; [apply output_positions_NoDup|done|]. intros z.
    rewrite output_positions_spec. split.
    - intros (j & info & Hj & Hout & ->). rewrite (Ho _ _ Hj) in Hout. by apply bool_decide_eq_true in Hout.
    - intros Hz. rewrite Forall_forall in Hr. pose proof (Hr _ Hz) as Hzr. unfold len in Hzr.
      destruct (lookup_lt_is_Some_2 (k_param_info k) (Z.to_nat z)) as [info Hi]; [lia|].
      exists (Z.to_nat z), info. split; [done|]. split; [|lia].
      rewrite (Ho _ _ Hi), Z2Nat.id by lia. by apply bool_decide_eq_true. }
  apply Permutation_length in Hp. unfold len. destruct (k_out_idx k); simpl in Hp; lia.
Qed.

Lemma mmap_all_Ok {A B} (g : A → res B) l :
  Forall (λ x, ∃ y, g x = Ok y) l → ∃ k, mmap g l = Ok k.
Proof.
  induction 1 as [|x l [y Hy] _ [k Hk]]; [by exists []|]. exists (y :: k). simpl. by rewrite Hy, Hk.
Qed.

Lemma build_args_total dv args infos inputs :
  length inputs = count_inputs infos →
  Forall (λ info, pi_is_output info = true →
    Forall (λ e, ∃ d, _eval_tir_expr simplify e dv = Ok d) (pi_shape info)) infos →
  (existsb pi_is_output infos = true → head args ≠ Some AScalar) →
  ∃ l, build_args simplify dv args infos inputs = Ok l.
Proof.
  intros Hlen Hall. revert inputs Hlen. induction Hall as [|info infos Hi _ IH]; intros inputs Hlen Hdev.
  { by exists []. }
  unfold count_inputs in Hlen. simpl in Hlen, Hdev |- *. destruct (pi_is_output info); simpl in Hlen, Hdev.
  - destruct (mmap_all_Ok (λ dim, _eval_tir_expr simplify dim dv) (pi_shape info)) as [shape ->];
      [by apply Hi|]. simpl.
    assert (output_device args = Ok tt) as ->.
    { specialize (Hdev eq_refl). by destruct args as [|[]]. }
    simpl. destruct (IH inputs) as [l ->]; [done|by intros _; apply Hdev|]. by eexists.
  - destruct inputs as [|a inputs]; [done|]. injection Hlen as Hlen.
    destruct (IH inputs Hlen Hdev) as [l ->]. by eexists.
Qed.

Lemma py_index_all {A} (l : list A) is_ :
  Forall (λ i, 0 ≤ i < len l) is_ → ∃ vs, mmap (py_index l) is_ = Ok vs.
Proof.
  intros Hr. apply mmap_all_Ok. eapply Forall_impl; [done|]. intros i Hi. unfold len in Hi.
  destruct (lookup_lt_is_Some_2 l (Z.to_nat i)) as [x Hx]; [lia|]. exists x.
  apply py_index_nat in Hx. by rewrite Z2Nat.id in Hx by lia.
Qed.

(** C20: a kernel whose outputs are the positions of [out_idx] raises
    [ValueError] when it is called with another number of arguments than it has
    inputs.  With that number, when the symbolic values are resolved, the grid
    evaluates to at least three numbers, the dimensions of the outputs evaluate,
    and the first argument is not a scalar if there are outputs, the call
    launches with one argument per parameter followed by the symbolic values:
    the caller's arguments in order at the parameters that are not outputs, and
    at the others a new tensor of the declared dtype whose shape is the declared
    one evaluated with the symbolic values; what it returns are the launch
    arguments at [out_idx]. *)
Theorem call_kernel_layout k args :
  well_built k →
  let infos := k_param_info k in
  if negb (len args =? Z.of_nat (count_inputs infos))
  then call_kernel simplify eval_grid k args = Raise ValueError
  else
    ∀ dv extra g,
      calcu_dynamic (k_symbolic k) (input_positions 0 0 infos) args = Ok (dv, extra) →
      eval_grid (replace_by_longest_key (k_gridfunc k) (map_to_list dv)) dv = Some g →
      3 ≤ len (launch_grid g) →
      Forall (λ info, pi_is_output info = true →
        Forall (λ e, ∃ d, _eval_tir_expr simplify e dv = Ok d) (pi_shape info)) infos →
      (existsb pi_is_output infos = true → head args ≠ Some AScalar) →
      ∃ full_args outs,
        call_kernel simplify eval_grid k args = Ok (take 3 (launch_grid g), full_args, outs) ∧
        drop (length infos) full_args = LExtra <$> extra ∧
        (∀ i info, infos !! i = Some info →
          placed dv (input_positions 0 0 infos) args i 0 info (full_args !! i)) ∧
        match k_out_idx k, outs with
        | None, None => True
        | Some l, Some os => Forall2 (λ i o, full_args !! Z.to_nat i = Some o) l os
        | _, _ => False
        end.
Proof.
  intros Hwb infos. pose proof (well_built_count k Hwb) as Hcount.
  destruct (negb _) eqn:E; [by unfold call_kernel; cbv zeta; rewrite <- Hcount; fold infos; rewrite E|].
  intros dv extra g Hdyn Hg Hg3 Hsh Hdev.
  unfold call_kernel. cbv zeta. rewrite <- Hcount. fold infos. rewrite E, Hdyn. cbn.
  rewrite Hg. cbn. apply negb_false_iff, Z.eqb_eq in E. unfold len in E.
  destruct (build_args_total dv args infos args) as [fa Hb]; [lia|done|done|]. rewrite Hb. cbn.
  destruct (build_args_spec _ _ _ _ _ 0 0 Hb) as [Hlen Hpl].
  destruct (launch_grid g) as [|x [|y [|z l]]]; try (unfold len in Hg3; simpl in Hg3; lia).
  set (full := fa ++ (LExtra <$> extra)).
  assert (Forall (λ i, 0 ≤ i < len full) (default [] (k_out_idx k))) as Hr.
  { destruct Hwb as (_ & _ & Hr). eapply Forall_impl; [done|]. intros i Hi. unfold full, len in *.
    rewrite length_app, Hlen. fold infos in Hi. lia. }
  destruct (py_index_all full _ Hr) as [vs Hvs].
  exists full, (match k_out_idx k with Some _ => Some vs | None => None end).
  assert (Forall2 (λ i o, full !! Z.to_nat i = Some o) (default [] (k_out_idx k)) vs) as Hf.
  { apply mmap_Ok in Hvs. apply Forall2_same_length_lookup.
    split; [by eapply Forall2_length|]. intros j i o Hi Ho.
    pose proof (Forall2_lookup_lr _ _ _ _ _ _ Hvs Hi Ho) as Hio. simpl in Hio.
    pose proof (Forall_lookup_1 _ _ _ _ Hr Hi) as Hri. unfold len in Hri.
    destruct (lookup_lt_is_Some_2 full (Z.to_nat i)) as [w Hw]; [lia|].
    pose proof (py_index_nat _ _ _ Hw) as Hw'. rewrite Z2Nat.id in Hw' by lia. congruence. }
  split; [|split; [by unfold full; rewrite <- Hlen, drop_app_length|split]].
  - rewrite (py_index_nat (x :: y :: z :: l) 1 y eq_refl : py_index _ 1 = _).
    rewrite (py_index_nat (x :: y :: z :: l) 2 z eq_refl : py_index _ 2 = _).
    destruct (k_out_idx k) as [os|]; simpl in Hvs |- *; [by rewrite Hvs, take_0|by rewrite take_0].
  - intros i info Hi. unfold full. rewrite lookup_app_l; [by apply Hpl|].
    rewrite Hlen. by eapply lookup_lt_Some.
  - by destruct (k_out_idx k).
Qed.

(** A kernel with an output whose call passes a scalar as the first argument
    never gets to the launch: the outputs are put on the device of the first
    argument, which only a tensor has. *)
Theorem scalar_first_argument_fails k args r :
  existsb pi_is_output (k_param_info k) = true →
  call_kernel simplify eval_grid k (AScalar :: args) ≠ Ok r.
Proof.
  intros Ho Hc. unfold call_kernel in Hc. destruct (negb _); [done|].
  apply bind_Ok in Hc as ([dv extra] & _ & Hc). apply bind_Ok in Hc as (g & _ & Hc).
  apply bind_Ok in Hc as (fa & Hb & _). revert Ho Hb.
  generalize (AScalar :: args) at 2 as inputs. generalize fa.
  induction (k_param_info k) as [|info infos IH]; intros l inputs Ho Hb; simpl in *; [done|].
  destruct (pi_is_output info); simpl in *.
  - by apply bind_Ok in Hb as (shape & _ & Hb).
  - destruct inputs as [|a inputs]; [done|]. apply bind_Ok in Hb as (rest & Hr & _). by eapply IH.
Qed.

End call_theorems.

(** ** Evaluation on a concrete kernel *)

Module DynShapeEx.
Import ConstTVM.

Definition no_simplify (e : expr) (env : gmap string Z) : option Z := None.
Definition no_grid (s : string) (env : gmap string Z) : option grid_val := Some (GInt 4).

(** [A : (n, 2 * m + 1)], [B : (n + m,)], [B] the output. *)
Definition n : tvar := TVar 1 "n" "int32".
Definition m : tvar := TVar 2 "m" "int32".
Definition dimA : expr := BinOp OpAdd (BinOp OpMul (int32_imm 2) (var_expr m)) (int32_imm 1).
Definition A : buffer := Buffer 0 "A" "float16" "global" [var_expr n; dimA].
Definition B : buffer := Buffer 1 "B" "float16" "global" [BinOp OpAdd (var_expr n) (var_expr m)].
Definition f : prim_func :=
  PrimFunc [TVar 10 "a" "handle"; TVar 11 "b" "handle"] {[ 10%nat := A; 11%nat := B ]}.
Definition sym : list (tvar * binding) := [(n, Direct 0 0); (m, Affine 0 1 2 1)].
Definition env : gmap string Z := {[ "n" := 7; "m" := 4 ]}.

Lemma f_coherent : coherent f.
Proof.
  intros v w Hv Hw. assert (shape_vars f = [n; m; n; m]) as E by reflexivity. rewrite E in Hv, Hw.
  set_unfold. destruct_or!; subst; done.
Qed.

(** The positions of the inputs when [B] is the output. *)
Definition orig : gmap nat nat := {[ 0%nat := 0%nat ]}.

Lemma f_shapes : shapes_agree no_simplify f orig [ATensor [7; 9]] env.
Proof.
  intros i p b pos Hp Hb Ho. unfold orig in Ho. apply lookup_singleton_Some in Ho as [<- <-].
  exists [7; 9]. split; [done|]. injection Hp as <-.
  vm_compute in Hb. injection Hb as <-. by repeat constructor.
Qed.

Lemma f_values v : v ∈ shape_vars f → is_Some (env !! tv_name v).
Proof.
  assert (shape_vars f = [n; m; n; m]) as -> by reflexivity.
  revert v. apply Forall_forall. repeat constructor; by eexists.
Qed.

Lemma normalize_out_idx_spec_witness : _normalize_out_idx (OList [-1; 0]) 3 = Ok (Some [2; 0]).
Proof. exact (normalize_out_idx_spec (OList [-1; 0]) 3 ltac:(lia)). Defined.

Lemma detect_affine_sound_witness : _eval_tir_expr no_simplify dimA env = Ok (2 * 4 + 1).
Proof.
  apply (detect_affine_sound no_simplify dimA m 2 1 env 4 eq_refl); [|reflexivity].
  intros w Hw _. simpl in Hw. by apply list_elem_of_singleton in Hw as ->.
Defined.

Lemma dynamic_values_recovered_witness :
  ∃ dv extra, calcu_dynamic sym orig [ATensor [7; 9]] = Ok (dv, extra) ∧
    dv !! "m" = Some 4.
Proof.
  destruct (dynamic_values_recovered no_simplify f sym orig [ATensor [7; 9]] env
              f_coherent eq_refl f_shapes f_values) as (dv & extra & H1 & _ & H2).
  exists dv, extra. split; [exact H1|]. exact (H2 "m").
Defined.

(** With [A] the output the values cannot be computed. *)
Example bound_at_output :
  calcu_dynamic sym {[ 1%nat := 0%nat ]} [ATensor [11]] = Raise ValueError.
Proof. reflexivity. Qed.

(** The compiled kernel of [f], called with [A : (7, 9)]. *)
Definition kf : JitKernel_NPU :=
  JitKernel [ParamInfo "torch.float16" (buf_shape A) false;
             ParamInfo "torch.float16" (buf_shape B) true] (Some [1]) sym "n".

Lemma kf_built : well_built kf.
Proof.
  split; [|split; [by apply (bool_decide_unpack _)|by repeat constructor]].
  intros [|[|i]] info Hi; by simplify_eq/=.
Qed.

Lemma call_kernel_layout_witness :
  call_kernel no_simplify no_grid kf [ATensor [7; 9]] =
  Ok ([4; 1; 1],
      [LInput (ATensor [7; 9]); LOutput [11] "torch.float16"; LExtra 7; LExtra 4],
      Some [LOutput [11] "torch.float16"]).
Proof.
  pose proof (call_kernel_layout no_simplify no_grid kf [ATensor [7; 9]] kf_built) as H.
  simpl in H. destruct (H {[ "n" := 7; "m" := 4 ]} [7; 4] (GInt 4)) as (full & outs & Hc & _).
  - vm_compute; reflexivity.
  - reflexivity.
  - by vm_compute.
  - constructor; [done|]. constructor; [|constructor]. intros _. constructor; [|constructor].
    exists 11. vm_compute; reflexivity.
  - done.
  - rewrite Hc. vm_compute in Hc. by injection Hc as <- <-.
Defined.

(** The first parameter is a scalar, the second an output. *)
Definition k : JitKernel_NPU :=
  JitKernel [ParamInfo "torch.int32" [] false; ParamInfo "torch.float16" [int32_imm 8] true]
    (Some [1]) [] "4".

Lemma scalar_first_argument_fails_witness :
  call_kernel no_simplify no_grid k [AScalar] ≠ Ok ([4; 1; 1], [LInput AScalar], None).
Proof. exact (scalar_first_argument_fails no_simplify no_grid k [] _ eq_refl). Defined.

End DynShapeEx.
