(* ===== verification/Layouts.v ===== *)
(** * Tile layouts

    The index maps of [src/tilelang/intrinsics]: the thread/element maps of the
    MMA and MFMA fragments ([mma_layout.py], [mfma_layout.py]), the XOR
    swizzles, the fractal layouts of the Ascend cube unit ([ascend_layout.py])
    and the helpers of [utils.py].  The maps are evaluated on integers; Python
    and TVM's [//] and [%] both round down, as [Z.div] and [Z.modulo] do. *)
From stdpp Require Import base strings gmap numbers list.
From S2P Require Import Prelude Tir.

(** ** The [Layout] object *)

(** [tilelang.layout.Layout]: the shape and the forward index, kept as the
    function of the indices it denotes. *)
Record layout := Layout {
  lay_shape : list Z;
  lay_index : list Z → res (list Z);
}.

(** [Layout(shape, forward_fn, **kwargs)]: the constructor takes no keyword of
    its own.  It runs [forward_fn] once on fresh variables; an exception of the
    modelled functions does not depend on the indices, so it is the one the
    origin gives. *)
Definition Layout_init (shape : list Z) (forward_fn : list Z → res (list Z))
    (kwargs : list (string * Z)) : res layout :=
  match kwargs with
  | _ :: _ => Raise TypeError
  | [] => _ ← forward_fn (replicate (length shape) 0); Ok (Layout shape forward_fn)
  end.

(** [i, j = args[-2:]]. *)
Definition last_two (args : list Z) : res (Z * Z) :=
  match py_from args (-2) with
  | [i; j] => Ok (i, j)
  | _ => Raise ValueError
  end.

(** ** MMA fragments *)
Module Mma.

Definition ldmatrix_32x8_to_shared_16x16_layout (thread_id local_id : Z) : Z * Z :=
  let row := thread_id mod 16 in
  let col := 8 * (thread_id / 16) + local_id mod 8 in
  (row, col).

Definition ldmatrix_trans_32x8_to_shared_16x16_layout (thread_id local_id : Z) : Z * Z :=
  let row := 8 * (thread_id / 16) + thread_id mod 8 in
  let col := 8 * (thread_id mod 16 / 8) + local_id mod 8 in
  (row, col).

Definition ldmatrix_16x32_to_shared_16x32_layout_a (thread_id local_id : Z) : Z * Z :=
  let row := thread_id mod 16 in
  let col := 16 * (thread_id / 16) + local_id mod 16 in
  (row, col).

Definition ldmatrix_16x32_to_shared_16x32_layout_b (thread_id local_id : Z) : Z * Z :=
  let row := 8 * (thread_id / 16) + thread_id mod 8 in
  let col := 16 * (thread_id mod 16 / 8) + local_id mod 16 in
  (row, col).

Definition ldmatrix_32x16_to_shared_16x32_layout_a (thread_id local_id : Z) : Z * Z :=
  let row := thread_id mod 16 in
  let col := local_id + thread_id / 16 * 16 in
  (row, col).

Definition ldmatrix_32x16_to_shared_16x32_layout_b (thread_id local_id : Z) : Z * Z :=
  let row := thread_id / 16 * 8 + thread_id mod 8 in
  let col := local_id + 16 * (thread_id mod 16 / 8) in
  (row, col).

Definition mma_store_32x8_to_shared_16x16_layout (thread_id local_id : Z) : Z * Z :=
  let row := 8 * (local_id mod 4 / 2) + thread_id / 4 in
  let col := 8 * (local_id / 4) + thread_id mod 4 * 2 + local_id mod 2 in
  (row, col).

Definition shared_16x16_to_mma_32x8_layout_sr (i j : Z) : Z * Z :=
  let thread_id := 4 * (i mod 8) + j mod 8 / 2 in
  (thread_id, 4 * (j / 8) + i / 8 * 2 + j mod 2).

Definition shared_16x16_to_mma_32x8_layout_rs (i j : Z) : Z * Z :=
  let thread_id := 4 * (j mod 8) + i mod 8 / 2 in
  (thread_id, 4 * (i / 8) + j / 8 * 2 + i mod 2).

Definition shared_16x16_to_mma_32x8_layout := shared_16x16_to_mma_32x8_layout_sr.
Definition shared_16x16_to_mma_32x8_layout_trans := shared_16x16_to_mma_32x8_layout_rs.

Definition shared_16x32_to_mma_32x16_layout (i j : Z) : Z * Z :=
  let thread_id := 4 * (i mod 8) + j mod 16 / 4 in
  (thread_id, 8 * (j / 16) + i / 8 * 4 + j mod 4).

Definition shared_32x16_to_mma_32x16_layout (i j : Z) : Z * Z :=
  let thread_id := i mod 16 / 4 + 4 * (j mod 8) in
  (thread_id, 8 * (j / 8) + i / 16 * 4 + i mod 4).

Definition mma_32x8_to_shared_16x16_layout (thread_id local_id : Z) : Z * Z :=
  let row := 8 * (local_id mod 4 / 2) + thread_id / 4 in
  let col := 8 * (local_id / 4) + thread_id mod 4 * 2 + local_id mod 2 in
  (row, col).

Definition shared_16x16_to_mma_32x8_smoothlayout (i j : Z) : Z * Z :=
  (i * 2 + j / 8, j mod 8).

Definition shared_16x32_to_mma_32x16_smoothlayout (i j : Z) : Z * Z :=
  (i * 2 + j / 16, j mod 16).

Definition shared_32x16_to_mma_32x16_smoothlayout (i j : Z) : Z * Z :=
  (i * 2 + j / 16, j mod 16).

(** The XOR swizzle of a row: 16-byte groups are permuted by the row number. *)
Definition get_swizzle_layout `{TVM} (row_idx col_idx row_size : Z) (dtype : string)
    (swizzle_bytes : option Z) : res (Z * Z) :=
  bits ← tvm_bits dtype;
  let row_bytes := bits * row_size / 8 in
  py_assert (row_bytes mod 32 =? 0);;
  let swizzle_bytes := default (Z.min 128 row_bytes) swizzle_bytes in
  elem_per_16B ← py_floordiv 128 bits;
  col_idx_16B ← py_floordiv col_idx elem_per_16B;
  col_idx_in_16B ← py_mod col_idx elem_per_16B;
  r ← py_mod row_idx (swizzle_bytes / 16);
  let new_col_idx_16B := Z.lxor col_idx_16B r in
  Ok (row_idx, new_col_idx_16B * elem_per_16B + col_idx_in_16B).

(** [transform_func] of [make_mma_swizzle_layout], for rows of [n] elements. *)
Definition swizzle_transform_func `{TVM} (n : Z) (dtype : string) (args : list Z) : res (list Z) :=
  '(i, j) ← last_two args;
  '(new_warp_i, new_warp_j) ← get_swizzle_layout i j n dtype None;
  Ok (py_to args (-2) ++ [new_warp_i; new_warp_j]).

Definition make_mma_swizzle_layout `{TVM} (shared_buf : buffer_ Z) (is_smooth : bool) : res layout :=
  let dtype := buf_dtype shared_buf in
  let shape := buf_shape shared_buf in
  n ← py_index shape (-1);
  bits ← tvm_bits dtype;
  let can_swizzle := n * bits mod 512 =? 0 in
  if is_smooth || negb can_swizzle then Layout_init shape Ok []
  else Layout_init shape (swizzle_transform_func n dtype) [].

End Mma.

(** ** MFMA fragments *)
Module Mfma.

Definition shared_16x4_to_local_64x1_layout_A (i j : Z) : Z * Z :=
  let thread_id := j * 16 + i in (thread_id, 0).

Definition thread_id_shared_access_64x1_to_16x4_layout_A (thread_id local_id : Z) : Z * Z :=
  (thread_id mod 16, thread_id / 16).

Definition shared_4x16_to_local_64x1_layout_B (i j : Z) : Z * Z :=
  let thread_id := i * 16 + j in (thread_id, 0).

Definition thread_id_shared_access_64x1_to_4x16_layout_B (thread_id local_id : Z) : Z * Z :=
  (thread_id / 16, thread_id mod 16).

Definition shared_16x16_to_local_64x4_layout_C (i j : Z) : Z * Z :=
  let thread_id := j + i / 4 * 16 in
  let local := i mod 4 in
  (thread_id, local).

Definition shared_16x16_to_ldmatrix_64x4_layout (ind : list Z) : res (list Z) :=
  i ← py_index ind 0;
  j ← py_index ind 1;
  let '(thread_id, local_id) := shared_16x16_to_local_64x4_layout_C i j in
  Ok [thread_id; local_id].

Definition thread_id_shared_access_64x4_to_16x16_layout_A (thread_id local_id : Z) : Z * Z :=
  (thread_id mod 16, thread_id / 16 * 4 + local_id).

Definition shared_16x16_to_local_64x4_layout_A (i j : Z) : Z * Z :=
  let thread_id := i + 16 * (j / 4) in
  let local := j mod 4 in
  (thread_id, local).

Definition thread_id_shared_access_64x4_to_16x16_layout_B (thread_id local_id : Z) : Z * Z :=
  (local_id + thread_id / 16 * 4, thread_id mod 16).

Definition shared_16x16_to_local_64x4_layout_B (i j : Z) : Z * Z :=
  let thread_id := j + i / 4 * 16 in
  let local := i mod 4 in
  (thread_id, local).

Definition thread_id_shared_access_64x4_to_16x16_layout_C_m_n (thread_id local_id : Z) : Z * Z :=
  (local_id + thread_id / 16 * 4, thread_id mod 16).

Definition thread_id_shared_access_64x4_to_16x16_layout_C_n_m (thread_id local_id : Z) : Z * Z :=
  (thread_id mod 16, local_id + thread_id / 16 * 4).

Definition thread_id_shared_access_64x8_to_16x32_layout_A (thread_id local_id : Z) : Z * Z :=
  (thread_id mod 16, thread_id / 16 * 8 + local_id).

Definition shared_16x32_to_local_64x8_layout_A (i j : Z) : Z * Z :=
  let thread_id := i + 16 * (j / 8) in
  let local := j mod 8 in
  (thread_id, local).

Definition thread_id_shared_access_64x8_to_16x32_layout_B (thread_id local_id : Z) : Z * Z :=
  (local_id + thread_id / 16 * 8, thread_id mod 16).

Definition shared_16x32_to_local_64x8_layout_B (i j : Z) : Z * Z :=
  let thread_id := j + i / 8 * 16 in
  let local := i mod 8 in
  (thread_id, local).

Definition make_mfma_swizzle_layout `{TVM} (shared_buf : buffer_ Z) (vecSize : Z) : res layout :=
  let dtype := buf_dtype shared_buf in
  let shape := buf_shape shared_buf in
  let numBanks := 32 in
  let bankBitWidth := 32 in
  let SIMDWidth := 16 in
  innerDimLength ← py_index shape (-1);
  typeWidthInBit ← tvm_bits dtype;
  elemsPerOneBanksRow ← py_floordiv (numBanks * bankBitWidth) typeWidthInBit;
  q ← py_floordiv elemsPerOneBanksRow innerDimLength;
  let perPhase := Z.max 1 q in
  p ← py_floordiv SIMDWidth perPhase;
  v ← py_floordiv innerDimLength vecSize;
  let maxPhase := Z.min p v in
  let transform args :=
    match args with
    | [row; col] =>
        d ← py_floordiv row perPhase;
        phase ← py_mod d maxPhase;
        c ← py_floordiv col vecSize;
        let colOffSwizzled := Z.lxor c phase * vecSize in
        colOffOrdered ← py_mod col vecSize;
        let colOff := colOffSwizzled + colOffOrdered in
        Ok [row; colOff]
    | _ => Raise TypeError
    end in
  Layout_init shape transform [].

End Mfma.

(** ** Fractal layouts of the cube unit *)
Module AscendLayout.

Inductive AscendLayout := kRowMajor | kColMajor | kzN | kzZ | knZ.

Definition enum_value (l : AscendLayout) : Z :=
  match l with kRowMajor => 0 | kColMajor => 1 | kzN => 2 | kzZ => 3 | knZ => 4 end.

Definition BYTE_PER_C0 : Z := 32.
Definition C0_NUM_PER_FRACTAL : Z := 16.
Definition BYTE_PER_FRACTAL : Z := BYTE_PER_C0 * C0_NUM_PER_FRACTAL.

(** [ceil_div(a, b)] and [round_up(a, b)]. *)
Definition py_ceil_div (a b : Z) : res Z := py_floordiv (a + b - 1) b.
Definition round_up (a b : Z) : res Z := q ← py_ceil_div a b; Ok (q * b).

(** The coordinate computation that [make_zn_layout] and [make_nz_layout] end
    with, on the nested shape and stride they build. *)
Definition fractal_index (args : list Z) (i j : Z)
    (new_shape new_stride : (Z * Z) * (Z * Z)) : res (list Z) :=
  let rowInFractal := new_shape.1.1 in
  let colInFractal := new_shape.2.1 in
  let strideRowsByFractal := new_stride.1.2 in
  let strideColsByFractal := new_stride.2.2 in
  iq ← py_floordiv i rowInFractal;
  jq ← py_floordiv j colInFractal;
  ir ← py_mod i rowInFractal;
  jr ← py_mod j colInFractal;
  Ok (py_to args (-2) ++
      [iq * strideRowsByFractal + jq * strideColsByFractal +
       ir * new_stride.1.1 + jr * new_stride.2.1]).

(** [transform_func] of [make_zn_layout]. *)
Definition zn_transform_func (shape : list Z) (ELE_NUM_PER_C0 ELE_NUM_PER_FRACTAL : Z)
    (args : list Z) : res (list Z) :=
  '(i, j) ← last_two args;
  rows ← py_index shape (-2);
  row_blocks ← py_ceil_div rows C0_NUM_PER_FRACTAL;
  cols ← py_index shape (-1);
  col_blocks ← py_ceil_div cols ELE_NUM_PER_C0;
  let new_shape := ((C0_NUM_PER_FRACTAL, row_blocks), (ELE_NUM_PER_C0, col_blocks)) in
  r ← round_up rows C0_NUM_PER_FRACTAL;
  let new_stride := ((ELE_NUM_PER_C0, ELE_NUM_PER_FRACTAL), (1, r * ELE_NUM_PER_C0)) in
  fractal_index args i j new_shape new_stride.

Definition make_zn_layout `{TVM} (buf : buffer_ Z) : res layout :=
  let shape := buf_shape buf in
  bits ← tvm_bits (buf_dtype buf);
  c ← py_floordiv BYTE_PER_C0 bits;
  f ← py_floordiv BYTE_PER_FRACTAL bits;
  let ELE_NUM_PER_C0 := c * 8 in
  let ELE_NUM_PER_FRACTAL := f * 8 in
  Layout_init shape (zn_transform_func shape ELE_NUM_PER_C0 ELE_NUM_PER_FRACTAL)
    [("layout_tag", enum_value kzN)].

Definition make_col_major_layout (buf : buffer_ Z) : res layout :=
  let transform_func args :=
    '(i, j) ← last_two args;
    Ok (py_to args (-2) ++ [j; i]) in
  Layout_init (buf_shape buf) transform_func [("layout_tag", enum_value kColMajor)].

(** [transform_func] of [make_nz_layout]. *)
Definition nz_transform_func (shape : list Z)
    (ELE_NUM_PER_C0 ELE_NUM_PER_FRACTAL C0_NUM_PER_FRACTAL : Z)
    (args : list Z) : res (list Z) :=
  '(i, j) ← last_two args;
  rows ← py_index shape (-2);
  row_blocks ← py_ceil_div rows ELE_NUM_PER_C0;
  cols ← py_index shape (-1);
  col_blocks ← py_ceil_div cols C0_NUM_PER_FRACTAL;
  let new_shape := ((ELE_NUM_PER_C0, row_blocks), (C0_NUM_PER_FRACTAL, col_blocks)) in
  r ← round_up cols C0_NUM_PER_FRACTAL;
  let new_stride := ((1, r * ELE_NUM_PER_C0), (ELE_NUM_PER_C0, ELE_NUM_PER_FRACTAL)) in
  fractal_index args i j new_shape new_stride.

Definition make_nz_layout `{TVM} (buf : buffer_ Z) : res layout :=
  let shape := buf_shape buf in
  bits ← tvm_bits (buf_dtype buf);
  c ← py_floordiv BYTE_PER_C0 bits;
  f ← py_floordiv BYTE_PER_FRACTAL bits;
  let ELE_NUM_PER_C0 := c * 8 in
  let ELE_NUM_PER_FRACTAL := f * 8 in
  let C0_NUM_PER_FRACTAL := BYTE_PER_FRACTAL / BYTE_PER_C0 in
  Layout_init shape (nz_transform_func shape ELE_NUM_PER_C0 ELE_NUM_PER_FRACTAL C0_NUM_PER_FRACTAL)
    [("layout_tag", enum_value knZ)].

End AscendLayout.

(** ** Helpers of [utils.py] *)
Module IntrinUtils.

Definition get_ldmatrix_offset `{TVM} (matrix : string) (row_idx col_idx stride : Z)
    (dtype : string) (transposed : bool) : res Z :=
  py_assert (py_in matrix ["A"; "B"]);;
  dtype_bits ← tvm_bits dtype;
  let offset '(new_row_idx, new_col_idx) := new_row_idx * stride + new_col_idx in
  if dtype_bits =? 16 then
    if transposed
    then Ok (offset (Mma.ldmatrix_trans_32x8_to_shared_16x16_layout row_idx col_idx))
    else Ok (offset (Mma.ldmatrix_32x8_to_shared_16x16_layout row_idx col_idx))
  else if dtype_bits =? 8 then
    if bool_decide (matrix = "B") && transposed
    then Ok (offset (Mma.ldmatrix_16x32_to_shared_16x32_layout_b row_idx col_idx))
    else if bool_decide (matrix = "A") && negb transposed
    then Ok (offset (Mma.ldmatrix_16x32_to_shared_16x32_layout_a row_idx col_idx))
    else Raise ValueError
  else Raise ValueError.

Definition shared_16x16_to_mma_32x8_layout (i j : Z) : Z * Z :=
  let thread_id := 4 * (i mod 8) + j mod 8 / 2 in
  (thread_id, 4 * (j / 8) + i / 8 * 2 + j mod 2).

Definition shared_16x32_to_mma_32x16_layout (i j : Z) : Z * Z :=
  let thread_id := 4 * (i mod 8) + j mod 16 / 4 in
  (thread_id, 8 * (j / 16) + i / 8 * 4 + j mod 4).

Definition shared_32x16_to_mma_32x16_layout (i j : Z) : Z * Z :=
  let thread_id := i mod 16 / 4 + 4 * (j mod 8) in
  (thread_id, 8 * (j / 8) + i / 16 * 4 + i mod 4).

Definition mma_store_index_map (thread_id local_id : Z) : Z * Z :=
  Mma.mma_store_32x8_to_shared_16x16_layout thread_id local_id.

Definition mfma_store_index_map (thread_id local_id : Z) : Z * Z :=
  Mfma.thread_id_shared_access_64x4_to_16x16_layout_C_n_m thread_id local_id.

Definition get_mma_micro_size (dtype : string) : Z * Z * Z :=
  let micro_size_x := 16 in
  let micro_size_y := 16 in
  let micro_size_k :=
    if py_in dtype ["e4m3_float8"; "e5m2_float8"; "int8"] then 32 else 16 in
  (micro_size_x, micro_size_y, micro_size_k).

(** The loop of [index_to_coordinates], which reads the shape from its end. *)
Fixpoint coordinates_loop (index : Z) (reversed_shape : list Z) : res (list Z) :=
  match reversed_shape with
  | [] => Ok []
  | d :: ds =>
      c ← py_mod index d;
      index' ← py_floordiv index d;
      coordinates ← coordinates_loop index' ds;
      Ok (c :: coordinates)
  end.

Definition index_to_coordinates (index : Z) (shape : list Z) : res (list Z) :=
  coordinates ← coordinates_loop index (reverse shape);
  Ok (reverse coordinates).

End IntrinUtils.

(** ** Tiles and fragments as finite sets of coordinates *)

Definition rect (a b : Z) : list (Z * Z) :=
  seqZ 0 a ≫= λ i, (λ j, (i, j)) <$> seqZ 0 b.

Definition in_rect (a b : Z) (p : Z * Z) : bool :=
  (0 <=? p.1) && (p.1 <? a) && (0 <=? p.2) && (p.2 <? b).

(** [g] undoes [f] on an [a * b] tile, and [f] stays in a [c * d] one. *)
Definition inverse_on (a b c d : Z) (f g : Z → Z → Z * Z) : Prop :=
  ∀ i j, 0 ≤ i < a → 0 ≤ j < b →
    in_rect c d (f i j) = true ∧ uncurry g (f i j) = (i, j).

(** [f] and [g] are inverse bijections between two tiles. *)
Definition tile_iso (a b c d : Z) (f g : Z → Z → Z * Z) : Prop :=
  inverse_on a b c d f g ∧ inverse_on c d a b g f.

(** [f] enumerates the [c * d] tile, each element once. *)
Definition covers (a b c d : Z) (f : Z → Z → Z * Z) : Prop :=
  uncurry f <$> rect a b ≡ₚ rect c d.

(** The two coordinates exchanged: the tile read transposed. *)
Definition transposed (f : Z → Z → Z * Z) (i j : Z) : Z * Z := ((f i j).2, (f i j).1).

Lemma elem_of_rect a b p : p ∈ rect a b ↔ in_rect a b p = true.
Proof.
  unfold rect, in_rect. destruct p as [i j]; simpl.
  rewrite list_elem_of_bind, !andb_true_iff, !Z.leb_le, !Z.ltb_lt. split.
  - intros (x & (y & [= -> ->] & Hy)%list_elem_of_fmap & Hx).
    apply elem_of_seqZ in Hx, Hy. lia.
  - intros. exists i. split; [apply list_elem_of_fmap; exists j; split; [done|]|];
      apply elem_of_seqZ; lia.
Qed.

Definition inverse_check (a b c d : Z) (f g : Z → Z → Z * Z) : bool :=
  forallb (λ p, in_rect c d (uncurry f p) && bool_decide (uncurry g (uncurry f p) = p)) (rect a b).

Lemma inverse_check_sound a b c d f g :
  inverse_check a b c d f g = true → inverse_on a b c d f g.
Proof.
  unfold inverse_check. rewrite forallb_forall. intros Hc i j Hi Hj.
  specialize (Hc (i, j)). simpl in Hc. destruct (andb_prop _ _ (Hc ltac:(
    apply list_elem_of_In, elem_of_rect; unfold in_rect; simpl; lia))) as [? Hg].
  split; [done|]. by apply bool_decide_eq_true in Hg.
Qed.

Lemma tile_iso_sound a b c d f g :
  inverse_check a b c d f g && inverse_check c d a b g f = true → tile_iso a b c d f g.
Proof. intros [? ?]%andb_prop. split; by apply inverse_check_sound. Qed.

Definition covers_check (a b c d : Z) (f : Z → Z → Z * Z) : bool :=
  bool_decide (NoDup (uncurry f <$> rect a b)) &&
  forallb (in_rect c d) (uncurry f <$> rect a b) &&
  (Nat.leb (length (rect c d)) (length (rect a b))).

Lemma covers_sound a b c d f : covers_check a b c d f = true → covers a b c d f.
Proof.
  unfold covers_check, covers. intros [[Hn Hr]%andb_prop Hl]%andb_prop.
  apply bool_decide_eq_true in Hn. rewrite forallb_forall in Hr. apply Nat.leb_le in Hl.
  apply submseteq_length_Permutation.
  - apply NoDup_submseteq; [done|]. intros p Hp. apply elem_of_rect, Hr, list_elem_of_In, Hp.
  - by rewrite length_fmap.
Qed.

(** ** Fragments: the maps are bijections *)

(** C26: the following fragment maps lose and duplicate nothing.  Inverse to a
    map back: the MMA map of a 16x16 tile, plain and transposed (the latter with the
    transposed map back), that of [utils.py] with the store map, the MFMA maps of the
    A and B operands of 16x4, 4x16 and 16x16 tiles, of the C operand (by [m_n], and
    transposed by the store map), of the A operand of a 16x32 tile, and the maps
    that are called 16x32 of the B operand, which are inverse on the tile of 32
    rows and 16 columns.  Enumerating their tile exactly once: the six [ldmatrix]
    maps, the 8-bit MMA maps of 16x32 and 32x16 tiles, and the smooth maps of 16x16
    and 16x32 tiles.  The smooth map of a 32x16 tile is not one of them, see
    [smooth_32x16_leaves_warp]. *)
Theorem fragment_maps_bijective :
  (tile_iso 16 16 32 8 Mma.shared_16x16_to_mma_32x8_layout Mma.mma_32x8_to_shared_16x16_layout ∧
   tile_iso 16 16 32 8 Mma.shared_16x16_to_mma_32x8_layout_trans
     (transposed Mma.mma_32x8_to_shared_16x16_layout) ∧
   tile_iso 16 16 32 8 IntrinUtils.shared_16x16_to_mma_32x8_layout IntrinUtils.mma_store_index_map) ∧
  (tile_iso 16 4 64 1 Mfma.shared_16x4_to_local_64x1_layout_A
     Mfma.thread_id_shared_access_64x1_to_16x4_layout_A ∧
   tile_iso 4 16 64 1 Mfma.shared_4x16_to_local_64x1_layout_B
     Mfma.thread_id_shared_access_64x1_to_4x16_layout_B ∧
   tile_iso 16 16 64 4 Mfma.shared_16x16_to_local_64x4_layout_A
     Mfma.thread_id_shared_access_64x4_to_16x16_layout_A ∧
   tile_iso 16 16 64 4 Mfma.shared_16x16_to_local_64x4_layout_B
     Mfma.thread_id_shared_access_64x4_to_16x16_layout_B ∧
   tile_iso 16 16 64 4 Mfma.shared_16x16_to_local_64x4_layout_C
     Mfma.thread_id_shared_access_64x4_to_16x16_layout_C_m_n ∧
   tile_iso 16 16 64 4 (λ i j, Mfma.shared_16x16_to_local_64x4_layout_C j i)
     IntrinUtils.mfma_store_index_map ∧
   tile_iso 16 32 64 8 Mfma.shared_16x32_to_local_64x8_layout_A
     Mfma.thread_id_shared_access_64x8_to_16x32_layout_A ∧
   tile_iso 32 16 64 8 Mfma.shared_16x32_to_local_64x8_layout_B
     Mfma.thread_id_shared_access_64x8_to_16x32_layout_B) ∧
  (covers 32 8 16 16 Mma.ldmatrix_32x8_to_shared_16x16_layout ∧
   covers 32 8 16 16 Mma.ldmatrix_trans_32x8_to_shared_16x16_layout ∧
   covers 32 16 16 32 Mma.ldmatrix_16x32_to_shared_16x32_layout_a ∧
   covers 32 16 16 32 Mma.ldmatrix_16x32_to_shared_16x32_layout_b ∧
   covers 32 16 16 32 Mma.ldmatrix_32x16_to_shared_16x32_layout_a ∧
   covers 32 16 16 32 Mma.ldmatrix_32x16_to_shared_16x32_layout_b) ∧
  (covers 16 32 32 16 Mma.shared_16x32_to_mma_32x16_layout ∧
   covers 32 16 32 16 Mma.shared_32x16_to_mma_32x16_layout ∧
   covers 16 16 32 8 Mma.shared_16x16_to_mma_32x8_smoothlayout ∧
   covers 16 32 32 16 Mma.shared_16x32_to_mma_32x16_smoothlayout).
Proof.
  repeat match goal with |- _ ∧ _ => split end;
    first [apply tile_iso_sound | apply covers_sound]; vm_compute; reflexivity.
Qed.

(** The smooth map of a 32x16 tile is that of a 16x32 one: from row 16 on it
    names threads outside of the warp, and it skips every odd thread. *)
Lemma smooth_32x16_leaves_warp i j :
  0 ≤ i < 32 → 0 ≤ j < 16 →
  Mma.shared_32x16_to_mma_32x16_smoothlayout i j = (2 * i, j).
Proof.
  intros. unfold Mma.shared_32x16_to_mma_32x16_smoothlayout.
  rewrite Z.div_small, Z.mod_small by lia. f_equal. lia.
Qed.

(** ** XOR swizzles *)

#[local] Arguments py_floordiv : simpl never.
#[local] Arguments py_mod : simpl never.
#[local] Arguments Layout_init : simpl never.

(** The column an XOR swizzle with groups of [e] elements gives, in a row whose
    phase is [r]. *)
Definition xor_col (e r col : Z) : Z := Z.lxor (col / e) r * e + col mod e.

Section xor_col.
Implicit Types e r m k col : Z.

Lemma xor_col_group e r col : 0 < e → xor_col e r col / e = Z.lxor (col / e) r.
Proof.
  intros. unfold xor_col. pose proof (Z.mod_pos_bound col e).
  rewrite Z.div_add_l by lia. rewrite (Z.div_small (col mod e)) by lia. lia.
Qed.

Lemma xor_col_offset e r col : 0 < e → xor_col e r col mod e = col mod e.
Proof.
  intros. unfold xor_col. pose proof (Z.mod_pos_bound col e).
  rewrite Z.add_comm, Z.mod_add by lia. apply Z.mod_small. lia.
Qed.

Lemma xor_col_involutive e r col : 0 < e → xor_col e r (xor_col e r col) = col.
Proof.
  intros. unfold xor_col at 1. rewrite xor_col_group, xor_col_offset by done.
  rewrite Z.lxor_assoc, Z.lxor_nilpotent, Z.lxor_0_r. pose proof (Z.div_mod col e). lia.
Qed.

Lemma xor_col_nonneg e r col : 0 < e → 0 ≤ col → 0 ≤ r → 0 ≤ xor_col e r col.
Proof.
  intros. unfold xor_col. pose proof (Z.mod_pos_bound col e).
  assert (0 ≤ Z.lxor (col / e) r) by (apply Z.lxor_nonneg; split; intros; [lia|]; apply Z.div_pos; lia).
  nia.
Qed.

(** The group only changes below the power of two that bounds the phase. *)
Lemma lxor_block a r k : 0 ≤ k → 0 ≤ r < 2 ^ k → Z.lxor a r / 2 ^ k = a / 2 ^ k.
Proof.
  intros. rewrite <-!Z.shiftr_div_pow2, Z.shiftr_lxor by lia.
  rewrite (Z.shiftr_div_pow2 r), (Z.div_small r), Z.lxor_0_r by lia. done.
Qed.

Lemma lxor_lt a r k q : 0 ≤ k → 0 ≤ r < 2 ^ k → a < q * 2 ^ k → Z.lxor a r < q * 2 ^ k.
Proof.
  intros ? ? Ha. pose proof (lxor_block a r k). assert (0 < 2 ^ k) by (by apply Z.pow_pos_nonneg).
  assert (a / 2 ^ k < q) by (apply Z.div_lt_upper_bound; lia).
  pose proof (Z.div_mod (Z.lxor a r) (2 ^ k)). pose proof (Z.mod_pos_bound (Z.lxor a r) (2 ^ k)). nia.
Qed.

Lemma xor_col_lt e r col k q :
  0 < e → 0 ≤ k → 0 ≤ r < 2 ^ k → col < q * 2 ^ k * e → xor_col e r col < q * 2 ^ k * e.
Proof.
  intros. assert (Z.lxor (col / e) r < q * 2 ^ k).
  { apply lxor_lt; [done..|]. apply Z.div_lt_upper_bound; lia. }
  unfold xor_col. pose proof (Z.mod_pos_bound col e). nia.
Qed.

(** Rows of different phase send a column to different groups. *)
Lemma xor_col_phase e r r' col :
  0 < e → xor_col e r col / e = xor_col e r' col / e → r = r'.
Proof.
  intros ?. rewrite !xor_col_group by done. intros E.
  apply (f_equal (Z.lxor (col / e))) in E.
  by rewrite <-!Z.lxor_assoc, Z.lxor_nilpotent, !Z.lxor_0_l in E.
Qed.
End xor_col.

Lemma py_mod_pos a b : 0 < b → py_mod a b = Ok (a mod b).
Proof. intros. unfold py_mod. by rewrite (proj2 (Z.eqb_neq b 0)) by lia. Qed.

Lemma py_floordiv_pos a b : 0 < b → py_floordiv a b = Ok (a / b).
Proof. intros. unfold py_floordiv. by rewrite (proj2 (Z.eqb_neq b 0)) by lia. Qed.

(** Run the divisions by a positive divisor. *)
Ltac res_run :=
  simpl; repeat (first [rewrite py_floordiv_pos by lia | rewrite py_mod_pos by lia]; simpl).

Lemma last_two_app (l : list Z) i j :
  last_two (l ++ [i; j]) = Ok (i, j) ∧ py_to (l ++ [i; j]) (-2) = l.
Proof.
  assert (slice_bound (l ++ [i; j]) (-2) = length l) as E.
  { unfold slice_bound, norm_idx, len. rewrite length_app. simpl. lia. }
  unfold last_two, py_from, py_to. rewrite E, drop_app_length, take_app_length. done.
Qed.

(** The last two dimensions of a shape. *)
Lemma shape_last_two (outer : list Z) r c :
  py_index (outer ++ [r; c]) (-2) = Ok r ∧ py_index (outer ++ [r; c]) (-1) = Ok c.
Proof.
  split.
  - unfold py_index, norm_idx, len. rewrite length_app. change (-2 <? 0) with true. simpl length. cbv zeta iota.
    replace (Z.of_nat (length outer + 2) + -2) with (Z.of_nat (length outer)) by lia.
    rewrite (proj2 (Z.ltb_ge _ 0)), (proj2 (Z.leb_gt _ _)) by lia. simpl.
    rewrite Nat2Z.id, lookup_app_r, Nat.sub_diag by done. done.
  - change ([r; c]) with ([r] ++ [c]). rewrite app_assoc. apply py_index_last.
Qed.

Section swizzle.
Context `{TVM}.

(** The phase count of a row of [n] elements of [bits] bits. *)
Definition swizzle_phases (n bits : Z) : Z := Z.min 128 (bits * n / 8) / 16.

Lemma row_bytes_64 n bits :
  0 < n → 0 < bits → n * bits mod 512 = 0 →
  ∃ q, 0 < q ∧ n * bits = 512 * q ∧ bits * n / 8 = 64 * q.
Proof.
  intros ? ? E. assert (0 < n * bits) by lia.
  assert (n * bits = 512 * (n * bits / 512)) as Hq by (pose proof (Z.div_mod (n * bits) 512); lia).
  exists (n * bits / 512). split; [lia|]. split; [done|].
  rewrite (Z.mul_comm bits). rewrite Hq at 1.
  replace (512 * (n * bits / 512)) with (64 * (n * bits / 512) * 8) by lia. by rewrite Z.div_mul.
Qed.

Lemma swizzle_phases_pow2 n bits :
  0 < n → 0 < bits → n * bits mod 512 = 0 →
  swizzle_phases n bits = if n * bits =? 512 then 4 else 8.
Proof.
  intros ? ? E. destruct (row_bytes_64 n bits) as (q & ? & Hq & Hb); [done..|].
  unfold swizzle_phases. rewrite Hb, Hq. case_match eqn:Hc.
  - apply Z.eqb_eq in Hc. by replace q with 1 by lia.
  - apply Z.eqb_neq in Hc. by replace (Z.min 128 (64 * q)) with 128 by lia.
Qed.

Lemma get_swizzle_layout_eval i j n dtype bits :
  tvm_bits dtype = Ok bits → 0 < bits ≤ 128 → 0 < n → n * bits mod 512 = 0 →
  Mma.get_swizzle_layout i j n dtype None =
    Ok (i, xor_col (128 / bits) (i mod swizzle_phases n bits) j).
Proof.
  intros Hb ? ? E. assert (0 < 128 / bits) by (apply Z.div_str_pos; lia).
  destruct (row_bytes_64 n bits) as (q & ? & Hq & Hrb); [lia..|].
  unfold Mma.get_swizzle_layout. rewrite Hb. simpl. rewrite Hrb.
  replace (64 * q mod 32) with 0 by (replace (64 * q) with (2 * q * 32) by lia; by rewrite Z.mod_mul).
  simpl. rewrite (py_floordiv_pos 128) by lia. simpl.
  rewrite (py_floordiv_pos j) by done. simpl. rewrite (py_mod_pos j) by done. simpl.
  unfold swizzle_phases. rewrite Hrb, py_mod_pos; [done|]. apply Z.div_str_pos. lia.
Qed.

(** The swizzled layout of a shared tile, evaluated. *)
Lemma make_mma_swizzle_layout_eval buf outer rows n bits :
  buf_shape buf = outer ++ [rows; n] → tvm_bits (buf_dtype buf) = Ok bits →
  0 < bits ≤ 128 → 0 < n → n * bits mod 512 = 0 →
  ∃ lay, Mma.make_mma_swizzle_layout buf false = Ok lay ∧
    ∀ l i j, lay_index lay (l ++ [i; j]) =
      Ok (l ++ [i; xor_col (128 / bits) (i mod swizzle_phases n bits) j]).
Proof.
  intros Hs Hb ? ? E. unfold Mma.make_mma_swizzle_layout.
  rewrite Hs, (proj2 (shape_last_two outer rows n)). simpl. rewrite Hb. simpl. rewrite E. simpl.
  assert (∀ l i j, Mma.swizzle_transform_func n (buf_dtype buf) (l ++ [i; j]) =
      Ok (l ++ [i; xor_col (128 / bits) (i mod swizzle_phases n bits) j])) as Hf.
  { intros l i j. unfold Mma.swizzle_transform_func. destruct (last_two_app l i j) as [-> ->].
    simpl. by rewrite (get_swizzle_layout_eval _ _ _ _ bits). }
  unfold Layout_init. rewrite length_app, replicate_add. simpl. rewrite Hf. simpl. eauto.
Qed.

(** The swizzled layout of a shared tile exists whenever its rows are a
    multiple of 64 bytes, leaves every index but the last alone, is its own
    inverse, and sends the same column of two rows of different phase (8 phases,
    4 for 64-byte rows) to different 16-byte groups, so that reading a column
    meets each bank group once per cycle of rows. *)
Theorem swizzle_permutes_groups buf outer rows n bits :
  buf_shape buf = outer ++ [rows; n] → tvm_bits (buf_dtype buf) = Ok bits →
  0 < bits ≤ 128 → 0 < n → n * bits mod 512 = 0 →
  ∃ lay, Mma.make_mma_swizzle_layout buf false = Ok lay ∧
    ∀ l i j, ∃ j',
      lay_index lay (l ++ [i; j]) = Ok (l ++ [i; j']) ∧
      lay_index lay (l ++ [i; j']) = Ok (l ++ [i; j]) ∧
      (0 ≤ i → 0 ≤ j → 0 ≤ j') ∧
      (∀ i2 j2', lay_index lay (l ++ [i2; j]) = Ok (l ++ [i2; j2']) →
         let phases := if n * bits =? 512 then 4 else 8 in
         i mod phases ≠ i2 mod phases → j' / (128 / bits) ≠ j2' / (128 / bits)).
Proof.
  intros Hs Hb ? ? E. destruct (make_mma_swizzle_layout_eval buf outer rows n bits) as (lay & ? & Hl);
    [done..|]. assert (0 < 128 / bits) by (apply Z.div_str_pos; lia).
  rewrite (swizzle_phases_pow2 n bits) in Hl by (done || lia).
  set (ph := if n * bits =? 512 then 4 else 8) in *.
  assert (0 < ph) by (unfold ph; case_match; lia).
  exists lay. split; [done|]. intros l i j. exists (xor_col (128 / bits) (i mod ph) j).
  rewrite !Hl, xor_col_involutive by done. split_and!; [done..| |].
  - intros. apply xor_col_nonneg; [lia..|]. apply Z.mod_pos_bound; lia.
  - intros i2 j2'. rewrite Hl. intros [= Hj%app_inv_head] phases Hp Hg.
    injection Hj as <-. apply Hp. by apply xor_col_phase in Hg.
Qed.

(** The address of element [(i, j)] of a tile with rows of [n] elements, as the
    layout's image is stored: the output shape of an XOR layout is its input
    shape. *)
Definition address (lay : layout) (n i j : Z) : option Z :=
  match lay_index lay [i; j] with Ok [a; b] => Some (a * n + b) | _ => None end.

Definition addresses_distinct (lay : layout) (rows n : Z) : Prop :=
  ∀ i j i2 j2, 0 ≤ i < rows → 0 ≤ i2 < rows → 0 ≤ j < n → 0 ≤ j2 < n →
    address lay n i j = address lay n i2 j2 → i = i2 ∧ j = j2.

(** Rows of 64 bytes and rows of whole 128-byte lines are permuted in place. *)
Lemma swizzle_stays_in_row n bits i j :
  0 < bits → 0 < 128 / bits → 128 / bits * bits = 128 → 0 < n →
  n * bits = 512 ∨ n * bits mod 1024 = 0 → 0 ≤ j < n →
  0 ≤ xor_col (128 / bits) (i mod (if n * bits =? 512 then 4 else 8)) j < n.
Proof.
  intros ? ? He ? Hc ?. set (e := 128 / bits) in *. split.
  { apply xor_col_nonneg; [lia..|]. case_match; apply Z.mod_pos_bound; lia. }
  case_match eqn:Hq.
  - apply Z.eqb_eq in Hq. assert (n = 1 * 2 ^ 2 * e) as Hn by nia. rewrite Hn.
    apply xor_col_lt; [lia..|apply Z.mod_pos_bound; lia|lia].
  - apply Z.eqb_neq in Hq. destruct Hc as [|Hc]; [done|].
    pose proof (Z.div_mod (n * bits) 1024). set (q := n * bits / 1024) in *.
    assert (n = q * 2 ^ 3 * e) as Hn by nia. rewrite Hn.
    apply xor_col_lt; [lia..|apply Z.mod_pos_bound; lia|lia].
Qed.

(** Other rows are not: element [(4, n - 4 groups)] leaves its row and lands on
    the address of element [(5, 5 groups)]. *)
Lemma swizzle_collision n bits :
  0 < bits → 0 < 128 / bits → 128 / bits * bits = 128 → 0 < n →
  n * bits mod 512 = 0 → n * bits ≠ 512 → n * bits mod 1024 ≠ 0 →
  let e := 128 / bits in
  0 ≤ n - 4 * e < n ∧ 0 ≤ 5 * e < n ∧
  4 * n + xor_col e (4 mod 8) (n - 4 * e) = 5 * n + xor_col e (5 mod 8) (5 * e).
Proof.
  intros ? ? He ? H5 ? H10 e. fold e in He.
  pose proof (Z.div_mod (n * bits) 512). pose proof (Z.div_mod (n * bits) 1024).
  pose proof (Z.mod_pos_bound (n * bits) 1024). set (q := n * bits / 1024) in *.
  assert (n * bits mod 1024 = 512) as E by lia.
  assert (n = (8 * q + 4) * e) as Hn by nia. assert (0 < q) by nia.
  split_and!; [nia..|]. unfold xor_col.
  replace (n - 4 * e) with (8 * q * e) by nia. rewrite !Z.div_mul, !Z.mod_mul by lia.
  change (4 mod 8) with 4. change (5 mod 8) with 5. rewrite (Z.lxor_nilpotent 5).
  assert (Z.lxor (8 * q) 4 = 8 * q + 4) as ->; [|nia].
  rewrite <-Z.add_nocarry_lxor; [done|]. apply Z.bits_inj'. intros k Hk.
  rewrite Z.land_spec, Z.bits_0. change 4 with (2 ^ 2). change 8 with (2 ^ 3).
  rewrite Z.pow2_bits_eqb by lia. destruct (Z.eqb_spec 2 k) as [<-|]; [|by rewrite andb_false_r].
  rewrite Z.mul_comm, Z.mul_pow2_bits_low by lia. done.
Qed.

(** The swizzled layout stores distinct elements of a tile of at least six
    rows at distinct addresses exactly when its rows are 64 bytes or a multiple of
    128 bytes; the guard of the source asks for a multiple of 64 bytes only. *)
Theorem swizzle_addresses_distinct buf rows n bits :
  buf_shape buf = [rows; n] → tvm_bits (buf_dtype buf) = Ok bits →
  6 ≤ rows → 0 < bits ≤ 128 → 128 mod bits = 0 → 0 < n → n * bits mod 512 = 0 →
  ∃ lay, Mma.make_mma_swizzle_layout buf false = Ok lay ∧
    (addresses_distinct lay rows n ↔ n * bits = 512 ∨ n * bits mod 1024 = 0).
Proof.
  intros Hs Hb ? ? Hd ? E. destruct (make_mma_swizzle_layout_eval buf [] rows n bits) as (lay & ? & Hl);
    [done..|]. assert (0 < 128 / bits) by (apply Z.div_str_pos; lia).
  assert (128 / bits * bits = 128) as He by (pose proof (Z.div_mod 128 bits); lia).
  rewrite (swizzle_phases_pow2 n bits) in Hl by (done || lia).
  exists lay. split; [done|]. unfold addresses_distinct, address. setoid_rewrite (Hl []). simpl. split.
  - intros Ha. destruct (decide (n * bits = 512)) as [|Hn1]; [by left|].
    destruct (decide (n * bits mod 1024 = 0)) as [|Hn2]; [by right|]. exfalso.
    destruct (swizzle_collision n bits) as (? & ? & Hx); [lia..|].
    rewrite (proj2 (Z.eqb_neq _ _) Hn1) in Ha.
    destruct (Ha 4 (n - 4 * (128 / bits)) 5 (5 * (128 / bits))); [lia..| |lia]. by f_equal.
  - intros Hc i j i2 j2 ? ? ? ? [= Ha].
    pose proof (swizzle_stays_in_row n bits i j). pose proof (swizzle_stays_in_row n bits i2 j2).
    assert (i = i2) as -> by nia. split; [done|].
    rewrite <-(xor_col_involutive (128 / bits) (i2 mod (if n * bits =? 512 then 4 else 8)) j) by done.
    rewrite <-(xor_col_involutive (128 / bits) (i2 mod (if n * bits =? 512 then 4 else 8)) j2) by done.
    f_equal. lia.
Qed.

End swizzle.

(** The MFMA swizzle is the same permutation with its own phase: it is its own
    inverse whenever a row holds a vector and the rows of a bank line fit the
    SIMD width. *)
Lemma mfma_swizzle_involutive `{TVM} buf rows n bits vecSize :
  buf_shape buf = [rows; n] → tvm_bits (buf_dtype buf) = Ok bits →
  0 < bits → 0 < vecSize ≤ n → 1024 / bits / n ≤ 16 →
  ∃ lay, Mfma.make_mfma_swizzle_layout buf vecSize = Ok lay ∧
    ∀ i j, ∃ j', lay_index lay [i; j] = Ok [i; j'] ∧ lay_index lay [i; j'] = Ok [i; j].
Proof.
  intros Hs Hb ? ? ?. unfold Mfma.make_mfma_swizzle_layout. rewrite Hs.
  change (py_index [rows; n] (-1)) with (Ok n). simpl. rewrite Hb. res_run.
  set (pp := 1 `max` _). assert (0 < pp ≤ 16) by (unfold pp; change (32 * 32) with 1024; lia).
  set (mp := _ `min` _). assert (0 < mp).
  { apply Z.min_glb_lt; apply Z.div_str_pos; lia. }
  unfold Layout_init. simpl. res_run. eexists. split; [done|]. intros i j.
  exists (xor_col vecSize (i / pp mod mp) j). simpl. res_run. split; [done|].
  rewrite <-(xor_col_involutive vecSize (i `div` pp `mod` mp) j) at 3 by lia. done.
Qed.

(** ** Fractal layouts *)

#[local] Arguments AscendLayout.fractal_index : simpl never.

Section fractal.
Implicit Types rows cols i j c : Z.

(** The offset both fractal layouts compute: columns of [c] elements, one below
    the other in a strip of [h] rows, strip after strip. *)
Definition strip_offset (h c i j : Z) : Z := c * (j / c * h + i) + j mod c.

Lemma strip_offset_bound h w c i j :
  0 < c → 0 ≤ i < h → 0 ≤ j → j / c < w → 0 ≤ strip_offset h c i j < h * (w * c).
Proof.
  intros. unfold strip_offset. pose proof (Z.mod_pos_bound j c). pose proof (Z.div_pos j c).
  assert (0 ≤ j / c * h) by nia. assert (j / c * h + h ≤ w * h) by nia. nia.
Qed.

Lemma strip_offset_inj h c i j i2 j2 :
  0 < c → 0 ≤ i < h → 0 ≤ i2 < h →
  strip_offset h c i j = strip_offset h c i2 j2 → i = i2 ∧ j = j2.
Proof.
  intros ? ? ? E. unfold strip_offset in E.
  pose proof (Z.mod_pos_bound j c). pose proof (Z.mod_pos_bound j2 c).
  destruct (Z.div_mod_unique c (j / c * h + i) (j2 / c * h + i2) (j mod c) (j2 mod c)) as [E1 E2];
    [lia..|].
  destruct (Z.div_mod_unique h (j / c) (j2 / c) i i2) as [E3 ->]; [lia..|]. split; [done|].
  rewrite (Z.div_mod j c), (Z.div_mod j2 c) by lia. by rewrite E3, E2.
Qed.

Lemma fractal_index_eval l i j c h row_blocks col_blocks :
  0 < c →
  AscendLayout.fractal_index (l ++ [i; j]) i j ((16, row_blocks), (c, col_blocks))
      ((c, 16 * c), (1, h * c)) = Ok (l ++ [strip_offset h c i j]) ∧
  AscendLayout.fractal_index (l ++ [j; i]) j i ((c, col_blocks), (16, row_blocks))
      ((1, h * c), (c, 16 * c)) = Ok (l ++ [strip_offset h c i j]).
Proof.
  intros. unfold AscendLayout.fractal_index. simpl.
  res_run.
  rewrite (proj2 (last_two_app l i j)), (proj2 (last_two_app l j i)).
  unfold strip_offset.
  assert (c * i = c * (16 * (i / 16) + i mod 16)) by (f_equal; by apply Z.div_mod).
  split; do 3 f_equal; lia.
Qed.

Lemma transform_funcs_eval l outer rows cols c i j :
  0 < c →
  AscendLayout.zn_transform_func (outer ++ [rows; cols]) c (16 * c) (l ++ [i; j]) =
    Ok (l ++ [strip_offset (ceil_div rows 16 * 16) c i j]) ∧
  AscendLayout.nz_transform_func (outer ++ [cols; rows]) c (16 * c) 16 (l ++ [j; i]) =
    Ok (l ++ [strip_offset (ceil_div rows 16 * 16) c i j]).
Proof.
  intros. unfold AscendLayout.zn_transform_func, AscendLayout.nz_transform_func,
    AscendLayout.round_up, AscendLayout.py_ceil_div, AscendLayout.C0_NUM_PER_FRACTAL.
  rewrite (proj1 (last_two_app l i j)), (proj1 (last_two_app l j i)). simpl.
  destruct (shape_last_two outer rows cols) as [-> ->], (shape_last_two outer cols rows) as [-> ->].
  res_run. by apply fractal_index_eval.
Qed.

End fractal.

(** The element counts the layouts derive from the width of the dtype. *)
Lemma c0_elements bits :
  0 < bits → 32 mod bits = 0 →
  let c := 32 / bits * 8 in 0 < c ∧ AscendLayout.BYTE_PER_FRACTAL / bits * 8 = 16 * c.
Proof.
  intros ? E. assert (32 = 32 / bits * bits) as Hq by (pose proof (Z.div_mod 32 bits); lia).
  assert (0 < 32 / bits) by nia. simpl. split; [lia|]. unfold AscendLayout.BYTE_PER_FRACTAL,
    AscendLayout.BYTE_PER_C0, AscendLayout.C0_NUM_PER_FRACTAL. rewrite Hq at 1.
  replace (32 / bits * bits * 16) with (32 / bits * 16 * bits) by lia. rewrite Z.div_mul; lia.
Qed.

(** For an element width that divides 32 bits, the index function of the zN
    layout sends a [rows * cols] tile injectively into the tile padded to whole
    fractals (rows to a multiple of 16, columns to a multiple of the elements of
    32 bytes), each fractal being 512 contiguous bytes; the nZ layout is the zN
    layout of the transposed tile. *)
Theorem fractal_layouts_injective outer outer' rows cols bits l i j :
  0 < bits → 32 mod bits = 0 → 0 ≤ i < rows → 0 ≤ j < cols →
  let c := AscendLayout.BYTE_PER_C0 / bits * 8 in
  let f := AscendLayout.BYTE_PER_FRACTAL / bits * 8 in
  let zn := AscendLayout.zn_transform_func (outer ++ [rows; cols]) c f in
  let nz := AscendLayout.nz_transform_func (outer' ++ [cols; rows]) c f 16 in
  ∃ o, zn (l ++ [i; j]) = Ok (l ++ [o]) ∧ nz (l ++ [j; i]) = Ok (l ++ [o]) ∧
    0 ≤ o < ceil_div rows 16 * 16 * (ceil_div cols c * c) ∧
    o / f = j / c * ceil_div rows 16 + i / 16 ∧
    (∀ i2 j2, 0 ≤ i2 < rows → 0 ≤ j2 < cols → zn (l ++ [i2; j2]) = Ok (l ++ [o]) →
       i2 = i ∧ j2 = j).
Proof.
  intros ? Hb ? ?. destruct (c0_elements bits) as [Hc Hf]; [done..|].
  change AscendLayout.BYTE_PER_C0 with 32. set (c := 32 / bits * 8) in *.
  cbv zeta. rewrite Hf. destruct (ceil_div_spec rows 16); [lia|]. destruct (ceil_div_spec cols c); [lia|].
  exists (strip_offset (ceil_div rows 16 * 16) c i j).
  rewrite (proj1 (transform_funcs_eval l outer rows cols c i j Hc)),
    (proj2 (transform_funcs_eval l outer' rows cols c i j Hc)).
  split; [done|]. split; [done|]. split; [|split].
  - apply strip_offset_bound; [lia..|apply Z.div_lt_upper_bound; lia].
  - unfold strip_offset. rewrite (Z.mul_comm 16 c), <-Z.div_div by lia.
    pose proof (Z.mod_pos_bound j c). rewrite (Z.mul_comm c), Z.div_add_l by lia.
    rewrite (Z.div_small (j mod c)), Z.add_0_r by lia.
    replace (j / c * (ceil_div rows 16 * 16)) with (j / c * ceil_div rows 16 * 16) by lia.
    by rewrite Z.div_add_l by lia.
  - intros i2 j2 ? ?. rewrite (proj1 (transform_funcs_eval l outer rows cols c i2 j2 Hc)).
    intros [= [= E]%app_inv_head]. eapply strip_offset_inj in E; lia.
Qed.

(** The constructors of the Ascend layouts raise [TypeError] for every tile:
    they pass a [layout_tag] that the constructor of [Layout] does not take. *)
Theorem ascend_layouts_raise `{TVM} (buf : buffer_ Z) bits :
  tvm_bits (buf_dtype buf) = Ok bits → bits ≠ 0 →
  AscendLayout.make_zn_layout buf = Raise TypeError ∧
  AscendLayout.make_nz_layout buf = Raise TypeError ∧
  AscendLayout.make_col_major_layout buf = Raise TypeError.
Proof.
  intros Hb ?. unfold AscendLayout.make_zn_layout, AscendLayout.make_nz_layout, py_floordiv.
  rewrite Hb. simpl. by rewrite (proj2 (Z.eqb_neq bits 0)) by done.
Qed.

(** ** Coordinates of a linear index *)

Lemma prod_reverse l : prod (reverse l) = prod l.
Proof. induction l as [|x l IH]; [done|]. rewrite reverse_cons, prod_app, prod_cons, IH. simpl. lia. Qed.

(** The row-major position of coordinates. *)
Definition row_major (shape coordinates : list Z) : Z :=
  foldl (λ a p, a * p.1 + p.2) 0 (zip shape coordinates).

(** The same from the last dimension up, as the loop reads the shape. *)
Fixpoint from_last (ds cs : list Z) : Z :=
  match ds, cs with
  | d :: ds', c :: cs' => c + d * from_last ds' cs'
  | _, _ => 0
  end.

Lemma row_major_reverse ds cs :
  length ds = length cs → row_major (reverse ds) (reverse cs) = from_last ds cs.
Proof.
  intros Hl. unfold row_major.
  assert (zip (reverse ds) (reverse cs) = reverse (zip ds cs)) as ->.
  { revert cs Hl. induction ds as [|d ds IH]; intros [|c cs] [=]; [done|].
    rewrite !reverse_cons, zip_with_app by (by rewrite !length_reverse). simpl.
    rewrite reverse_cons. by rewrite IH. }
  revert cs Hl. induction ds as [|d ds IH]; intros [|c cs] [=]; [done|]. simpl.
  rewrite reverse_cons, foldl_app. simpl. rewrite IH by done. lia.
Qed.

Definition in_bounds : list Z → list Z → Prop := Forall2 (λ c d, 0 ≤ c < d).

Lemma coordinates_loop_spec ds index :
  Forall (λ d, 0 < d) ds →
  ∃ cs, IntrinUtils.coordinates_loop index ds = Ok cs ∧ in_bounds cs ds ∧
    from_last ds cs = index mod prod ds.
Proof.
  intros Hd. revert index. induction Hd as [|d ds Hd Hds IH]; intros index.
  { exists []. split; [done|]. split; [constructor|]. simpl. by rewrite Z.mod_1_r. }
  destruct (IH (index / d)) as (cs & Hcs & Hb & Hf). exists (index mod d :: cs).
  res_run. rewrite Hcs. split; [done|]. split.
  - constructor; [by apply Z.mod_pos_bound|done].
  - rewrite Hf. pose proof (prod_pos ds Hds). symmetry. apply Z.rem_mul_r; lia.
Qed.

Lemma from_last_loop ds cs :
  in_bounds cs ds → IntrinUtils.coordinates_loop (from_last ds cs) ds = Ok cs.
Proof.
  induction 1 as [|c d cs ds Hc Hb IH]; [done|].
  destruct (Z.div_mod_unique d (from_last ds cs) ((c + d * from_last ds cs) / d)
    c ((c + d * from_last ds cs) mod d)) as [E1 E2];
    [lia|left; apply Z.mod_pos_bound; lia|rewrite Z.add_comm; apply Z.div_mod; lia|].
  res_run. by rewrite <-E1, <-E2, IH.
Qed.

(** For a shape of positive extents [index_to_coordinates] inverts the
    row-major position: it returns coordinates inside the shape at that position,
    and it finds the coordinates of every position. *)
Theorem index_to_coordinates_roundtrip shape :
  Forall (λ d, 0 < d) shape →
  (∀ index, 0 ≤ index < prod shape → ∃ cs,
     IntrinUtils.index_to_coordinates index shape = Ok cs ∧ in_bounds cs shape ∧
     row_major shape cs = index) ∧
  (∀ cs, in_bounds cs shape →
     IntrinUtils.index_to_coordinates (row_major shape cs) shape = Ok cs).
Proof.
  intros Hs. unfold IntrinUtils.index_to_coordinates. split.
  - intros index Hi. destruct (coordinates_loop_spec (reverse shape) index) as (cs & -> & Hb & Hf);
      [by apply Forall_reverse|]. exists (reverse cs). split; [done|].
    assert (length (reverse shape) = length cs) as Hl by (symmetry; by eapply Forall2_length).
    split; [rewrite <-(reverse_involutive shape); by apply Forall2_reverse|].
    rewrite <-(reverse_involutive shape), row_major_reverse, Hf by done.
    rewrite prod_reverse. by apply Z.mod_small.
  - intros cs Hb. assert (length cs = length shape) as Hl by (by eapply Forall2_length).
    rewrite <-(reverse_involutive shape) at 1. rewrite <-(reverse_involutive cs) at 1.
    rewrite row_major_reverse by (by rewrite !length_reverse).
    rewrite from_last_loop by (by apply Forall2_reverse). simpl. by rewrite reverse_involutive.
Qed.

(** ** Witnesses *)
Module LayoutsEx.
Import ConstTVM.

Definition tile (shape : list Z) (dtype : string) : buffer_ Z := Buffer 0 "A_shared" dtype "shared" shape.

Lemma swizzle_permutes_groups_witness :
  ∃ lay, Mma.make_mma_swizzle_layout (tile [2; 8; 64] "float16") false = Ok lay ∧
    ∃ j', lay_index lay [1; 3; 9] = Ok [1; 3; j'].
Proof.
  destruct (swizzle_permutes_groups (tile [2; 8; 64] "float16") [2] 8 64 16) as (lay & ? & Hl);
    [done..|lia|lia|done|].
  exists lay. split; [done|]. destruct (Hl [1] 3 9) as (j' & ? & _). by exists j'.
Defined.

Lemma swizzle_addresses_distinct_witness :
  ∃ lay, Mma.make_mma_swizzle_layout (tile [8; 96] "float16") false = Ok lay ∧
    ¬ addresses_distinct lay 8 96.
Proof.
  destruct (swizzle_addresses_distinct (tile [8; 96] "float16") 8 96 16) as (lay & ? & Hl);
    [done..|lia|lia|done|lia|done|].
  exists lay. split; [done|]. rewrite Hl. vm_compute. by intros [|].
Defined.

Lemma fractal_layouts_injective_witness :
  ∃ o, AscendLayout.zn_transform_func [20; 40] 16 256 [17; 33] = Ok [o] ∧ 0 ≤ o < 32 * 48.
Proof.
  destruct (fractal_layouts_injective [] [] 20 40 16 [] 17 33) as (o & ? & _ & ? & _);
    [lia|done|lia|lia|]. by exists o.
Defined.

Lemma ascend_layouts_raise_witness :
  AscendLayout.make_zn_layout (tile [64; 64] "float16") = Raise TypeError.
Proof. apply (ascend_layouts_raise (tile [64; 64] "float16") 16); [done|lia]. Defined.

Lemma index_to_coordinates_roundtrip_witness :
  IntrinUtils.index_to_coordinates 17 [2; 3; 4] = Ok [1; 1; 1].
Proof.
  apply (proj2 (index_to_coordinates_roundtrip [2; 3; 4] ltac:(repeat constructor))) with (cs := [1; 1; 1]).
  repeat constructor; lia.
Defined.

End LayoutsEx.
