(* ===== verification/Kernel.v ===== *)
(** * Kernel launch frames

    [T.Kernel] and [KernelLaunchFrame] of [src/tilelang/language/kernel.py]
    (lines 62-313), with the constructor [KernelLaunch] they call in
    [src/src/ir.cc] (lines 35-46, 110-248): the frames a launch opens, the
    variables [with T.Kernel(...) as ...] binds, and the thread-local stack
    behind the accessors of the current launch. *)
From stdpp Require Import base strings gmap numbers sorting list.
From S2P Require Import Prelude Tir Frames Region Sync.

(** [l[i:j]]. *)
Definition py_slice {A} (l : list A) (i j : Z) : list A :=
  take (slice_bound l j - slice_bound l i) (drop (slice_bound l i) l).

(** ** The frames of a launch *)

(** The TIR frames TVM makes: a thread binding with its variable, tag and
    extent, a serial loop, and the block with its annotations. *)
Inductive tir_frame :=
  | LaunchThreadFrame (var : expr) (thread_tag : string) (extent : expr)
  | ForFrame (vars : list expr) (extent : expr)
  | BlockFrame (annotations : list (string * value)).

Record kernel_frame := KernelLaunchFrame { kf_id : nat; frames : list tir_frame }.

Definition tilelang_is_cpu_kernel_frame : string := "tilelang.is_cpu_kernel_frame".
Definition tilelang_is_npu_kernel_frame : string := "tilelang.is_npu_kernel_frame".

(** [attrs.count(key)] and [annotations.get(key, False)]. *)
Fixpoint assoc (k : string) (l : list (string * value)) : option value :=
  match l with
  | [] => None
  | (k', v) :: l' => if decide (k = k') then Some v else assoc k l'
  end.

(** [frame.iter_var.var], [frame.iter_var.dom.extent] and [frame.vars[0]]: the
    attributes belong to one class of frame each. *)
Definition iter_var_var (f : tir_frame) : res value :=
  match f with LaunchThreadFrame v _ _ => Ok (VExpr v) | _ => Raise AttributeError end.
Definition iter_var_extent (f : tir_frame) : res expr :=
  match f with LaunchThreadFrame _ _ e => Ok e | _ => Raise AttributeError end.
Definition for_var0 (f : tir_frame) : res value :=
  match f with ForFrame vs _ => VExpr <$> py_index vs 0 | _ => Raise AttributeError end.

(** [int(e)] of an expression. *)
Definition py_int (e : expr) : res Z :=
  match e with IntImm _ z => Ok z | _ => Raise TypeError end.

Section launch.
Context `{TVM}.

(** [LaunchThread(CreateEnvThread(name, tag, dtype), extent)]; the variable is
    fresh, its identity is [id]. *)
Definition LaunchThread (id : nat) (name tag : string) (like extent : expr) : tir_frame :=
  LaunchThreadFrame (Var id name (expr_dtype like)) tag extent.

Definition MakeIterVarFrame (id : nat) (name : string) (dom : expr) : tir_frame :=
  ForFrame [Var id name (expr_dtype dom)] dom.

(** [a * b] of TVM expressions. *)
Definition expr_mul (a : expr) (b : value) : res expr :=
  p ← tvm_arith OpMul (VExpr a) b; to_index p.

(** A failed [ICHECK] surfaces in Python as TVM's error, a [RuntimeError]. *)
Definition icheck (b : bool) : res unit := if b then Ok tt else Raise RuntimeError.

(** One [LaunchThread] per dimension that is present, in the order x, y, z. *)
Definition launch_dims (id : nat) (names : list (string * string)) (sizes : list expr) : list tir_frame :=
  imap (λ k '((name, tag), e), LaunchThread (id + k) name tag e e) (zip names sizes).

Definition block_names : list (string * string) :=
  [("bx", "blockIdx.x"); ("by", "blockIdx.y"); ("bz", "blockIdx.z")].
Definition thread_names : list (string * string) :=
  [("tx", "threadIdx.x"); ("ty", "threadIdx.y"); ("tz", "threadIdx.z")].

(** [KernelLaunch] of [ir.cc]; the frame's variables get the identities from
    [id] on. *)
Definition KernelLaunch (id : nat) (grid_size : list expr) (block_size : option (list expr))
    (attrs : list (string * value)) : res kernel_frame :=
  let is_cpu_kernel_frame := bool_decide (is_Some (assoc tilelang_is_cpu_kernel_frame attrs)) in
  let is_npu_kernel_frame := bool_decide (is_Some (assoc tilelang_is_npu_kernel_frame attrs)) in
  launch ←
    (if is_cpu_kernel_frame then
       icheck (len (default [] block_size) =? 0);;
       Ok (imap (λ i e, MakeIterVarFrame (id + i) ("block_var_" +:+ str_of_Z (Z.of_nat i)) e) grid_size)
     else if is_npu_kernel_frame then
       icheck (len grid_size <=? 2);;
       if len grid_size =? 1 then
         g0 ← py_index grid_size 0;
         ve ← expr_mul g0 (VInt 2);
         Ok [LaunchThread id "cid" "blockIdx.x" g0 g0;
             LaunchThread (id + 1) "vid" "blockIdx.z" g0 ve]
       else
         g0 ← py_index grid_size 0;
         g1 ← py_index grid_size 1;
         m ← expr_mul g0 (VExpr g1);
         ve ← expr_mul m (VInt 2);
         Ok [LaunchThread id "bx" "blockIdx.x" g0 g0;
             LaunchThread (id + 1) "by" "blockIdx.y" g1 g1;
             LaunchThread (id + 2) "vid" "blockIdx.z" g1 ve]
     else
       icheck (len grid_size <=? 3);;
       let blocks := launch_dims id block_names grid_size in
       match block_size with
       | Some block_size =>
           icheck (len block_size <=? 3);;
           Ok (blocks ++ launch_dims (id + length grid_size) thread_names block_size)
       | None => Ok blocks
       end);
  Ok (KernelLaunchFrame id (launch ++ [BlockFrame attrs])).

(** The [threads] argument; a list and a tuple are treated alike. *)
Inductive threads_arg :=
  | ThreadsNone
  | ThreadsInt (z : Z)
  | ThreadsSeq (l : list value)
  | ThreadsOther (v : value).

(** What crosses into TVM as an [Array<PrimExpr>]. *)
Definition to_array (threads : threads_arg) : res (option (list expr)) :=
  match threads with
  | ThreadsNone => Ok None
  | ThreadsSeq l => Some <$> mmap to_index l
  | ThreadsInt _ | ThreadsOther _ => Raise TypeError
  end.

Definition call_KernelLaunch (id : nat) (blocks : list value) (threads : threads_arg)
    (attrs : list (string * value)) : res kernel_frame :=
  grid ← mmap to_index blocks;
  block ← to_array threads;
  KernelLaunch id grid block attrs.

Definition Kernel (id : nat) (blocks : list value) (threads : threads_arg) (is_cpu : bool)
    (prelude : option string) (is_npu : bool) : res kernel_frame :=
  if is_npu then
    py_assert (len blocks <=? 2);;
    call_KernelLaunch id blocks threads [(tilelang_is_npu_kernel_frame, VBool true)]
  else
    let threads := match threads with
                   | ThreadsNone => if is_cpu then ThreadsNone else ThreadsInt 128
                   | _ => threads
                   end in
    threads ← match threads with
              | ThreadsInt z => Ok (ThreadsSeq [VInt z; VInt 1; VInt 1])
              | ThreadsSeq l => Ok (ThreadsSeq (l ++ replicate (3 - length l) (VInt 1)))
              | _ => py_assert is_cpu;; Ok threads
              end;
    let attrs := (if is_cpu then [(tilelang_is_cpu_kernel_frame, VBool true)] else []) ++
                 match prelude with Some c => [("pragma_import_c", VStr c)] | None => [] end in
    call_KernelLaunch id blocks threads attrs.

End launch.

(** ** The frame as a context manager *)

Notation launch_stack := (LaunchStack.t kernel_frame).

(** [bool(annotations.get(key, False))]. *)
Definition annotation_set (key : string) (l : list (string * value)) : bool :=
  match assoc key l with Some (VBool b) => b | Some _ => true | None => false end.

(** The value [__enter__] returns once the frame is pushed. *)
Definition enter_vars (fs : list tir_frame) : res value :=
  if len fs =? 5 then f ← py_index fs 0; iter_var_var f
  else
    last_block_frame ← py_index fs (-1);
    match last_block_frame with
    | BlockFrame annotations =>
        VList <$>
          (if annotation_set tilelang_is_cpu_kernel_frame annotations
           then mmap for_var0 (py_slice fs 0 (-1))
           else if annotation_set tilelang_is_npu_kernel_frame annotations
           then mmap iter_var_var (py_slice fs 0 (-1))
           else mmap iter_var_var (py_slice fs 0 (-4)))
    | _ => Raise AssertionError
    end.

Definition __enter__ (self : kernel_frame) : prog launch_stack value :=
  modify (LaunchStack.push self);; lift (enter_vars (frames self)).

Definition __exit__ (self : kernel_frame) : prog launch_stack unit :=
  s ← get;
  f ← lift (LaunchStack.top s);
  if bool_decide (kf_id f = kf_id self) then LaunchStack.pop;; mret tt else mret tt.

(** [with frame as v: body(v)]. *)
Definition with_kernel {A} (self : kernel_frame) (body : value → prog launch_stack A) :
    prog launch_stack A :=
  λ s, match __enter__ self s with
       | (Ok v, s1) =>
           let '(r, s2) := body v s1 in
           match __exit__ self s2 with
           | (Ok _, s3) => (r, s3)
           | (Raise e, s3) => (Raise e, s3)
           end
       | (Raise e, s1) => (Raise e, s1)
       end.

Definition Current (s : launch_stack) : res (option kernel_frame) :=
  if LaunchStack.__bool__ s then Some <$> LaunchStack.top s else Ok None.

(** ** Accessors *)

Definition f_get_block_extent (self : kernel_frame) (dim : Z) : res Z :=
  f ← py_index (frames self) dim; e ← iter_var_extent f; py_int e.
Definition f_get_block_extents (self : kernel_frame) : res (list Z) :=
  mmap (f_get_block_extent self) (seqZ 0 3).
Definition f_get_thread_extent (self : kernel_frame) (dim : Z) : res Z :=
  f ← py_index (frames self) (-4 + dim); e ← iter_var_extent f; py_int e.
Definition f_get_thread_extents (self : kernel_frame) : res (list Z) :=
  mmap (f_get_thread_extent self) (seqZ 0 3).
Definition f_get_thread_binding (self : kernel_frame) (dim : Z) : res value :=
  f ← py_index (frames self) (-4 + dim); iter_var_var f.
Definition f_get_thread_bindings (self : kernel_frame) : res (list value) :=
  mmap iter_var_var (py_slice (frames self) (-4) (-1)).
Definition f_get_num_threads (self : kernel_frame) : res Z :=
  mfold (λ num_threads thread_dim, e ← f_get_thread_extent self thread_dim; Ok (num_threads * e))
    1 (seqZ 0 3).
Definition f_get_block_binding (self : kernel_frame) (dim : Z) : res value :=
  f ← py_index (frames self) dim; iter_var_var f.
Definition f_get_block_bindings (self : kernel_frame) : res (list value) :=
  mmap iter_var_var (py_slice (frames self) 0 (-4)).
Definition f_blocks (self : kernel_frame) : res (list value) :=
  mmap iter_var_var (py_slice (frames self) 0 (-4)).
Definition f_threads (self : kernel_frame) : res (list value) :=
  mmap iter_var_var (py_from (frames self) (-4)).
Definition f_num_threads (self : kernel_frame) : res Z := f_get_num_threads self.

(** [KernelLaunchFrame.Current().m(...)]: [None] has no method. *)
Definition on_current_launch {A} (m : kernel_frame → res A) : prog launch_stack A :=
  s ← get;
  c ← lift (Current s);
  f ← lift (or_raise AttributeError c);
  lift (m f).

Definition get_thread_binding (dim : Z) := on_current_launch (λ f, f_get_thread_binding f dim).
Definition get_thread_bindings := on_current_launch f_get_thread_bindings.
Definition get_block_binding (dim : Z) := on_current_launch (λ f, f_get_block_binding f dim).
Definition get_block_bindings := on_current_launch f_get_block_bindings.
Definition get_thread_extent (dim : Z) := on_current_launch (λ f, f_get_thread_extent f dim).
Definition get_thread_extents := on_current_launch f_get_thread_extents.
Definition get_block_extent (dim : Z) := on_current_launch (λ f, f_get_block_extent f dim).
Definition get_block_extents := on_current_launch f_get_block_extents.

(** ** Warp groups *)

(** [WarpSpecialize] of [src/src/ir.cc] (lines 290-328): the sorted group ids,
    merged into half-open runs. *)
Fixpoint merge_groups (merged : list (Z * Z)) (warp_groups : list Z) : list (Z * Z) :=
  match warp_groups with
  | [] => merged
  | group :: rest =>
      merge_groups
        match last merged with
        | Some (start, end_) =>
            if group =? end_ then removelast merged ++ [(start, group + 1)]
            else merged ++ [(group, group + 1)]
        | None => merged ++ [(group, group + 1)]
        end rest
  end.

(** The condition of the [If] frame at thread [thread_idx]: the disjunction of
    the ranges. *)
Definition range_conds (merged : list (Z * Z)) (warp_group_size thread_idx : Z) : bool :=
  existsb (λ '(start, end_), (start * warp_group_size <=? thread_idx) &&
                             (thread_idx <? end_ * warp_group_size)) merged.

Definition WarpSpecialize_ffi (warp_group_ids : list Z) (warp_group_size thread_idx : Z) : bool :=
  range_conds (merge_groups [] (merge_sort Z.le warp_group_ids)) warp_group_size thread_idx.

(** [WarpSpecialize( *warp_group_idx)] of [warpgroup.py], inside a launch whose
    thread indices have the values [tids]: whether the thread runs the body. *)
Definition WarpSpecialize (warp_group_idx : list Z) (tids : Z * Z * Z) : prog launch_stack bool :=
  ids ← get_thread_bindings;
  extents ← get_thread_extents;
  match ids, extents with
  | [_; _; _], [ex_x; ex_y; ex_z] =>
      let '(id_x, id_y, id_z) := tids in
      let tid := id_x in
      let tid := if 1 <? ex_y then id_y * ex_x + tid else tid in
      let tid := if 1 <? ex_z then id_z * (ex_y * ex_x) + tid else tid in
      let warp_group_size := 128 in
      let warp_group_ids := warp_group_idx in
      lift (py_assert (0 <? len warp_group_ids));;
      mret (WarpSpecialize_ffi warp_group_ids warp_group_size tid)
  | _, _ => raise ValueError
  end.

(** ** Theorems *)

Lemma with_kernel_body {A} f v (body : value → prog launch_stack A) s :
  enter_vars (frames f) = Ok v → (body v (f :: s)).2 = f :: s →
  with_kernel f body s = ((body v (f :: s)).1, s).
Proof.
  intros Hv Hb. unfold with_kernel, __enter__. unfold mbind, prog_bind, lift, modify. simpl.
  rewrite Hv. unfold LaunchStack.push. destruct (body v (f :: s)) as [r s2]. simpl in Hb; subst s2.
  unfold __exit__. unfold mbind, prog_bind, lift, get. simpl. by rewrite bool_decide_true.
Qed.

Lemma with_kernel_current {A} f v (m : kernel_frame → res A) s :
  enter_vars (frames f) = Ok v → with_kernel f (λ _, on_current_launch m) s = (m f, s).
Proof. intros Hv. by rewrite (with_kernel_body f v). Qed.

Section gpu.
Context `{TVM}.

Definition as_int (v : value) : option Z := match v with VInt z => Some z | _ => None end.

(** The block dimensions a [threads] argument stands for. *)
Definition thread_dims (threads : threads_arg) : option (list Z) :=
  match threads with
  | ThreadsNone => Some [128; 1; 1]
  | ThreadsInt z => Some [z; 1; 1]
  | ThreadsSeq l =>
      zs ← mapM as_int l;
      if decide (length zs ≤ 3)%nat then Some (zs ++ replicate (3 - length zs) 1) else None
  | ThreadsOther _ => None
  end.

(** The variables of the first dimensions of a launch. *)
Definition launch_vars (id : nat) (names : list (string * string)) (sizes : list expr) : list value :=
  imap (λ k '((name, _), e), VExpr (Var (id + k) name (expr_dtype e))) (zip names sizes).

(** The frames of a GPU launch. *)
Definition gpu_frames (id : nat) (grid : list expr) (ts : list Z) (attrs : list (string * value)) :=
  launch_dims id block_names grid ++
  launch_dims (id + length grid) thread_names ((λ z, int32_imm z) <$> ts) ++ [BlockFrame attrs].

Definition gpu_attrs (prelude : option string) : list (string * value) :=
  match prelude with Some c => [("pragma_import_c", VStr c)] | None => [] end.

Lemma mapM_as_int l zs : mapM as_int l = Some zs → l = VInt <$> zs.
Proof.
  intros Hl%mapM_Some_1. induction Hl as [|v z l zs Hv Hl IH]; [done|].
  destruct v; simplify_eq/=. done.
Qed.

Lemma thread_dims_three th ts :
  thread_dims th = Some ts → ∃ x y z, ts = [x; y; z] ∧
    ∀ id blocks prelude, Kernel id blocks th false prelude false =
      call_KernelLaunch id blocks (ThreadsSeq [VInt x; VInt y; VInt z]) (gpu_attrs prelude).
Proof.
  destruct th as [|w|l|v]; simpl; [by intros [= <-]; eauto 10..| |done].
  destruct (mapM as_int l) as [zs|] eqn:Hl; simpl; [|done].
  apply mapM_as_int in Hl as ->. intros Hd.
  destruct zs as [|x [|y [|z [|? zs]]]]; repeat case_decide; simplify_eq/=; try lia; eauto 10.
Qed.

Lemma gpu_kernel_frames id blocks grid th ts prelude :
  mmap to_index blocks = Ok grid → (length grid ≤ 3)%nat → thread_dims th = Some ts →
  Kernel id blocks th false prelude false =
    Ok (KernelLaunchFrame id (gpu_frames id grid ts (gpu_attrs prelude))).
Proof.
  intros Hg Hl (x & y & z & -> & Hk)%thread_dims_three. rewrite Hk. unfold call_KernelLaunch.
  rewrite Hg. simpl. unfold KernelLaunch, gpu_frames.
  assert (assoc tilelang_is_cpu_kernel_frame (gpu_attrs prelude) = None ∧
          assoc tilelang_is_npu_kernel_frame (gpu_attrs prelude) = None) as [-> ->] by by destruct prelude.
  rewrite !bool_decide_false by (by intros [? ?]).
  unfold icheck. rewrite (proj2 (Z.leb_le (len grid) 3)) by (unfold len; lia). simpl.
  by rewrite <-app_assoc.
Qed.

(** A GPU launch with up to three grid dimensions and a [threads] argument
    of up to three ints is entered with one variable per grid dimension (the
    variable itself for a single one, a list otherwise); inside it the accessors
    give those variables, the three thread variables, the thread extents padded
    with ones (128 threads when none are given) and their product; leaving it
    hands the stack of launches back. *)
Theorem gpu_kernel_launch id blocks grid th ts prelude s :
  mmap to_index blocks = Ok grid → (length grid ≤ 3)%nat → thread_dims th = Some ts →
  ∃ f, Kernel id blocks th false prelude false = Ok f ∧
    let bv := launch_vars id block_names grid in
    with_kernel f mret s = (Ok (match bv with [v] => v | _ => VList bv end), s) ∧
    with_kernel f (λ _, get_block_bindings) s = (Ok bv, s) ∧
    with_kernel f (λ _, get_thread_bindings) s =
      (Ok (launch_vars (id + length grid) thread_names ((λ z, int32_imm z) <$> ts)), s) ∧
    with_kernel f (λ _, get_thread_extents) s = (Ok ts, s) ∧
    with_kernel f (λ _, on_current_launch f_num_threads) s = (Ok (prod ts), s).
Proof.
  intros Hg Hl Ht. eexists. split; [by eapply gpu_kernel_frames|].
  destruct (thread_dims_three th ts Ht) as (x & y & z & -> & _).
  set (f := KernelLaunchFrame _ _). cbv zeta. set (bv := launch_vars _ _ _).
  assert (enter_vars (frames f) = Ok (match bv with [v] => v | _ => VList bv end)) as Hv.
  { destruct grid as [|? [|? [|? [|? ?]]]], prelude; done || (simpl in Hl; lia). }
  split; [by rewrite (with_kernel_body f _ _ _ Hv)|].
  unfold get_block_bindings, get_thread_bindings, get_thread_extents.
  rewrite !(with_kernel_current f _ _ _ Hv).
  destruct grid as [|? [|? [|? [|? ?]]]]; (simpl in Hl; lia) || split_and!; try done.
  all: unfold f_num_threads, f_get_num_threads; do 2 f_equal; simpl; f_equal; lia.
Qed.

(** On a GPU launch the property [threads] raises [AttributeError] (its slice
    includes the block frame), and [get_block_extents] gives the block extents
    only for a three-dimensional grid: for a smaller one the thread extents
    follow in the missing places. *)
Theorem launch_accessors_overrun id gs th ts prelude s :
  (length gs ≤ 3)%nat → thread_dims th = Some ts →
  ∃ f, Kernel id (VInt <$> gs) th false prelude false = Ok f ∧
    with_kernel f (λ _, on_current_launch f_threads) s = (Raise AttributeError, s) ∧
    with_kernel f (λ _, get_block_extents) s = (Ok (take 3 (gs ++ ts)), s).
Proof.
  intros Hl Ht. set (grid := (λ z, int32_imm z) <$> gs).
  assert (mmap to_index (VInt <$> gs) = Ok grid) as Hg.
  { apply mmap_Ok. unfold grid. by apply Forall2_fmap_2, Forall_Forall2_diag, Forall_true. }
  eexists. split; [eapply gpu_kernel_frames; [done|by unfold grid; rewrite length_fmap|done]|].
  destruct (thread_dims_three th ts Ht) as (x & y & z & -> & _).
  set (f := KernelLaunchFrame _ _).
  assert (∃ v, enter_vars (frames f) = Ok v) as [v Hv].
  { destruct gs as [|? [|? [|? [|? ?]]]], prelude; (eexists; done) || (simpl in Hl; lia). }
  unfold get_block_extents. rewrite !(with_kernel_current f _ _ _ Hv).
  destruct gs as [|? [|? [|? [|? ?]]]]; (simpl in Hl; lia) || done.
Qed.

End gpu.

(** An NPU launch takes one or two grid dimensions and refuses none and more
    than two.  It is entered with the cube indices followed by the vector index,
    whose extent is twice the number of cube blocks; its frame has no threads,
    so the thread extents raise [IndexError] for one dimension and repeat the
    block extents for two. *)
Theorem npu_kernel_launch `{TVM} id blocks s :
  ((length blocks > 2)%nat →
     Kernel id blocks ThreadsNone false None true = Raise AssertionError) ∧
  (blocks = [] → Kernel id blocks ThreadsNone false None true = Raise IndexError) ∧
  (∀ g ve, mmap to_index blocks = Ok [g] → expr_mul g (VInt 2) = Ok ve →
     ∃ f, Kernel id blocks ThreadsNone false None true = Ok f ∧
       with_kernel f mret s =
         (Ok (VList [VExpr (Var id "cid" (expr_dtype g)); VExpr (Var (id + 1) "vid" (expr_dtype g))]), s) ∧
       mmap iter_var_extent (take 2 (frames f)) = Ok [g; ve] ∧
       with_kernel f (λ _, get_thread_extents) s = (Raise IndexError, s)) ∧
  (∀ g h m ve, mmap to_index blocks = Ok [g; h] → expr_mul g (VExpr h) = Ok m →
     expr_mul m (VInt 2) = Ok ve →
     ∃ f, Kernel id blocks ThreadsNone false None true = Ok f ∧
       with_kernel f mret s =
         (Ok (VList [VExpr (Var id "bx" (expr_dtype g)); VExpr (Var (id + 1) "by" (expr_dtype h));
                     VExpr (Var (id + 2) "vid" (expr_dtype h))]), s) ∧
       mmap iter_var_extent (take 3 (frames f)) = Ok [g; h; ve] ∧
       with_kernel f (λ _, get_thread_extents) s = with_kernel f (λ _, get_block_extents) s).
Proof.
  unfold Kernel. split_and!.
  - intros Hl. rewrite (proj2 (Z.leb_gt _ _)); [done|]. unfold len. lia.
  - by intros ->.
  - intros g ve Hb Hv. assert (length blocks = 1%nat) as Hl.
    { symmetry. by apply mmap_length in Hb. }
    destruct blocks as [|b [|]]; try done. unfold call_KernelLaunch. rewrite Hb. simpl.
    unfold KernelLaunch. simpl. change (py_index [g] 0) with (Ok g). simpl. rewrite Hv. simpl.
    eexists. split; [done|]. split_and!; [by erewrite with_kernel_body|done|].
    unfold get_thread_extents, get_block_extents. by erewrite !with_kernel_current.
  - intros g h m ve Hb Hm Hv. assert (length blocks = 2%nat) as Hl.
    { symmetry. by apply mmap_length in Hb. }
    destruct blocks as [|b [|b' [|]]]; try done. unfold call_KernelLaunch. rewrite Hb. simpl.
    unfold KernelLaunch. simpl. change (py_index [g; h] 0) with (Ok g).
    change (py_index [g; h] 1) with (Ok h). simpl. rewrite Hm. simpl. rewrite Hv. simpl.
    eexists. split; [done|]. split_and!; [by erewrite with_kernel_body|done|].
    unfold get_thread_extents, get_block_extents. by erewrite !with_kernel_current.
Qed.

(** A CPU launch of four dimensions has five frames too, and entering it looks
    for a thread binding in a loop frame. *)
Lemma cpu_four_blocks_raise `{TVM} id blocks grid s :
  mmap to_index blocks = Ok grid → length grid = 4%nat →
  ∃ f, Kernel id blocks ThreadsNone true None false = Ok f ∧
    __enter__ f s = (Raise AttributeError, f :: s).
Proof.
  intros Hg Hl. unfold Kernel, call_KernelLaunch. simpl. rewrite Hg. simpl.
  unfold KernelLaunch. simpl. destruct grid as [|? [|? [|? [|? [|]]]]]; try done.
  eexists. split; [done|]. done.
Qed.

(** ** Warp groups: the merged runs *)

Definition in_runs (g : Z) (runs : list (Z * Z)) : Prop :=
  ∃ a b, (a, b) ∈ runs ∧ a ≤ g < b.

Lemma in_runs_app g runs a b :
  in_runs g (runs ++ [(a, b)]) ↔ in_runs g runs ∨ a ≤ g < b.
Proof.
  unfold in_runs. setoid_rewrite elem_of_app. setoid_rewrite list_elem_of_singleton. naive_solver.
Qed.

Lemma merge_groups_in runs groups g :
  Forall (λ r, r.1 < r.2) runs →
  in_runs g (merge_groups runs groups) ↔ in_runs g runs ∨ g ∈ groups.
Proof.
  revert runs. induction groups as [|h groups IH]; intros runs Hr; simpl.
  { rewrite elem_of_nil. naive_solver. }
  assert (∀ runs', runs' = runs ++ [(h, h + 1)] →
    in_runs g (merge_groups runs' groups) ↔ in_runs g runs ∨ g ∈ h :: groups) as Hpush.
  { intros ? ->. rewrite IH, in_runs_app, elem_of_cons by (rewrite Forall_app, Forall_singleton; simpl; split; [done|lia]).
    assert (h ≤ g < h + 1 ↔ g = h) as -> by lia. tauto. }
  destruct (last runs) as [[a b]|] eqn:Hl; [|by apply Hpush].
  destruct (Z.eqb_spec h b) as [->|]; [|by apply Hpush].
  apply last_Some in Hl as [runs' ->]. rewrite Forall_app, Forall_singleton in Hr.
  destruct Hr as [Hr Hab]. simpl in Hab. rewrite removelast_last.
  rewrite IH, !in_runs_app, elem_of_cons by (rewrite Forall_app, Forall_singleton; simpl; split; [done|lia]).
  assert (a ≤ g < b + 1 ↔ a ≤ g < b ∨ g = b) as -> by lia. tauto.
Qed.

Lemma range_conds_spec runs size t :
  0 < size → range_conds runs size t = true ↔ in_runs (t / size) runs.
Proof.
  intros Hs. unfold range_conds, in_runs. rewrite existsb_exists. split.
  - intros ([a b] & Hin%list_elem_of_In & [Ha%Z.leb_le Hb%Z.ltb_lt]%andb_prop). exists a, b.
    split; [done|]. split; [apply Z.div_le_lower_bound|apply Z.div_lt_upper_bound]; lia.
  - intros (a & b & Hin & Ha & Hb). exists (a, b). split; [by apply list_elem_of_In|].
    pose proof (Z.div_mod t size). pose proof (Z.mod_pos_bound t size).
    apply andb_true_intro. rewrite Z.leb_le, Z.ltb_lt. nia.
Qed.

(** In a GPU launch, [T.ws(g1, ..., gn)] runs its body in exactly the threads
    whose linear index (x fastest) lies in one of the given groups of 128, in
    whatever order and with whatever repetition they are given; without a group
    it raises [AssertionError]. *)
Theorem warp_specialize_groups `{TVM} id blocks grid th tx ty tz prelude groups i j k s :
  mmap to_index blocks = Ok grid → (length grid ≤ 3)%nat → thread_dims th = Some [tx; ty; tz] →
  0 ≤ i < tx → 0 ≤ j < ty → 0 ≤ k < tz →
  ∃ f, Kernel id blocks th false prelude false = Ok f ∧
    with_kernel f (λ _, WarpSpecialize groups (i, j, k)) s =
      (match groups with
       | [] => Raise AssertionError
       | _ => Ok (bool_decide (((k * ty + j) * tx + i) / 128 ∈ groups))
       end, s).
Proof.
  intros Hg Hl Ht ? ? ?. eexists. split; [by eapply gpu_kernel_frames|].
  set (f := KernelLaunchFrame _ _).
  assert (∃ v, enter_vars (frames f) = Ok v) as [v Hv].
  { destruct grid as [|? [|? [|? [|? ?]]]], prelude; (eexists; done) || (simpl in Hl; lia). }
  assert (WarpSpecialize groups (i, j, k) (f :: s) =
    (py_assert (0 <? len groups) ≫= λ _,
       Ok (WarpSpecialize_ffi groups 128 ((k * ty + j) * tx + i)), f :: s)) as Hw.
  { assert ((if 1 <? tz then k * (ty * tx) + (if 1 <? ty then j * tx + i else i)
             else if 1 <? ty then j * tx + i else i) = (k * ty + j) * tx + i) as <-.
    { assert (ty = 1 ∧ j = 0 ∨ 1 < ty) as [[-> ->]|Hy] by lia;
        assert (tz = 1 ∧ k = 0 ∨ 1 < tz) as [[-> ->]|Hz] by lia;
        rewrite ?(proj2 (Z.ltb_lt 1 ty)), ?(proj2 (Z.ltb_lt 1 tz)) by done; simpl; lia. }
    destruct grid as [|? [|? [|? [|? ?]]]]; [| | | |simpl in Hl; lia];
      by destruct groups. }
  rewrite (with_kernel_body f v); rewrite ?Hw; [|done..]. destruct groups as [|g gs]; [done|].
  simpl. do 2 f_equal. apply eq_true_iff_eq. unfold WarpSpecialize_ffi.
  rewrite bool_decide_eq_true, range_conds_spec, merge_groups_in by (done || lia).
  rewrite (merge_sort_Permutation Z.le (g :: gs)). split; [intros [(? & ? & []%elem_of_nil & _)|?]|]; auto.
Qed.

(** ** Witnesses *)
Module KernelEx.
Import ConstTVM.

Lemma gpu_kernel_launch_witness :
  ∃ f, Kernel 0 [VInt 4; VInt 8] (ThreadsSeq [VInt 32; VInt 4]) false None false = Ok f ∧
    with_kernel f (λ _, get_thread_extents) [] = (Ok [32; 4; 1], []).
Proof.
  destruct (gpu_kernel_launch 0 [VInt 4; VInt 8] [int32_imm 4; int32_imm 8]
    (ThreadsSeq [VInt 32; VInt 4]) [32; 4; 1] None []) as (f & ? & _ & _ & _ & ? & _); [done|simpl; lia|done|].
  by exists f.
Defined.

Lemma launch_accessors_overrun_witness :
  ∃ f, Kernel 0 [VInt 108] ThreadsNone false None false = Ok f ∧
    with_kernel f (λ _, get_block_extents) [] = (Ok [108; 128; 1], []).
Proof.
  destruct (launch_accessors_overrun 0 [108] ThreadsNone [128; 1; 1] None []) as (f & ? & _ & ?);
    [simpl; lia|done|]. by exists f.
Defined.

Lemma npu_kernel_launch_witness :
  ∃ f, Kernel 0 [VInt 20] ThreadsNone false None true = Ok f ∧
    with_kernel f mret [] = (Ok (VList [VExpr (Var 0 "cid" "int32"); VExpr (Var 1 "vid" "int32")]), []).
Proof.
  destruct (npu_kernel_launch 0 [VInt 20] []) as (_ & _ & Hn & _).
  destruct (Hn (int32_imm 20) (int32_imm 40)) as (f & ? & ? & _); [done..|]. by exists f.
Defined.

Lemma warp_specialize_groups_witness :
  ∃ f, Kernel 0 [VInt 4] (ThreadsSeq [VInt 128; VInt 3]) false None false = Ok f ∧
    with_kernel f (λ _, WarpSpecialize [2; 0] (5, 2, 0)) [] = (Ok true, []).
Proof.
  destruct (warp_specialize_groups 0 [VInt 4] [int32_imm 4] (ThreadsSeq [VInt 128; VInt 3]) 128 3 1
    None [2; 0] 5 2 0 []) as (f & ? & ?); [done|simpl; lia|done|lia..|]. by exists f.
Defined.

End KernelEx.
