(* ===== verification/StateSchema.v ===== *)
(** * The state file of the operator workflow

    The JSON state of [src/.agents/tools/statectl.py]: its schema, defaults,
    back-filling and validation in [gate_lint.py] (lines 1678-1852), and the
    typed view of it the commands work on. *)
From Stdlib Require Import SpecFloat.
From stdpp Require Import base strings gmap numbers list.
From S2P Require Import Prelude.

(** ** JSON *)

(** A parsed JSON value; an object is a map, its order is not observed (the
    tool writes its files with sorted keys). *)
Inductive json :=
  | JNull
  | JBool (b : bool)
  | JInt (z : Z)
  | JFloat (f : spec_float)
  | JStr (s : string)
  | JList (l : list json)
  | JObj (m : gmap string json).

Notation dict := (gmap string json).

(** The Python types [isinstance] tests for; a [bool] is an [int]. *)
Inductive pytype := Tstr | TNone | Tlist | Tint | Tdict | Tbool.

Definition isinstance1 (j : json) (t : pytype) : bool :=
  match j, t with
  | JStr _, Tstr | JNull, TNone | JList _, Tlist | JInt _, Tint | JObj _, Tdict
  | JBool _, Tbool | JBool _, Tint => true
  | _, _ => false
  end.
Definition isinstance (j : json) (ts : list pytype) : bool := existsb (isinstance1 j) ts.

(** [str(k)] of a stage number, the key of the per-stage objects. *)
Definition skey (n : nat) : string := str_of_Z (Z.of_nat n).

(** [{str(k): 0 for k in range(6)}]. *)
Definition zero_counts : dict := list_to_map ((λ k, (skey k, JInt 0)) <$> seq 0 6).

Module GateLint.

Definition SCHEMA : list (string * list pytype) :=
  [("task_id", [Tstr]); ("project_name", [Tstr]); ("operator_name", [Tstr]);
   ("scenario", [Tstr]); ("migration_mode", [Tstr; TNone]); ("stage_plan", [Tlist]);
   ("phase", [Tstr]); ("user_requirement", [Tstr; TNone]); ("design_md_path", [Tstr; TNone]);
   ("review_md_path", [Tstr; TNone]); ("kernel_py_path", [Tstr; TNone]);
   ("kernel_opt_py_path", [Tstr; TNone]); ("retry_count", [Tint]); ("max_retry", [Tint]);
   ("final_artifact", [Tstr; TNone]); ("stage_status", [Tdict]); ("stage_retry_count", [Tdict]);
   ("stage3_failure_breakdown", [Tdict]); ("perf_iteration", [Tdict]);
   ("perf_tuning_requested", [Tstr; TNone; Tbool]); ("env_check_passed", [Tbool]);
   ("failure_reason", [Tstr; TNone])].

Definition PHASES : list string :=
  ["INIT"; "SCAFFOLD"; "DESIGN"; "REVIEW"; "DEVELOP"; "TUNING"; "INTEGRATE"; "DONE"; "FAILED"].
Definition SCENARIOS : list string := ["new_op"; "migration"; "optimize"].
Definition MIGRATION_MODES : list string := ["harness"; "plain"].
Definition STAGE_STATUS_VALUES : list string := ["in_progress"; "completed"; "failed"].
Definition BLOCKED_CODES : list string :=
  ["BLOCKED_DESIGN"; "BLOCKED_IMPL"; "BLOCKED_ACCURACY"; "BLOCKED_SCAFFOLD";
   "BLOCKED_INTEGRATION"; "BLOCKED_ENVIRONMENT"; "BLOCKED_SPEC"].

Definition perf_iteration_default : dict :=
  list_to_map [("count", JInt 0); ("last_improvement", JFloat (S754_zero false));
               ("consecutive_no_improvement", JInt 0)].
Definition breakdown_default : dict :=
  list_to_map [("runtime_fail", JInt 0); ("precision_fail", JInt 0)].
Definition budget_default : dict :=
  list_to_map [("max_wallclock_s", JNull); ("max_subagent_dispatches", JNull);
               ("max_stage4_experiments", JNull)].

Definition DEFAULT_STATE : list (string * json) :=
  [("task_id", JStr ""); ("project_name", JStr ""); ("operator_name", JStr "");
   ("scenario", JStr "new_op"); ("migration_mode", JNull);
   ("stage_plan", JList [JInt 1; JInt 2; JInt 3]); ("phase", JStr "INIT");
   ("user_requirement", JNull); ("design_md_path", JNull); ("review_md_path", JNull);
   ("kernel_py_path", JNull); ("kernel_opt_py_path", JNull); ("retry_count", JInt 0);
   ("max_retry", JInt 3); ("final_artifact", JNull); ("stage_status", JObj ∅);
   ("stage_retry_count", JObj zero_counts); ("stage3_failure_breakdown", JObj breakdown_default);
   ("perf_iteration", JObj perf_iteration_default); ("perf_tuning_requested", JNull);
   ("env_check_passed", JBool false); ("failure_reason", JNull); ("perf_feedback", JNull);
   ("budget", JObj budget_default)].

(** [if field not in filled: filled[field] = default]. *)
Definition fill_missing (filled : dict) (fd : string * json) : dict :=
  match filled !! fd.1 with Some _ => filled | None => <[fd.1 := fd.2]> filled end.

(** [if not isinstance(filled.get(field), dict): filled[field] = default]. *)
Definition fill_dict (field : string) (default : dict) (filled : dict) : dict :=
  match filled !! field with
  | Some (JObj _) => filled
  | _ => <[field := JObj default]> filled
  end.

Definition state_backfill (state : dict) : dict :=
  let filled := foldl fill_missing state DEFAULT_STATE in
  let retry := match filled !! "stage_retry_count" with Some (JObj m) => m | _ => ∅ end in
  let retry := foldl fill_missing retry ((λ k, (skey k, JInt 0)) <$> seq 0 6) in
  let filled := <["stage_retry_count" := JObj retry]> filled in
  let filled := fill_dict "stage_status" ∅ filled in
  let filled := fill_dict "stage3_failure_breakdown" breakdown_default filled in
  let filled := fill_dict "perf_iteration" perf_iteration_default filled in
  let filled := fill_missing filled ("artifact_hashes", JObj ∅) in
  let filled := fill_missing filled ("last_failure_reason", JNull) in
  fill_dict "budget" budget_default filled.

(** The rule a failure or warning of the schema check names, and the field it
    is about. *)
Inductive finding := SCHEMA_MISSING (field : string) | SCHEMA_TYPE (field : string) | SCHEMA_ENUM (field : string).

(** [v in S] for a set of strings: a list or an object is not hashable. *)
Definition in_strs (j : option json) (l : list string) : res bool :=
  match j with
  | Some (JStr s) => Ok (py_in s l)
  | Some (JList _) | Some (JObj _) => Raise TypeError
  | _ => Ok false
  end.

(** [v is None or v in S] for [v = state.get(k)]. *)
Definition None_or_in (j : option json) (l : list string) : res bool :=
  match j with None | Some JNull => Ok true | _ => in_strs j l end.

(** [bool(v)] for [v = state.get(k)]. *)
Definition truthy (j : option json) : bool :=
  match j with
  | None | Some JNull | Some (JBool false) | Some (JInt 0) | Some (JFloat (S754_zero _))
  | Some (JStr "") | Some (JList []) => false
  | Some (JObj m) => bool_decide (m ≠ ∅)
  | Some _ => true
  end.

(** [(state.get(k) or {}).items()]. *)
Definition items_or_empty (j : option json) : res (list (string * json)) :=
  if truthy j then match j with Some (JObj m) => Ok (map_to_list m) | _ => Raise AttributeError end
  else Ok [].

(** [k in (state.get(k') or {})]. *)
Definition key_in_or_empty (k : string) (j : option json) : res bool :=
  if truthy j then
    match j with
    | Some (JObj m) => Ok (bool_decide (is_Some (m !! k)))
    | Some (JList l) => Ok (existsb (λ v, match v with JStr s => bool_decide (s = k) | _ => false end) l)
    | Some (JStr s) => Ok (bool_decide (is_Some (String.index 0 k s)))
    | _ => Raise TypeError
    end
  else Ok false.

(** A check that appends one failure. *)
Definition unless (ok : res bool) (f : finding) : res (list finding) :=
  b ← ok; Ok (if b : bool then [] else [f]).

Definition state_schema_lint (state : dict) : res (list finding * list finding) :=
  let types := omap (λ fe, match state !! fe.1 with
                           | None => Some (SCHEMA_MISSING fe.1)
                           | Some v => if isinstance v fe.2 then None else Some (SCHEMA_TYPE fe.1)
                           end) SCHEMA in
  scenario ← unless (in_strs (state !! "scenario") SCENARIOS) (SCHEMA_ENUM "scenario");
  phase ← unless (in_strs (state !! "phase") PHASES) (SCHEMA_ENUM "phase");
  mode ← unless (None_or_in (state !! "migration_mode") MIGRATION_MODES) (SCHEMA_ENUM "migration_mode");
  reason ← unless (None_or_in (state !! "failure_reason") BLOCKED_CODES) (SCHEMA_ENUM "failure_reason");
  statuses ← items_or_empty (state !! "stage_status");
  status ← mmap (λ kv, unless (None_or_in (Some kv.2) STAGE_STATUS_VALUES) (SCHEMA_ENUM kv.1)) statuses;
  warnings ← mmap (λ k, unless (key_in_or_empty (skey k) (state !! "stage_retry_count"))
                          (SCHEMA_MISSING (skey k))) (seq 0 6);
  Ok (types ++ scenario ++ phase ++ mode ++ reason ++ concat status, concat warnings).

End GateLint.

(** ** The typed view *)

Inductive phase_t := INIT | SCAFFOLD | DESIGN | REVIEW | DEVELOP | TUNING | INTEGRATE | DONE | FAILED.
Inductive status_t := in_progress | completed | failed.

#[export] Instance phase_eq_dec : EqDecision phase_t.
Proof. solve_decision. Defined.
#[export] Instance status_eq_dec : EqDecision status_t.
Proof. solve_decision. Defined.

Definition phase_str (p : phase_t) : string :=
  match p with
  | INIT => "INIT" | SCAFFOLD => "SCAFFOLD" | DESIGN => "DESIGN" | REVIEW => "REVIEW"
  | DEVELOP => "DEVELOP" | TUNING => "TUNING" | INTEGRATE => "INTEGRATE" | DONE => "DONE"
  | FAILED => "FAILED"
  end.
Definition status_str (s : status_t) : string :=
  match s with in_progress => "in_progress" | completed => "completed" | failed => "failed" end.

(** The element of a list that a string names. *)
Definition by_name {A} (name : A → string) (l : list A) (s : string) : option A :=
  snd <$> list_find (λ a, name a = s) l.

Definition all_phases : list phase_t :=
  [INIT; SCAFFOLD; DESIGN; REVIEW; DEVELOP; TUNING; INTEGRATE; DONE; FAILED].
Definition all_statuses : list status_t := [in_progress; completed; failed].

(** What the commands carry along without deciding on it, and the choice of
    scenario. *)
Record info := Info {
  task_id : string;
  project_name : string;
  operator_name : string;
  scenario : string;
  migration_mode : option string;
  user_requirement : option string;
  design_md_path : option string;
  review_md_path : option string;
  kernel_py_path : option string;
  kernel_opt_py_path : option string;
  perf_iteration : dict;
  env_check_passed : bool;
  perf_feedback : option (string * string);
  budget : dict;
}.

(** The state of an operator; the stages are the numbers 0 to 5. *)
Record state := State {
  st_info : info;
  stage_plan : list nat;
  phase : phase_t;
  current_stage : nat;
  retry_count : Z;
  max_retry : Z;
  final_artifact : option string;
  stage_status : gmap nat status_t;
  stage_retry_count : gmap nat Z;
  runtime_fail : Z;
  precision_fail : Z;
  perf_tuning_requested : option string;
  failure_reason : option string;
  last_failure_reason : option string;
  artifact_hashes : gmap string string;
  last_updated : string;
}.

(** ** What the commands write and read *)

Definition j_ostr (o : option string) : json := match o with Some s => JStr s | None => JNull end.

#[export] Instance skey_inj : Inj (=) (=) skey.
Proof. intros n m E. apply Nat2Z.inj. by apply (inj str_of_Z). Qed.

(** A per-stage object. *)
Definition enc_stages {A} (f : A → json) (m : gmap nat A) : dict := kmap skey (f <$> m).

Definition encode_state (st : state) : dict :=
  let i := st_info st in
  list_to_map
    [("task_id", JStr (task_id i)); ("project_name", JStr (project_name i));
     ("operator_name", JStr (operator_name i)); ("scenario", JStr (scenario i));
     ("migration_mode", j_ostr (migration_mode i));
     ("stage_plan", JList ((λ n, JInt (Z.of_nat n)) <$> stage_plan st));
     ("phase", JStr (phase_str (phase st))); ("current_stage", JInt (Z.of_nat (current_stage st)));
     ("user_requirement", j_ostr (user_requirement i));
     ("design_md_path", j_ostr (design_md_path i)); ("review_md_path", j_ostr (review_md_path i));
     ("kernel_py_path", j_ostr (kernel_py_path i));
     ("kernel_opt_py_path", j_ostr (kernel_opt_py_path i));
     ("retry_count", JInt (retry_count st)); ("max_retry", JInt (max_retry st));
     ("final_artifact", j_ostr (final_artifact st));
     ("stage_status", JObj (enc_stages (λ s, JStr (status_str s)) (stage_status st)));
     ("stage_retry_count", JObj (enc_stages JInt (stage_retry_count st)));
     ("stage3_failure_breakdown",
       JObj (list_to_map [("runtime_fail", JInt (runtime_fail st)); ("precision_fail", JInt (precision_fail st))]));
     ("perf_iteration", JObj (perf_iteration i));
     ("perf_tuning_requested", j_ostr (perf_tuning_requested st));
     ("env_check_passed", JBool (env_check_passed i));
     ("failure_reason", j_ostr (failure_reason st));
     ("last_failure_reason", j_ostr (last_failure_reason st));
     ("perf_feedback", match perf_feedback i with
                       | Some (p, a) => JObj (list_to_map [("path", JStr p); ("action", JStr a)])
                       | None => JNull
                       end);
     ("budget", JObj (budget i));
     ("artifact_hashes", JObj (JStr <$> artifact_hashes st));
     ("last_updated", JStr (last_updated st))].

(** The typed fields of a loaded object; [None] when a field the commands index
    has another type.  [current_stage] and [last_updated], which the commands
    write and never read, may be missing. *)
Definition get_str (d : dict) (k : string) : option string :=
  match d !! k with Some (JStr s) => Some s | _ => None end.
Definition get_ostr (d : dict) (k : string) : option (option string) :=
  match d !! k with Some (JStr s) => Some (Some s) | Some JNull | None => Some None | _ => None end.
Definition get_int (d : dict) (k : string) : option Z :=
  match d !! k with Some (JInt z) => Some z | _ => None end.
Definition get_obj (d : dict) (k : string) : option dict :=
  match d !! k with Some (JObj m) => Some m | _ => None end.
Definition get_bool (d : dict) (k : string) : option bool :=
  match d !! k with Some (JBool b) => Some b | _ => None end.

Definition dec_nat (j : json) : option nat :=
  match j with JInt z => if 0 <=? z then Some (Z.to_nat z) else None | _ => None end.
Definition dec_str (j : json) : option string := match j with JStr s => Some s | _ => None end.
Definition dec_int (j : json) : option Z := match j with JInt z => Some z | _ => None end.

Definition dec_stages {A} (f : json → option A) (m : dict) : option (gmap nat A) :=
  r ← foldr (λ k acc, r ← acc;
                      match m !! skey k with
                      | None => Some r
                      | Some j => a ← f j; Some (<[k := a]> r)
                      end) (Some ∅) (seq 0 6);
  if decide (size r = size m) then Some r else None.

Definition dec_strs (m : dict) : option (gmap string string) :=
  let r := omap dec_str m in
  if decide (size r = size m) then Some r else None.

Definition decode_feedback (d : dict) : option (option (string * string)) :=
  match d !! "perf_feedback" with
  | Some (JObj m) => p ← get_str m "path"; a ← get_str m "action"; Some (Some (p, a))
  | Some JNull | None => Some None
  | _ => None
  end.

Definition decode_info (d : dict) : option info :=
  task_id ← get_str d "task_id";
  project_name ← get_str d "project_name";
  operator_name ← get_str d "operator_name";
  scenario ← get_str d "scenario";
  migration_mode ← get_ostr d "migration_mode";
  user_requirement ← get_ostr d "user_requirement";
  design_md_path ← get_ostr d "design_md_path";
  review_md_path ← get_ostr d "review_md_path";
  kernel_py_path ← get_ostr d "kernel_py_path";
  kernel_opt_py_path ← get_ostr d "kernel_opt_py_path";
  perf_iteration ← get_obj d "perf_iteration";
  env_check_passed ← get_bool d "env_check_passed";
  perf_feedback ← decode_feedback d;
  budget ← get_obj d "budget";
  Some (Info task_id project_name operator_name scenario migration_mode user_requirement
          design_md_path review_md_path kernel_py_path kernel_opt_py_path perf_iteration
          env_check_passed perf_feedback budget).

Definition decode_state (d : dict) : option state :=
  i ← decode_info d;
  plan ← match d !! "stage_plan" with Some (JList l) => mapM dec_nat l | _ => None end;
  phase ← get_str d "phase" ≫= by_name phase_str all_phases;
  current_stage ← match d !! "current_stage" with Some j => dec_nat j | None => Some 0%nat end;
  retry_count ← get_int d "retry_count";
  max_retry ← get_int d "max_retry";
  final_artifact ← get_ostr d "final_artifact";
  stage_status ← get_obj d "stage_status" ≫= dec_stages (λ j, dec_str j ≫= by_name status_str all_statuses);
  stage_retry_count ← get_obj d "stage_retry_count" ≫= dec_stages dec_int;
  breakdown ← get_obj d "stage3_failure_breakdown";
  runtime_fail ← get_int breakdown "runtime_fail";
  precision_fail ← get_int breakdown "precision_fail";
  perf_tuning_requested ← get_ostr d "perf_tuning_requested";
  failure_reason ← get_ostr d "failure_reason";
  last_failure_reason ← get_ostr d "last_failure_reason";
  hashes ← get_obj d "artifact_hashes" ≫= dec_strs;
  last_updated ← match d !! "last_updated" with Some j => dec_str j | None => Some "" end;
  Some (State i plan phase current_stage retry_count max_retry final_artifact stage_status
          stage_retry_count runtime_fail precision_fail perf_tuning_requested failure_reason
          last_failure_reason hashes last_updated).

(** ** Round trip *)

(** The states the commands keep: stages below 6, and a counter for each. *)
Definition well_keyed (st : state) : Prop :=
  (∀ n, is_Some (stage_status st !! n) → (n < 6)%nat) ∧
  (∀ n, is_Some (stage_retry_count st !! n) ↔ (n < 6)%nat).

Lemma enc_stages_lookup {A} (f : A → json) m n : enc_stages f m !! skey n = f <$> m !! n.
Proof. unfold enc_stages. by rewrite (lookup_kmap skey), lookup_fmap. Qed.

Lemma size_kmap_skey {A} (m : gmap nat A) : size (kmap skey m : gmap string A) = size m.
Proof.
  induction m as [|i x m Hi IH] using map_ind; [done|].
  rewrite (kmap_insert skey), !map_size_insert_None; [by rewrite IH|done|].
  by rewrite (lookup_kmap skey).
Qed.

Lemma dec_enc_stages {A} (f : A → json) (g : json → option A) (m : gmap nat A) :
  (∀ a, g (f a) = Some a) → (∀ n, is_Some (m !! n) → (n < 6)%nat) →
  dec_stages g (enc_stages f m) = Some m.
Proof.
  intros Hg Hm. unfold dec_stages. set (step := λ k acc, _).
  assert (∀ l : list nat, ∃ r, foldr step (Some ∅) l = Some r ∧
    ∀ j, r !! j = if decide (j ∈ l) then m !! j else None) as Hl.
  { induction l as [|k l (r & IH & Hr)]; [by exists ∅|].
    simpl. rewrite IH. unfold step. simpl. rewrite enc_stages_lookup.
    destruct (m !! k) as [a|] eqn:Hk; simpl; [rewrite Hg; simpl|]; eexists; (split; [done|]);
      intros j; [destruct (decide (j = k)) as [->|]; [rewrite lookup_insert|rewrite lookup_insert_ne by done]|];
      rewrite ?Hr; repeat case_decide; set_solver. }
  destruct (Hl (seq 0 6)) as (r & -> & Hr). simpl.
  assert (r = m) as ->.
  { apply map_eq. intros j. rewrite Hr. case_decide as Hj; [done|]. symmetry.
    apply eq_None_not_Some. intros Hj'. apply Hj, elem_of_seq. apply Hm in Hj'. lia. }
  unfold enc_stages. rewrite decide_True; [done|]. by rewrite size_kmap_skey, map_size_fmap.
Qed.

Lemma dec_enc_strs (m : gmap string string) : dec_strs (JStr <$> m) = Some m.
Proof.
  unfold dec_strs. assert (omap dec_str (JStr <$> m) = m) as ->.
  { apply map_eq. intros k. rewrite lookup_omap, lookup_fmap. by destruct (m !! k). }
  rewrite decide_True; [done|]. by rewrite map_size_fmap.
Qed.

Lemma dec_enc_plan plan : mapM dec_nat ((λ n, JInt (Z.of_nat n)) <$> plan) = Some plan.
Proof.
  apply mapM_Some. rewrite Forall2_fmap_l. apply Forall_Forall2_diag, Forall_true. intros n. simpl.
  rewrite (proj2 (Z.leb_le 0 (Z.of_nat n))) by lia. by rewrite Nat2Z.id.
Qed.

Lemma get_ostr_j d k o : d !! k = Some (j_ostr o) → get_ostr d k = Some o.
Proof. unfold get_ostr. intros ->. by destruct o. Qed.

Lemma decode_feedback_encode st :
  decode_feedback (encode_state st) = Some (perf_feedback (st_info st)).
Proof.
  unfold decode_feedback. change (encode_state st !! "perf_feedback") with
    (Some (match perf_feedback (st_info st) with
           | Some (p, a) => JObj (list_to_map [("path", JStr p); ("action", JStr a)])
           | None => JNull end)).
  by destruct (perf_feedback (st_info st)) as [[p a]|].
Qed.

Lemma decode_info_encode st : decode_info (encode_state st) = Some (st_info st).
Proof.
  unfold decode_info, get_str, get_obj, get_bool.
  rewrite (get_ostr_j (encode_state st) "migration_mode" (migration_mode (st_info st)) eq_refl).
  rewrite (get_ostr_j (encode_state st) "user_requirement" (user_requirement (st_info st)) eq_refl).
  rewrite (get_ostr_j (encode_state st) "design_md_path" (design_md_path (st_info st)) eq_refl).
  rewrite (get_ostr_j (encode_state st) "review_md_path" (review_md_path (st_info st)) eq_refl).
  rewrite (get_ostr_j (encode_state st) "kernel_py_path" (kernel_py_path (st_info st)) eq_refl).
  rewrite (get_ostr_j (encode_state st) "kernel_opt_py_path" (kernel_opt_py_path (st_info st)) eq_refl).
  change (encode_state st !! "task_id") with (Some (JStr (task_id (st_info st)))).
  change (encode_state st !! "project_name") with (Some (JStr (project_name (st_info st)))).
  change (encode_state st !! "operator_name") with (Some (JStr (operator_name (st_info st)))).
  change (encode_state st !! "scenario") with (Some (JStr (scenario (st_info st)))).
  change (encode_state st !! "perf_iteration") with (Some (JObj (perf_iteration (st_info st)))).
  change (encode_state st !! "env_check_passed") with (Some (JBool (env_check_passed (st_info st)))).
  change (encode_state st !! "budget") with (Some (JObj (budget (st_info st)))).
  rewrite decode_feedback_encode. by destruct (st_info st).
Qed.

Lemma decode_encode st : well_keyed st → decode_state (encode_state st) = Some st.
Proof.
  intros [Hs Hc]. unfold decode_state. rewrite decode_info_encode.
  unfold get_str, get_int, get_obj.
  rewrite (get_ostr_j (encode_state st) "final_artifact" (final_artifact st) eq_refl).
  rewrite (get_ostr_j (encode_state st) "perf_tuning_requested" (perf_tuning_requested st) eq_refl).
  rewrite (get_ostr_j (encode_state st) "failure_reason" (failure_reason st) eq_refl).
  rewrite (get_ostr_j (encode_state st) "last_failure_reason" (last_failure_reason st) eq_refl).
  change (encode_state st !! "stage_plan") with
    (Some (JList ((λ n, JInt (Z.of_nat n)) <$> stage_plan st))).
  change (encode_state st !! "phase") with (Some (JStr (phase_str (phase st)))).
  change (encode_state st !! "current_stage") with (Some (JInt (Z.of_nat (current_stage st)))).
  change (encode_state st !! "retry_count") with (Some (JInt (retry_count st))).
  change (encode_state st !! "max_retry") with (Some (JInt (max_retry st))).
  change (encode_state st !! "stage_status") with
    (Some (JObj (enc_stages (λ s, JStr (status_str s)) (stage_status st)))).
  change (encode_state st !! "stage_retry_count") with
    (Some (JObj (enc_stages JInt (stage_retry_count st)))).
  change (encode_state st !! "stage3_failure_breakdown") with
    (Some (JObj (list_to_map [("runtime_fail", JInt (runtime_fail st)); ("precision_fail", JInt (precision_fail st))]))).
  change (encode_state st !! "artifact_hashes") with (Some (JObj (JStr <$> artifact_hashes st))).
  change (encode_state st !! "last_updated") with (Some (JStr (last_updated st))).
  simpl. rewrite dec_enc_plan. simpl.
  assert (by_name phase_str all_phases (phase_str (phase st)) = Some (phase st)) as -> by by destruct (phase st).
  simpl. rewrite (proj2 (Z.leb_le 0 (Z.of_nat (current_stage st)))) by lia. rewrite Nat2Z.id. simpl.
  rewrite (dec_enc_stages (λ s, JStr (status_str s))); [simpl|by intros []|exact Hs].
  rewrite dec_enc_stages; [simpl|done|intros n; apply Hc].
  rewrite dec_enc_strs. by destruct st.
Qed.

(** ** Back-filling *)

Import GateLint.

Lemma fill_missing_mono d fd k : is_Some (d !! k) → is_Some (fill_missing d fd !! k).
Proof.
  intros Hk. unfold fill_missing. case_match; [done|]. destruct (decide (k = fd.1)) as [->|].
  - rewrite lookup_insert_eq. by eexists.
  - by rewrite lookup_insert_ne.
Qed.

Lemma fill_missing_keep d fd k j : d !! k = Some j → fill_missing d fd !! k = Some j.
Proof.
  intros Hk. unfold fill_missing. case_match eqn:E; [done|].
  rewrite lookup_insert_ne; [done|]. intros <-. by rewrite Hk in E.
Qed.

Lemma fill_missing_has d fd : is_Some (fill_missing d fd !! fd.1).
Proof. unfold fill_missing. case_match eqn:E; [by eexists|]. rewrite lookup_insert_eq. by eexists. Qed.

Lemma foldl_fill_mono l d k : is_Some (d !! k) → is_Some (foldl fill_missing d l !! k).
Proof. revert d. induction l as [|fd l IH]; intros d Hk; [done|]. by apply IH, fill_missing_mono. Qed.

Lemma foldl_fill_has l d : Forall (λ fd, is_Some (foldl fill_missing d l !! fd.1)) l.
Proof.
  revert d. induction l as [|fd l IH]; intros d; constructor; simpl; [|apply IH].
  apply foldl_fill_mono, fill_missing_has.
Qed.

Lemma foldl_fill_id l d : Forall (λ fd, is_Some (d !! fd.1)) l → foldl fill_missing d l = d.
Proof.
  induction 1 as [|fd l [j Hj] Hl IH]; [done|]. simpl. unfold fill_missing at 2. by rewrite Hj.
Qed.

Lemma fill_dict_mono f m d k : is_Some (d !! k) → is_Some (fill_dict f m d !! k).
Proof.
  intros Hk. unfold fill_dict. destruct (decide (k = f)) as [->|].
  - repeat case_match; rewrite ?lookup_insert_eq; by eexists.
  - repeat case_match; by rewrite ?lookup_insert_ne.
Qed.

Lemma fill_dict_has f m d : ∃ m', fill_dict f m d !! f = Some (JObj m').
Proof. unfold fill_dict. repeat case_match; rewrite ?lookup_insert_eq; by eexists. Qed.

Lemma fill_dict_ne f m d k : k ≠ f → fill_dict f m d !! k = d !! k.
Proof. intros. unfold fill_dict. repeat case_match; by rewrite ?lookup_insert_ne. Qed.

(** The objects back-filling leaves alone. *)
Definition filled (d : dict) : Prop :=
  Forall (λ fd, is_Some (d !! fd.1)) DEFAULT_STATE ∧
  (∃ m, d !! "stage_retry_count" = Some (JObj m) ∧ Forall (λ k, is_Some (m !! skey k)) (seq 0 6)) ∧
  Forall (λ f, ∃ m, d !! f = Some (JObj m))
    ["stage_status"; "stage3_failure_breakdown"; "perf_iteration"; "budget"] ∧
  is_Some (d !! "artifact_hashes") ∧ is_Some (d !! "last_failure_reason").

Lemma fill_missing_ne d fd k : k ≠ fd.1 → fill_missing d fd !! k = d !! k.
Proof. intros. unfold fill_missing. case_match; by rewrite ?lookup_insert_ne. Qed.

Lemma filled_backfill d : filled d → state_backfill d = d.
Proof.
  intros (Hd & (m & Hm & Hk) & Ho & [ja Ha] & [jl Hl]). unfold state_backfill.
  rewrite (foldl_fill_id DEFAULT_STATE d Hd), Hm.
  rewrite foldl_fill_id by (by apply Forall_fmap). rewrite (insert_id d _ _ Hm).
  rewrite !Forall_cons in Ho. destruct Ho as ([m1 H1] & [m2 H2] & [m3 H3] & [m4 H4] & _).
  unfold fill_dict. rewrite H1, H2, H3. unfold fill_missing. simpl. by rewrite Ha, Hl, H4.
Qed.

Ltac fill_tac :=
  repeat first [apply fill_dict_mono | apply fill_missing_mono].

Lemma backfill_filled d : filled (state_backfill d).
Proof.
  unfold state_backfill. set (d1 := foldl fill_missing d DEFAULT_STATE).
  set (r := foldl fill_missing _ _). set (d2 := <["stage_retry_count" := JObj r]> d1).
  assert (∀ k, is_Some (d1 !! k) → is_Some (d2 !! k)) as H12.
  { intros k Hk. unfold d2. destruct (decide (k = "stage_retry_count")) as [->|];
      [rewrite lookup_insert_eq; by eexists|by rewrite lookup_insert_ne]. }
  split; [|split; [|split; [|split]]].
  - eapply Forall_impl; [apply (foldl_fill_has DEFAULT_STATE d)|]. intros fd Hf.
    fill_tac. by apply H12.
  - exists r. split.
    + repeat first [rewrite fill_dict_ne by done | rewrite fill_missing_ne by done].
      unfold d2. by rewrite lookup_insert_eq.
    + pose proof (foldl_fill_has ((λ k, (skey k, JInt 0)) <$> seq 0 6)
        (match d1 !! "stage_retry_count" with Some (JObj m) => m | _ => ∅ end)) as Hr.
      rewrite Forall_fmap in Hr. done.
  - repeat constructor.
    all: repeat first [apply fill_dict_has | rewrite fill_dict_ne by done | rewrite fill_missing_ne by done].
  - rewrite fill_dict_ne by done. rewrite fill_missing_ne by done. apply (fill_missing_has _ ("artifact_hashes", _)).
  - rewrite fill_dict_ne by done. apply (fill_missing_has _ ("last_failure_reason", _)).
Qed.

Lemma encode_filled st : well_keyed st → filled (encode_state st).
Proof.
  intros [_ Hc]. split; [|split; [|split; [|split]]].
  - repeat constructor; by eexists.
  - eexists. split; [reflexivity|]. apply Forall_forall. intros k Hk%elem_of_seq.
    rewrite enc_stages_lookup. apply fmap_is_Some, Hc. lia.
  - repeat constructor; eexists; reflexivity.
  - by eexists.
  - by eexists.
Qed.

Lemma unless_in ok f l : unless ok f = Ok l → ∀ x, x ∈ l → x = f.
Proof.
  unfold unless. intros (b & _ & [= <-])%bind_Ok x. destruct b; set_solver.
Qed.

Lemma lint_filled b fs ws :
  filled b → Forall (λ fe, is_Some (b !! fe.1)) SCHEMA → state_schema_lint b = Ok (fs, ws) →
  ws = [] ∧ ∀ f, SCHEMA_MISSING f ∉ fs.
Proof.
  intros (_ & (m & Hm & Hk) & _) Hs. unfold state_schema_lint. set (types := omap _ _).
    intros (s1 & H1 & (s2 & H2 & (s3 & H3 & (s4 & H4 &
      (sts & _ & (s5 & H5%mmap_Ok & (s6 & H6 & [= <- <-])%bind_Ok)%bind_Ok)%bind_Ok)%bind_Ok)%bind_Ok)%bind_Ok)%bind_Ok.
    split.
    + assert (mmap (λ k, unless (key_in_or_empty (skey k) (b !! "stage_retry_count"))
        (SCHEMA_MISSING (skey k))) (seq 0 6) = Ok ((λ _, []) <$> seq 0 6)) as E.
      { apply mmap_pure. intros k Hin. rewrite Forall_forall in Hk. destruct (Hk k Hin) as [j Hj].
        rewrite Hm. unfold unless, key_in_or_empty, truthy.
        rewrite bool_decide_true by (intros ->; by rewrite lookup_empty in Hj).
        by rewrite Hj, bool_decide_true by (by eexists). }
      rewrite E in H6. by injection H6 as <-.
    + intros f. rewrite !elem_of_app. intros [Ht|[Hx|[Hx|[Hx|[Hx|Hx]]]]].
      * unfold types in Ht. apply list_elem_of_omap in Ht as ([k ts] & Hin & Hx). simpl in Hx.
        rewrite Forall_forall in Hs. destruct (Hs _ Hin) as [v Hv]. simpl in Hv. rewrite Hv in Hx.
        by case_match.
      * by apply (unless_in _ _ _ H1) in Hx.
      * by apply (unless_in _ _ _ H2) in Hx.
      * by apply (unless_in _ _ _ H3) in Hx.
      * by apply (unless_in _ _ _ H4) in Hx.
      * apply list_elem_of_In, in_concat in Hx as (l & Hl%list_elem_of_In & Hx%list_elem_of_In).
        apply list_elem_of_lookup in Hl as [i Hi].
        destruct (Forall2_lookup_r _ _ _ _ _ H5 Hi) as ([k v] & _ & Hu). by apply (unless_in _ _ _ Hu) in Hx.
Qed.

(** Back-filling any object gives every field of the schema, keeps the
    fields the object had outside of the repaired objects, and is idempotent; the
    schema check then reports no missing field and no missing counter. *)
Theorem backfill_complete d :
  state_backfill (state_backfill d) = state_backfill d ∧
  Forall (λ fe, is_Some (state_backfill d !! fe.1)) SCHEMA ∧
  (∀ k j, d !! k = Some j →
     k ∉ ["stage_retry_count"; "stage_status"; "stage3_failure_breakdown"; "perf_iteration"; "budget"] →
     state_backfill d !! k = Some j) ∧
  (∀ fs ws, state_schema_lint (state_backfill d) = Ok (fs, ws) →
     ws = [] ∧ ∀ f, SCHEMA_MISSING f ∉ fs).
Proof.
  pose proof (backfill_filled d) as Hf. split; [by apply filled_backfill|].
  assert (Forall (λ fe, is_Some (state_backfill d !! fe.1)) SCHEMA) as Hs.
  { destruct Hf as (Hd & _). rewrite Forall_forall in Hd. apply Forall_forall. intros [k ts] Hk.
    assert (k ∈ DEFAULT_STATE.*1) as ([? j] & -> & Hj)%list_elem_of_fmap; [|by apply (Hd _ Hj)].
    apply (list_elem_of_fmap_2 fst) in Hk. simpl in Hk. revert k Hk. apply Forall_forall.
    apply (bool_decide_unpack _). by vm_compute. }
  split; [done|]. split.
  - intros k j Hk Hn. unfold state_backfill.
    repeat first [rewrite fill_dict_ne by set_solver].
    assert (∀ l d', d' !! k = Some j → foldl fill_missing d' l !! k = Some j) as Hl.
    { induction l as [|fd l IH]; intros d' Hd'; [done|]. by apply IH, fill_missing_keep. }
    do 2 apply fill_missing_keep. repeat first [rewrite fill_dict_ne by set_solver].
    rewrite lookup_insert_ne by set_solver. by apply Hl.
  - intros fs ws Hl. by eapply lint_filled.
Qed.

(** The values a state may have where the schema lists them. *)
Definition well_typed (st : state) : Prop :=
  scenario (st_info st) ∈ SCENARIOS ∧
  (∀ m, migration_mode (st_info st) = Some m → m ∈ MIGRATION_MODES) ∧
  (∀ r, failure_reason st = Some r → r ∈ BLOCKED_CODES).

Lemma None_or_in_j o l : (∀ s, o = Some s → s ∈ l) → None_or_in (Some (j_ostr o)) l = Ok true.
Proof.
  destruct o as [s|]; [|done]. intros Hs. simpl. unfold py_in. by rewrite bool_decide_true by auto.
Qed.

Lemma isinstance_j o : isinstance (j_ostr o) [Tstr; TNone] = true.
Proof. by destruct o. Qed.

Lemma concat_nils {A B} (l : list A) : concat ((λ _, []) <$> l) = @nil B.
Proof. by induction l. Qed.

Lemma encode_types st :
  Forall (λ fe, ∃ v, encode_state st !! fe.1 = Some v ∧ isinstance v fe.2 = true) SCHEMA.
Proof.
  repeat constructor; eexists; (split; [reflexivity|]); try done; try apply isinstance_j.
  by destruct (perf_tuning_requested st).
Qed.

Lemma types_ok (d : dict) l :
  Forall (λ fe, ∃ v, d !! fe.1 = Some v ∧ isinstance v fe.2 = true) l →
  omap (λ fe, match d !! fe.1 with
              | None => Some (SCHEMA_MISSING fe.1)
              | Some v => if isinstance v fe.2 then None else Some (SCHEMA_TYPE fe.1)
              end) l = [].
Proof. induction 1 as [|fe l (v & Hv & Hi) Hl IH]; [done|]. simpl. by rewrite Hv, Hi. Qed.

Lemma encoded_statuses st :
  ∃ l, items_or_empty (Some (JObj (enc_stages (λ s, JStr (status_str s)) (stage_status st)))) = Ok l ∧
    ∀ kv, kv ∈ l → None_or_in (Some kv.2) STAGE_STATUS_VALUES = Ok true.
Proof.
  unfold items_or_empty. case_match; [|exists []; split; [done|]; by intros ? ?%elem_of_nil]. eexists. split; [done|]. intros [k v] Hk.
  apply elem_of_map_to_list in Hk. unfold enc_stages in Hk.
  apply (lookup_kmap_Some skey) in Hk as (n & -> & Hn). rewrite lookup_fmap in Hn.
  destruct (stage_status st !! n) as [s|]; simplify_eq/=. by destruct s.
Qed.

(** What a command writes passes the schema check and is read back as it was. *)
Lemma lint_encode st : well_keyed st → well_typed st → state_schema_lint (encode_state st) = Ok ([], []).
Proof.
  intros [Hs Hc] (Hsc & Hmm & Hfr). unfold state_schema_lint.
  assert (omap (λ fe, match encode_state st !! fe.1 with
                      | None => Some (SCHEMA_MISSING fe.1)
                      | Some v => if isinstance v fe.2 then None else Some (SCHEMA_TYPE fe.1)
                      end) SCHEMA = []) as ->.
  { apply types_ok, encode_types. }
  change (encode_state st !! "scenario") with (Some (JStr (scenario (st_info st)))).
  change (encode_state st !! "phase") with (Some (JStr (phase_str (phase st)))).
  change (encode_state st !! "migration_mode") with (Some (j_ostr (migration_mode (st_info st)))).
  change (encode_state st !! "failure_reason") with (Some (j_ostr (failure_reason st))).
  change (encode_state st !! "stage_status") with
    (Some (JObj (enc_stages (λ s, JStr (status_str s)) (stage_status st)))).
  change (encode_state st !! "stage_retry_count") with
    (Some (JObj (enc_stages JInt (stage_retry_count st)))).
  rewrite (None_or_in_j _ _ Hmm), (None_or_in_j _ _ Hfr).
  destruct (encoded_statuses st) as (l & El & Hl). rewrite El.
  assert (in_strs (Some (JStr (scenario (st_info st)))) SCENARIOS = Ok true) as ->.
  { unfold in_strs, py_in. by rewrite bool_decide_true. }
  assert (in_strs (Some (JStr (phase_str (phase st)))) PHASES = Ok true) as ->.
  { destruct (phase st); by vm_compute. }
  assert (mmap (λ kv, unless (None_or_in (Some kv.2) STAGE_STATUS_VALUES) (SCHEMA_ENUM kv.1)) l =
    Ok ((λ _, []) <$> l)) as E1.
  { apply mmap_pure. intros kv Hkv. unfold unless. by rewrite Hl. }
  assert (mmap (λ k, unless (key_in_or_empty (skey k) (Some (JObj (enc_stages JInt (stage_retry_count st)))))
      (SCHEMA_MISSING (skey k))) (seq 0 6) = Ok ((λ _, []) <$> seq 0 6)) as E2.
  { apply mmap_pure. intros k Hk%elem_of_seq. unfold unless, key_in_or_empty, truthy.
    destruct (proj2 (Hc k) ltac:(lia)) as [c Hk'].
    assert (enc_stages JInt (stage_retry_count st) !! skey k = Some (JInt c)) as E.
    { by rewrite enc_stages_lookup, Hk'. }
    rewrite bool_decide_true by (intros E'; by rewrite E', lookup_empty in E).
    by rewrite E, bool_decide_true by (by eexists). }
  unfold unless, mbind, res_bind in *. rewrite E1, E2. by rewrite !concat_nils.
Qed.
