(* ===== verification/Statectl.v ===== *)
(** * The workflow state machine

    [src/.agents/tools/statectl.py]: the commands that move an operator through
    its stages ([init], [start], [complete], [fail]), record side information
    ([set], [snapshot]) and inspect the result ([gate], [verify], [repair],
    [show], [timeline-summary]).  A command is a program over the files of the
    operator and its event log; it returns the exit code and the error codes it
    prints.  The texts of messages are not modelled.

    The lints a gate runs, SHA-256 and the parsing of time stamps are parameters:
    nothing below depends on what they compute. *)
From Stdlib Require Import SpecFloat Ascii.
From stdpp Require Import base strings gmap numbers sorting relations list.
From S2P Require Import Prelude StateSchema.

(** [state[field] = v], one function per field the commands assign. *)
Definition set_st_info (v : info) (st : state) : state :=
    State v (stage_plan st) (phase st) (current_stage st) (retry_count st) (max_retry st)
    (final_artifact st) (stage_status st) (stage_retry_count st) (runtime_fail st)
    (precision_fail st) (perf_tuning_requested st) (failure_reason st) (last_failure_reason
    st) (artifact_hashes st) (last_updated st).
Definition set_stage_plan (v : list nat) (st : state) : state :=
    State (st_info st) v (phase st) (current_stage st) (retry_count st) (max_retry st)
    (final_artifact st) (stage_status st) (stage_retry_count st) (runtime_fail st)
    (precision_fail st) (perf_tuning_requested st) (failure_reason st) (last_failure_reason
    st) (artifact_hashes st) (last_updated st).
Definition set_phase (v : phase_t) (st : state) : state :=
    State (st_info st) (stage_plan st) v (current_stage st) (retry_count st) (max_retry st)
    (final_artifact st) (stage_status st) (stage_retry_count st) (runtime_fail st)
    (precision_fail st) (perf_tuning_requested st) (failure_reason st) (last_failure_reason
    st) (artifact_hashes st) (last_updated st).
Definition set_current_stage (v : nat) (st : state) : state :=
    State (st_info st) (stage_plan st) (phase st) v (retry_count st) (max_retry st)
    (final_artifact st) (stage_status st) (stage_retry_count st) (runtime_fail st)
    (precision_fail st) (perf_tuning_requested st) (failure_reason st) (last_failure_reason
    st) (artifact_hashes st) (last_updated st).
Definition set_retry_count (v : Z) (st : state) : state :=
    State (st_info st) (stage_plan st) (phase st) (current_stage st) v (max_retry st)
    (final_artifact st) (stage_status st) (stage_retry_count st) (runtime_fail st)
    (precision_fail st) (perf_tuning_requested st) (failure_reason st) (last_failure_reason
    st) (artifact_hashes st) (last_updated st).
Definition set_final_artifact (v : option string) (st : state) : state :=
    State (st_info st) (stage_plan st) (phase st) (current_stage st) (retry_count st)
    (max_retry st) v (stage_status st) (stage_retry_count st) (runtime_fail st)
    (precision_fail st) (perf_tuning_requested st) (failure_reason st) (last_failure_reason
    st) (artifact_hashes st) (last_updated st).
Definition set_stage_status (v : gmap nat status_t) (st : state) : state :=
    State (st_info st) (stage_plan st) (phase st) (current_stage st) (retry_count st)
    (max_retry st) (final_artifact st) v (stage_retry_count st) (runtime_fail st)
    (precision_fail st) (perf_tuning_requested st) (failure_reason st) (last_failure_reason
    st) (artifact_hashes st) (last_updated st).
Definition set_stage_retry_count (v : gmap nat Z) (st : state) : state :=
    State (st_info st) (stage_plan st) (phase st) (current_stage st) (retry_count st)
    (max_retry st) (final_artifact st) (stage_status st) v (runtime_fail st) (precision_fail
    st) (perf_tuning_requested st) (failure_reason st) (last_failure_reason st)
    (artifact_hashes st) (last_updated st).
Definition set_runtime_fail (v : Z) (st : state) : state :=
    State (st_info st) (stage_plan st) (phase st) (current_stage st) (retry_count st)
    (max_retry st) (final_artifact st) (stage_status st) (stage_retry_count st) v
    (precision_fail st) (perf_tuning_requested st) (failure_reason st) (last_failure_reason
    st) (artifact_hashes st) (last_updated st).
Definition set_precision_fail (v : Z) (st : state) : state :=
    State (st_info st) (stage_plan st) (phase st) (current_stage st) (retry_count st)
    (max_retry st) (final_artifact st) (stage_status st) (stage_retry_count st)
    (runtime_fail st) v (perf_tuning_requested st) (failure_reason st) (last_failure_reason
    st) (artifact_hashes st) (last_updated st).
Definition set_perf_tuning_requested (v : option string) (st : state) : state :=
    State (st_info st) (stage_plan st) (phase st) (current_stage st) (retry_count st)
    (max_retry st) (final_artifact st) (stage_status st) (stage_retry_count st)
    (runtime_fail st) (precision_fail st) v (failure_reason st) (last_failure_reason st)
    (artifact_hashes st) (last_updated st).
Definition set_failure_reason (v : option string) (st : state) : state :=
    State (st_info st) (stage_plan st) (phase st) (current_stage st) (retry_count st)
    (max_retry st) (final_artifact st) (stage_status st) (stage_retry_count st)
    (runtime_fail st) (precision_fail st) (perf_tuning_requested st) v (last_failure_reason
    st) (artifact_hashes st) (last_updated st).
Definition set_last_failure_reason (v : option string) (st : state) : state :=
    State (st_info st) (stage_plan st) (phase st) (current_stage st) (retry_count st)
    (max_retry st) (final_artifact st) (stage_status st) (stage_retry_count st)
    (runtime_fail st) (precision_fail st) (perf_tuning_requested st) (failure_reason st) v
    (artifact_hashes st) (last_updated st).
Definition set_artifact_hashes (v : gmap string string) (st : state) : state :=
    State (st_info st) (stage_plan st) (phase st) (current_stage st) (retry_count st)
    (max_retry st) (final_artifact st) (stage_status st) (stage_retry_count st)
    (runtime_fail st) (precision_fail st) (perf_tuning_requested st) (failure_reason st)
    (last_failure_reason st) v (last_updated st).
Definition set_last_updated (v : string) (st : state) : state :=
    State (st_info st) (stage_plan st) (phase st) (current_stage st) (retry_count st)
    (max_retry st) (final_artifact st) (stage_status st) (stage_retry_count st)
    (runtime_fail st) (precision_fail st) (perf_tuning_requested st) (failure_reason st)
    (last_failure_reason st) (artifact_hashes st) v.

(** ** Files, events and the context of a run *)

(** A file: JSON, or text that does not parse as JSON. *)
Inductive fcontent := FJson (j : json) | FText (s : string).

Record event := Event {
  ev_ts : string;
  ev_action : string;
  ev_phase_before : option string;
  ev_phase_after : option string;
  ev_stage : option nat;
  ev_subagent : option string;
  ev_duration_s : option Z;
  ev_mode : option string;
  ev_verdict : option string;
  ev_extra : list (string * json);
}.

(** The files below the repository and the lines of [.task_timeline.jsonl]; a
    line that does not parse is [None]. *)
Record world := World {
  files : gmap string fcontent;
  timeline : list (option event);
}.

(** [hashlib.sha256] of a file and [datetime.strptime] of a time stamp, in
    seconds. *)
Class Host := {
  sha256 : fcontent → string;
  parse_ts : string → option Z;
}.

(** The lints of [gate_lint.py] that the gates run: the rules that fail and the
    rules that warn. *)
Class GateLints := {
  meta_lint : string → gmap string fcontent → list string * list string;
  design_lint : string → bool → gmap string fcontent → list string * list string;
  review_lint : string → bool → gmap string fcontent → list string * list string;
  kernel_lint : string → string → gmap string fcontent → list string * list string;
  perf_lint : string → string → string → string → string → gmap string fcontent →
              list string * list string;
  integration_lint : dict → gmap string fcontent → list string * list string;
}.

(** [Ctx]: the operator's directory, the repository and the directory relative
    to it. *)
Record Ctx := MkCtx {
  op_dir : string;
  repo_root : string;
  base : string;
}.

Definition state_path (c : Ctx) : string := op_dir c +:+ "/.stage_state.json".

(** [os.path.join]. *)
Definition path_join (root rel : string) : string :=
  match rel with
  | String "/"%char _ => rel
  | _ => root +:+ "/" +:+ rel
  end.

(** ** Constants *)

Definition STAGE_PHASE (n : nat) : phase_t :=
  match n with
  | 0%nat => SCAFFOLD | 1%nat => DESIGN | 2%nat => REVIEW | 3%nat => DEVELOP | 4%nat => TUNING | _ => INTEGRATE
  end.
Definition is_terminal (p : phase_t) : bool := match p with DONE | FAILED => true | _ => false end.
Definition STAGE_RETRY_LIMITS (n : nat) : option Z :=
  match n with 0%nat => Some 3 | 1%nat => Some 3 | 3%nat => Some 5 | 4%nat => Some 10 | 5%nat => Some 2 | _ => None end.
Definition BLOCKED_BY_STAGE (n : nat) : res string :=
  match n with
  | 0%nat => Ok "BLOCKED_SCAFFOLD" | 1%nat => Ok "BLOCKED_DESIGN" | 3%nat => Ok "BLOCKED_IMPL"
  | 5%nat => Ok "BLOCKED_INTEGRATION" | _ => Raise KeyError
  end.
Definition STAGE_SUBAGENT (n : nat) : option string :=
  match n with
  | 0%nat => Some "tileops-scaffolder" | 1%nat => Some "tilelang-op-designer"
  | 2%nat => Some "tilelang-design-reviewer" | 3%nat => Some "tilelang-op-developer"
  | 4%nat => Some "tilelang-op-optimizer" | 5%nat => Some "tilelang-op-integrator" | _ => None
  end.

(** ** Output *)

Record reply := Reply { exit_code : Z; error_codes : list string; warnings : list string }.

Definition ok : reply := Reply 0 [] [].
Definition refuse (code : string) : reply := Reply 1 [code] [].

(** ** Events *)

(** [not s] for a string or [None]. *)
Definition nonempty (o : option string) : option string :=
  match o with Some "" | None => None | Some s => Some s end.

Definition mode_label (st : option state) : option string :=
  st ← st;
  let i := st_info st in
  s ← nonempty (Some (scenario i));
  if decide (s = "migration") then
    match nonempty (migration_mode i) with
    | Some mm => Some ("migration-" +:+ mm)
    | None => Some "migration"
    end
  else Some s.

Definition read_timeline_events (w : world) : list event := omap id (timeline w).

Section host.
Context `{Host}.

(** Seconds since the last [start] of the stage that has a time stamp. *)
Definition stage_attempt_duration (w : world) (stage : nat) (now : string) : option Z :=
  let start_ts :=
    foldl (λ acc ev, if bool_decide (ev_action ev = "start") && bool_decide (ev_stage ev = Some stage)
                     then match nonempty (Some (ev_ts ev)) with Some ts => Some ts | None => acc end
                     else acc) None (read_timeline_events w) in
  ts ← start_ts;
  now_dt ← parse_ts now;
  start_dt ← parse_ts ts;
  Some (now_dt - start_dt).

(** [Ctx.timeline]: append one event. *)
Definition append_event (now : string) (mode : option string) (action : string) (stage : option nat)
    (verdict before after : option string) (extra : list (string * json)) : prog world unit :=
  w ← get;
  let duration :=
    n ← stage;
    if bool_decide (action = "complete") || bool_decide (action = "fail")
    then stage_attempt_duration w n now else None in
  let ev := Event now action before after stage (stage ≫= STAGE_SUBAGENT) duration mode verdict extra in
  modify (λ w, World (files w) (timeline w ++ [Some ev])).

(** ... of a command of the workflow. *)
Definition log (now : string) (st : option state) (action : string) (stage : option nat)
    (verdict : option string) (before after : option phase_t) (extra : list (string * json)) :
    prog world unit :=
  append_event now (mode_label st) action stage verdict (phase_str <$> before) (phase_str <$> after) extra.

End host.

(** ** The state file *)

(** [Ctx.load]: an error code, or the back-filled state.  A file whose fields
    have other types than the schema's is outside of the typed view. *)
Definition load (c : Ctx) : prog world (string + state) :=
  w ← get;
  match files w !! state_path c with
  | None => mret (inl "E-MISSING")
  | Some (FJson (JObj d)) =>
      st ← lift (or_raise TypeError (decode_state (GateLint.state_backfill d)));
      mret (inr st)
  | Some _ => mret (inl "E-PARSE")
  end.

(** [Ctx.write]. *)
Definition write (c : Ctx) (now : string) (st : state) : prog world unit :=
  modify (λ w, World (<[state_path c := FJson (JObj (encode_state (set_last_updated now st)))]> (files w))
                 (timeline w)).

(** ** Artifacts *)

Record artifact := Artifact { art_rel : string; art_abs : string }.

Definition resolve (c : Ctx) (field : option string) (default : string) : artifact :=
  let rel := match nonempty field with Some p => p | None => base c +:+ "/" +:+ default end in
  Artifact rel (path_join (repo_root c) rel).

Definition op_or_default (st : state) : string :=
  match nonempty (Some (operator_name (st_info st))) with Some op => op | None => "op" end.

Definition design_art (st : state) (c : Ctx) := resolve c (design_md_path (st_info st)) "DESIGN.md".
Definition review_art (st : state) (c : Ctx) := resolve c (review_md_path (st_info st)) "REVIEW.md".
Definition kernel_art (st : state) (c : Ctx) :=
  resolve c (kernel_py_path (st_info st)) (op_or_default st +:+ ".py").
Definition kernel_opt_art (st : state) (c : Ctx) :=
  resolve c (kernel_opt_py_path (st_info st)) ("perf_opt/" +:+ op_or_default st +:+ ".py").
Definition perf_opt_art (c : Ctx) (name : string) : artifact :=
  let rel := base c +:+ "/perf_opt/" +:+ name in
  Artifact rel (path_join (repo_root c) rel).
Definition opt_log_art (c : Ctx) := perf_opt_art c "opt_log.md".
Definition perf_feedback_art (c : Ctx) := perf_opt_art c "perf_feedback.md".
Definition perf_records_art (c : Ctx) := perf_opt_art c "perf_records.jsonl".

Definition exists_file (w : world) (path : string) : bool := bool_decide (is_Some (files w !! path)).

(** [sha256_file]. *)
Definition sha256_file `{Host} (w : world) (path : string) : option string := sha256 <$> files w !! path.

(** The artifacts a stage produces. *)
Definition by_stage (st : state) (c : Ctx) (stage : nat) : list artifact :=
  match stage with
  | 1%nat => [design_art st c]
  | 2%nat => [design_art st c; review_art st c]
  | 3%nat => [kernel_art st c]
  | 4%nat => [kernel_opt_art st c; perf_feedback_art c]
  | _ => []
  end.

Definition snapshot_stage_artifacts `{Host} (w : world) (c : Ctx) (stage : nat) (st : state) : state :=
  set_artifact_hashes
    (foldl (λ hashes a, match nonempty (sha256_file w (art_abs a)) with
                        | Some digest => <[art_rel a := digest]> hashes
                        | None => hashes
                        end) (artifact_hashes st) (by_stage st c stage)) st.

Definition choose_final_artifact (w : world) (c : Ctx) (st : state) : option string :=
  let kernel := kernel_art st c in
  let plain := if exists_file w (art_abs kernel) then Some (art_rel kernel) else None in
  if bool_decide (stage_status st !! 4%nat = Some completed) ||
     bool_decide (scenario (st_info st) = "optimize")
  then
    let opt := kernel_opt_art st c in
    if exists_file w (art_abs opt) then Some (art_rel opt) else plain
  else plain.

(** ** Gates *)

(** [json.load] of a file that has to be an object for [.get]; a file that is
    missing or does not parse gives [None]. *)
Definition load_object (w : world) (path : string) : res (option dict) :=
  match files w !! path with
  | Some (FJson (JObj d)) => Ok (Some d)
  | Some (FJson _) => Raise AttributeError
  | Some (FText _) | None => Ok None
  end.

Definition migration_state_path (dir : string) : string := path_join dir ".migration_state.json".

(** The path of the meta file of gate 0: the argument, or the field of the
    aggregate state. *)
Definition gate0_meta (w : world) (meta_path migration_dir : option string) : res (option string) :=
  match nonempty meta_path, nonempty migration_dir with
  | Some m, _ => Ok (Some m)
  | None, Some dir =>
      d ← load_object w (migration_state_path dir);
      match d ≫= (λ d, d !! "meta_path") with
      | Some (JStr m) => Ok (nonempty (Some m))
      | j => if GateLint.truthy j then Raise TypeError else Ok None
      end
  | None, None => Ok None
  end.

(** The aggregate state gate 5 checks: the one of the directory, or one made
    from the meta file. *)
Definition gate5_state (w : world) (meta_path migration_dir : option string) : res (option dict) :=
  mstate ← match nonempty migration_dir with
           | Some dir =>
               match files w !! migration_state_path dir with
               | Some (FJson (JObj d)) => Ok (Some d)
               | Some (FJson JNull) | Some (FText _) | None => Ok None
               | Some (FJson _) => Raise TypeError
               end
           | None => Ok None
           end;
  match mstate, nonempty meta_path with
  | Some d, _ => Ok (Some d)
  | None, Some meta =>
      m ← load_object w meta;
      match m with
      | None => Ok None
      | Some m =>
          functions ← (if GateLint.truthy (m !! "extracted_functions") then
                         match m !! "extracted_functions" with
                         | Some (JList l) =>
                             mmap (λ j, match j with JStr f => Ok (f, JObj ∅) | _ => Raise TypeError end) l
                         | _ => Raise TypeError
                         end
                       else Ok []);
          Ok (Some (list_to_map [("family", default JNull (m !! "family"));
                                 ("op_slug", default JNull (m !! "op_slug"));
                                 ("functions", JObj (list_to_map (reverse functions)))]))
      end
  | None, None => Ok None
  end.

(** [run_gate]: failures, warnings and input errors. *)
Definition run_gate `{GateLints} (w : world) (c : Ctx) (stage : nat) (st : state)
    (meta_path migration_dir : option string) : res (list string * list string * list string) :=
  let migration := bool_decide (scenario (st_info st) = "migration") in
  let lint (fw : list string * list string) : res (list string * list string * list string) :=
    Ok (fw.1, fw.2, []) in
  match stage with
  | 0%nat =>
      meta ← gate0_meta w meta_path migration_dir;
      match meta with
      | None => Ok ([], [], ["E-GATE-INPUT"])
      | Some m => lint (meta_lint m (files w))
      end
  | 1%nat => lint (design_lint (art_abs (design_art st c)) migration (files w))
  | 2%nat => lint (review_lint (art_abs (review_art st c)) migration (files w))
  | 3%nat => lint (kernel_lint (art_abs (kernel_art st c)) (op_or_default st) (files w))
  | 4%nat => lint (perf_lint (art_abs (kernel_opt_art st c)) (art_abs (opt_log_art c))
                 (art_abs (perf_feedback_art c)) (art_abs (perf_records_art c))
                 (op_or_default st) (files w))
  | 5%nat =>
      mstate ← gate5_state w meta_path migration_dir;
      match mstate with
      | None => Ok ([], [], ["E-GATE-INPUT"])
      | Some d => lint (integration_lint d (files w))
      end
  | _ => Ok ([], [], ["E-GATE-INPUT"])
  end.

(** ** Transitions of the state

    What [start], [complete] and [fail] do to a state they accept, and the code
    they refuse it with. *)

Definition status_of (st : state) (n : nat) : option status_t := stage_status st !! n.
Definition retries (st : state) (n : nat) : Z := default 0 (stage_retry_count st !! n).

(** [sorted(set(plan) | {4})]. *)
Definition extend_plan (plan : list nat) : list nat :=
  merge_sort le (remove_dups (plan ++ [4%nat])).

(** The guard of [start] on the phase and the plan. *)
Definition start_plan (n : nat) (extend : bool) (st : state) : string + state :=
  if is_terminal (phase st) then
    let reopen :=
      extend && bool_decide (phase st = DONE) && bool_decide (failure_reason st = None) &&
      bool_decide (n = 4%nat) && py_in (scenario (st_info st)) ["new_op"; "migration"] &&
      bool_decide (status_of st 3 = Some completed) &&
      py_in (perf_tuning_requested st) [None; Some "yes"] in
    if reopen
    then inr (set_final_artifact None (set_stage_plan (extend_plan (stage_plan st)) st))
    else inl "E-TERMINAL"
  else if bool_decide (n ∉ stage_plan st) then
    if extend && bool_decide (n = 4%nat)
    then inr (set_stage_plan (extend_plan (stage_plan st)) st)
    else inl "E-NOT-IN-PLAN"
  else inr st.

(** [k != n] and in progress, for some [k]. *)
Definition other_in_progress (n : nat) (st : state) : bool :=
  existsb (λ kv, bool_decide (kv.2 = in_progress) && negb (bool_decide (kv.1 = n)))
    (map_to_list (stage_status st)).

(** The one-time re-entry of a completed design after a revision. *)
Definition revision_reentry (n : nat) (st : state) : bool :=
  bool_decide (status_of st n = Some completed) && bool_decide (n = 1%nat) &&
  bool_decide (last_failure_reason st = Some "design_revision") && (retry_count st <? max_retry st).

Definition limit_reached (n : nat) (st : state) : bool :=
  match STAGE_RETRY_LIMITS n with Some limit => limit <=? retries st n | None => false end.

(** The stages of the plan in front of [n]. *)
Fixpoint before_in_plan (n : nat) (plan : list nat) : list nat :=
  match plan with
  | [] => []
  | s :: plan' => if decide (s = n) then [] else s :: before_in_plan n plan'
  end.

Definition is_completed (st : state) (n : nat) : bool := bool_decide (status_of st n = Some completed).

Definition start_stage (n : nat) (extend : bool) (st : state) : string + state :=
  match start_plan n extend st with
  | inl e => inl e
  | inr st =>
      if other_in_progress n st then inl "E-CONCURRENT"
      else
        let reentry := revision_reentry n st in
        let enter := 
          let st := if reentry then set_last_failure_reason None st else st in
          set_current_stage n
            (set_phase (STAGE_PHASE n) (set_stage_status (<[n := in_progress]> (stage_status st)) st)) in
        match status_of st n with
        | Some in_progress => inl "E-ALREADY-STARTED"
        | Some completed => if reentry then inr enter else inl "E-COMPLETED"
        | Some failed => if limit_reached n st then inl "E-RETRY-EXCEEDED" else inr enter
        | None =>
            if forallb (is_completed st) (before_in_plan n (stage_plan st))
            then inr enter else inl "E-OUT-OF-ORDER"
        end
  end.

(** The guard of [complete] in front of its gate. *)
Definition complete_guard (n : nat) (st : state) : option string :=
  if is_terminal (phase st) then Some "E-TERMINAL"
  else match status_of st n with
       | Some in_progress => None
       | Some completed => Some "E-DUPLICATE-COMPLETE"
       | _ => Some "E-NOT-STARTED"
       end.

(** The state after a passed gate; the artifact is chosen when no stage of the
    plan is left. *)
Definition complete_stage (final : state → option string) (n : nat) (st : state) : state :=
  let st := set_stage_status (<[n := completed]> (stage_status st)) st in
  match filter (λ s, is_completed st s = false) (stage_plan st) with
  | [] => let st := set_phase DONE st in set_final_artifact (final st) st
  | next_stage :: _ => set_current_stage next_stage (set_phase (STAGE_PHASE next_stage) st)
  end.

(** [fail --blocked-code]. *)
Definition fail_blocked (code : string) (st : state) : string + state :=
  if py_in code GateLint.BLOCKED_CODES
  then inr (set_last_failure_reason (Some code) (set_failure_reason (Some code) (set_phase FAILED st)))
  else inl "E-BAD-CODE".

(** The guards of [fail] on the status of the stage. *)
Definition fail_guard (n : nat) (revision : bool) (st : state) : option string :=
  if is_terminal (phase st) then Some "E-TERMINAL"
  else if revision then
    match status_of st n with None => Some "E-NOT-STARTED" | Some _ => None end
  else if bool_decide (n = 2%nat) then Some "E-STAGE2-REVISION"
  else match status_of st n with
       | Some completed => Some "E-COMPLETED-FAIL"
       | Some in_progress | Some failed => None
       | None => Some "E-NOT-STARTED"
       end.

(** A design revision: the stages after the design are forgotten. *)
Definition fail_revision (n : nat) (st : state) : state :=
  let st := set_stage_status (<[n := failed]> (stage_status st)) st in
  let st := set_retry_count (retry_count st + 1) st in
  let st := set_last_failure_reason (Some "design_revision") st in
  let st := foldl (λ st s,
      if bool_decide (1 < s)%nat
      then set_stage_retry_count (<[s := 0]> (stage_retry_count st))
             (set_stage_status (delete s (stage_status st)) st)
      else st) st (stage_plan st) in
  if max_retry st <=? retry_count st
  then set_failure_reason (Some "BLOCKED_DESIGN") (set_phase FAILED st)
  else st.

Inductive fail_type_t := runtime | precision.

(** An ordinary failure: count it, and stop at the limit of the stage. *)
Definition fail_stage (final : state → option string) (n : nat) (fail_type : fail_type_t) (st : state) :
    res state :=
  let st := set_stage_retry_count (<[n := retries st n + 1]> (stage_retry_count st)) st in
  let st := set_stage_status (<[n := failed]> (stage_status st)) st in
  let st := if bool_decide (n = 3%nat) then
              match fail_type with
              | runtime => set_runtime_fail (runtime_fail st + 1) st
              | precision => set_precision_fail (precision_fail st + 1) st
              end
            else st in
  if limit_reached n st then
    if bool_decide (n = 4%nat) then
      let st := set_phase DONE st in Ok (set_final_artifact (final st) st)
    else
      reason ← (if bool_decide (n = 3%nat) then
                  Ok (match fail_type with precision => "BLOCKED_ACCURACY" | runtime => "BLOCKED_IMPL" end)
                else BLOCKED_BY_STAGE n);
      Ok (set_failure_reason (Some reason) (set_phase FAILED st))
  else Ok st.

(** ** Commands *)

Definition scenario_stage_plan (scenario : string) (migration_mode : option string) :
    list string * list nat :=
  let mode := nonempty migration_mode in
  if decide (scenario = "optimize") then
    (match mode with Some _ => ["E-SCENARIO"] | None => [] end, [4%nat])
  else if decide (scenario = "migration") then
    if decide (migration_mode = Some "harness") then ([], [1; 2; 3]%nat)
    else if decide (migration_mode = Some "plain") then ([], [1; 2; 3]%nat)
    else (["E-SCENARIO"], [])
  else if decide (scenario = "new_op") then
    (match mode with Some _ => ["E-SCENARIO"] | None => [] end, [1; 2; 3]%nat)
  else (["E-SCENARIO"], []).

(** The arguments of [init]; [a_stage_plan] holds the pieces of [--stage-plan]
    as [int] reads them. *)
Record init_args := InitArgs {
  a_project : string;
  a_op : string;
  a_scenario : string;
  a_migration_mode : option string;
  a_requirement : option string;
  a_max_retry : Z;
  a_stage_plan : option (list (option Z));
  a_design_path : option string;
  a_kernel_path : option string;
}.

(** The plan of [--stage-plan], when every piece is a stage. *)
Definition explicit_plan (pieces : list (option Z)) : option (list nat) :=
  plan ← mapM id pieces;
  if bool_decide (plan ≠ []) && forallb (λ s, (0 <=? s) && (s <=? 5)) plan
  then Some (Z.to_nat <$> plan) else None.

(** [re.sub(r"[-:]", "", ts)]. *)
Fixpoint compact_ts (ts : string) : string :=
  match ts with
  | EmptyString => EmptyString
  | String ch ts' =>
      if Ascii.eqb ch "-" || Ascii.eqb ch ":" then compact_ts ts' else String ch (compact_ts ts')
  end.

Definition init_plan (a : init_args) : list string * list nat :=
  let '(errors, plan) := scenario_stage_plan (a_scenario a) (a_migration_mode a) in
  match a_stage_plan a with
  | None => (errors, plan)
  | Some pieces =>
      match explicit_plan pieces with
      | Some plan => (errors, plan)
      | None => (errors ++ ["E-SCENARIO"], plan)
      end
  end.

Definition initial_state (c : Ctx) (now : string) (a : init_args) (plan : list nat) (first : nat) : state :=
  let op := a_op a in
  let path (p : option string) (d : string) :=
    Some (match nonempty p with Some s => s | None => base c +:+ "/" +:+ d end) in
  State
    (Info (a_project a +:+ "-" +:+ op +:+ "-" +:+ compact_ts now) (a_project a) op (a_scenario a)
       (a_migration_mode a) (a_requirement a)
       (path (a_design_path a) "DESIGN.md") (path None "REVIEW.md")
       (path (a_kernel_path a) (op +:+ ".py")) (path None ("perf_opt/" +:+ op +:+ ".py"))
       GateLint.perf_iteration_default false None GateLint.budget_default)
    plan (STAGE_PHASE first) first 0 (a_max_retry a) None ∅
    (list_to_map ((λ k, (k, 0)) <$> seq 0 6)) 0 0 None None None ∅ now.

(** Numbers of a JSON value compared with an int, exactly as Python does. *)
Definition sf_le_Z (f : spec_float) (z : Z) : bool :=
  match f with
  | S754_zero _ => 0 <=? z
  | S754_infinity s => s
  | S754_nan => false
  | S754_finite s m e =>
      let v := if s then Z.neg m else Z.pos m in
      if 0 <=? e then v * 2 ^ e <=? z else v <=? z * 2 ^ (- e)
  end.
Definition num_le (j : json) (z : Z) : res bool :=
  match j with
  | JInt v => Ok (v <=? z)
  | JBool b => Ok ((if b then 1 else 0) <=? z)
  | JFloat f => Ok (sf_le_Z f z)
  | _ => Raise TypeError
  end.

Section commands.
Context `{Host, GateLints} (c : Ctx).

Definition cmd_init (now : string) (a : init_args) : prog world reply :=
  w ← get;
  if exists_file w (state_path c) then mret (refuse "E-EXISTS")
  else
    match init_plan a with
    | ([], first :: rest) =>
        let plan := first :: rest in
        let st := initial_state c now a plan first in
        write c now st;;
        log now (Some st) "init" None None None (Some (phase st))
          [("scenario", JStr (a_scenario a)); ("migration_mode", j_ostr (a_migration_mode a));
           ("stage_plan", JList ((λ n, JInt (Z.of_nat n)) <$> plan))];;
        mret ok
    | ([], []) => raise IndexError
    | (errors, _) => mret (Reply 1 errors [])
    end.

(** One dimension of [budget_watermark]: no limit, nothing to compare, or the
    dimension when the limit is reached. *)
Definition budget_dim (b : dict) (k : string) (used : option Z) : res (list string) :=
  match b !! k, used with
  | Some JNull, _ | None, _ | _, None => Ok []
  | Some j, Some z => x ← num_le j z; Ok (if x : bool then [k] else [])
  end.

(** [budget_watermark]: the dimensions of the budget the next dispatch exceeds. *)
Definition budget_exceeded (w : world) (st : state) (ts : string) : res (list string) :=
  let b := budget (st_info st) in
  let events := read_timeline_events w in
  let wallclock :=
    first_ts ← head (omap (λ ev, nonempty (Some (ev_ts ev))) events);
    a ← parse_ts first_ts; b ← parse_ts ts; Some (b - a) in
  d1 ← budget_dim b "max_subagent_dispatches" (Some (len (filter (λ ev, ev_action ev = "start") events)));
  d2 ← budget_dim b "max_wallclock_s" wallclock;
  Ok (d1 ++ d2).

(** Run [f] on the loaded state, or report why there is none. *)
Definition with_state (f : state → prog world reply) : prog world reply :=
  l ← load c;
  match l with inl e => mret (refuse e) | inr st => f st end.

Definition cmd_start (now : string) (n : nat) (extend : bool) : prog world reply :=
  with_state (λ st,
    match start_stage n extend st with
    | inl e => mret (refuse e)
    | inr st' =>
        write c now st';;
        w ← get;
        exceeded ← lift (budget_exceeded w st' now);
        log now (Some st') "start" (Some n) None (Some (phase st)) (Some (phase st'))
          (if bool_decide (exceeded = []) then [] else [("budget_exceeded", JList (JStr <$> exceeded))]);;
        mret ok
    end).

Definition cmd_complete (now : string) (n : nat) (meta migration_dir : option string) : prog world reply :=
  with_state (λ st,
    match complete_guard n st with
    | Some e => mret (refuse e)
    | None =>
        w ← get;
        '(failures, warns, gate_errors) ← lift (run_gate w c n st meta migration_dir);
        if bool_decide (gate_errors = []) && bool_decide (failures = []) then
          let st' := snapshot_stage_artifacts w c n (complete_stage (choose_final_artifact w c) n st) in
          write c now st';;
          log now (Some st') "complete" (Some n) (Some "pass") (Some (phase st)) (Some (phase st'))
            [("snapshot", JList (JStr <$> merge_sort String.le (map_to_list (artifact_hashes st')).*1))];;
          mret (Reply 0 [] warns)
        else mret (Reply 1 (gate_errors ++ failures) warns)
    end).

Definition fail_type_str (t : fail_type_t) : string :=
  match t with runtime => "runtime" | precision => "precision" end.

(** [args.reason or args.fail_type]. *)
Definition fail_label (reason : option string) (t : fail_type_t) : string :=
  match nonempty reason with Some r => r | None => fail_type_str t end.

Definition cmd_fail (now : string) (n : nat) (reason : option string) (fail_type : fail_type_t)
    (blocked_code : option string) : prog world reply :=
  with_state (λ st,
    match nonempty blocked_code with
    | Some code =>
        match fail_blocked code st with
        | inl e => mret (refuse e)
        | inr st' =>
            write c now st';;
            log now (Some st') "fail" (Some n) (Some code) (Some (phase st)) (Some FAILED)
              [("reason", JStr code)];;
            mret ok
        end
    | None =>
        let revision := bool_decide (reason = Some "design_revision") in
        match fail_guard n revision st with
        | Some e => mret (refuse e)
        | None =>
            if revision then
              let st' := fail_revision n st in
              write c now st';;
              log now (Some st') "fail" (Some n) (Some "design_revision") (Some (phase st)) (Some (phase st'))
                [("reason", JStr "design_revision"); ("retry_count", JInt (retry_count st'))];;
              mret ok
            else
              w ← get;
              st' ← lift (fail_stage (choose_final_artifact w c) n fail_type st);
              write c now st';;
              log now (Some st') "fail" (Some n) (Some (fail_label reason fail_type))
                (Some (phase st)) (Some (phase st'))
                [("reason", JStr (fail_label reason fail_type));
                 ("stage_retry_count", JInt (retries st' n))];;
              mret ok
        end
    end).

(** The back-filled empty object. *)
Definition blank_state : state :=
  State
    (Info "" "" "" "new_op" None None None None None None GateLint.perf_iteration_default false None
       GateLint.budget_default)
    [1; 2; 3]%nat INIT 0 0 3 None ∅ (list_to_map ((λ k, (k, 0)) <$> seq 0 6)) 0 0 None None None ∅ "".

(** [gate]: the gate alone; stages 0 and 5 do without a state file. *)
Definition cmd_gate (n : nat) (meta migration_dir : option string) : prog world reply :=
  let run st :=
    w ← get;
    '(failures, warns, gate_errors) ← lift (run_gate w c n st meta migration_dir);
    if bool_decide (gate_errors = [])
    then mret (Reply (if bool_decide (failures = []) then 0 else 1) failures warns)
    else mret (Reply 1 (gate_errors ++ failures) warns) in
  w ← get;
  if (bool_decide (n = 0%nat) || bool_decide (n = 5%nat)) && negb (exists_file w (state_path c))
  then run blank_state else with_state run.

Definition cmd_snapshot (now : string) : prog world reply :=
  with_state (λ st,
    w ← get;
    let st' := foldl (λ st stage, snapshot_stage_artifacts w c stage st) st [1; 2; 3; 4]%nat in
    write c now st';;
    log now (Some st') "snapshot" None None None (Some (phase st')) [];;
    mret ok).

Definition cmd_show : prog world (string + state) := load c.

(** [verify]: the failures of the schema, the artifacts that are missing or
    differ from their snapshot, and the completed stages without artifact. *)
Record verify_report := VerifyReport {
  schema_failures : list GateLint.finding;
  drift : list string;
  consistency : list nat;
}.

Definition drifted (w : world) (st : state) : list string :=
  omap (λ p : string * string,
          if bool_decide (sha256_file w (path_join (repo_root c) p.1) = Some p.2) then None else Some p.1)
    (map_to_list (artifact_hashes st)).

Definition inconsistent (w : world) (st : state) : list nat :=
  omap (λ p : nat * artifact,
          if is_completed st p.1 && negb (exists_file w (art_abs p.2)) then Some p.1 else None)
    [(1%nat, design_art st c); (2%nat, review_art st c); (3%nat, kernel_art st c);
     (4%nat, kernel_opt_art st c)].

Definition cmd_verify (now : string) : prog world (string + verify_report) :=
  w ← get;
  match files w !! state_path c with
  | None => mret (inl "E-MISSING")
  | Some (FJson (JObj d)) =>
      '(problems, _) ← lift (GateLint.state_schema_lint d);
      st ← lift (or_raise TypeError (decode_state (GateLint.state_backfill d)));
      let r := VerifyReport problems (drifted w st) (inconsistent w st) in
      (if bool_decide (drift r = []) && bool_decide (consistency r = []) &&
          match problems with [] => true | _ => false end
       then log now (Some st) "verify" None (Some "ok") None (Some (phase st)) []
       else mret tt);;
      mret (inr r)
  | Some _ => mret (inl "E-PARSE")
  end.

(** [repair]: the fields back-filling adds, written with [--apply], and the
    artifacts that differ from their snapshot. *)
Definition repair_fixes (d : dict) : list string :=
  merge_sort String.le
    (filter (λ k, d !! k = None) (map_to_list (GateLint.state_backfill d)).*1).

Definition cmd_repair (now : string) (apply : bool) : prog world (string + list string * list string) :=
  w ← get;
  match files w !! state_path c with
  | None => mret (inl "E-MISSING")
  | Some (FJson (JObj d)) =>
      let state := GateLint.state_backfill d in
      _ ← lift (GateLint.state_schema_lint state);
      st ← lift (or_raise TypeError (decode_state state));
      let changed := filter (λ rel, sha256_file w (path_join (repo_root c) rel) ≠ None) (drifted w st) in
      let fixes := repair_fixes d in
      (if bool_decide (fixes ≠ []) && apply
       then
         modify (λ w, World (<[state_path c := FJson (JObj (<["last_updated" := JStr now]> state))]> (files w))
                        (timeline w));;
         log now (Some st) "repair" None None None (Some (phase st)) [("applied", JList (JStr <$> fixes))]
       else mret tt);;
      mret (inr (fixes, changed))
  | Some _ => mret (inl "E-PARSE")
  end.

(** The arguments of [set]; [s_budget_json] is the parsed text, [None] inside
    when it does not parse. *)
Record set_args := SetArgs {
  s_perf_tuning : option string;
  s_final_artifact : option string;
  s_requirement : option string;
  s_env_check : option string;
  s_perf_feedback_action : option string;
  s_perf_iteration_count : option Z;
  s_perf_iteration_last_improvement : option spec_float;
  s_perf_iteration_no_improve : option Z;
  s_budget_json : option (option json);
}.

(** [val <= 0], a bool or no number: what a budget refuses. *)
Definition bad_budget (j : json) : bool :=
  match j with
  | JNull => false
  | JInt z => z <=? 0
  | JFloat f => sf_le_Z f 0
  | _ => true
  end.

Definition budget_fields : list string :=
  ["max_wallclock_s"; "max_subagent_dispatches"; "max_stage4_experiments"].

(** The errors of [--budget-json] and the merged budget. *)
Definition set_budget (old : dict) (parsed : option json) : list string * dict :=
  match parsed with
  | Some (JObj b) =>
      if bool_decide (filter (λ k, k ∉ budget_fields) (map_to_list b).*1 = []) then
        let errs := omap (λ kv, if bad_budget kv.2 then Some "E-VALUE" else None) (map_to_list b) in
        (errs, if bool_decide (errs = []) then b ∪ old else old)
      else (["E-VALUE"], old)
  | Some JNull => ([], old)
  | _ => (["E-VALUE"], old)
  end.

(** The errors of the iteration counters and the new object. *)
Definition set_perf_iteration (a : set_args) (old : dict) : list string * dict :=
  let bad o := match o with Some z => z <? 0 | None => false end in
  let errs := (if bad (s_perf_iteration_count a) then ["E-VALUE"] else []) ++
              (if bad (s_perf_iteration_no_improve a) then ["E-VALUE"] else []) in
  let put k (o : option json) (d : dict) := match o with Some j => <[k := j]> d | None => d end in
  (errs, if bool_decide (errs = []) then
           put "count" (JInt <$> s_perf_iteration_count a)
             (put "last_improvement" (JFloat <$> s_perf_iteration_last_improvement a)
               (put "consecutive_no_improvement" (JInt <$> s_perf_iteration_no_improve a) old))
         else old).

(** The fields of [info] that [set] assigns. *)
Definition set_info (i : info) (requirement : option string) (env : bool) (iter : dict)
    (feedback : option (string * string)) (b : dict) : info :=
  Info (task_id i) (project_name i) (operator_name i) (scenario i) (migration_mode i) requirement
    (design_md_path i) (review_md_path i) (kernel_py_path i) (kernel_opt_py_path i) iter env feedback b.

Definition set_state (w : world) (a : set_args) (st : state) : list string * state :=
  let i := st_info st in
  let '(e1, tuning) := match s_perf_tuning a with
    | Some v => if py_in v ["yes"; "no"] then ([], Some v) else (["E-VALUE"], perf_tuning_requested st)
    | None => ([], perf_tuning_requested st)
    end in
  let final := match s_final_artifact a with Some v => Some v | None => final_artifact st end in
  let requirement := match s_requirement a with Some v => Some v | None => user_requirement i end in
  let '(e2, env) := match s_env_check a with
    | Some v => if py_in v ["true"; "false"] then ([], bool_decide (v = "true"))
                else (["E-VALUE"], env_check_passed i)
    | None => ([], env_check_passed i)
    end in
  let '(e3, feedback) := match s_perf_feedback_action a with
    | Some v => if exists_file w (art_abs (perf_feedback_art c))
                then ([], Some (art_rel (perf_feedback_art c), v)) else (["E-MISSING"], perf_feedback i)
    | None => ([], perf_feedback i)
    end in
  let '(e4, iter) := set_perf_iteration a (perf_iteration i) in
  let '(e5, b) := match s_budget_json a with
    | Some parsed => set_budget (budget i) parsed
    | None => ([], budget i)
    end in
  (e1 ++ e2 ++ e3 ++ e4 ++ e5,
   set_st_info (set_info i requirement env iter feedback b)
     (set_final_artifact final (set_perf_tuning_requested tuning st))).

Definition cmd_set (now : string) (a : set_args) : prog world reply :=
  with_state (λ st,
    w ← get;
    match set_state w a st with
    | ([], st') =>
        write c now st';;
        log now (Some st') "set" None None None (Some (phase st'))
          (match perf_feedback (st_info st') with
           | Some (_, act) => [("perf_feedback_action", JStr act)] | None => [] end);;
        mret ok
    | (errors, _) => mret (Reply 1 errors [])
    end).

End commands.

(** ** The summary of the event log *)

Record stage_row := StageRow {
  row_subagent : option string;
  attempts : Z;
  row_completed : Z;
  row_failed : Z;
  durations_s : list Z;
}.

Record failure_row := FailureRow {
  fail_stage_no : nat;
  fail_subagent : option string;
  fail_verdict : option string;
  fail_ts : string;
  fail_duration_s : option Z;
}.

(** [ev.get(k)] of a field the event was logged with. *)
Fixpoint extra_str (k : string) (l : list (string * json)) : option string :=
  match l with
  | [] => None
  | (k', j) :: l' => if decide (k = k') then match j with JStr s => Some s | _ => None end else extra_str k l'
  end.

(** The variables of the loop of [timeline-summary]. *)
Record summary_acc := SummaryAcc {
  action_counts : gmap string Z;
  stage_rows : gmap nat stage_row;
  failures : list failure_row;
  ts_list : list string;
  mode : option string;
}.

(** [ev.get("action") or "?"]. *)
Definition action_of (ev : event) : string :=
  match nonempty (Some (ev_action ev)) with Some a => a | None => "?" end.

(** [stages.setdefault(stage, ...)]. *)
Definition row_of (stages : gmap nat stage_row) (n : nat) (ev : event) : stage_row :=
  default (StageRow (match nonempty (ev_subagent ev) with Some s => Some s | None => STAGE_SUBAGENT n end) 0 0 0 [])
    (stages !! n).

(** The row of a stage after one of its events. *)
Definition row_step (rec : stage_row) (ev : event) : stage_row :=
  let durations := durations_s rec ++ option_list (ev_duration_s ev) in
  if decide (action_of ev = "start") then
    StageRow (row_subagent rec) (attempts rec + 1) (row_completed rec) (row_failed rec) (durations_s rec)
  else if decide (action_of ev = "complete") then
    StageRow (row_subagent rec) (attempts rec) (row_completed rec + 1) (row_failed rec) durations
  else if decide (action_of ev = "fail") then
    StageRow (row_subagent rec) (attempts rec) (row_completed rec) (row_failed rec + 1) durations
  else rec.

Definition failure_of (n : nat) (rec : stage_row) (ev : event) : failure_row :=
  FailureRow n (row_subagent rec)
    (match nonempty (ev_verdict ev) with Some v => Some v | None => extra_str "reason" (ev_extra ev) end)
    (ev_ts ev) (ev_duration_s ev).

(** One event of the loop. *)
Definition summary_step (acc : summary_acc) (ev : event) : summary_acc :=
  let action := action_of ev in
  let counts := <[action := default 0 (action_counts acc !! action) + 1]> (action_counts acc) in
  let tss := ts_list acc ++ option_list (nonempty (Some (ev_ts ev))) in
  let md := match nonempty (mode acc) with
            | Some m => Some m
            | None => match nonempty (ev_mode ev) with Some m => Some m | None => mode acc end
            end in
  match ev_stage ev with
  | None => SummaryAcc counts (stage_rows acc) (failures acc) tss md
  | Some n =>
      let rec := row_of (stage_rows acc) n ev in
      SummaryAcc counts (<[n := row_step rec ev]> (stage_rows acc))
        (if decide (action = "fail") then failures acc ++ [failure_of n rec ev] else failures acc) tss md
  end.

Record summary := Summary {
  events_total : Z;
  sum_mode : option string;
  first_ts : option string;
  last_ts : option string;
  elapsed_s : option Z;
  dispatches : Z;
  sum_action_counts : gmap string Z;
  sum_stages : gmap nat (stage_row * option Z);
  sum_failures : list failure_row;
}.

(** [sum(durations) if durations else None]. *)
Definition duration_s_total (durations : list Z) : option Z :=
  match durations with [] => None | _ => Some (foldr Z.add 0 durations) end.

(** [log_exists] is [os.path.exists] of the log, which may be there and empty. *)
Definition cmd_timeline_summary `{Host} (log_exists : bool) (w : world) : string + summary :=
  if negb log_exists then inl "E-MISSING"
  else
    let events := read_timeline_events w in
    let acc := foldl summary_step (SummaryAcc ∅ ∅ [] [] None) events in
    let first := head (ts_list acc) in
    let last := last (ts_list acc) in
    inr (Summary (len events) (mode acc) first last
           (a ← first ≫= parse_ts; b ← last ≫= parse_ts; Some (b - a))
           (default 0 (action_counts acc !! "start")) (action_counts acc)
           ((λ row, (row, duration_s_total (durations_s row))) <$> stage_rows acc)
           (failures acc)).
