(* ===== verification/StatectlInv.v ===== *)
(** * Invariants, termination and liveness of the workflow

    The commands of [Statectl] as a transition relation on states: an invariant
    of every reachable state, a bound on the number of accepted commands, and
    that a workflow that is not over can always be finished. *)
From stdpp Require Import base strings gmap numbers sorting relations list.
From S2P Require Import Prelude StateSchema Statectl.

(** ** The transition relation *)

(** One accepted [start], [complete] or [fail]; [final] stands for the choice of
    the delivered artifact, which no guard reads. *)
Inductive step : state → state → Prop :=
  | step_start n extend st st' :
      (n < 6)%nat → start_stage n extend st = inr st' → step st st'
  | step_complete n final st :
      (n < 6)%nat → complete_guard n st = None → step st (complete_stage final n st)
  | step_revision n st :
      (n < 6)%nat → fail_guard n true st = None → step st (fail_revision n st)
  | step_fail n final ft st st' :
      (n < 6)%nat → fail_guard n false st = None → fail_stage final n ft st = Ok st' → step st st'
  | step_blocked code st st' :
      fail_blocked code st = inr st' → step st st'.

(** Two states that agree on what the guards read: [set], [snapshot] and the
    time of the last update move within a class. *)
Definition control (st : state) :=
  (stage_plan st, phase st, (retry_count st, max_retry st), stage_status st, stage_retry_count st,
   (failure_reason st, last_failure_reason st),
   (scenario (st_info st), migration_mode (st_info st))).

(** ** The invariant *)

Record inv (st : state) : Prop := {
  inv_keyed : well_keyed st;
  inv_typed : well_typed st;
  inv_stages : Forall (λ n, (n < 6)%nat) (stage_plan st);
  inv_planned : ∀ n, is_Some (status_of st n) → n ∈ stage_plan st;
  inv_one : ∀ a b, status_of st a = Some in_progress → status_of st b = Some in_progress → a = b;
  inv_phase : ∀ n, status_of st n = Some in_progress →
    is_terminal (phase st) = true ∨ phase st = STAGE_PHASE n;
  inv_counts : ∀ n l, STAGE_RETRY_LIMITS n = Some l → 0 ≤ retries st n ≤ l;
  inv_limit : ∀ n l, STAGE_RETRY_LIMITS n = Some l → retries st n = l →
    phase st = FAILED ∨ n = 4%nat ∧ phase st = DONE ∧ status_of st n = Some failed;
  inv_failed : phase st = FAILED ↔ is_Some (failure_reason st);
  inv_retry : 0 ≤ retry_count st ≤ Z.max 1 (max_retry st) ∧
    (phase st ≠ FAILED → retry_count st < Z.max 1 (max_retry st));
  inv_left : is_terminal (phase st) = false → ∃ s, s ∈ stage_plan st ∧ status_of st s ≠ Some completed;
  inv_done : phase st = DONE →
    (∀ s, s ∈ stage_plan st → status_of st s = Some completed) ∨ retries st 4 = 10;
}.

Lemma STAGE_PHASE_not_terminal n : is_terminal (STAGE_PHASE n) = false.
Proof. by do 6 (destruct n as [|n]; [done|]). Qed.

Lemma elem_of_extend_plan n plan : n ∈ extend_plan plan ↔ n ∈ plan ∨ n = 4%nat.
Proof.
  unfold extend_plan. rewrite merge_sort_Permutation, elem_of_remove_dups, elem_of_app, list_elem_of_singleton.
  done.
Qed.

Lemma start_plan_spec n ext st st1 :
  start_plan n ext st = inr st1 →
  stage_status st1 = stage_status st ∧ stage_retry_count st1 = stage_retry_count st ∧
  failure_reason st1 = failure_reason st ∧ retry_count st1 = retry_count st ∧ max_retry st1 = max_retry st ∧
  st_info st1 = st_info st ∧ last_failure_reason st1 = last_failure_reason st ∧
  n ∈ stage_plan st1 ∧ (∀ m, m ∈ stage_plan st → m ∈ stage_plan st1) ∧
  (∀ m, m ∈ stage_plan st1 → m ∈ stage_plan st ∨ m = 4%nat) ∧
  (phase st = DONE ∧ failure_reason st = None ∧ n = 4%nat ∨ is_terminal (phase st) = false).
Proof.
  unfold start_plan. destruct (is_terminal (phase st)) eqn:Ht.
  - repeat case_bool_decide; rewrite ?andb_false_r; simpl; try done. case_match eqn:Hr; [|done].
    intros [= <-]. simpl. setoid_rewrite elem_of_extend_plan. naive_solver.
  - case_bool_decide as Hn; [|intros [= ->]; split_and!; auto; by apply dec_stable].
    case_match eqn:Hr; [|done]. apply andb_prop in Hr as [_ ->%bool_decide_eq_true].
    intros [= <-]. simpl. setoid_rewrite elem_of_extend_plan. naive_solver.
Qed.

Lemma other_in_progress_false n st :
  other_in_progress n st = false → ∀ m, status_of st m = Some in_progress → m = n.
Proof.
  unfold other_in_progress. intros Ho m Hm. apply dec_stable. intros Hne.
  apply not_true_iff_false in Ho. apply Ho, existsb_exists. exists (m, in_progress).
  split; [by apply list_elem_of_In, elem_of_map_to_list|].
  apply andb_true_intro. split; [done|]. apply negb_true_iff. by apply bool_decide_false.
Qed.

(** What an accepted [start] did. *)
Lemma start_stage_spec n ext st st' :
  start_stage n ext st = inr st' →
  let reentry := revision_reentry n st in
  stage_status st' = <[n := in_progress]> (stage_status st) ∧
  stage_retry_count st' = stage_retry_count st ∧ phase st' = STAGE_PHASE n ∧
  failure_reason st' = failure_reason st ∧ retry_count st' = retry_count st ∧ max_retry st' = max_retry st ∧
  st_info st' = st_info st ∧
  last_failure_reason st' = (if reentry then None else last_failure_reason st) ∧
  n ∈ stage_plan st' ∧ (∀ m, m ∈ stage_plan st → m ∈ stage_plan st') ∧
  (∀ m, m ∈ stage_plan st' → m ∈ stage_plan st ∨ m = 4%nat) ∧
  (∀ m, status_of st m = Some in_progress → m = n) ∧
  (phase st = DONE ∧ failure_reason st = None ∧ n = 4%nat ∨ is_terminal (phase st) = false) ∧
  match status_of st n with
  | Some in_progress => False
  | Some completed => reentry = true
  | Some failed => limit_reached n st = false
  | None => ∀ s, s ∈ before_in_plan n (stage_plan st') → status_of st s = Some completed
  end.
Proof.
  unfold start_stage. intros Hs. destruct (start_plan n ext st) as [|st1] eqn:Hp; [done|].
  apply start_plan_spec in Hp as (E1 & E2 & E3 & E4 & E5 & E6 & E7 & Hn & Hi & Hi' & Ht).
  destruct (other_in_progress n st1) eqn:Ho; [done|].
  assert (revision_reentry n st1 = revision_reentry n st) as Er.
  { unfold revision_reentry, status_of. by rewrite E1, E4, E5, E7. }
  assert (limit_reached n st1 = limit_reached n st) as El.
  { unfold limit_reached, retries. by rewrite E2. }
  assert (∀ m, status_of st1 m = status_of st m) as Es by (intros; unfold status_of; by rewrite E1).
  pose proof (other_in_progress_false n st1 Ho) as Hop. setoid_rewrite Es in Hop.
  assert (st' = (let st2 := if revision_reentry n st then set_last_failure_reason None st1 else st1 in
    set_current_stage n (set_phase (STAGE_PHASE n) (set_stage_status (<[n := in_progress]> (stage_status st2)) st2))) ∧
    match status_of st n with
    | Some in_progress => False
    | Some completed => revision_reentry n st = true
    | Some failed => limit_reached n st = false
    | None => ∀ s, s ∈ before_in_plan n (stage_plan st1) → status_of st s = Some completed
    end) as [-> Hst].
  { rewrite Er, El, Es in Hs. destruct (status_of st n) as [[]|] eqn:Hsn; [done|..].
    - destruct (revision_reentry n st); by simplify_eq.
    - destruct (limit_reached n st); by simplify_eq.
    - case_match eqn:Hf; [|done]. rewrite forallb_forall in Hf. simplify_eq. split; [done|].
      intros s Hs%list_elem_of_In%Hf. unfold is_completed in Hs. rewrite Es in Hs.
      by apply bool_decide_eq_true in Hs. }
  destruct (revision_reentry n st); simpl; rewrite ?E1, ?E2, ?E3, ?E4, ?E5, ?E6, ?E7; split_and!; auto.
Qed.

(** The stages a revision forgets. *)
Lemma revision_reset plan st :
  ∃ S R,
    foldl (λ st s,
      if bool_decide (1 < s)%nat
      then set_stage_retry_count (<[s := 0]> (stage_retry_count st))
             (set_stage_status (delete s (stage_status st)) st)
      else st) st plan = set_stage_retry_count R (set_stage_status S st) ∧
    (∀ k, S !! k = if decide ((1 < k)%nat ∧ k ∈ plan) then None else stage_status st !! k) ∧
    (∀ k, R !! k = if decide ((1 < k)%nat ∧ k ∈ plan) then Some 0 else stage_retry_count st !! k).
Proof.
  revert st. induction plan as [|s plan IH]; intros st; simpl.
  - exists (stage_status st), (stage_retry_count st). split; [by destruct st|].
    split; intros k; (rewrite decide_False; [done|]); intros [_ []%elem_of_nil].
  - case_bool_decide as Hs.
    + destruct (IH (set_stage_retry_count (<[s := 0]> (stage_retry_count st))
        (set_stage_status (delete s (stage_status st)) st))) as (S & R & -> & HS & HR).
      exists S, R. split; [done|]. simpl in HS, HR.
      split; intros k; rewrite ?HS, ?HR; (destruct (decide (k = s)) as [->|Hk];
        [rewrite ?lookup_delete_eq, ?lookup_insert_eq|
         rewrite ?lookup_delete_ne, ?lookup_insert_ne by done]; repeat case_decide; set_solver).
    + destruct (IH st) as (S & R & -> & HS & HR). exists S, R. split; [done|].
      split; intros k; rewrite ?HS, ?HR; repeat case_decide; set_solver.
Qed.

(** What an accepted design revision did. *)
Lemma fail_revision_spec n st :
  ∃ S R, let st' := fail_revision n st in
    stage_status st' = S ∧ stage_retry_count st' = R ∧
    (∀ k, S !! k = if decide ((1 < k)%nat ∧ k ∈ stage_plan st) then None
                   else <[n := failed]> (stage_status st) !! k) ∧
    (∀ k, R !! k = if decide ((1 < k)%nat ∧ k ∈ stage_plan st) then Some 0
                   else stage_retry_count st !! k) ∧
    stage_plan st' = stage_plan st ∧ retry_count st' = retry_count st + 1 ∧ max_retry st' = max_retry st ∧
    st_info st' = st_info st ∧ last_failure_reason st' = Some "design_revision" ∧
    (if max_retry st <=? retry_count st + 1
     then phase st' = FAILED ∧ failure_reason st' = Some "BLOCKED_DESIGN"
     else phase st' = phase st ∧ failure_reason st' = failure_reason st).
Proof.
  unfold fail_revision. cbv zeta.
  match goal with |- context [foldl ?f ?s (stage_plan ?s)] =>
    destruct (revision_reset (stage_plan s) s) as (S & R & E & HS & HR); rewrite E; clear E end.
  exists S, R. simpl in *. by destruct (max_retry st <=? retry_count st + 1).
Qed.

(** What an accepted [complete] did. *)
Lemma complete_stage_spec final n st :
  let st' := complete_stage final n st in
  stage_status st' = <[n := completed]> (stage_status st) ∧ stage_retry_count st' = stage_retry_count st ∧
  stage_plan st' = stage_plan st ∧ retry_count st' = retry_count st ∧ max_retry st' = max_retry st ∧
  st_info st' = st_info st ∧ last_failure_reason st' = last_failure_reason st ∧
  failure_reason st' = failure_reason st ∧
  ((phase st' = DONE ∧ ∀ s, s ∈ stage_plan st → status_of st' s = Some completed) ∨
   ∃ s, s ∈ stage_plan st ∧ status_of st' s ≠ Some completed ∧ phase st' = STAGE_PHASE s).
Proof.
  unfold complete_stage. cbv zeta. set (st1 := set_stage_status _ st).
  destruct (filter _ (stage_plan st1)) as [|s l] eqn:Hf; simpl; split_and!; try done.
  - left. split; [done|]. intros s Hs. change (status_of st1 s = Some completed).
    destruct (is_completed st1 s) eqn:Hc; [by apply bool_decide_eq_true in Hc|].
    assert (s ∈ filter (λ s, is_completed st1 s = false) (stage_plan st1)) as Hin
      by (by apply list_elem_of_filter).
    rewrite Hf in Hin. by apply elem_of_nil in Hin.
  - right. exists s. assert (s ∈ s :: l) as Hin by left.
    rewrite <- Hf in Hin. apply list_elem_of_filter in Hin as [Hc Hin].
    split; [done|]. split; [|done]. by apply bool_decide_eq_false in Hc.
Qed.

(** What an accepted ordinary failure did. *)
Lemma fail_stage_spec final n ft st st' :
  fail_stage final n ft st = Ok st' →
  stage_status st' = <[n := failed]> (stage_status st) ∧
  stage_retry_count st' = <[n := retries st n + 1]> (stage_retry_count st) ∧
  stage_plan st' = stage_plan st ∧ retry_count st' = retry_count st ∧ max_retry st' = max_retry st ∧
  st_info st' = st_info st ∧ last_failure_reason st' = last_failure_reason st ∧
  match STAGE_RETRY_LIMITS n with
  | Some l =>
      if l <=? retries st n + 1 then
        if decide (n = 4%nat) then phase st' = DONE ∧ failure_reason st' = failure_reason st
        else phase st' = FAILED ∧ ∃ r, failure_reason st' = Some r ∧ r ∈ GateLint.BLOCKED_CODES
      else phase st' = phase st ∧ failure_reason st' = failure_reason st
  | None => phase st' = phase st ∧ failure_reason st' = failure_reason st
  end.
Proof.
  unfold fail_stage. cbv zeta. set (st1 := if bool_decide (n = 3%nat) then _ else _).
  assert (stage_status st1 = <[n := failed]> (stage_status st) ∧
    stage_retry_count st1 = <[n := retries st n + 1]> (stage_retry_count st) ∧
    stage_plan st1 = stage_plan st ∧ retry_count st1 = retry_count st ∧ max_retry st1 = max_retry st ∧
    st_info st1 = st_info st ∧ last_failure_reason st1 = last_failure_reason st ∧
    phase st1 = phase st ∧ failure_reason st1 = failure_reason st)
    as (E1 & E2 & E3 & E4 & E5 & E6 & E7 & E8 & E9).
  { unfold st1. case_bool_decide; [destruct ft|]; done. }
  assert (limit_reached n st1 = match STAGE_RETRY_LIMITS n with
    Some l => l <=? retries st n + 1 | None => false end) as ->.
  { unfold limit_reached, retries at 1. by rewrite E2, lookup_insert_eq. }
  clearbody st1. destruct (STAGE_RETRY_LIMITS n) as [l|] eqn:Hl; [|by intros [= <-]].
  destruct (l <=? retries st n + 1); [|by intros [= <-]].
  case_bool_decide as H4; [rewrite decide_True by done; by intros [= <-]|rewrite decide_False by done].
  intros (r & Hr & [= <-])%bind_Ok. simpl. split_and!; try done. exists r. split; [done|].
  revert Hr. case_bool_decide as H3; [intros [= <-]; destruct ft; by apply (bool_decide_unpack _)|].
  unfold BLOCKED_BY_STAGE. repeat case_match; intros; simplify_eq; by apply (bool_decide_unpack _).
Qed.

(** ** Every accepted command keeps the invariant *)

Lemma insert_keyed {A} (m : gmap nat A) n x :
  (n < 6)%nat → (∀ k, is_Some (m !! k) → (k < 6)%nat) → ∀ k, is_Some (<[n := x]> m !! k) → (k < 6)%nat.
Proof. intros Hn Hm k [?|[_ Hk]]%lookup_insert_is_Some; [lia|auto]. Qed.

Lemma insert_keyed_iff {A} (m : gmap nat A) n x :
  (n < 6)%nat → (∀ k, is_Some (m !! k) ↔ (k < 6)%nat) → ∀ k, is_Some (<[n := x]> m !! k) ↔ (k < 6)%nat.
Proof.
  intros Hn Hm k. rewrite lookup_insert_is_Some, Hm. destruct (decide (n = k)); naive_solver lia.
Qed.

Lemma status_insert n s st st' k :
  stage_status st' = <[n := s]> (stage_status st) →
  status_of st' k = if decide (k = n) then Some s else status_of st k.
Proof.
  unfold status_of. intros ->. case_decide as Hk; [subst; apply lookup_insert_eq|by apply lookup_insert_ne].
Qed.

Lemma inv_start n ext st st' :
  inv st → (n < 6)%nat → start_stage n ext st = inr st' → inv st'.
Proof.
  intros I Hn (E1 & E2 & E3 & E4 & E5 & E6 & E7 & E8 & Hp & Hp1 & Hp2 & Ho & Ht & Hs)%start_stage_spec.
  assert (∀ k, retries st' k = retries st k) as Er by (intros; unfold retries; by rewrite E2).
  pose proof (λ k, status_insert _ _ _ _ k E1) as Es.
  assert (failure_reason st = None) as Hf.
  { destruct (failure_reason st) eqn:Hf; [|done]. assert (phase st = FAILED) as H.
    { apply (inv_failed _ I). rewrite Hf. by eexists. }
    rewrite H in Ht. naive_solver. }
  pose proof (STAGE_PHASE_not_terminal n) as Hnt. split.
  - destruct (inv_keyed _ I). split; [rewrite E1; by apply insert_keyed|by rewrite E2].
  - destruct (inv_typed _ I) as (? & ? & ?). unfold well_typed. by rewrite E4, E7.
  - apply Forall_forall. intros m [Hm| ->]%Hp2; [|lia]. pose proof (inv_stages _ I) as Hst.
    rewrite Forall_forall in Hst. by apply Hst.
  - intros k. rewrite Es. case_decide; [by subst|]. intros Hk. by apply Hp1, (inv_planned _ I).
  - intros a b. rewrite !Es. repeat case_decide; naive_solver.
  - intros k. rewrite Es, E3. case_decide; [subst; auto|naive_solver].
  - intros k l. rewrite Er. apply (inv_counts _ I).
  - intros k l Hk. rewrite Er. intros Hl. destruct (inv_limit _ I k l Hk Hl) as [Hd|(-> & Hd & Hst)].
    + rewrite Hd in Ht. naive_solver.
    + exfalso. rewrite Hd in Ht. destruct Ht as [(_ & _ & ->)|Ht]; [|done]. rewrite Hst in Hs.
      unfold limit_reached in Hs. rewrite Hk, Hl in Hs. apply Z.leb_gt in Hs. lia.
  - rewrite E3, E4, Hf. split; [|by intros []]. intros H. by rewrite H in Hnt.
  - rewrite E5, E6. pose proof (inv_retry _ I) as [Hr Hr']. split; [done|]. intros _. apply Hr'.
    intros H. rewrite H in Ht. naive_solver.
  - intros _. exists n. split; [done|]. rewrite Es. by rewrite decide_True.
  - rewrite E3. intros H. by rewrite H in Hnt.
Qed.

Lemma inv_complete n final st :
  inv st → (n < 6)%nat → complete_guard n st = None → inv (complete_stage final n st).
Proof.
  intros I Hn Hg.
  destruct (complete_stage_spec final n st) as (E1 & E2 & E3 & E4 & E5 & E6 & E7 & E8 & Hd).
  revert E1 E2 E3 E4 E5 E6 E7 E8 Hd. generalize (complete_stage final n st). intros st' ???????? Hd.
  unfold complete_guard in Hg. destruct (is_terminal (phase st)) eqn:Ht; [done|].
  assert (status_of st n = Some in_progress) as Hs by (by repeat case_match). clear Hg.
  pose proof (λ k, status_insert _ _ _ _ k E1) as Es.
  assert (∀ k, status_of st' k ≠ Some in_progress) as Hno.
  { intros k. rewrite Es. case_decide; [done|]. intros Hk. by pose proof (inv_one _ I _ _ Hs Hk). }
  assert (∀ k, retries st' k = retries st k) as Er by (intros; unfold retries; by rewrite E2).
  assert (phase st ≠ FAILED ∧ phase st ≠ DONE) as [HF HD] by (by split; intros H; rewrite H in Ht).
  assert (phase st' ≠ FAILED) as HF'.
  { destruct Hd as [[-> _]|(s & _ & _ & ->)]; [done|]. intros H.
    pose proof (STAGE_PHASE_not_terminal s) as H'. by rewrite H in H'. }
  split.
  - destruct (inv_keyed _ I). split; [rewrite E1; by apply insert_keyed|by rewrite E2].
  - destruct (inv_typed _ I) as (? & ? & ?). unfold well_typed. by rewrite E6, E8.
  - rewrite E3. apply (inv_stages _ I).
  - intros k. rewrite Es, E3. case_decide; [subst|]; intros; apply (inv_planned _ I); by rewrite ?Hs.
  - naive_solver.
  - naive_solver.
  - intros k l. rewrite Er. apply (inv_counts _ I).
  - intros k l Hk. rewrite Er. intros Hl. destruct (inv_limit _ I k l Hk Hl) as [?|(_ & ? & _)]; done.
  - rewrite E8. pose proof (inv_failed _ I). naive_solver.
  - rewrite E4, E5. pose proof (inv_retry _ I) as [Hr Hr']. naive_solver.
  - destruct Hd as [[-> _]|(s & Hs1 & Hs2 & _)]; [done|]. intros _. exists s. by rewrite E3.
  - rewrite E3. destruct Hd as [[_ Hd]|(s & Hs1 & Hs2 & Hs3)]; [by left|]. rewrite Hs3. intros H.
    pose proof (STAGE_PHASE_not_terminal s) as H'. by rewrite H in H'.
Qed.

Lemma guard_not_terminal n revision st :
  fail_guard n revision st = None → is_terminal (phase st) = false ∧
  if revision then is_Some (status_of st n)
  else n ≠ 2%nat ∧ (status_of st n = Some in_progress ∨ status_of st n = Some failed).
Proof.
  unfold fail_guard. destruct (is_terminal (phase st)), revision; try done.
  - case_match; [by eauto|done].
  - case_bool_decide; [done|]. repeat case_match; naive_solver.
Qed.

Lemma not_terminal p : is_terminal p = false → p ≠ FAILED ∧ p ≠ DONE.
Proof. by destruct p. Qed.

Lemma inv_revision n st :
  inv st → (n < 6)%nat → fail_guard n true st = None → inv (fail_revision n st).
Proof.
  intros I Hn [Ht Hs]%guard_not_terminal.
  destruct (fail_revision_spec n st) as (S & R & ES & ER & HS & HR & E3 & E4 & E5 & E6 & E7 & Hd).
  revert ES ER E3 E4 E5 E6 E7 Hd. generalize (fail_revision n st). intros st' ??????? Hd.
  pose proof (not_terminal _ Ht) as [HF HD].
  assert (phase st' = FAILED ∧ failure_reason st' = Some "BLOCKED_DESIGN" ∨
    retry_count st + 1 < max_retry st ∧ phase st' = phase st ∧ failure_reason st' = failure_reason st) as Hd'.
  { destruct (Z.leb_spec (max_retry st) (retry_count st + 1)); naive_solver. }
  clear Hd. pose proof (inv_planned _ I n Hs) as Hnp.
  assert (∀ k, status_of st' k = Some in_progress → status_of st k = Some in_progress) as Hin.
  { intros k. unfold status_of. rewrite ES, HS. case_decide; [done|].
    destruct (decide (k = n)) as [->|]; [by rewrite lookup_insert_eq|by rewrite lookup_insert_ne]. }
  assert (∀ k, retries st' k = if decide ((1 < k)%nat ∧ k ∈ stage_plan st) then 0 else retries st k) as Er.
  { intros k. unfold retries. rewrite ER, HR. by case_decide. }
  split.
  - destruct (inv_keyed _ I) as [K1 K2]. split; intros k.
    + rewrite ES, HS. case_decide; [by intros []|]. by apply insert_keyed.
    + rewrite ER, HR. case_decide as Hk; [|done]. pose proof (inv_stages _ I) as Hst.
      rewrite Forall_forall in Hst. naive_solver.
  - destruct (inv_typed _ I) as (? & ? & ?). unfold well_typed. rewrite E6.
    destruct Hd' as [[_ ->]|(_ & _ & ->)]; split_and!; try done. intros r [= <-]. by apply (bool_decide_unpack _).
  - rewrite E3. apply (inv_stages _ I).
  - intros k. unfold status_of. rewrite E3, ES, HS. case_decide; [by intros []|].
    intros [<-|[_ Hk]]%lookup_insert_is_Some; [done|by apply (inv_planned _ I)].
  - intros a b Ha%Hin Hb%Hin. by eapply (inv_one _ I).
  - intros k Hk%Hin. destruct (inv_phase _ I k Hk), Hd' as [[-> _]|(_ & -> & _)]; auto.
  - intros k l Hk. rewrite Er. pose proof (inv_counts _ I k l Hk). case_decide; lia.
  - intros k l Hk. rewrite Er. intros Hl. case_decide as Hr.
    + by do 6 (destruct k as [|k]; [by simplify_eq/=|]).
    + destruct (inv_limit _ I k l Hk Hl) as [?|(_ & ? & _)]; done.
  - pose proof (inv_failed _ I). destruct Hd' as [[-> ->]|(_ & -> & ->)]; [|done]. split; [by eexists|done].
  - rewrite E4, E5. pose proof (inv_retry _ I) as [Hr Hr']. specialize (Hr' HF).
    destruct Hd' as [[-> _]|(? & -> & _)]; [split; [lia|done]|]. split; lia.
  - intros _. exists n. rewrite E3. split; [done|]. unfold status_of. rewrite ES, HS.
    case_decide; [done|]. by rewrite lookup_insert_eq.
  - destruct Hd' as [[-> _]|(_ & -> & _)]; done.
Qed.

Lemma inv_fail n final ft st st' :
  inv st → (n < 6)%nat → fail_guard n false st = None → fail_stage final n ft st = Ok st' → inv st'.
Proof.
  intros I Hn (Ht & H2 & Hs)%guard_not_terminal
    (E1 & E2 & E3 & E4 & E5 & E6 & E7 & Hd)%fail_stage_spec.
  pose proof (not_terminal _ Ht) as [HF HD].
  destruct (STAGE_RETRY_LIMITS n) as [l|] eqn:Hl; [|by do 6 (destruct n as [|n]; [done|]); lia].
  pose proof (λ k, status_insert _ _ _ _ k E1) as Es.
  assert (∀ k, retries st' k = if decide (k = n) then retries st n + 1 else retries st k) as Er.
  { intros k. unfold retries at 1. rewrite E2. destruct (decide (k = n)) as [->|];
      [by rewrite lookup_insert_eq|by rewrite lookup_insert_ne]. }
  assert (∀ k m, STAGE_RETRY_LIMITS k = Some m → 0 ≤ retries st k < m) as Hc.
  { intros k m Hk. pose proof (inv_counts _ I k m Hk). destruct (decide (retries st k = m)) as [Hm|]; [|lia].
    destruct (inv_limit _ I k m Hk Hm) as [?|(_ & ? & _)]; done. }
  assert (n ∈ stage_plan st) as Hnp by (apply (inv_planned _ I); destruct Hs as [-> | ->]; by eexists).
  assert (retries st n + 1 = l ∧ n = 4%nat ∧ phase st' = DONE ∧ failure_reason st' = failure_reason st ∨
    retries st n + 1 = l ∧ phase st' = FAILED ∧ (∃ r, failure_reason st' = Some r ∧ r ∈ GateLint.BLOCKED_CODES) ∨
    retries st n + 1 < l ∧ phase st' = phase st ∧ failure_reason st' = failure_reason st) as Hd'.
  { pose proof (Hc n l Hl). destruct (Z.leb_spec l (retries st n + 1)).
    - assert (retries st n + 1 = l) by lia. case_decide; naive_solver.
    - naive_solver. }
  clear Hd. split.
  - destruct (inv_keyed _ I). split; [rewrite E1; by apply insert_keyed|rewrite E2; by apply insert_keyed_iff].
  - destruct (inv_typed _ I) as (? & ? & ?). unfold well_typed. rewrite E6.
    split_and!; [done|done|]. destruct Hd' as [(_ & _ & _ & ->)|[(_ & _ & r & -> & Hr)|(_ & _ & ->)]]; try done.
    by intros ? [= <-].
  - rewrite E3. apply (inv_stages _ I).
  - intros k. rewrite Es, E3. case_decide; [by subst|]. apply (inv_planned _ I).
  - intros a b. rewrite !Es. repeat case_decide; try done. apply (inv_one _ I).
  - intros k. rewrite Es. case_decide; [done|]. intros Hk. pose proof (inv_phase _ I k Hk).
    destruct Hd' as [(_ & _ & -> & _)|[(_ & -> & _)|(_ & -> & _)]]; auto.
  - intros k m Hk. rewrite Er. case_decide; [subst; pose proof (Hc n m Hk); lia|].
    pose proof (Hc k m Hk). lia.
  - intros k m Hk. rewrite Er, Es. case_decide; [|pose proof (Hc k m Hk); lia].
    subst. intros Hm. destruct Hd' as [(_ & ? & ? & _)|[(_ & ? & _)|(? & _)]]; [auto|auto|].
    simplify_eq. lia.
  - pose proof (inv_failed _ I).
    destruct Hd' as [(_ & _ & -> & ->)|[(_ & -> & r & -> & _)|(_ & -> & ->)]]; [|split; [by eexists|done]|done].
    split; [done|]. naive_solver.
  - rewrite E4, E5. pose proof (inv_retry _ I) as [Hr Hr']. split; [done|]. auto.
  - intros _. exists n. rewrite E3, Es. by rewrite decide_True.
  - rewrite Er. destruct Hd' as [(Hr & -> & -> & _)|[(_ & -> & _)|(_ & -> & _)]]; try done.
    intros _. right. rewrite decide_True by done. by simplify_eq/=.
Qed.

Lemma inv_blocked code st st' : inv st → fail_blocked code st = inr st' → inv st'.
Proof.
  intros I. unfold fail_blocked, py_in. case_bool_decide as Hc; [|done]. intros [= <-].
  destruct I as [K [T1 [T2 T3]] ? ? ? ? ? ? ? [Hr _] ? ?]. split; simpl; try done.
  - split_and!; try done. by intros r [= <-].
  - auto.
  - auto.
Qed.

Lemma inv_step st st' : inv st → step st st' → inv st'.
Proof.
  intros I Hs. destruct Hs; eauto using inv_start, inv_complete, inv_revision, inv_fail, inv_blocked.
Qed.

(** ** [init] *)

(** What the argument parser lets through. *)
Definition parsed_args (a : init_args) : Prop :=
  a_scenario a ∈ GateLint.SCENARIOS ∧ ∀ m, a_migration_mode a = Some m → m ∈ GateLint.MIGRATION_MODES.

Lemma explicit_plan_stages pieces plan : explicit_plan pieces = Some plan → Forall (λ n, (n < 6)%nat) plan.
Proof.
  unfold explicit_plan. destruct (mapM id pieces) as [l|]; simpl; [|done].
  destruct (bool_decide (l ≠ [])); [|done]. simpl. destruct (forallb _ l) eqn:Hf; [|done]. intros [= <-].
  rewrite forallb_forall in Hf. apply Forall_fmap, Forall_forall. intros z Hz%list_elem_of_In%Hf.
  simpl. apply andb_prop in Hz as [?%Z.leb_le ?%Z.leb_le]. lia.
Qed.

Lemma init_plan_stages a plan : init_plan a = ([], plan) → Forall (λ n, (n < 6)%nat) plan.
Proof.
  unfold init_plan. destruct (scenario_stage_plan (a_scenario a) (a_migration_mode a)) as [es p] eqn:Hs.
  assert (Forall (λ n, (n < 6)%nat) p) as Hp.
  { revert Hs. unfold scenario_stage_plan. repeat case_decide; intros [= _ <-]; repeat constructor. }
  destruct (a_stage_plan a) as [pieces|]; [|by intros [= _ <-]].
  destruct (explicit_plan pieces) as [q|] eqn:Hq; [intros [= _ <-]; by eapply explicit_plan_stages|].
  intros [= E%app_eq_nil _]. by destruct E.
Qed.

Lemma lookup_zero_counts k :
  (list_to_map ((λ k, (k, 0)) <$> seq 0 6) : gmap nat Z) !! k = if decide (k < 6)%nat then Some 0 else None.
Proof.
  do 6 (destruct k as [|k]; [done|]). rewrite decide_False by lia.
  apply not_elem_of_list_to_map_1. rewrite <- list_fmap_compose. intros (? & ? & ?%elem_of_seq)%list_elem_of_fmap.
  simplify_eq/=. lia.
Qed.

Lemma inv_initial c now a first rest :
  parsed_args a → init_plan a = ([], first :: rest) → inv (initial_state c now a (first :: rest) first).
Proof.
  intros [Hs Hm] Hp%init_plan_stages. pose proof (STAGE_PHASE_not_terminal first) as Hnt.
  assert (∀ k, retries (initial_state c now a (first :: rest) first) k = 0) as Hr.
  { intros k. unfold retries. simpl stage_retry_count. rewrite lookup_zero_counts. by case_decide. }
  split; try done; try (by intros k; simpl; rewrite ?lookup_empty; by intros []).
  - split; [by intros k []|]. intros k. simpl stage_retry_count. rewrite lookup_zero_counts.
    case_decide; split; try done; by intros [].
  - intros k l Hk. rewrite Hr. by do 6 (destruct k as [|k]; [simplify_eq/=; lia|]).
  - intros k l Hk. rewrite Hr. by do 6 (destruct k as [|k]; [by simplify_eq/=|]).
  - split; simpl; [|by intros []]. intros H. by rewrite H in Hnt.
  - simpl. lia.
  - intros _. exists first. split; [by left|done].
  - simpl. intros H. by rewrite H in Hnt.
Qed.

(** ** Termination *)

(** The failures a stage has left. *)
Definition allowance (st : state) (n : nat) : Z :=
  match STAGE_RETRY_LIMITS n with Some l => l - retries st n | None => 0 end.

(** How many more commands a stage takes, at most, until the next revision. *)
Definition weight (st : state) (n : nat) : Z :=
  match status_of st n with
  | Some completed => 0
  | Some in_progress => 2 * allowance st n + 1
  | _ => 2 * allowance st n + 2
  end.

Definition stage_fuel (st : state) : Z :=
  weight st 0 + weight st 1 + weight st 2 + weight st 3 + weight st 4 + weight st 5.

Definition revision_pending (st : state) : bool :=
  bool_decide (last_failure_reason st = Some "design_revision").

(** A bound on the commands that can still be accepted. *)
Definition fuel (st : state) : Z :=
  68 * (Z.max 1 (max_retry st) - retry_count st) + stage_fuel st +
  (if revision_pending st then 8 else 0) + (if decide (phase st = FAILED) then 0 else 1).

Lemma allowance_bounds st n :
  inv st → 0 ≤ allowance st n ≤ match STAGE_RETRY_LIMITS n with Some l => l | None => 0 end.
Proof.
  intros I. unfold allowance. destruct (STAGE_RETRY_LIMITS n) as [l|] eqn:Hl; [|lia].
  pose proof (inv_counts _ I n l Hl). lia.
Qed.

Lemma weight_bounds st n :
  inv st → 0 ≤ weight st n ≤ 2 * match STAGE_RETRY_LIMITS n with Some l => l | None => 0 end + 2.
Proof. intros I. pose proof (allowance_bounds st n I). unfold weight. repeat case_match; lia. Qed.

Lemma stage_fuel_bounds st : inv st → 0 ≤ stage_fuel st ≤ 58.
Proof.
  intros I. unfold stage_fuel.
  pose proof (weight_bounds st 0 I). pose proof (weight_bounds st 1 I). pose proof (weight_bounds st 2 I).
  pose proof (weight_bounds st 3 I). pose proof (weight_bounds st 4 I). pose proof (weight_bounds st 5 I).
  simpl STAGE_RETRY_LIMITS in *. lia.
Qed.

Lemma stage_fuel_change n st st' :
  (n < 6)%nat → (∀ k, k ≠ n → weight st' k = weight st k) →
  stage_fuel st' = stage_fuel st + weight st' n - weight st n.
Proof.
  intros Hn Hk. unfold stage_fuel.
  do 6 (destruct n as [|n]; [rewrite ?(Hk 0%nat), ?(Hk 1%nat), ?(Hk 2%nat), ?(Hk 3%nat), ?(Hk 4%nat), ?(Hk 5%nat) by lia; lia|]).
  lia.
Qed.

Lemma fuel_nonneg st : inv st → 0 ≤ fuel st.
Proof.
  intros I. pose proof (stage_fuel_bounds st I). pose proof (inv_retry _ I) as [? _]. unfold fuel.
  repeat case_match; lia.
Qed.

Lemma fuel_start n ext st st' : inv st → (n < 6)%nat → start_stage n ext st = inr st' → fuel st' < fuel st.
Proof.
  intros I Hn (E1 & E2 & E3 & _ & E5 & E6 & _ & E8 & _ & _ & _ & _ & Ht & Hs)%start_stage_spec.
  pose proof (λ k, status_insert _ _ _ _ k E1) as Es.
  assert (∀ k, allowance st' k = allowance st k) as Ea by (intros; unfold allowance, retries; by rewrite E2).
  pose proof (allowance_bounds st n I).
  unfold fuel. rewrite (stage_fuel_change n st st' Hn); [|intros k Hk; unfold weight; rewrite Es, Ea; by rewrite decide_False].
  assert (weight st' n = 2 * allowance st n + 1) as ->.
  { unfold weight. by rewrite Es, Ea, decide_True. }
  rewrite E5, E6, E3. rewrite (decide_False (P := STAGE_PHASE n = FAILED));
    [|intros H'; pose proof (STAGE_PHASE_not_terminal n) as H''; by rewrite H' in H''].
  rewrite (decide_False (P := phase st = FAILED)) by (intros H'; rewrite H' in Ht; naive_solver).
  unfold revision_pending at 1. rewrite E8. unfold weight, revision_reentry in *.
  destruct (status_of st n) as [[]|]; [done| |..].
  - destruct (bool_decide (n = 1%nat)) eqn:H1; [|done]. apply bool_decide_eq_true in H1 as ->.
    rewrite Hs. unfold revision_pending in *. destruct (bool_decide (last_failure_reason st = _)); [|done].
    simpl in *. lia.
  - simpl. unfold revision_pending. lia.
  - simpl. unfold revision_pending. lia.
Qed.

Lemma fuel_complete n final st :
  inv st → (n < 6)%nat → complete_guard n st = None → fuel (complete_stage final n st) < fuel st.
Proof.
  intros I Hn Hg. unfold complete_guard in Hg. destruct (is_terminal (phase st)) eqn:Ht; [done|].
  assert (status_of st n = Some in_progress) as Hs by (by repeat case_match).
  destruct (complete_stage_spec final n st) as (E1 & E2 & E3 & E4 & E5 & _ & E7 & _).
  revert E1 E2 E3 E4 E5 E7. generalize (complete_stage final n st). intros st' ??????.
  pose proof (λ k, status_insert _ _ _ _ k E1) as Es.
  assert (∀ k, allowance st' k = allowance st k) as Ea by (intros; unfold allowance, retries; by rewrite E2).
  pose proof (allowance_bounds st n I). apply not_terminal in Ht as [Ht _].
  unfold fuel, revision_pending.
  rewrite (stage_fuel_change n st st' Hn); [|intros k Hk; unfold weight; rewrite Es, Ea; by rewrite decide_False].
  assert (weight st' n = 0) as -> by (unfold weight; by rewrite Es, decide_True).
  assert (weight st n = 2 * allowance st n + 1) as -> by (unfold weight; by rewrite Hs).
  rewrite E4, E5, E7, (decide_False (P := phase st = FAILED)) by done. case_decide; lia.
Qed.

Lemma fuel_revision n st :
  inv st → (n < 6)%nat → fail_guard n true st = None → fuel (fail_revision n st) < fuel st.
Proof.
  intros I Hn Hg. pose proof (stage_fuel_bounds _ (inv_revision n st I Hn Hg)).
  pose proof (stage_fuel_bounds st I).
  apply guard_not_terminal in Hg as [Ht _]. apply not_terminal in Ht as [Ht _].
  destruct (fail_revision_spec n st) as (S & R & _ & _ & _ & _ & _ & E4 & E5 & _).
  unfold fuel. rewrite E4, E5, (decide_False (P := phase st = FAILED)) by done.
  repeat case_match; lia.
Qed.

Lemma fuel_fail n final ft st st' :
  inv st → (n < 6)%nat → fail_guard n false st = None → fail_stage final n ft st = Ok st' → fuel st' < fuel st.
Proof.
  intros I Hn (Ht & H2 & Hs)%guard_not_terminal (E1 & E2 & _ & E4 & E5 & _ & E7 & _)%fail_stage_spec.
  apply not_terminal in Ht as [Ht _]. pose proof (λ k, status_insert _ _ _ _ k E1) as Es.
  assert (∀ k, k ≠ n → allowance st' k = allowance st k) as Ea.
  { intros k Hk. unfold allowance, retries. by rewrite E2, lookup_insert_ne. }
  assert (allowance st' n = allowance st n - 1) as En.
  { unfold allowance, retries at 1. rewrite E2, lookup_insert_eq. simpl.
    case_match eqn:Hl; [lia|]. by do 6 (destruct n as [|n]; [done|]); lia. }
  pose proof (allowance_bounds st n I).
  unfold fuel, revision_pending.
  rewrite (stage_fuel_change n st st' Hn); [|intros k Hk; unfold weight; rewrite Es, Ea by done; by rewrite decide_False].
  assert (weight st' n = 2 * allowance st n) as -> by (unfold weight; rewrite Es, decide_True by done; lia).
  assert (2 * allowance st n + 1 ≤ weight st n) by (unfold weight; destruct Hs as [-> | ->]; lia).
  rewrite E4, E5, E7, (decide_False (P := phase st = FAILED)) by done. case_decide; lia.
Qed.

Lemma fuel_blocked code st st' :
  fail_blocked code st = inr st' → fuel st' ≤ fuel st ∧ (phase st ≠ FAILED → fuel st' < fuel st).
Proof.
  unfold fail_blocked, py_in. case_bool_decide as Hc; [|done]. intros [= <-].
  unfold fuel. change (stage_fuel (set_last_failure_reason _ _)) with (stage_fuel st). simpl.
  assert (revision_pending (set_last_failure_reason (Some code)
    (set_failure_reason (Some code) (set_phase FAILED st))) = false) as ->.
  { apply bool_decide_eq_false. simpl. intros [= ->]. revert Hc. apply (bool_decide_unpack _). by vm_compute. }
  destruct (revision_pending st), (decide (phase st = FAILED)); simpl; split; naive_solver lia.
Qed.

(** Only a blocked failure reported again leaves the fuel as it is. *)
Lemma fuel_step st st' : inv st → step st st' → fuel st' ≤ fuel st ∧ (phase st ≠ FAILED → fuel st' < fuel st).
Proof.
  intros I Hs. assert (fuel st' < fuel st → fuel st' ≤ fuel st ∧ (phase st ≠ FAILED → fuel st' < fuel st)) as Hlt.
  { split; [lia|done]. }
  destruct Hs; [apply Hlt..|]; eauto using fuel_start, fuel_complete, fuel_revision, fuel_fail, fuel_blocked.
Qed.

Lemma step_info st st' : step st st' → st_info st' = st_info st.
Proof.
  intros Hs. destruct Hs as [n ext st st' _ Hs|n final st _ _|n st _ _|n final ft st st' _ _ Hs|code st st' Hs].
  - by apply start_stage_spec in Hs as (_ & _ & _ & _ & _ & _ & -> & _).
  - by destruct (complete_stage_spec final n st) as (_ & _ & _ & _ & _ & ? & _).
  - by destruct (fail_revision_spec n st) as (S & R & _ & _ & _ & _ & _ & _ & _ & ? & _).
  - by apply fail_stage_spec in Hs as (_ & _ & _ & _ & _ & ? & _).
  - unfold fail_blocked in Hs. case_match; by simplify_eq.
Qed.

Lemma step_max_retry st st' : step st st' → max_retry st' = max_retry st.
Proof.
  intros Hs. destruct Hs as [n ext st st' _ Hs|n final st _ _|n st _ _|n final ft st st' _ _ Hs|code st st' Hs].
  - by apply start_stage_spec in Hs as (_ & _ & _ & _ & _ & -> & _).
  - by destruct (complete_stage_spec final n st) as (_ & _ & _ & _ & ? & _).
  - by destruct (fail_revision_spec n st) as (S & R & _ & _ & _ & _ & _ & _ & ? & _).
  - by apply fail_stage_spec in Hs as (_ & _ & _ & _ & ? & _).
  - unfold fail_blocked in Hs. case_match; by simplify_eq.
Qed.

(** ** Progress *)

Lemma first_open st (plan : list nat) :
  (∃ s, s ∈ plan ∧ status_of st s ≠ Some completed) →
  ∃ n, n ∈ plan ∧ status_of st n ≠ Some completed ∧ forallb (is_completed st) (before_in_plan n plan) = true.
Proof.
  induction plan as [|x plan IH]; intros (s & Hs & Hc); [by apply elem_of_nil in Hs|].
  destruct (decide (status_of st x = Some completed)) as [Hx|Hx].
  - destruct IH as (n & Hn & Hnc & Hb); [exists s; set_solver|]. exists n.
    split; [by right|]. split; [done|]. simpl. rewrite decide_False by congruence. simpl.
    unfold is_completed at 1. by rewrite bool_decide_true.
  - exists x. split; [by left|]. split; [done|]. simpl. by rewrite decide_True.
Qed.

Lemma in_progress_dec st :
  (∃ n, status_of st n = Some in_progress) ∨ ∀ n, other_in_progress n st = false.
Proof.
  destruct (existsb (λ kv, bool_decide (kv.2 = in_progress)) (map_to_list (stage_status st))) eqn:He.
  - left. apply existsb_exists in He as ([k v] & Hin & Hv). apply bool_decide_eq_true in Hv. simpl in Hv. subst.
    exists k. by apply elem_of_map_to_list, list_elem_of_In.
  - right. intros n. apply not_true_iff_false. intros (kv & Hin & [Hv _]%andb_prop)%existsb_exists.
    apply not_true_iff_false in He. apply He, existsb_exists. by exists kv.
Qed.

(** In a workflow that is not over a stage can be completed or started. *)
Lemma progress st :
  inv st → is_terminal (phase st) = false →
  (∃ n, (n < 6)%nat ∧ complete_guard n st = None) ∨
  (∃ n st', (n < 6)%nat ∧ start_stage n false st = inr st').
Proof.
  intros I Ht. pose proof (inv_stages _ I) as Hst. rewrite Forall_forall in Hst.
  destruct (in_progress_dec st) as [[n Hn]|Ho].
  - left. exists n. split; [apply Hst, (inv_planned _ I); by rewrite Hn|].
    unfold complete_guard. by rewrite Ht, Hn.
  - right. destruct (first_open st (stage_plan st) (inv_left _ I Ht)) as (n & Hn & Hc & Hb).
    assert (start_plan n false st = inr st) as Hp.
    { unfold start_plan. rewrite Ht, bool_decide_false; [done|]. by intros []. }
    exists n. unfold start_stage. rewrite Hp, Ho, Hb.
    destruct (status_of st n) as [[]|] eqn:Hs; [|done| |by eauto].
    + exfalso. specialize (Ho (S n)). apply not_true_iff_false in Ho. apply Ho, existsb_exists.
      exists (n, in_progress). split; [by apply list_elem_of_In, elem_of_map_to_list|].
      apply andb_true_intro. split; [done|]. apply negb_true_iff, bool_decide_false. simpl. lia.
    + assert (limit_reached n st = false) as ->; [|by eauto].
      unfold limit_reached. destruct (STAGE_RETRY_LIMITS n) as [l|] eqn:Hl; [|done].
      apply Z.leb_gt. pose proof (inv_counts _ I n l Hl). pose proof (not_terminal _ Ht) as [? ?].
      destruct (decide (retries st n = l)) as [Hr|]; [|lia].
      by destruct (inv_limit _ I n l Hl Hr) as [?|(_ & ? & _)].
Qed.

(** A failed workflow stays failed; a finished one is only reopened for tuning. *)
Lemma step_terminal st st' :
  step st st' →
  match phase st with
  | FAILED => phase st' = FAILED
  | DONE => phase st' = FAILED ∨ phase st' = TUNING ∧ status_of st' 4 = Some in_progress
  | _ => True
  end.
Proof.
  intros Hs. destruct (is_terminal (phase st)) eqn:Ht; [|by destruct (phase st)].
  destruct Hs as [n ext st st' _ Hs|n final st _ Hg|n st _ Hg|n final ft st st' _ Hg _|code st st' Hs].
  - apply start_stage_spec in Hs as (E1 & _ & E3 & _ & _ & _ & _ & _ & _ & _ & _ & _ & [(-> & _ & ->)|Hf] & _); [|congruence].
    right. split; [done|]. unfold status_of. by rewrite E1, lookup_insert_eq.
  - unfold complete_guard in Hg. by rewrite Ht in Hg.
  - unfold fail_guard in Hg. by rewrite Ht in Hg.
  - unfold fail_guard in Hg. by rewrite Ht in Hg.
  - unfold fail_blocked in Hs. case_match; [|done]. simplify_eq. simpl. destruct (phase st); auto.
Qed.
