(* ===== verification/StatectlRun.v ===== *)
(** * Runs of the workflow commands

    Sequences of commands on the files of an operator, with the agents free to
    write any other file in between: the state file is always readable and well
    formed, the number of dispatched agents is bounded, a refused command changes
    nothing, and a workflow that is not over can be finished. *)
From Stdlib Require Import SpecFloat.
From stdpp Require Import base strings gmap numbers sorting relations list.
From S2P Require Import Prelude StateSchema Statectl StatectlInv.

(** ** Moves inside a class of [control] *)

Lemma inv_control st st' : control st = control st' → inv st → inv st'.
Proof.
  destruct st, st'. unfold control; simpl. intros E; simplify_eq. intros I.
  destruct I as [K T]. split; try done. unfold well_typed in *; simpl in *.
  match goal with
  | E1 : scenario _ = scenario _, E2 : migration_mode _ = migration_mode _ |- _ => by rewrite <- E1, <- E2
  end.
Qed.

Lemma fuel_control st st' : control st = control st' → fuel st = fuel st'.
Proof. destruct st, st'. unfold control; simpl. by intros E; simplify_eq. Qed.

Lemma control_last_updated now st : control (set_last_updated now st) = control st.
Proof. done. Qed.

Lemma control_snapshot `{Host} w c n st : control (snapshot_stage_artifacts w c n st) = control st.
Proof. done. Qed.

Lemma control_set w c a st : control (set_state c w a st).2 = control st.
Proof. unfold set_state. by repeat case_match; simplify_eq/=. Qed.

(** ** Commands as steps of the world *)

Inductive command :=
  | CInit (a : init_args)
  | CStart (n : nat) (extend : bool)
  | CComplete (n : nat) (meta migration_dir : option string)
  | CFail (n : nat) (reason : option string) (ft : fail_type_t) (blocked : option string)
  | CGate (n : nat) (meta migration_dir : option string)
  | CSnapshot
  | CShow
  | CVerify
  | CRepair (apply : bool)
  | CSet (a : set_args).

(** The arguments the parser lets through. *)
Definition parsed (cmd : command) : Prop :=
  match cmd with
  | CInit a => parsed_args a
  | CStart n _ | CComplete n _ _ | CFail n _ _ _ | CGate n _ _ => (n < 6)%nat
  | _ => True
  end.

Section runs.
Context `{Host, GateLints} (c : Ctx).

Definition exit_of {A} (r : string + A) : Z := match r with inl _ => 1 | inr _ => 0 end.

(** The command [main] dispatches to; the result is the exit code. *)
Definition run (now : string) (cmd : command) : prog world Z :=
  match cmd with
  | CInit a => r ← cmd_init c now a; mret (exit_code r)
  | CStart n extend => r ← cmd_start c now n extend; mret (exit_code r)
  | CComplete n meta dir => r ← cmd_complete c now n meta dir; mret (exit_code r)
  | CFail n reason ft code => r ← cmd_fail c now n reason ft code; mret (exit_code r)
  | CGate n meta dir => r ← cmd_gate c n meta dir; mret (exit_code r)
  | CSnapshot => r ← cmd_snapshot c now; mret (exit_code r)
  | CShow => r ← cmd_show c; mret (exit_of r)
  | CVerify =>
      r ← cmd_verify c now;
      mret (match r with
            | inr (VerifyReport [] [] []) => 0
            | _ => 1
            end)
  | CRepair apply => r ← cmd_repair c now apply; mret (exit_of r)
  | CSet a => r ← cmd_set c now a; mret (exit_code r)
  end.

(** A command, or an agent that writes files other than the state and the log. *)
Inductive wstep : world → world → Prop :=
  | wstep_run now cmd w w' r : parsed cmd → run now cmd w = (r, w') → wstep w w'
  | wstep_agent w fs : fs !! state_path c = files w !! state_path c → wstep w (World fs (timeline w)).

(** No budget that [num_le] cannot compare. *)
Definition budget_ok (b : dict) : Prop := map_Forall (λ _ j, bad_budget j = false) b.

Definition is_start (o : option event) : bool :=
  match o with Some ev => bool_decide (ev_action ev = "start") | None => false end.

(** The dispatches the log records. *)
Definition starts (w : world) : Z := len (filter (λ o, is_start o = true) (timeline w)).

Definition stored (w : world) (st : state) : Prop :=
  files w !! state_path c = Some (FJson (JObj (encode_state st))).

(** The invariant of the files and the log. *)
Definition winv (w : world) : Prop :=
  files w !! state_path c = None ∧ timeline w = [] ∨
  ∃ st, stored w st ∧ inv st ∧ budget_ok (budget (st_info st)) ∧
        starts w + fuel st ≤ 68 * Z.max 1 (max_retry st) + 59.

Lemma load_stored w st : stored w st → inv st → load c w = (Ok (inr st), w).
Proof.
  intros Hs I. unfold load, get, mbind, prog_bind. rewrite Hs.
  pose proof (inv_keyed _ I) as K.
  rewrite (filled_backfill _ (encode_filled _ K)). by rewrite (decode_encode _ K).
Qed.

Lemma load_missing w : files w !! state_path c = None → load c w = (Ok (inl "E-MISSING"), w).
Proof. intros Hs. unfold load, get, mbind, prog_bind. by rewrite Hs. Qed.

Lemma with_state_stored f w st : stored w st → inv st → with_state c f w = f st w.
Proof.
  intros Hs I. unfold with_state, mbind at 1, prog_bind at 1. by rewrite (load_stored w st Hs I).
Qed.

Lemma with_state_missing f w :
  files w !! state_path c = None → with_state c f w = (Ok (refuse "E-MISSING"), w).
Proof.
  intros Hs. unfold with_state, mbind at 1, prog_bind at 1. by rewrite (load_missing w Hs).
Qed.

(** The state [st'] replaces the stored state and one event is logged. *)
Definition advanced (now action : string) (w : world) (st' : state) (w' : world) : Prop :=
  stored w' (set_last_updated now st') ∧
  (∃ ev, timeline w' = timeline w ++ [Some ev] ∧ ev_action ev = action) ∧
  ∀ p, p ≠ state_path c → files w' !! p = files w !! p.

Lemma write_log_advanced now st' so action stage verdict before after extra w :
  ∃ w', (write c now st';; log now so action stage verdict before after extra) w = (Ok tt, w') ∧
        advanced now action w st' w'.
Proof.
  eexists. split; [by cbv [write log append_event modify get mbind prog_bind mret prog_ret]|]. split; [|split].
  - unfold stored. simpl. by rewrite lookup_insert_eq.
  - eexists. split; [reflexivity|done].
  - intros p Hp. simpl. by rewrite lookup_insert_ne.
Qed.

(** ** What each command does to a well-formed world *)

Inductive outcome (w : world) (now : string) : res Z → world → Prop :=
  | unchanged r : outcome w now r w
  | verified ev : files w !! state_path c ≠ None → ev_action ev = "verify" →
      outcome w now (Ok 0) (World (files w) (timeline w ++ [Some ev]))
  | created a first rest w' :
      files w !! state_path c = None → parsed_args a → init_plan a = ([], first :: rest) →
      advanced now "init" w (initial_state c now a (first :: rest) first) w' → outcome w now (Ok 0) w'
  | moved action st st' w' :
      stored w st → inv st → control st = control st' → budget_ok (budget (st_info st')) →
      action ≠ "start" → advanced now action w st' w' → outcome w now (Ok 0) w'
  | stepped action st st1 st' w' :
      stored w st → inv st → step st st1 → control st1 = control st' → st_info st' = st_info st →
      (action = "start" → ∃ n ext, (n < 6)%nat ∧ start_stage n ext st = inr st1) →
      advanced now action w st' w' → outcome w now (Ok 0) w'.

Lemma budget_exceeded_ok w st ts :
  budget_ok (budget (st_info st)) → ∃ l, budget_exceeded w st ts = Ok l.
Proof.
  intros Hb. unfold budget_exceeded.
  assert (∀ k z, ∃ l, budget_dim (budget (st_info st)) k z = Ok l) as Hk.
  { intros k z. unfold budget_dim. destruct (budget (st_info st) !! k) as [j|] eqn:Hj; [|by eexists].
    destruct z as [z|]; [|destruct j; by eexists]. specialize (Hb _ _ Hj).
    destruct j; try done; by eexists. }
  match goal with |- context [budget_dim ?b ?k ?z] => destruct (Hk k z) as [l1 ->] end. simpl.
  match goal with |- context [budget_dim ?b ?k ?z] => destruct (Hk k z) as [l2 ->] end. by eexists.
Qed.

Lemma start_outcome now n ext w st r w' :
  stored w st → inv st → budget_ok (budget (st_info st)) → (n < 6)%nat →
  cmd_start c now n ext w = (r, w') →
  match start_stage n ext st with
  | inl e => r = Ok (refuse e) ∧ w' = w
  | inr st' => r = Ok ok ∧ advanced now "start" w st' w'
  end.
Proof.
  intros Hs I Hb Hn. unfold cmd_start. rewrite (with_state_stored _ w st Hs I).
  destruct (start_stage n ext st) as [e|st'] eqn:Hst; [by intros [= <- <-]|].
  apply start_stage_spec in Hst as (_ & _ & _ & _ & _ & _ & E7 & _).
  destruct (budget_exceeded_ok (World (<[state_path c := FJson (JObj (encode_state (set_last_updated now st')))]>
    (files w)) (timeline w)) st' now) as [l Hl]; [by rewrite E7|].
  cbv [write modify get lift mbind prog_bind]. rewrite Hl.
  match goal with |- context [log now ?so "start" ?sg ?v ?b ?a ?ex] =>
    destruct (write_log_advanced now st' so "start" sg v b a ex w) as (w2 & Hw & Ha) end.
  cbv [write modify mbind prog_bind] in Hw. rewrite Hw. by intros [= <- <-].
Qed.

(** Run a command that ends in a write and an event. *)
Ltac written now st' w :=
  match goal with |- context [log now ?so ?act ?sg ?v ?b ?a ?ex] =>
    destruct (write_log_advanced now st' so act sg v b a ex w) as (w2 & Hw & Ha);
    cbv [write modify mbind prog_bind] in Hw; cbv [write modify get lift mbind prog_bind]; rewrite Hw end.

Lemma complete_outcome now n meta dir w st r w' :
  stored w st → inv st → (n < 6)%nat → cmd_complete c now n meta dir w = (r, w') →
  match complete_guard n st with
  | Some e => r = Ok (refuse e) ∧ w' = w
  | None =>
      match run_gate w c n st meta dir with
      | Ok ([], warns, []) =>
          r = Ok (Reply 0 [] warns) ∧
          advanced now "complete" w
            (snapshot_stage_artifacts w c n (complete_stage (choose_final_artifact w c) n st)) w'
      | Ok (failures, warns, gate_errors) => r = Ok (Reply 1 (gate_errors ++ failures) warns) ∧ w' = w
      | Raise e => r = Raise e ∧ w' = w
      end
  end.
Proof.
  intros Hs I Hn. unfold cmd_complete. rewrite (with_state_stored _ w st Hs I).
  destruct (complete_guard n st) as [e|] eqn:Hg; [by intros [= <- <-]|].
  cbv [get lift mbind prog_bind]. destruct (run_gate w c n st meta dir) as [[[fs ws] es]|e]; [|by intros [= <- <-]].
  destruct fs as [|f fs], es as [|e es]; try by intros [= <- <-].
  rewrite !bool_decide_true by done. cbv [andb].
  written now (snapshot_stage_artifacts w c n (complete_stage (choose_final_artifact w c) n st)) w.
  by intros [= <- <-].
Qed.

Lemma fail_stage_total final n ft st : (n < 6)%nat → n ≠ 2%nat → ∃ st', fail_stage final n ft st = Ok st'.
Proof.
  intros Hn H2. unfold fail_stage. cbv zeta. case_match; [|by eexists].
  do 6 (destruct n as [|n]; [done || by eexists|]). lia.
Qed.

(** The transition [fail] makes. *)
Definition failed_to (w : world) (n : nat) (reason : option string) (ft : fail_type_t)
    (code : option string) (st : state) : string + state :=
  match nonempty code with
  | Some code => fail_blocked code st
  | None =>
      let revision := bool_decide (reason = Some "design_revision") in
      match fail_guard n revision st with
      | Some e => inl e
      | None =>
          if revision then inr (fail_revision n st)
          else match fail_stage (choose_final_artifact w c) n ft st with
               | Ok st' => inr st' | Raise _ => inl "" end
      end
  end.

Lemma fail_outcome now n reason ft code w st r w' :
  stored w st → inv st → (n < 6)%nat → cmd_fail c now n reason ft code w = (r, w') →
  match failed_to w n reason ft code st with
  | inl e => r = Ok (refuse e) ∧ w' = w
  | inr st' => r = Ok ok ∧ step st st' ∧ advanced now "fail" w st' w'
  end.
Proof.
  intros Hs I Hn. unfold cmd_fail, failed_to. rewrite (with_state_stored _ w st Hs I).
  destruct (nonempty code) as [cd|].
  { destruct (fail_blocked cd st) as [e|st'] eqn:Hb; [by intros [= <- <-]|].
    written now st' w. intros [= <- <-]. eauto using step. }
  cbv zeta. destruct (bool_decide (reason = Some "design_revision")) eqn:Hr;
    destruct (fail_guard n _ st) eqn:Hg; try by intros [= <- <-].
  - written now (fail_revision n st) w. intros [= <- <-]. eauto using step.
  - pose proof (guard_not_terminal _ _ _ Hg) as (_ & H2 & _).
    destruct (fail_stage_total (choose_final_artifact w c) n ft st Hn H2) as [st' Hf].
    cbv [get lift mbind prog_bind]. rewrite Hf.
    written now st' w. intros [= <- <-]. eauto using step.
Qed.

Lemma init_outcome now a w r w' :
  parsed_args a → cmd_init c now a w = (r, w') →
  (w' = w ∧ exit_code <$> r ≠ Ok 0) ∨
  ∃ first rest, files w !! state_path c = None ∧ init_plan a = ([], first :: rest) ∧ r = Ok ok ∧
    advanced now "init" w (initial_state c now a (first :: rest) first) w'.
Proof.
  intros Hp. unfold cmd_init. cbv [get mbind prog_bind]. unfold exists_file.
  case_bool_decide as Hs; [intros [= <- <-]; by left|].
  destruct (init_plan a) as [[|e es] [|first rest]] eqn:Hi; try (intros [= <- <-]; by left).
  written now (initial_state c now a (first :: rest) first) w. intros [= <- <-]. right. exists first, rest.
  split_and!; try done. by apply eq_None_not_Some.
Qed.

Lemma repair_nothing st : well_keyed st → repair_fixes (encode_state st) = [].
Proof.
  intros K. unfold repair_fixes. rewrite (filled_backfill _ (encode_filled _ K)).
  assert (filter (λ k, encode_state st !! k = None) (map_to_list (encode_state st)).*1 = []) as ->; [|done].
  destruct (filter _ _) as [|k l] eqn:Hf; [done|]. assert (k ∈ k :: l) as Hk by left. rewrite <- Hf in Hk.
  apply list_elem_of_filter in Hk as [Hk ([? j] & -> & Hj%elem_of_map_to_list)%list_elem_of_fmap].
  simpl in Hk. by rewrite Hj in Hk.
Qed.

Lemma set_budget_ok old parsed b : set_budget old parsed = ([], b) → budget_ok old → budget_ok b.
Proof.
  unfold set_budget. intros E Ho. destruct parsed as [[]|]; simplify_eq; try done.
  case_bool_decide; [|done]. injection E as E <-. rewrite bool_decide_true by done.
  apply map_Forall_union_2; [|done]. intros k j Hj.
  destruct (bad_budget j) eqn:Hbad; [|done]. exfalso.
  assert ("E-VALUE" ∈ omap (λ kv : string * json, if bad_budget kv.2 then Some "E-VALUE" else None)
    (map_to_list m)) as Hin.
  { apply list_elem_of_omap. exists (k, j). split; [by apply elem_of_map_to_list|]. simpl. by rewrite Hbad. }
  rewrite E in Hin. by apply elem_of_nil in Hin.
Qed.

Lemma set_state_budget w a st st' :
  set_state c w a st = ([], st') → budget_ok (budget (st_info st)) → budget_ok (budget (st_info st')).
Proof.
  unfold set_state. intros E Hb. destruct (set_perf_iteration a _) as [e4 iter].
  destruct (match s_perf_tuning a with Some _ => _ | None => _ end) as [e1 t].
  destruct (match s_env_check a with Some _ => _ | None => _ end) as [e2 env].
  destruct (match s_perf_feedback_action a with Some _ => _ | None => _ end) as [e3 f].
  destruct (match s_budget_json a with Some _ => _ | None => _ end) as [e5 b] eqn:Eb.
  injection E as E <-. simpl. do 4 apply app_eq_nil in E as [_ E]. subst e5.
  destruct (s_budget_json a); [by eapply set_budget_ok|by simplify_eq].
Qed.

Lemma set_outcome now a w st r w' :
  stored w st → inv st → cmd_set c now a w = (r, w') →
  match set_state c w a st with
  | ([], st') => r = Ok ok ∧ advanced now "set" w st' w'
  | (errors, _) => r = Ok (Reply 1 errors []) ∧ w' = w
  end.
Proof.
  intros Hs I. unfold cmd_set. rewrite (with_state_stored _ w st Hs I).
  cbv [get mbind prog_bind]. destruct (set_state c w a st) as [[|e es] st']; [|by intros [= <- <-]].
  written now st' w. by intros [= <- <-].
Qed.

Lemma snapshot_outcome now w st r w' :
  stored w st → inv st → cmd_snapshot c now w = (r, w') →
  r = Ok ok ∧ ∃ st', control st = control st' ∧ st_info st' = st_info st ∧ advanced now "snapshot" w st' w'.
Proof.
  intros Hs I. unfold cmd_snapshot. rewrite (with_state_stored _ w st Hs I).
  cbv [get mbind prog_bind].
  written now (foldl (λ st stage, snapshot_stage_artifacts w c stage st) st [1; 2; 3; 4]%nat) w.
  intros [= <- <-]. split; [done|]. eexists. split; [|split; [|exact Ha]]; done.
Qed.

Lemma verify_outcome now w st r w' :
  stored w st → inv st → cmd_verify c now w = (r, w') →
  let report := VerifyReport [] (drifted c w st) (inconsistent c w st) in
  r = Ok (inr report) ∧
  (w' = w ∨ drift report = [] ∧ consistency report = [] ∧
   ∃ ev, ev_action ev = "verify" ∧ w' = World (files w) (timeline w ++ [Some ev])).
Proof.
  intros Hs I. pose proof (inv_keyed _ I) as K. unfold cmd_verify. cbv [get lift mbind prog_bind]. rewrite Hs.
  rewrite (lint_encode _ K (inv_typed _ I)), (filled_backfill _ (encode_filled _ K)), (decode_encode _ K).
  simpl drift. simpl consistency. cbv [or_raise].
  repeat case_bool_decide; cbv [andb]; intros [= <- <-]; split; try done; try by left.
  right. split; [done|]. split; [done|]. eexists. apply and_comm. by split; [reflexivity|].
Qed.

Lemma repair_outcome now apply w st r w' :
  stored w st → inv st → cmd_repair c now apply w = (r, w') →
  w' = w ∧ ∃ changed, r = Ok (inr ([], changed)).
Proof.
  intros Hs I. pose proof (inv_keyed _ I) as K. unfold cmd_repair. cbv [get lift mbind prog_bind]. rewrite Hs.
  rewrite (filled_backfill _ (encode_filled _ K)), (lint_encode _ K (inv_typed _ I)), (decode_encode _ K).
  rewrite (repair_nothing _ K). rewrite bool_decide_false by (by intros H'). intros [= <- <-].
  split; [done|]. by eexists.
Qed.

Lemma gate_outcome n meta dir w r w' : winv w → cmd_gate c n meta dir w = (r, w') → w' = w.
Proof.
  unfold cmd_gate. intros Hw. cbv [get mbind prog_bind]. case_match.
  - cbv [lift]. destruct (run_gate _ _ _ _ _ _) as [[[? ?] ?]|]; [case_match|]; by intros [= <- <-].
  - destruct Hw as [[Hm _]|(st & Hs & I & _)];
      [rewrite (with_state_missing _ w Hm); by intros [= <- <-]|rewrite (with_state_stored _ w st Hs I)].
    cbv [lift]. destruct (run_gate _ _ _ _ _ _) as [[[? ?] ?]|]; [case_match|]; by intros [= <- <-].
Qed.

Lemma run_missing now cmd w r w' :
  files w !! state_path c = None → run now cmd w = (r, w') →
  match cmd with CInit _ | CGate _ _ _ => True | _ => w' = w ∧ r = Ok 1 end.
Proof.
  intros Hm. destruct cmd; try done; unfold run, cmd_start, cmd_complete, cmd_fail, cmd_snapshot, cmd_set, cmd_show,
    cmd_verify, cmd_repair; cbv [mbind prog_bind]; rewrite ?(with_state_missing _ w Hm), ?(load_missing w Hm);
    cbv [get]; rewrite ?Hm; by intros [= <- <-].
Qed.

(** An outcome in which only an accepted command changed the world. *)
Definition settled (w : world) (now : string) (r : res Z) (w' : world) : Prop :=
  outcome w now r w' ∧ (r ≠ Ok 0 → w' = w).

Lemma settled_unchanged w now r : settled w now r w.
Proof. by split; [constructor|]. Qed.

Lemma settled_ok w now w' : outcome w now (Ok 0) w' → settled w now (Ok 0) w'.
Proof. by split. Qed.

Hint Resolve settled_unchanged settled_ok : core.

Lemma settled_init now a w r w' : parsed_args a → run now (CInit a) w = (r, w') → settled w now r w'.
Proof.
  intros Hp. unfold run, mbind, prog_bind. destruct (cmd_init c now a w) as [r0 w0] eqn:Hi.
  destruct (init_outcome _ _ _ _ _ Hp Hi) as [[-> Hne]|(f & l & ? & Hpl & -> & Ha)].
  - destruct r0; by intros [= <- <-].
  - intros [= <- <-]. apply settled_ok. by eapply created.
Qed.

Lemma settled_gate now n meta dir w r w' :
  winv w → run now (CGate n meta dir) w = (r, w') → settled w now r w'.
Proof.
  intros Hw. unfold run, mbind, prog_bind. destruct (cmd_gate c n meta dir w) as [r0 w0] eqn:Hi.
  pose proof (gate_outcome _ _ _ _ _ _ Hw Hi) as ->. destruct r0; by intros [= <- <-].
Qed.

Section stored.
Context (now : string) (w w' : world) (st : state) (r : res Z).
Context (Hs : stored w st) (I : inv st) (Hb : budget_ok (budget (st_info st))).

Lemma settled_start n ext : (n < 6)%nat → run now (CStart n ext) w = (r, w') → settled w now r w'.
Proof using Hs I Hb.
  intros Hp. unfold run, mbind, prog_bind. destruct (cmd_start c now n ext w) as [r0 w0] eqn:Hi.
  pose proof (start_outcome _ _ _ _ _ _ _ Hs I Hb Hp Hi) as Ho.
  destruct (start_stage n ext st) as [e|st'] eqn:Hst; destruct Ho as [-> Ho]; intros [= <- <-]; [by subst|].
  apply settled_ok. eapply stepped; eauto using step.
  by apply start_stage_spec in Hst as (_ & _ & _ & _ & _ & _ & -> & _).
Qed.

Lemma settled_complete n meta dir :
  (n < 6)%nat → run now (CComplete n meta dir) w = (r, w') → settled w now r w'.
Proof using Hs I.
  intros Hp. unfold run, mbind, prog_bind. destruct (cmd_complete c now n meta dir w) as [r0 w0] eqn:Hi.
  pose proof (complete_outcome _ _ _ _ _ _ _ _ Hs I Hp Hi) as Ho.
  destruct (complete_guard n st) eqn:Hg;
    [|destruct (run_gate w c n st meta dir) as [[[[|f fs] ws] [|e es]]|e]]; destruct Ho as [-> Ho];
    intros [= <- <-]; try by subst.
  apply settled_ok. eapply (stepped w now "complete"); [done|done|by apply step_complete| | |done|exact Ho]; [done|].
  by destruct (complete_stage_spec (choose_final_artifact w c) n st) as (_ & _ & _ & _ & _ & ? & _).
Qed.

Lemma settled_fail n reason ft code :
  (n < 6)%nat → run now (CFail n reason ft code) w = (r, w') → settled w now r w'.
Proof using Hs I.
  intros Hp. unfold run, mbind, prog_bind. destruct (cmd_fail c now n reason ft code w) as [r0 w0] eqn:Hi.
  pose proof (fail_outcome _ _ _ _ _ _ _ _ _ Hs I Hp Hi) as Ho.
  destruct (failed_to w n reason ft code st) as [e|st'] eqn:Hst.
  - destruct Ho as [-> ->]. by intros [= <- <-].
  - destruct Ho as (-> & Hstep & Ha). intros [= <- <-]. apply settled_ok.
    eapply (stepped w now "fail"); [done|done|done|done| |done|exact Ha]. by apply step_info.
Qed.

Lemma settled_other cmd :
  match cmd with CSnapshot | CShow | CVerify | CRepair _ | CSet _ => True | _ => False end →
  run now cmd w = (r, w') → settled w now r w'.
Proof using Hs I Hb.
  intros Hp. destruct cmd; try done; unfold run, mbind, prog_bind.
  - destruct (cmd_snapshot c now w) as [r0 w0] eqn:Hi.
    destruct (snapshot_outcome _ _ _ _ _ Hs I Hi) as (-> & st' & Hc & Hin & Ha). intros [= <- <-].
    apply settled_ok. eapply (moved w now "snapshot"); [done|done|done| |done|exact Ha]. by rewrite Hin.
  - unfold cmd_show. rewrite (load_stored w st Hs I). by intros [= <- <-].
  - destruct (cmd_verify c now w) as [r0 w0] eqn:Hi.
    destruct (verify_outcome _ _ _ _ _ Hs I Hi) as (-> & [->|(Hd & Hc & ev & Hev & ->)]); [by intros [= <- <-]|].
    simpl in Hd, Hc. rewrite Hd, Hc. intros [= <- <-]. apply settled_ok, verified; [by rewrite Hs|done].
  - destruct (cmd_repair c now apply w) as [r0 w0] eqn:Hi.
    destruct (repair_outcome _ _ _ _ _ _ Hs I Hi) as (-> & ch & ->). by intros [= <- <-].
  - destruct (cmd_set c now a w) as [r0 w0] eqn:Hi. pose proof (set_outcome _ _ _ _ _ _ Hs I Hi) as Ho.
    pose proof (control_set w c a st) as Hc.
    destruct (set_state c w a st) as [[|e es] st'] eqn:Hst; destruct Ho as [-> Ho]; intros [= <- <-]; [|by subst].
    apply settled_ok. eapply (moved w now "set"); [done|done| | |done|exact Ho]; [done|]. by eapply set_state_budget.
Qed.
End stored.

(** Every command on a well-formed world has one of the outcomes. *)
Lemma run_settled now cmd w r w' : winv w → parsed cmd → run now cmd w = (r, w') → settled w now r w'.
Proof.
  intros Hw Hp Hr. pose proof Hw as [[Hm _]|(st & Hs & I & Hb & _)].
  - pose proof (run_missing _ _ _ _ _ Hm Hr) as Hc.
    destruct cmd; try (by destruct Hc as [-> ->]); by eauto using settled_init, settled_gate.
  - destruct cmd; simpl in Hp;
      [by eapply settled_init|by eapply settled_start|by eapply settled_complete|by eapply settled_fail|
       by eapply settled_gate|by eapply settled_other; [..|exact Hr]..].
Qed.

(** ** The invariant of reachable worlds *)

Lemma starts_advanced now action w st' w' :
  advanced now action w st' w' → starts w' = starts w + if decide (action = "start") then 1 else 0.
Proof.
  intros (_ & (ev & Ht & Ha) & _). unfold starts. rewrite Ht, filter_app. unfold len.
  rewrite length_app, Nat2Z.inj_add. f_equal. rewrite filter_cons, filter_nil. unfold is_start. rewrite Ha.
  by repeat case_bool_decide; repeat case_decide.
Qed.

Lemma fuel_initial now a first rest :
  fuel (initial_state c now a (first :: rest) first) = 68 * Z.max 1 (a_max_retry a) + 59.
Proof.
  unfold fuel. rewrite decide_False.
  - replace (stage_fuel _) with 58 by (by vm_compute). change (revision_pending _) with false.
    change (max_retry _) with (a_max_retry a). change (retry_count _) with 0. cbv iota. lia.
  - simpl. intros E. pose proof (STAGE_PHASE_not_terminal first) as E'. by rewrite E in E'.
Qed.

Lemma stored_unique w st st' : stored w st → inv st → stored w st' → inv st' → st = st'.
Proof.
  intros Hs I Hs' I'. pose proof (load_stored w st Hs I) as E. rewrite (load_stored w st' Hs' I') in E.
  by injection E.
Qed.

(** A log entry that is no dispatch leaves the count. *)
Lemma starts_app fs w ev :
  ev_action ev ≠ "start" → starts (World fs (timeline w ++ [Some ev])) = starts w.
Proof.
  intros Ha. unfold starts. simpl. rewrite filter_app, filter_cons_False, app_nil_r; [done|].
  simpl. by rewrite bool_decide_false.
Qed.

Lemma winv_settled w now r w' : winv w → outcome w now r w' → winv w'.
Proof.
  intros Hw Ho.
  destruct Ho as [r|ev Hm Hev|a f l w' Hm Ha Hpl Had|act st st' w' Hst I Hc Hb Hact Had|
                  act st st1 st' w' Hst I Hstep Hc Hi Hact Had]; [done| | | |];
    [destruct Hw as [[? _]|(st0 & Hst0 & I0 & Hb0 & Hf)]; [done|]
    |destruct Hw as [[_ Ht]|(st0 & Hst0 & _)]; [|by rewrite Hst0 in Hm]
    |destruct Hw as [[Hn _]|(st0 & Hst0 & I0 & Hb0 & Hf)]; [unfold stored in Hst; by rewrite Hn in Hst|];
     pose proof (stored_unique _ _ _ Hst0 I0 Hst I) as ->..]; right.
  - exists st0. split_and!; try done. rewrite starts_app; [done|by rewrite Hev].
  - eexists. split; [apply Had|]. split; [|split].
    + eapply inv_control; [symmetry; apply control_last_updated|]. by apply inv_initial.
    + simpl. apply (bool_decide_unpack _). by vm_compute.
    + rewrite (starts_advanced _ _ _ _ _ Had), (fuel_control _ _ (control_last_updated _ _)), fuel_initial.
      rewrite decide_False by done. unfold starts. rewrite Ht. change (len (filter _ [])) with 0.
      change (max_retry _) with (a_max_retry a). lia.
  - exists (set_last_updated now st'). split; [apply Had|]. split; [|split].
    + eapply inv_control; [|exact I]. by rewrite Hc.
    + done.
    + rewrite (starts_advanced _ _ _ _ _ Had), decide_False by done.
      rewrite (fuel_control _ _ (control_last_updated _ _)), <- (fuel_control _ _ Hc).
      assert (max_retry st' = max_retry st) as E by (injection Hc; done). simpl. rewrite E. lia.
  - pose proof (inv_step _ _ I Hstep) as I1. exists (set_last_updated now st'). split; [apply Had|]. split; [|split].
    + eapply inv_control; [|exact I1]. by rewrite Hc.
    + simpl. by rewrite Hi.
    + rewrite (starts_advanced _ _ _ _ _ Had).
      rewrite (fuel_control _ _ (control_last_updated _ _)), <- (fuel_control _ _ Hc).
      assert (max_retry st' = max_retry st1) as E by (injection Hc; done). simpl.
      rewrite E, (step_max_retry _ _ Hstep). pose proof (fuel_step _ _ I Hstep) as [Hle _].
      case_decide as Hd; [|lia]. destruct (Hact Hd) as (n & ext & Hn & Hss).
      pose proof (fuel_start _ _ _ _ I Hn Hss). lia.
Qed.

Lemma winv_step w w' : winv w → wstep w w' → winv w'.
Proof.
  intros Hw Hs. destruct Hs as [now cmd w w' r Hp Hr|w fs Hfs].
  - destruct (run_settled _ _ _ _ _ Hw Hp Hr) as [Ho _]. by eapply winv_settled.
  - destruct Hw as [[Hm Ht]|(st & Hst & I & Hb & Hf)]; [left; split; [by rewrite <- Hm|done]|].
    right. exists st. split_and!; try done. unfold stored. simpl. by rewrite Hfs.
Qed.

(** A world before [init]. *)
Definition fresh (w : world) : Prop := files w !! state_path c = None ∧ timeline w = [].

Lemma winv_reachable w0 w : fresh w0 → rtc wstep w0 w → winv w.
Proof. intros Hf Hr. assert (winv w0) as H' by by left. clear Hf. induction Hr; eauto using winv_step. Qed.

(** C2: whatever commands are run after [init] and whatever else the agents write
    in between, the state file can be read back, passes the schema check without
    failure or warning, and holds a state of the workflow invariant: the plan and
    the keys are stages, only planned stages have a status, at most one stage is in
    progress and the phase names it unless the workflow is over, no counter exceeds
    its limit, a stage at its limit has ended the workflow, and a failed workflow
    is one that has a failure reason. *)
Theorem reachable_state_sound w0 w :
  fresh w0 → rtc wstep w0 w →
  fresh w ∨
  ∃ d st, files w !! state_path c = Some (FJson (JObj d)) ∧
    load c w = (Ok (inr st), w) ∧ GateLint.state_schema_lint d = Ok ([], []) ∧ inv st.
Proof.
  intros Hf Hr. destruct (winv_reachable _ _ Hf Hr) as [|(st & Hs & I & _)]; [by left|]. right.
  exists (encode_state st), st. split; [done|]. split; [by apply load_stored|].
  split; [|done]. apply lint_encode; apply I.
Qed.

(** C9: the number of agents a workflow dispatches is bounded by its retry
    budget alone, in whatever order the commands come. *)
Theorem dispatches_bounded w0 w st :
  fresh w0 → rtc wstep w0 w → load c w = (Ok (inr st), w) →
  starts w ≤ 68 * Z.max 1 (max_retry st) + 59.
Proof.
  intros Hf Hr Hl. destruct (winv_reachable _ _ Hf Hr) as [[Hm _]|(st' & Hs & I & _ & Hle)].
  - by rewrite (load_missing w Hm) in Hl.
  - rewrite (load_stored w st' Hs I) in Hl. simplify_eq. pose proof (fuel_nonneg _ I). lia.
Qed.

(** C27: a command that does not exit with 0 (a refusal, a gate that fails, an
    exception of a gate) leaves every file and the log as they were. *)
Theorem refused_changes_nothing w0 w now cmd r w' :
  fresh w0 → rtc wstep w0 w → parsed cmd → run now cmd w = (r, w') → r ≠ Ok 0 → w' = w.
Proof.
  intros Hf Hr Hp Hrun. by destruct (run_settled _ _ _ _ _ (winv_reachable _ _ Hf Hr) Hp Hrun).
Qed.

Lemma failed_step w w' :
  winv w → wstep w w' → (∃ st, stored w st ∧ inv st ∧ phase st = FAILED) →
  ∃ st, stored w' st ∧ inv st ∧ phase st = FAILED.
Proof.
  intros Hw Hs (st & Hst & I & Hph). pose proof (winv_step _ _ Hw Hs) as Hw'.
  destruct Hs as [now cmd w w' r Hp Hr|w fs Hfs];
    [|exists st; split; [unfold stored; by rewrite <- Hst|done]].
  destruct (run_settled _ _ _ _ _ Hw Hp Hr) as [Ho _].
  destruct Ho as [r|ev Hm Hev|a f l w' Hm Ha Hpl Had|act st0 st' w' Hst0 I0 Hc Hb Hact Had|
                  act st0 st1 st' w' Hst0 I0 Hstep Hc Hi Hact Had].
  - by exists st.
  - by exists st.
  - by rewrite Hst in Hm.
  - pose proof (stored_unique _ _ _ Hst0 I0 Hst I) as ->. exists (set_last_updated now st').
    split; [apply Had|]. split; [by apply (inv_control st)|]. simpl. rewrite <- Hph. by injection Hc.
  - pose proof (stored_unique _ _ _ Hst0 I0 Hst I) as ->. pose proof (step_terminal _ _ Hstep) as Hph'.
    rewrite Hph in Hph'. exists (set_last_updated now st'). split; [apply Had|].
    split; [apply (inv_control st1); [by rewrite Hc|by eapply inv_step]|]. simpl. rewrite <- Hph'. by injection Hc.
Qed.

(** A workflow that has failed stays failed. *)
Theorem failed_is_final w0 w w' st :
  fresh w0 → rtc wstep w0 w → load c w = (Ok (inr st), w) → phase st = FAILED → rtc wstep w w' →
  ∃ st', load c w' = (Ok (inr st'), w') ∧ phase st' = FAILED.
Proof.
  intros Hf Hr Hl Hph Hr'. pose proof (winv_reachable _ _ Hf Hr) as Hw.
  assert (∃ st, stored w st ∧ inv st ∧ phase st = FAILED) as Hs.
  { destruct Hw as [[Hm _]|(st' & Hs & I & _)]; [by rewrite (load_missing w Hm) in Hl|].
    rewrite (load_stored w st' Hs I) in Hl. simplify_eq. by exists st. }
  clear Hf Hr Hl Hph st. induction Hr' as [w|w w1 w2 Hs1 Hr' IH].
  - destruct Hs as (st & Hs & I & Hph). exists st. split; [by apply load_stored|done].
  - apply IH; [by eapply winv_step|by eapply failed_step].
Qed.

(** ** Finishing a workflow *)

Section finish.
Context (meta dir : option string) (w0 : world) (st0 : state).

(** The files of the agents are those of [w0]. *)
Definition same_files (w : world) : Prop := ∀ p, p ≠ state_path c → files w !! p = files w0 !! p.

(** The artifacts of the operator are finished: the gate of every stage of the
    plan of [st0] passes on the files of [w0], for the scenario, the operator and
    the paths of [st0], whatever the state file says of the progress. *)
Definition gates_pass : Prop := ∀ w n st,
  same_files w → st_info st = st_info st0 → n ∈ stage_plan st0 →
  ∃ warns, run_gate w c n st meta dir = Ok ([], warns, []).

(** An accepted [start] or [complete]. *)
Inductive work : world → world → Prop :=
  | work_start now n w w' : (n < 6)%nat → run now (CStart n false) w = (Ok 0, w') → work w w'
  | work_complete now n w w' : (n < 6)%nat → run now (CComplete n meta dir) w = (Ok 0, w') → work w w'.

(** What the gates look at besides the files. *)
Definition same_operator (st : state) : Prop := st_info st = st_info st0 ∧ stage_plan st = stage_plan st0.

Lemma start_keeps_plan n st st' : start_stage n false st = inr st' → stage_plan st' = stage_plan st.
Proof.
  unfold start_stage. destruct (start_plan n false st) as [e|st1] eqn:Hp; [done|].
  assert (st1 = st) as ->.
  { unfold start_plan in Hp. simpl in Hp. repeat case_match; by simplify_eq. }
  repeat case_match; intros; by simplify_eq.
Qed.

Lemma work_step w st :
  gates_pass → same_files w → same_operator st →
  stored w st → inv st → budget_ok (budget (st_info st)) → is_terminal (phase st) = false →
  ∃ w' st', work w w' ∧ stored w' st' ∧ inv st' ∧ budget_ok (budget (st_info st')) ∧ fuel st' < fuel st ∧
    phase st' ≠ FAILED ∧ same_files w' ∧ same_operator st'.
Proof.
  intros Hg Hsame [Hinfo Hplan] Hs I Hb Ht. destruct (progress st I Ht) as [(n & Hn & Hc)|(n & st1 & Hn & Hst)].
  - destruct (cmd_complete c "" n meta dir w) as [r w'] eqn:Hrun.
    pose proof (complete_outcome _ _ _ _ _ _ _ _ Hs I Hn Hrun) as Ho. rewrite Hc in Ho.
    assert (n ∈ stage_plan st0) as Hin.
    { rewrite <- Hplan. apply (inv_planned _ I). unfold complete_guard in Hc. rewrite Ht in Hc.
      by destruct (status_of st n). }
    destruct (Hg w n st Hsame Hinfo Hin) as [ws Hgate]. rewrite Hgate in Ho. destruct Ho as [-> (Hw & _ & Hp)].
    set (st1 := complete_stage (choose_final_artifact w c) n st) in *.
    assert (control (set_last_updated "" (snapshot_stage_artifacts w c n st1)) = control st1) as Hctl by done.
    exists w', (set_last_updated "" (snapshot_stage_artifacts w c n st1)). split_and!.
    + apply (work_complete "" n); [done|]. unfold run, mbind, prog_bind. by rewrite Hrun.
    + done.
    + apply (inv_control st1); [done|]. by apply inv_complete.
    + simpl. unfold st1. by destruct (complete_stage_spec (choose_final_artifact w c) n st)
        as (_ & _ & _ & _ & _ & -> & _).
    + rewrite (fuel_control _ _ Hctl). by apply fuel_complete.
    + simpl. unfold st1. destruct (complete_stage_spec (choose_final_artifact w c) n st)
        as (_ & _ & _ & _ & _ & _ & _ & _ & [[-> _]|(s & _ & _ & ->)]); [done|].
      by apply not_terminal, STAGE_PHASE_not_terminal.
    + intros p Hne. rewrite Hp by done. by apply Hsame.
    + unfold same_operator. simpl. unfold st1.
      by destruct (complete_stage_spec (choose_final_artifact w c) n st) as (_ & _ & -> & _ & _ & -> & _).
  - destruct (cmd_start c "" n false w) as [r w'] eqn:Hrun.
    pose proof (start_outcome _ _ _ _ _ _ _ Hs I Hb Hn Hrun) as Ho. rewrite Hst in Ho.
    destruct Ho as [-> (Hw & _ & Hp)]. exists w', (set_last_updated "" st1). split_and!.
    + apply (work_start "" n); [done|]. unfold run, mbind, prog_bind. by rewrite Hrun.
    + done.
    + apply (inv_control st1); [done|]. by eapply inv_start.
    + simpl. by apply start_stage_spec in Hst as (_ & _ & _ & _ & _ & _ & -> & _).
    + rewrite (fuel_control _ _ (control_last_updated _ _)). by eapply fuel_start.
    + simpl. apply start_stage_spec in Hst as (_ & _ & -> & _). by apply not_terminal, STAGE_PHASE_not_terminal.
    + intros p Hne. rewrite Hp by done. by apply Hsame.
    + unfold same_operator. simpl. rewrite (start_keeps_plan _ _ _ Hst).
      by apply start_stage_spec in Hst as (_ & _ & _ & _ & _ & _ & -> & _).
Qed.

Lemma work_done w st :
  gates_pass → same_files w → same_operator st →
  stored w st → inv st → budget_ok (budget (st_info st)) → phase st ≠ FAILED →
  ∃ w' st', rtc work w w' ∧ stored w' st' ∧ inv st' ∧ phase st' = DONE.
Proof.
  intros Hg. remember (Z.to_nat (fuel st)) as k eqn:Hk. revert w st Hk.
  induction k as [k IH] using lt_wf_ind. intros w st -> Hsame Hop Hs I Hb Hnf.
  destruct (is_terminal (phase st)) eqn:Ht; [exists w, st; destruct (phase st); eauto using rtc_refl; done|].
  destruct (work_step w st Hg Hsame Hop Hs I Hb Ht)
    as (w1 & st1 & Hw & Hs1 & I1 & Hb1 & Hfu & Hnf1 & Hsame1 & Hop1).
  destruct (IH (Z.to_nat (fuel st1))) with (w := w1) (st := st1) as (w2 & st2 & Hr & Hrest); try done.
  { pose proof (fuel_nonneg _ I1). lia. }
  exists w2, st2. split; [by eapply rtc_l|done].
Qed.
End finish.

(** C6: from every reachable state that has not failed, once the artifacts are
    finished, that is once the gate of every planned stage passes on the files as
    they are for the operator, scenario and paths of the state, some sequence of
    [start] and [complete] finishes the workflow: no order of failures, revisions
    and extensions leaves it stuck. *)
Theorem workflow_can_finish meta dir wi w st :
  fresh wi → rtc wstep wi w → load c w = (Ok (inr st), w) → phase st ≠ FAILED → gates_pass meta dir w st →
  ∃ w' st', rtc (work meta dir) w w' ∧ load c w' = (Ok (inr st'), w') ∧ phase st' = DONE.
Proof.
  intros Hf Hr Hl Hph Hg. destruct (winv_reachable _ _ Hf Hr) as [[Hm _]|(st1 & Hs & I & Hb & _)];
    [by rewrite (load_missing w Hm) in Hl|].
  rewrite (load_stored w st1 Hs I) in Hl. simplify_eq.
  destruct (work_done meta dir w st w st Hg) as (w' & st' & Hw & Hs' & I' & Hd); try done.
  exists w', st'. split; [done|]. split; [by apply load_stored|done].
Qed.
End runs.

(** ** The summary of the log *)

Definition stage_events (n : nat) (events : list event) : list event :=
  filter (λ ev, ev_stage ev = Some n) events.

Definition count_action (action : string) (events : list event) : Z :=
  len (filter (λ ev, action_of ev = action) events).

Definition attempt_durations (events : list event) : list Z :=
  omap (λ ev, if decide (action_of ev = "complete" ∨ action_of ev = "fail")
              then ev_duration_s ev else None) events.

Arguments count_action : simpl never.
Arguments attempt_durations : simpl never.

(** The row of a stage, from its events alone. *)
Definition stage_row_of (n : nat) (events : list event) : option stage_row :=
  match stage_events n events with
  | [] => None
  | (first :: _) as evs =>
      Some (StageRow
        (match nonempty (ev_subagent first) with Some s => Some s | None => STAGE_SUBAGENT n end)
        (count_action "start" evs) (count_action "complete" evs) (count_action "fail" evs)
        (attempt_durations evs))
  end.

Definition summarize (events : list event) : summary_acc :=
  foldl summary_step (SummaryAcc ∅ ∅ [] [] None) events.

Lemma summarize_snoc events ev : summarize (events ++ [ev]) = summary_step (summarize events) ev.
Proof. apply foldl_snoc. Qed.

Lemma count_snoc action evs ev :
  count_action action (evs ++ [ev]) = count_action action evs + if decide (action_of ev = action) then 1 else 0.
Proof.
  unfold count_action. rewrite filter_app. unfold len. rewrite length_app, Nat2Z.inj_add. f_equal.
  rewrite filter_cons, filter_nil. by repeat case_decide.
Qed.

Lemma attempt_durations_snoc evs ev :
  attempt_durations (evs ++ [ev]) = attempt_durations evs ++
    if decide (action_of ev = "complete" ∨ action_of ev = "fail") then option_list (ev_duration_s ev) else [].
Proof. unfold attempt_durations. rewrite omap_app. simpl. case_decide; [|done]. by destruct (ev_duration_s ev). Qed.

Lemma stage_events_snoc n events ev :
  stage_events n (events ++ [ev]) = stage_events n events ++ if decide (ev_stage ev = Some n) then [ev] else [].
Proof. unfold stage_events. rewrite filter_app, filter_cons, filter_nil. done. Qed.

(** The row after an event is the row of the events so far and that event. *)
Lemma row_step_of evs rec ev :
  rec = StageRow (row_subagent rec) (count_action "start" evs) (count_action "complete" evs)
          (count_action "fail" evs) (attempt_durations evs) →
  row_step rec ev = StageRow (row_subagent rec) (count_action "start" (evs ++ [ev]))
    (count_action "complete" (evs ++ [ev])) (count_action "fail" (evs ++ [ev])) (attempt_durations (evs ++ [ev])).
Proof.
  intros ->. rewrite !count_snoc, attempt_durations_snoc. unfold row_step. simpl.
  repeat case_decide; simplify_eq/=; try (naive_solver congruence); by rewrite ?Z.add_0_r, ?app_nil_r.
Qed.

Lemma summary_rows events n : stage_rows (summarize events) !! n = stage_row_of n events.
Proof.
  induction events as [|ev events IH] using rev_ind; [done|].
  rewrite summarize_snoc. unfold summary_step, stage_row_of in *. rewrite stage_events_snoc.
  destruct (decide (ev_stage ev = Some n)) as [Hm|Hm]; [rewrite Hm|rewrite app_nil_r; destruct (ev_stage ev);
    simpl; [rewrite lookup_insert_ne by congruence|]; exact IH].
  simpl stage_rows. rewrite lookup_insert_eq. unfold row_of. rewrite IH.
  destruct (stage_events n events) as [|e0 evs] eqn:He; simpl default.
  - rewrite (row_step_of [] _ ev eq_refl). done.
  - rewrite (row_step_of (e0 :: evs) _ ev eq_refl). done.
Qed.

Lemma summary_counts events a : default 0 (action_counts (summarize events) !! a) = count_action a events.
Proof.
  induction events as [|ev events IH] using rev_ind; [done|].
  rewrite summarize_snoc, count_snoc, <- IH.
  assert (action_counts (summary_step (summarize events) ev) =
    <[action_of ev := default 0 (action_counts (summarize events) !! action_of ev) + 1]>
      (action_counts (summarize events))) as -> by (unfold summary_step; by destruct (ev_stage ev)).
  destruct (decide (action_of ev = a)) as [<-|]; [by rewrite lookup_insert_eq|].
  rewrite lookup_insert_ne by done. lia.
Qed.

(** The failures of a log, in order. *)
Definition is_failure (ev : event) : bool :=
  bool_decide (action_of ev = "fail") && bool_decide (is_Some (ev_stage ev)).

Lemma summary_failures events :
  (λ f, (Some (fail_stage_no f), fail_ts f, fail_duration_s f)) <$> failures (summarize events) =
  (λ ev, (ev_stage ev, ev_ts ev, ev_duration_s ev)) <$> filter (λ ev, is_failure ev = true) events.
Proof.
  induction events as [|ev events IH] using rev_ind; [done|].
  rewrite summarize_snoc, filter_app, fmap_app, <- IH. unfold summary_step, is_failure.
  destruct (ev_stage ev) as [n|] eqn:Hn; simpl.
  - case_decide as Ha.
    + rewrite fmap_app, filter_cons_True by (by rewrite Hn, !bool_decide_true). simpl. by rewrite Hn.
    + rewrite filter_cons_False by (by rewrite bool_decide_false). by rewrite app_nil_r.
  - rewrite filter_cons_False, app_nil_r; [done|]. rewrite Hn, andb_comm. by simpl.
Qed.

Lemma starts_count w : count_action "start" (read_timeline_events w) = starts w.
Proof.
  unfold starts, read_timeline_events, count_action, len. f_equal.
  assert (∀ ev, action_of ev = "start" ↔ ev_action ev = "start") as Ha.
  { intros ev. unfold action_of. destruct (ev_action ev); naive_solver. }
  induction (timeline w) as [|[ev|] l IH]; [done| |].
  - simpl. destruct (decide (ev_action ev = "start")) as [Hs|Hs].
    + rewrite filter_cons_True, filter_cons_True; [|by simpl; rewrite bool_decide_true|by apply Ha].
      simpl. by f_equal.
    + rewrite filter_cons_False, filter_cons_False; [done|by simpl; rewrite bool_decide_false|by rewrite Ha].
  - rewrite filter_cons_False; done.
Qed.

(** C28: the summary of a log counts, for every stage with events, its starts,
    completions and failures and lists the durations of its attempts in order, and
    no other stage has a row; it counts the events of every action, its dispatches
    are the starts the log records, and its failures are the failures of the log in
    order. *)
Theorem timeline_summary_spec `{Host} log_exists w s :
  cmd_timeline_summary log_exists w = inr s →
  let events := read_timeline_events w in
  dispatches s = starts w ∧
  (∀ a, default 0 (sum_action_counts s !! a) = count_action a events) ∧
  (∀ n, sum_stages s !! n = (λ row, (row, duration_s_total (durations_s row))) <$> stage_row_of n events) ∧
  (λ f, (Some (fail_stage_no f), fail_ts f, fail_duration_s f)) <$> sum_failures s =
  (λ ev, (ev_stage ev, ev_ts ev, ev_duration_s ev)) <$> filter (λ ev, is_failure ev = true) events.
Proof.
  unfold cmd_timeline_summary. destruct log_exists; [|done]. intros [= <-].
  change (foldl summary_step _ (read_timeline_events w)) with (summarize (read_timeline_events w)).
  cbn [dispatches sum_action_counts sum_stages sum_failures]. split; [|split; [|split]].
  - by rewrite summary_counts, starts_count.
  - apply summary_counts.
  - intros n. by rewrite lookup_fmap, summary_rows.
  - apply summary_failures.
Qed.

(** ** Orders of commands the guards let through *)

(** [start] and [complete] of a stage, the gate taken as passed, and a revision. *)
Definition try_complete (n : nat) (st : state) : string + state :=
  match complete_guard n st with Some e => inl e | None => inr (complete_stage (λ _, None) n st) end.
Definition try_revision (n : nat) (st : state) : string + state :=
  match fail_guard n true st with Some e => inl e | None => inr (fail_revision n st) end.
Definition then_ (o : string + state) (f : state → string + state) : string + state :=
  match o with inl e => inl e | inr st => f st end.

(** The new operator workflow with its default plan. *)
Definition default_args : init_args := InitArgs "p" "op" "new_op" None None 3 None None None.
Definition example_ctx : Ctx := MkCtx "/r/op" "/r" "op".
Definition after_init : state := initial_state example_ctx "t" default_args [1; 2; 3]%nat 1.

(** A stage in one go. *)
Definition do_stage (n : nat) (st : state) : string + state := then_ (start_stage n false st) (try_complete n).

(** The design is redone after the review that follows a revision, and
    development starts on it without a further review: the permission to redo a
    completed design is only withdrawn when it is used. *)
Lemma redesign_escapes_review :
  ∃ st, foldl then_ (inr after_init)
          [do_stage 1; do_stage 2; start_stage 3 false; try_revision 3;
           do_stage 2; do_stage 1; start_stage 3 false] = inr st ∧
        status_of st 3 = Some in_progress.
Proof. eexists. split; vm_compute; reflexivity. Qed.

(** A finished workflow is turned into a failed one by a blocked code. *)
Lemma done_can_be_blocked :
  ∃ st st', foldl then_ (inr after_init) [do_stage 1; do_stage 2; do_stage 3] = inr st ∧ phase st = DONE ∧
    fail_blocked "BLOCKED_IMPL" st = inr st' ∧ phase st' = FAILED.
Proof. eexists _, _. split_and!; vm_compute; reflexivity. Qed.

(** ** Witnesses *)
Module StatectlRunEx.

#[local] Instance host : Host := {| sha256 _ := "h"; parse_ts _ := Some 0 |}.
(** Gates that, like those of the repository, fail on a file that is missing or
    empty. *)
Definition needs (rule : string) (fs : gmap string fcontent) (paths : list string) : list string * list string :=
  (if forallb (λ p, match fs !! p with
                    | Some (FText s) => negb (bool_decide (s = ""))
                    | Some (FJson _) => true
                    | None => false
                    end) paths then [] else [rule], []).

#[local] Instance lints : GateLints := {|
  meta_lint m fs := needs "S0-META" fs [m];
  design_lint p _ fs := needs "S1-MISSING" fs [p];
  review_lint p _ fs := needs "S2-MISSING" fs [p];
  kernel_lint p _ fs := needs "S3-MISSING" fs [p];
  perf_lint k l f r _ fs := needs "S4-MISSING" fs [k; l; f; r];
  integration_lint _ fs := needs "S5-MISSING" fs ["integration_report.json"] |}.

(** The design, the review and the kernel are there. *)
Definition w0 : world :=
  World {[ "/r/op/DESIGN.md" := FText "# design"; "/r/op/REVIEW.md" := FText "# review";
           "/r/op/op.py" := FText "def op(): pass" ]} [].
Definition wa : world := (run example_ctx "t" (CInit default_args) w0).2.
Definition wb : world := (run example_ctx "t" (CStart 1 false) wa).2.
Definition wc : world := (run example_ctx "t" (CFail 1 None runtime (Some "BLOCKED_DESIGN")) wb).2.

(** The state of a world that holds one. *)
Definition state_of (w : world) : state :=
  match (load example_ctx w).1 with Ok (inr st) => st | _ => after_init end.

Lemma fresh_w0 : fresh example_ctx w0.
Proof. by split; vm_compute. Qed.

Lemma default_parsed : parsed_args default_args.
Proof. split; [by apply (bool_decide_unpack _)|done]. Qed.

Lemma reach_b : rtc (wstep example_ctx) w0 wb.
Proof.
  eapply rtc_l; [eapply (wstep_run _ "t" (CInit default_args)); [exact default_parsed|by apply surjective_pairing]|].
  eapply rtc_l; [|apply rtc_refl].
  eapply (wstep_run _ "t" (CStart 1 false)); [by vm_compute; lia|by apply surjective_pairing].
Qed.

Lemma reach_c : rtc (wstep example_ctx) wb wc.
Proof.
  eapply rtc_l; [|apply rtc_refl].
  eapply (wstep_run _ "t" (CFail 1 None runtime (Some "BLOCKED_DESIGN"))); [simpl; lia|by apply surjective_pairing].
Qed.

(** Without the kernel the gate of development fails, so the gates do not pass
    in every world. *)
Example gate_needs_kernel :
  run_gate (World ∅ []) example_ctx 3 (state_of wb) None None = Ok (["S3-MISSING"], [], []).
Proof. by vm_compute. Qed.

Lemma gates_b : gates_pass example_ctx None None wb (state_of wb).
Proof.
  intros w n st Hsame Hinfo Hn.
  assert (∀ p, p ∈ ["/r/op/DESIGN.md"; "/r/op/REVIEW.md"; "/r/op/op.py"] →
    files w !! p = files w0 !! p) as Hf.
  { intros p Hp. rewrite Hsame; [|by intros ->; revert Hp; apply (bool_decide_unpack _)].
    revert p Hp. apply Forall_forall. by repeat constructor. }
  assert (stage_plan (state_of wb) = [1; 2; 3]%nat) as Hplan by (by vm_compute).
  rewrite Hplan in Hn.
  assert (st_info st = st_info after_init) as Hi by (rewrite Hinfo; by vm_compute).
  exists []. set_unfold in Hn. destruct_or!; subst n; cbn [run_gate];
    unfold design_art, review_art, kernel_art, op_or_default; rewrite Hi; cbn;
    unfold needs; cbn; rewrite Hf by (apply (bool_decide_unpack _); by vm_compute); by vm_compute.
Qed.

Lemma reachable_state_sound_witness :
  fresh example_ctx wb ∨
  ∃ d st, files wb !! state_path example_ctx = Some (FJson (JObj d)) ∧
    load example_ctx wb = (Ok (inr st), wb) ∧ GateLint.state_schema_lint d = Ok ([], []) ∧ inv st.
Proof. exact (reachable_state_sound example_ctx w0 wb fresh_w0 reach_b). Defined.

Lemma dispatches_bounded_witness : starts wb ≤ 68 * Z.max 1 (max_retry (state_of wb)) + 59.
Proof. apply (dispatches_bounded example_ctx w0 wb (state_of wb) fresh_w0 reach_b). by vm_compute. Defined.

Lemma refused_changes_nothing_witness :
  (run example_ctx "t" (CStart 2 false) wb).2 = wb.
Proof.
  apply (refused_changes_nothing example_ctx w0 wb "t" (CStart 2 false) (run example_ctx "t" (CStart 2 false) wb).1
    _ fresh_w0 reach_b); [simpl; lia|apply surjective_pairing|by vm_compute].
Defined.

Lemma failed_is_final_witness :
  ∃ st', load example_ctx wc = (Ok (inr st'), wc) ∧ phase st' = FAILED.
Proof.
  apply (failed_is_final example_ctx w0 wc wc (state_of wc) fresh_w0 (transitivity reach_b reach_c));
    [by vm_compute|by vm_compute|apply rtc_refl].
Defined.

Lemma workflow_can_finish_witness :
  ∃ w' st', rtc (work example_ctx None None) wb w' ∧
    load example_ctx w' = (Ok (inr st'), w') ∧ phase st' = DONE.
Proof.
  apply (workflow_can_finish example_ctx None None w0 wb (state_of wb) fresh_w0 reach_b);
    [by vm_compute|by vm_compute|exact gates_b].
Defined.

Lemma timeline_summary_spec_witness :
  match cmd_timeline_summary true wb with inr s => dispatches s = 1 | inl _ => False end.
Proof.
  destruct (cmd_timeline_summary true wb) as [e|s] eqn:E; [by vm_compute in E|].
  transitivity (starts wb); [apply (timeline_summary_spec true wb s E)|by vm_compute].
Defined.

End StatectlRunEx.
