(* ===== verification/Migration.v ===== *)
(** * The aggregate state of a migration

    The [migration] commands of [src/.agents/tools/statectl.py]: the functions of
    an operator are developed one by one, then integrated.  The aggregate state is
    one more JSON file beside the states of the functions; the gates of stages 0
    and 5 read it. *)
From stdpp Require Import base strings gmap numbers sorting relations list.
From S2P Require Import Prelude StateSchema Statectl.

Inductive mphase := M_SCAFFOLD | M_DEV_LOOP | M_INTEGRATE | M_DONE | M_FAILED.
Inductive fstatus := f_pending | f_in_progress | f_done | f_failed.

#[export] Instance mphase_eq_dec : EqDecision mphase.
Proof. solve_decision. Defined.
#[export] Instance fstatus_eq_dec : EqDecision fstatus.
Proof. solve_decision. Defined.

Definition mphase_str (p : mphase) : string :=
  match p with
  | M_SCAFFOLD => "SCAFFOLD" | M_DEV_LOOP => "DEV_LOOP" | M_INTEGRATE => "INTEGRATE"
  | M_DONE => "DONE" | M_FAILED => "FAILED"
  end.
Definition MIG_PHASES : list mphase := [M_SCAFFOLD; M_DEV_LOOP; M_INTEGRATE; M_DONE; M_FAILED].

Definition fstatus_str (s : fstatus) : string :=
  match s with
  | f_pending => "pending" | f_in_progress => "in_progress" | f_done => "done" | f_failed => "failed"
  end.
Definition FUNC_STATUSES : list fstatus := [f_pending; f_in_progress; f_done; f_failed].

(** ** The aggregate state and its JSON *)

Record mstate := MState {
  op_slug : string;
  family : string;
  meta_path : string;
  mph : mphase;
  functions : gmap string fstatus;
  int_attempts : Z;
  int_status : option string;
  mfailure_reason : option string;
  mlast_updated : string;
}.

Definition encode_func (s : fstatus) : json :=
  JObj (list_to_map [("stage_state", JNull); ("status", JStr (fstatus_str s))]).

(** [failure_reason] is only a key once it is assigned. *)
Definition encode_mstate (m : mstate) : dict :=
  list_to_map (
    [("op_name", JStr (op_slug m)); ("op_slug", JStr (op_slug m)); ("family", JStr (family m));
     ("meta_path", JStr (meta_path m)); ("phase", JStr (mphase_str (mph m)));
     ("functions", JObj (encode_func <$> functions m));
     ("integration", JObj (list_to_map [("attempts", JInt (int_attempts m));
                                        ("status", j_ostr (int_status m))]));
     ("last_updated", JStr (mlast_updated m))] ++
    match mfailure_reason m with Some r => [("failure_reason", JStr r)] | None => [] end).

Definition decode_func (j : json) : option fstatus :=
  match j with JObj d => s ← get_str d "status"; by_name fstatus_str FUNC_STATUSES s | _ => None end.

Definition decode_funcs (d : dict) : option (gmap string fstatus) :=
  let m : gmap string fstatus := omap decode_func d in
  if decide (size m = size d) then Some m else None.

Definition decode_mstate (d : dict) : option mstate :=
  slug ← get_str d "op_slug";
  fam ← get_str d "family";
  meta ← get_str d "meta_path";
  p ← get_str d "phase" ≫= by_name mphase_str MIG_PHASES;
  fs ← get_obj d "functions" ≫= decode_funcs;
  i ← get_obj d "integration";
  attempts ← get_int i "attempts";
  status ← get_ostr i "status";
  updated ← get_str d "last_updated";
  Some (MState slug fam meta p fs attempts status (d !! "failure_reason" ≫= dec_str) updated).

Definition set_mph (p : mphase) (m : mstate) : mstate :=
  MState (op_slug m) (family m) (meta_path m) p (functions m) (int_attempts m) (int_status m)
    (mfailure_reason m) (mlast_updated m).
Definition set_functions (fs : gmap string fstatus) (m : mstate) : mstate :=
  MState (op_slug m) (family m) (meta_path m) (mph m) fs (int_attempts m) (int_status m)
    (mfailure_reason m) (mlast_updated m).
Definition set_int_attempts (z : Z) (m : mstate) : mstate :=
  MState (op_slug m) (family m) (meta_path m) (mph m) (functions m) z (int_status m)
    (mfailure_reason m) (mlast_updated m).
Definition set_int_status (s : option string) (m : mstate) : mstate :=
  MState (op_slug m) (family m) (meta_path m) (mph m) (functions m) (int_attempts m) s
    (mfailure_reason m) (mlast_updated m).
Definition set_mfailure_reason (r : option string) (m : mstate) : mstate :=
  MState (op_slug m) (family m) (meta_path m) (mph m) (functions m) (int_attempts m) (int_status m)
    r (mlast_updated m).
Definition set_mlast_updated (t : string) (m : mstate) : mstate :=
  MState (op_slug m) (family m) (meta_path m) (mph m) (functions m) (int_attempts m) (int_status m)
    (mfailure_reason m) t.

(** ** Transitions *)

(** [func]: the status of a function, while functions are being developed. *)
Definition update_func (name : string) (s : fstatus) (m : mstate) : string + mstate :=
  match functions m !! name with
  | None => inl "E-FUNC-UNKNOWN"
  | Some _ =>
      match mph m with
      | M_SCAFFOLD | M_DEV_LOOP => inr (set_functions (<[name := s]> (functions m)) m)
      | _ => inl "E-PHASE-ORDER"
      end
  end.

(** The position in [order]; [FAILED] has none. *)
Definition order_index (p : mphase) : option Z :=
  match p with
  | M_SCAFFOLD => Some 0 | M_DEV_LOOP => Some 1 | M_INTEGRATE => Some 2 | M_DONE => Some 3 | M_FAILED => None
  end.

(** [phase]: the guards in the order of the code, then the assignment. *)
Definition move_phase (target : mphase) (reason : option string) (m : mstate) : string + mstate :=
  let current := mph m in
  if bool_decide (current = M_DONE) || bool_decide (current = M_FAILED) then inl "E-TERMINAL"
  else if bool_decide (target = M_FAILED) then
    match nonempty reason with
    | None => inl "E-VALUE"
    | Some r => inr (set_mfailure_reason (Some r) (set_mph M_FAILED m))
    end
  else
    let forward := match order_index target, order_index current with
                   | Some t, Some k => negb (t <=? k) | _, _ => false end in
    if negb forward then inl "E-PHASE-ORDER"
    else if bool_decide (target = M_INTEGRATE) &&
            negb (forallb (λ kv : string * fstatus, bool_decide (kv.2 = f_done)) (map_to_list (functions m)))
    then inl "E-PHASE-PRECOND"
    else if bool_decide (target = M_DONE) && negb (bool_decide (int_status m = Some "pass"))
    then inl "E-PHASE-PRECOND"
    else inr (set_mph target m).

(** [integrate]: a pass is recorded; the third failure ends the migration. *)
Definition record_integration (pass : bool) (m : mstate) : string + mstate :=
  if negb (bool_decide (mph m = M_INTEGRATE)) then inl "E-PHASE-ORDER"
  else if pass then inr (set_int_status (Some "pass") m)
  else
    let m := set_int_attempts (int_attempts m + 1) m in
    inr (if 2 <? int_attempts m
         then set_mfailure_reason (Some "BLOCKED_INTEGRATION") (set_mph M_FAILED m) else m).

(** ** Commands *)

(** [list(funcs)]: the keys of a dict filled in this order. *)
Definition dict_keys (names : list string) : list string :=
  foldl (λ acc n, if py_in n acc then acc else acc ++ [n]) [] names.

Definition initial_mstate (now slug fam meta : string) (names : list string) (p : mphase) : mstate :=
  MState slug fam meta p (foldl (λ fs n, <[n := f_pending]> fs) ∅ names) 0 None None now.

Section migration.
Context `{Host} (dir : string).

Definition mload : prog world (string + mstate) :=
  w ← get;
  match files w !! migration_state_path dir with
  | None => mret (inl "E-MISSING")
  | Some (FJson (JObj d)) =>
      m ← lift (or_raise KeyError (decode_mstate d));
      mret (inr m)
  | Some _ => mret (inl "E-PARSE")
  end.

Definition mwrite (now : string) (m : mstate) : prog world unit :=
  modify (λ w, World (<[migration_state_path dir := FJson (JObj (encode_mstate (set_mlast_updated now m)))]> (files w))
                 (timeline w)).

Definition mlog (now action : string) (before after : option mphase) (extra : list (string * json)) :
    prog world unit :=
  append_event now None action None None (mphase_str <$> before) (mphase_str <$> after) extra.

Definition cmd_migration_init (now slug fam meta : string) (names : list string) (p : mphase) : prog world reply :=
  w ← get;
  if exists_file w (migration_state_path dir) then mret (refuse "E-EXISTS")
  else if negb (bool_decide (p = M_SCAFFOLD) || bool_decide (p = M_DEV_LOOP)) then mret (refuse "E-PHASE-ORDER")
  else
    mwrite now (initial_mstate now slug fam meta names p);;
    mlog now "migration-init" None (Some p) [("functions", JList (JStr <$> dict_keys names))];;
    mret ok.

Definition with_mstate (f : mstate → prog world reply) : prog world reply :=
  l ← mload;
  match l with inl e => mret (refuse e) | inr m => f m end.

Definition cmd_migration_func (now name : string) (s : fstatus) : prog world reply :=
  with_mstate (λ m,
    match update_func name s m with
    | inl e => mret (refuse e)
    | inr m' =>
        mwrite now m';;
        mlog now "migration-func" None (Some (mph m')) [("func", JStr name); ("status", JStr (fstatus_str s))];;
        mret ok
    end).

Definition cmd_migration_phase (now : string) (target : mphase) (reason : option string) : prog world reply :=
  with_mstate (λ m,
    match move_phase target reason m with
    | inl e => mret (refuse e)
    | inr m' =>
        mwrite now m';;
        mlog now "migration-phase" (Some (mph m)) (Some target) [("reason", j_ostr reason)];;
        mret ok
    end).

Definition cmd_migration_integrate (now : string) (pass : bool) : prog world reply :=
  with_mstate (λ m,
    match record_integration pass m with
    | inl e => mret (refuse e)
    | inr m' =>
        mwrite now m';;
        mlog now "migration-integrate" None (Some (mph m'))
          (if pass then [("status", JStr "pass")]
           else [("status", JStr "fail"); ("attempts", JInt (int_attempts m'))]);;
        mret ok
    end).

Definition cmd_migration_show : prog world (string + mstate) := mload.
End migration.

(** ** The state file *)

Lemma decode_encode_func s : decode_func (encode_func s) = Some s.
Proof. by destruct s. Qed.

Lemma decode_encode_funcs fs : decode_funcs (encode_func <$> fs) = Some fs.
Proof.
  unfold decode_funcs. assert (omap decode_func (encode_func <$> fs) = fs) as ->.
  { apply map_eq. intros k. rewrite lookup_omap, lookup_fmap.
    destruct (fs !! k) as [s|]; [apply decode_encode_func|done]. }
  by rewrite decide_True by (by rewrite map_size_fmap).
Qed.

Lemma decode_encode_mstate m : decode_mstate (encode_mstate m) = Some m.
Proof.
  destruct m as [slug fam meta p fs att ist fr lu]. set (d := encode_mstate _).
  assert (d !! "op_slug" = Some (JStr slug)) as E1 by (by destruct fr).
  assert (d !! "family" = Some (JStr fam)) as E2 by (by destruct fr).
  assert (d !! "meta_path" = Some (JStr meta)) as E3 by (by destruct fr).
  assert (d !! "phase" = Some (JStr (mphase_str p))) as E4 by (by destruct fr).
  assert (d !! "functions" = Some (JObj (encode_func <$> fs))) as E5 by (by destruct fr).
  assert (d !! "integration" = Some (JObj (list_to_map [("attempts", JInt att); ("status", j_ostr ist)]))) as E6
    by (by destruct fr).
  assert (d !! "last_updated" = Some (JStr lu)) as E7 by (by destruct fr).
  assert (d !! "failure_reason" = JStr <$> fr) as E8 by (by destruct fr).
  clearbody d. unfold decode_mstate, get_str, get_obj. rewrite E1, E2, E3, E4, E5, E6, E7, E8.
  unfold mbind, option_bind. rewrite decode_encode_funcs. by destruct p, ist, fr.
Qed.

(** ** Reachable aggregate states *)

Inductive mstep : mstate → mstate → Prop :=
  | mstep_func name s m m' : update_func name s m = inr m' → mstep m m'
  | mstep_phase target reason m m' : move_phase target reason m = inr m' → mstep m m'
  | mstep_integrate pass m m' : record_integration pass m = inr m' → mstep m m'.

Definition all_done (m : mstate) : Prop := map_Forall (λ _ s, s = f_done) (functions m).

Record minv (m : mstate) : Prop := {
  minv_done : mph m = M_INTEGRATE ∨ mph m = M_DONE → all_done m;
  minv_pass : mph m = M_DONE → int_status m = Some "pass";
  minv_int : is_Some (int_status m) → int_status m = Some "pass" ∧ all_done m ∧
             mph m ≠ M_SCAFFOLD ∧ mph m ≠ M_DEV_LOOP;
  minv_attempts : 0 ≤ int_attempts m ≤ 3 ∧ (int_attempts m = 3 → mph m = M_FAILED);
  minv_failed : mph m = M_FAILED ↔ is_Some (mfailure_reason m);
}.

Lemma forallb_all_done m :
  forallb (λ kv : string * fstatus, bool_decide (kv.2 = f_done)) (map_to_list (functions m)) = true → all_done m.
Proof.
  rewrite forallb_forall. intros Hf k s Hk%elem_of_map_to_list%list_elem_of_In%Hf. by apply bool_decide_eq_true in Hk.
Qed.

Lemma update_func_spec name s m m' :
  update_func name s m = inr m' →
  m' = set_functions (<[name := s]> (functions m)) m ∧ is_Some (functions m !! name) ∧
  (mph m = M_SCAFFOLD ∨ mph m = M_DEV_LOOP).
Proof. unfold update_func. repeat case_match; naive_solver. Qed.

Lemma move_phase_spec target reason m m' :
  move_phase target reason m = inr m' →
  mph m ≠ M_DONE ∧ mph m ≠ M_FAILED ∧
  ((target = M_FAILED ∧ ∃ r, m' = set_mfailure_reason (Some r) (set_mph M_FAILED m)) ∨
   (m' = set_mph target m ∧
    (∃ i j, order_index (mph m) = Some i ∧ order_index target = Some j ∧ i < j) ∧
    (target = M_INTEGRATE → all_done m) ∧ (target = M_DONE → int_status m = Some "pass"))).
Proof.
  unfold move_phase. do 2 (case_bool_decide; [done|]). simpl. case_bool_decide.
  { case_match; [|done]. intros [= <-]. naive_solver. }
  destruct (order_index target) as [j|] eqn:Hj; [|done].
  destruct (order_index (mph m)) as [i|] eqn:Hi; [|done].
  destruct (Z.leb_spec j i); [done|]. simpl. case_match eqn:H3; [done|]. case_match eqn:H4; [done|].
  intros [= <-]. split_and!; try done. right. split; [done|]. split; [by exists i, j|]. split.
  - intros ->. apply forallb_all_done. rewrite bool_decide_true in H3 by done. by apply negb_false_iff in H3.
  - intros ->. rewrite bool_decide_true in H4 by done. apply negb_false_iff in H4. by apply bool_decide_eq_true in H4.
Qed.

Lemma record_integration_spec pass m m' :
  record_integration pass m = inr m' →
  mph m = M_INTEGRATE ∧
  if pass : bool then m' = set_int_status (Some "pass") m
  else if 2 <? int_attempts m + 1
       then m' = set_mfailure_reason (Some "BLOCKED_INTEGRATION") (set_mph M_FAILED
                   (set_int_attempts (int_attempts m + 1) m))
       else m' = set_int_attempts (int_attempts m + 1) m.
Proof.
  unfold record_integration. case_bool_decide; [|done]. destruct pass; simpl; intros [= <-]; [done|].
  split; [done|]. by case_match.
Qed.

Lemma minv_mstep m m' : minv m → mstep m m' → minv m'.
Proof.
  intros [I1 I2 I3 I4 I5] Hs.
  destruct Hs as [name s m m' (-> & Hn & Hp)%update_func_spec
                 |target reason m m' (Hd & Hf & Ht)%move_phase_spec
                 |pass m m' [Hp Hr]%record_integration_spec].
  - assert (int_status m = None) as Hi.
    { destruct (int_status m) eqn:E; [|done]. destruct I3 as (_ & _ & ? & ?); [by eexists|]. naive_solver. }
    split; simpl; rewrite ?Hi; try done; naive_solver congruence.
  - destruct Ht as [(-> & r & ->)|(-> & (i & j & Hi & Hj & Hij) & Ha & Hdn)].
    + split; simpl; try done; naive_solver.
    + split; simpl.
      * intros [->| ->]; [by apply Ha|]. apply I3. rewrite Hdn by done. by eexists.
      * done.
      * intros Hs. destruct (I3 Hs) as (? & ? & ? & ?). destruct (mph m), target; naive_solver lia.
      * split; [apply I4|]. intros E. by destruct I4 as [_ ?%(λ f, f E)].
      * destruct target; try done; naive_solver.
  - assert (int_attempts m ≠ 3) as H3 by (intros E; destruct I4 as [_ H']; specialize (H' E); congruence).
    destruct I4 as [I4 _].
    destruct pass; [subst|destruct (Z.ltb_spec 2 (int_attempts m + 1)) as [Ha|Ha]; subst]; split; simpl; try done.
    + intros _. split_and!; [done|by apply I1; left|by rewrite Hp..].
    + by intros [].
    + intros Hs. by destruct (I3 Hs) as (? & ? & _).
    + split; [lia|done].
    + split; lia.
Qed.

(** ** Runs of the commands *)

Inductive mcommand :=
  | MInit (slug fam meta : string) (names : list string) (p : mphase)
  | MFunc (name : string) (s : fstatus)
  | MPhase (target : mphase) (reason : option string)
  | MIntegrate (pass : bool)
  | MShow.

Section runs.
Context `{Host} (dir : string).

Definition mrun (now : string) (cmd : mcommand) : prog world Z :=
  match cmd with
  | MInit slug fam meta names p => r ← cmd_migration_init dir now slug fam meta names p; mret (exit_code r)
  | MFunc name s => r ← cmd_migration_func dir now name s; mret (exit_code r)
  | MPhase target reason => r ← cmd_migration_phase dir now target reason; mret (exit_code r)
  | MIntegrate pass => r ← cmd_migration_integrate dir now pass; mret (exit_code r)
  | MShow => r ← cmd_migration_show dir; mret (match r with inl _ => 1 | inr _ => 0 end)
  end.

(** A command, or another program that writes other files and logs events. *)
Inductive mwstep : world → world → Prop :=
  | mwstep_run now cmd w w' r : mrun now cmd w = (r, w') → mwstep w w'
  | mwstep_other w w' :
      files w' !! migration_state_path dir = files w !! migration_state_path dir → mwstep w w'.

Definition mstored (w : world) (m : mstate) : Prop :=
  files w !! migration_state_path dir = Some (FJson (JObj (encode_mstate m))).

(** No aggregate state, or one of the invariant. *)
Definition mwinv (w : world) : Prop :=
  files w !! migration_state_path dir = None ∨ ∃ m, mstored w m ∧ minv m.

Lemma mload_stored w m : mstored w m → mload dir w = (Ok (inr m), w).
Proof.
  intros Hm. unfold mload, get, mbind, prog_bind. rewrite Hm. by rewrite decode_encode_mstate.
Qed.

Lemma mload_missing w : files w !! migration_state_path dir = None → mload dir w = (Ok (inl "E-MISSING"), w).
Proof. intros Hm. unfold mload, get, mbind, prog_bind. by rewrite Hm. Qed.

Lemma minv_initial now slug fam meta names p :
  p = M_SCAFFOLD ∨ p = M_DEV_LOOP → minv (initial_mstate now slug fam meta names p).
Proof. intros [-> | ->]; split; simpl; try done; try (by intros []); try naive_solver; lia. Qed.

(** Phases only move forward, and the functions are frozen once they are
    integrated. *)
Definition rank (p : mphase) : Z := match order_index p with Some i => i | None => 4 end.

Definition advances (m m' : mstate) : Prop :=
  dom (functions m') = dom (functions m) ∧ rank (mph m) ≤ rank (mph m') ∧
  (mph m = M_DONE ∨ mph m = M_FAILED → m' = set_mlast_updated (mlast_updated m') m) ∧
  (2 ≤ rank (mph m) → functions m' = functions m).

Lemma advances_refl m : advances m m.
Proof. split_and!; try done. by destruct m. Qed.

Lemma advances_trans m1 m2 m3 : advances m1 m2 → advances m2 m3 → advances m1 m3.
Proof.
  intros (D1 & R1 & T1 & F1) (D2 & R2 & T2 & F2). split_and!; [congruence|lia| |].
  - intros Ht. specialize (T1 Ht). assert (mph m2 = mph m1) as E by (by rewrite T1).
    rewrite <- E in Ht. specialize (T2 Ht). rewrite T2. by rewrite T1.
  - intros Hr. rewrite F2 by lia. auto.
Qed.

Lemma advances_mstep now m m' : mstep m m' → advances m (set_mlast_updated now m').
Proof.
  intros Hs. destruct Hs as [name s m m' (-> & Hn & Hp)%update_func_spec
                 |target reason m m' (Hd & Hf & Ht)%move_phase_spec
                 |pass m m' [Hp Hr]%record_integration_spec].
  - split_and!; simpl; [|done|by destruct Hp as [-> | ->]; intros []|by destruct Hp as [-> | ->]].
    rewrite dom_insert_L. apply elem_of_dom in Hn. set_solver.
  - destruct Ht as [(-> & r & ->)|(-> & (i & j & Hi & Hj & Hij) & _)].
    + split_and!; simpl; try done; [by destruct (mph m)|naive_solver].
    + split_and!; simpl; try done; [unfold rank; rewrite Hi, Hj; lia|naive_solver].
  - destruct pass; [subst|case_match; subst]; split_and!; simpl; try done; rewrite Hp; try done; by intros [].
Qed.

(** What a command does to a stored state. *)
Lemma mrun_stored now cmd w m r w' :
  mstored w m → mrun now cmd w = (r, w') →
  w' = w ∨ r = Ok 0 ∧ ∃ m', mstep m m' ∧ mstored w' (set_mlast_updated now m').
Proof.
  intros Hm. destruct cmd; unfold mrun, mbind at 1, prog_bind at 1.
  - unfold cmd_migration_init. cbv [get mbind prog_bind]. unfold exists_file. rewrite Hm.
    rewrite bool_decide_true by (by eexists). intros [= <- <-]. by left.
  - unfold cmd_migration_func, with_mstate. cbv [mbind prog_bind]. rewrite (mload_stored w m Hm).
    destruct (update_func name s m) as [e|m'] eqn:Hu; intros [= <- <-]; [by left|]. right. split; [done|].
    exists m'. split; [by econstructor|]. apply lookup_insert_eq.
  - unfold cmd_migration_phase, with_mstate. cbv [mbind prog_bind]. rewrite (mload_stored w m Hm).
    destruct (move_phase target reason m) as [e|m'] eqn:Hu; intros [= <- <-]; [by left|]. right. split; [done|].
    exists m'. split; [by eapply mstep_phase|]. apply lookup_insert_eq.
  - unfold cmd_migration_integrate, with_mstate. cbv [mbind prog_bind]. rewrite (mload_stored w m Hm).
    destruct (record_integration pass m) as [e|m'] eqn:Hu; intros [= <- <-]; [by left|]. right. split; [done|].
    exists m'. split; [by eapply mstep_integrate|]. apply lookup_insert_eq.
  - unfold cmd_migration_show. rewrite (mload_stored w m Hm). intros [= <- <-]. by left.
Qed.

Lemma mrun_missing now cmd w r w' :
  files w !! migration_state_path dir = None → mrun now cmd w = (r, w') →
  w' = w ∨ r = Ok 0 ∧ ∃ slug fam meta names p, cmd = MInit slug fam meta names p ∧
    (p = M_SCAFFOLD ∨ p = M_DEV_LOOP) ∧
    mstored w' (set_mlast_updated now (initial_mstate now slug fam meta names p)).
Proof.
  intros Hm. destruct cmd; unfold mrun, mbind at 1, prog_bind at 1.
  - unfold cmd_migration_init. cbv [get mbind prog_bind]. unfold exists_file. rewrite Hm.
    rewrite bool_decide_false by (by intros []).
    destruct (bool_decide (p = M_SCAFFOLD) || bool_decide (p = M_DEV_LOOP)) eqn:Hp;
      cbv [negb]; intros [= <- <-]; [|by left]. right. split; [done|]. exists slug, fam, meta, names, p.
    split; [done|]. split; [|apply lookup_insert_eq].
    apply orb_prop in Hp as [Hp|Hp]; apply bool_decide_eq_true in Hp; auto.
  - unfold cmd_migration_func, with_mstate. cbv [mbind prog_bind]. rewrite (mload_missing w Hm).
    intros [= <- <-]. by left.
  - unfold cmd_migration_phase, with_mstate. cbv [mbind prog_bind]. rewrite (mload_missing w Hm).
    intros [= <- <-]. by left.
  - unfold cmd_migration_integrate, with_mstate. cbv [mbind prog_bind]. rewrite (mload_missing w Hm).
    intros [= <- <-]. by left.
  - unfold cmd_migration_show. rewrite (mload_missing w Hm). intros [= <- <-]. by left.
Qed.

Lemma minv_updated now m : minv m → minv (set_mlast_updated now m).
Proof. by intros []. Qed.

Lemma mwinv_step w w' : mwinv w → mwstep w w' → mwinv w'.
Proof.
  intros Hw Hs. destruct Hs as [now cmd w w' r Hr|w w' Hf].
  - destruct Hw as [Hm|(m & Hm & I)].
    + destruct (mrun_missing _ _ _ _ _ Hm Hr) as [->|(_ & slug & fam & meta & names & p & _ & Hp & Hs)]; [by left|].
      right. eexists. split; [exact Hs|]. by apply minv_updated, minv_initial.
    + destruct (mrun_stored _ _ _ _ _ _ Hm Hr) as [->|(_ & m' & Hst & Hs)]; [by right; exists m|].
      right. eexists. split; [exact Hs|]. by eapply minv_updated, minv_mstep.
  - destruct Hw as [Hm|(m & Hm & Hrest)]; [left; by rewrite Hf|]. right. exists m.
    split; [|done]. unfold mstored. by rewrite Hf.
Qed.

Lemma mwinv_reachable w0 w :
  files w0 !! migration_state_path dir = None → rtc mwstep w0 w → mwinv w.
Proof. intros Hf Hr. assert (mwinv w0) as H' by by left. clear Hf. induction Hr; eauto using mwinv_step. Qed.

Lemma advances_step w w' m : mstored w m → mwstep w w' → ∃ m', mstored w' m' ∧ advances m m'.
Proof.
  intros Hm Hs. destruct Hs as [now cmd w w' r Hr|w w' Hf].
  - destruct (mrun_stored _ _ _ _ _ _ Hm Hr) as [->|(_ & m' & Hst & Hs)]; [eauto using advances_refl|].
    eauto using advances_mstep.
  - exists m. split; [unfold mstored; by rewrite Hf|apply advances_refl].
Qed.

(** C12: a migration is only finished once every function is done and an
    integration passed; it never survives a third integration failure, and it has
    a failure reason exactly when it failed. *)
Theorem migration_done_sound w0 w m :
  files w0 !! migration_state_path dir = None → rtc mwstep w0 w → mload dir w = (Ok (inr m), w) →
  (mph m = M_DONE → all_done m ∧ int_status m = Some "pass" ∧ int_attempts m ≤ 2) ∧
  (mph m = M_INTEGRATE → all_done m ∧ int_attempts m ≤ 2) ∧
  0 ≤ int_attempts m ≤ 3 ∧ (mph m = M_FAILED ↔ is_Some (mfailure_reason m)).
Proof.
  intros Hf Hr Hl. destruct (mwinv_reachable _ _ Hf Hr) as [Hm|(m' & Hm & I)];
    [by rewrite (mload_missing w Hm) in Hl|].
  rewrite (mload_stored w m' Hm) in Hl. simplify_eq. destruct I as [I1 I2 _ [I4 I4'] I5].
  assert (mph m ≠ M_FAILED → int_attempts m ≤ 2) as Ha.
  { intros Hne. destruct (decide (int_attempts m = 3)); [naive_solver|lia]. }
  split_and!; try done; try lia.
  - intros Hd. split_and!; [auto|auto|]. apply Ha. by rewrite Hd.
  - intros Hd. split; [auto|]. apply Ha. by rewrite Hd.
Qed.

(** Whatever commands are run, the phase of a migration only moves forward,
    its functions stay the same ones, their statuses are frozen once they are
    integrated, and a migration that is over only changes its time stamp. *)
Theorem migration_advances w0 w w' m :
  files w0 !! migration_state_path dir = None → rtc mwstep w0 w → mload dir w = (Ok (inr m), w) →
  rtc mwstep w w' → ∃ m', mload dir w' = (Ok (inr m'), w') ∧ advances m m'.
Proof.
  intros Hf Hr0 Hl Hr. assert (mstored w m) as Hm.
  { destruct (mwinv_reachable _ _ Hf Hr0) as [Hm|(m' & Hm & _)]; [by rewrite (mload_missing w Hm) in Hl|].
    rewrite (mload_stored w m' Hm) in Hl. by simplify_eq. }
  clear Hr0 Hl. revert m Hm. induction Hr as [w|w w1 w2 Hs Hr IH]; intros m Hm.
  - exists m. split; [by apply mload_stored|apply advances_refl].
  - destruct (advances_step w w1 m Hm Hs) as (m1 & Hm1 & Ha). destruct (IH m1 Hm1) as (m2 & Hl & Ha2).
    exists m2. split; [done|by eapply advances_trans].
Qed.

(** C29: gate 5 of the workflow finds the aggregate state the commands have
    written, with its functions, and gate 0 finds the meta file it names; neither
    raises. *)
Theorem gates_read_migration w0 w m :
  files w0 !! migration_state_path dir = None → rtc mwstep w0 w → mload dir w = (Ok (inr m), w) → dir ≠ "" →
  gate5_state w None (Some dir) = Ok (Some (encode_mstate m)) ∧
  gate0_meta w None (Some dir) = Ok (nonempty (Some (meta_path m))).
Proof.
  intros Hf Hr Hl Hd. destruct (mwinv_reachable _ _ Hf Hr) as [Hm|(m' & Hm & _)];
    [by rewrite (mload_missing w Hm) in Hl|].
  rewrite (mload_stored w m' Hm) in Hl. simplify_eq.
  assert (nonempty (Some dir) = Some dir) as E by (by destruct dir).
  unfold gate5_state, gate0_meta, load_object. rewrite E, Hm. split; [done|].
  change (nonempty None) with (@None string).
  assert (encode_mstate m !! "meta_path" = Some (JStr (meta_path m))) as E2.
  { unfold encode_mstate. by destruct (mfailure_reason m). }
  cbv [mbind res_bind option_bind]. by rewrite Hm, E2.
Qed.
End runs.

(** A failed integration after a passed one does not withdraw the pass: the
    migration can still be finished. *)
Lemma pass_survives_failure :
  ∃ m1 m2 m3 m4,
    move_phase M_INTEGRATE None (initial_mstate "t" "op" "f" "m" [] M_DEV_LOOP) = inr m1 ∧
    record_integration true m1 = inr m2 ∧ record_integration false m2 = inr m3 ∧ int_attempts m3 = 1 ∧
    move_phase M_DONE None m3 = inr m4 ∧ mph m4 = M_DONE.
Proof. eexists _, _, _, _. split_and!; reflexivity. Qed.

(** ** Witnesses *)
Module MigrationEx.

#[local] Instance host : Host := {| sha256 _ := "h"; parse_ts _ := Some 0 |}.

Definition w0 : world := World ∅ [].
Definition wa : world := (mrun "/r/m" "t" (MInit "op" "fam" "meta.json" ["f"; "g"] M_DEV_LOOP) w0).2.
Definition wb : world := (mrun "/r/m" "t" (MFunc "f" f_done) wa).2.
Definition wc : world := (mrun "/r/m" "t" (MFunc "g" f_done) wb).2.
Definition wd : world := (mrun "/r/m" "t" (MPhase M_INTEGRATE None) wc).2.
Definition we : world := (mrun "/r/m" "t" (MIntegrate true) wd).2.
Definition wf : world := (mrun "/r/m" "t" (MPhase M_DONE None) we).2.

Definition mstate_of (w : world) : mstate :=
  match (mload "/r/m" w).1 with
  | Ok (inr m) => m | _ => initial_mstate "" "" "" "" [] M_SCAFFOLD end.

Lemma ran cmd w : mwstep "/r/m" w (mrun "/r/m" "t" cmd w).2.
Proof. eapply mwstep_run, surjective_pairing. Qed.

Lemma reach_d : rtc (mwstep "/r/m") w0 wd.
Proof. do 4 (eapply rtc_l; [apply ran|]). apply rtc_refl. Qed.

Lemma reach_f : rtc (mwstep "/r/m") wd wf.
Proof. do 2 (eapply rtc_l; [apply ran|]). apply rtc_refl. Qed.

Lemma migration_done_sound_witness : all_done (mstate_of wf) ∧ int_status (mstate_of wf) = Some "pass".
Proof.
  destruct (migration_done_sound "/r/m" w0 wf (mstate_of wf)) as [Hd _];
    [by vm_compute|exact (transitivity reach_d reach_f)|by vm_compute|].
  destruct Hd as (? & ? & _); [by vm_compute|by split].
Defined.

Lemma migration_advances_witness :
  ∃ m', mload "/r/m" wf = (Ok (inr m'), wf) ∧ advances (mstate_of wd) m'.
Proof. apply (migration_advances "/r/m" w0 wd wf (mstate_of wd)); [by vm_compute|exact reach_d|by vm_compute|exact reach_f]. Defined.

Lemma gates_read_migration_witness :
  gate0_meta wf None (Some "/r/m") = Ok (Some "meta.json").
Proof.
  apply (gates_read_migration "/r/m" w0 wf (mstate_of wf));
    [by vm_compute|exact (transitivity reach_d reach_f)|by vm_compute|done].
Defined.

End MigrationEx.
