(* ===== verification/PerfRecords.v ===== *)
(** * The performance records of the tuning stage

    [perf_records_lint] and [_perf_records_workload_lint] of
    [src/.agents/tools/gate_lint.py], the part of the gate of stage 4 that reads
    data: the inventory of workloads, the JSON lines of measurements and the final
    table of the log.  A failure is its rule and its file; the texts of messages
    are not modelled.

    JSON strings are UTF-8, the log is a list of code points, since lines and blanks
    are those of Unicode.  A file of JSON lines is given by what its lines are; the
    parser of decimal numbers and the file system are parameters. *)
From Stdlib Require Import SpecFloat Ascii.
From stdpp Require Import base strings gmap numbers list.
From S2P Require Import Prelude StateSchema.

(** ** Characters *)

Notation text := (list Z).

Definition cps (s : string) : text := (λ a, Z.of_N (N_of_ascii a)) <$> String.list_ascii_of_string s.

Definition utf8_char (c : Z) : list Z :=
  if c <? 128 then [c]
  else if c <? 2048 then [192 + c / 64; 128 + c mod 64]
  else if c <? 65536 then [224 + c / 4096; 128 + c / 64 mod 64; 128 + c mod 64]
  else [240 + c / 262144; 128 + c / 4096 mod 64; 128 + c / 64 mod 64; 128 + c mod 64].
Definition utf8 (t : text) : string :=
  String.string_of_list_ascii ((λ n, ascii_of_N (Z.to_N n)) <$> (t ≫= utf8_char)).

(** [str.isspace], which is also the class [\s]. *)
Definition isspace (c : Z) : bool :=
  ((9 <=? c) && (c <=? 13)) || ((28 <=? c) && (c <=? 32)) || (c =? 133) || (c =? 160) ||
  (c =? 5760) || ((8192 <=? c) && (c <=? 8202)) || (c =? 8232) || (c =? 8233) ||
  (c =? 8239) || (c =? 8287) || (c =? 12288).

(** The boundaries of [str.splitlines]; of CR LF see [splitlines]. *)
Definition isbreak (c : Z) : bool :=
  ((10 <=? c) && (c <=? 13)) || ((28 <=? c) && (c <=? 30)) || (c =? 133) || (c =? 8232) || (c =? 8233).

Fixpoint drop_while {A} (p : A → bool) (l : list A) : list A :=
  match l with x :: l' => if p x then drop_while p l' else l | [] => [] end.
Definition strip_by {A} (p : A → bool) (l : list A) : list A :=
  reverse (drop_while p (reverse (drop_while p l))).
Definition strip : text → text := strip_by isspace.

(** [s.split(sep)] for one character. *)
Fixpoint split_on {A} `{EqDecision A} (sep : A) (l : list A) : list (list A) :=
  match l with
  | [] => [[]]
  | x :: l' =>
      if decide (x = sep) then [] :: split_on sep l'
      else match split_on sep l' with
           | w :: ws => (x :: w) :: ws
           | [] => [[x]]
           end
  end.

Fixpoint splitlines_from (acc : text) (t : text) : list text :=
  match t with
  | [] => if decide (acc = []) then [] else [reverse acc]
  | 13 :: ((10 :: t') as t1) => reverse acc :: splitlines_from [] t'
  | c :: t' => if isbreak c then reverse acc :: splitlines_from [] t' else splitlines_from (c :: acc) t'
  end.
Definition splitlines (t : text) : list text := splitlines_from [] t.

Definition startswith {A} `{EqDecision A} (t pre : list A) : bool := bool_decide (take (length pre) t = pre).

(** [sub in t]. *)
Fixpoint contains {A} `{EqDecision A} (sub t : list A) : bool :=
  startswith t sub || match t with [] => false | _ :: t' => contains sub t' end.

(** Matching without case.  The letters outside of ASCII that [re.I] takes for a
    letter of ASCII are the two forms of i, the long s and the sign of Kelvin;
    [str.lower] turns only the last one into one letter of ASCII. *)
Definition lower_char (c : Z) : Z :=
  if (65 <=? c) && (c <=? 90) then c + 32 else if c =? 8490 then 107 else c.
Definition fold_char (c : Z) : Z :=
  if (c =? 304) || (c =? 305) then 105 else if c =? 383 then 115 else lower_char c.

(** The code points of a UTF-8 string. *)
Fixpoint decode (l : list Z) : text :=
  match l with
  | a :: l' =>
      if a <? 192 then a :: decode l'
      else match l' with
      | b :: l1 =>
          if a <? 224 then ((a - 192) * 64 + (b - 128)) :: decode l1
          else match l1 with
          | c :: l2 =>
              if a <? 240 then ((a - 224) * 4096 + (b - 128) * 64 + (c - 128)) :: decode l2
              else match l2 with
                   | d :: l3 => ((a - 240) * 262144 + (b - 128) * 4096 + (c - 128) * 64 + (d - 128)) :: decode l3
                   | [] => []
                   end
          | [] => []
          end
      | [] => []
      end
  | [] => []
  end.
Definition points (s : string) : text := decode (cps s).

Definition alnum (c : Z) : bool :=
  ((48 <=? c) && (c <=? 57)) || ((65 <=? c) && (c <=? 90)) || ((97 <=? c) && (c <=? 122)).

(** [(?:^|[^A-Za-z0-9])smoke(?:$|[^A-Za-z0-9])] in folded text; [start] says that
    the character in front is none of the class. *)
Fixpoint smoke_from (start : bool) (t : text) : bool :=
  (start && startswith t (cps "smoke") && negb (from_option alnum false (drop 5 t !! 0%nat))) ||
  match t with [] => false | c :: t' => smoke_from (negb (alnum c)) t' end.
Definition has_smoke_token (s : string) : bool := smoke_from true (fold_char <$> points s).

(** [value.lower()], as far as words of ASCII can tell. *)
Definition lower (s : string) : text := lower_char <$> points s.

(** [CURRENT_BEST_RE.search(log)]. *)
Definition CURRENT_BEST_RE (t : text) : bool :=
  let t := fold_char <$> t in contains (cps "current-best") t || contains (cps "current best") t.

(** ** Paths (POSIX) *)

Definition slash : ascii := "/"%char.
Definition chars (s : string) : list ascii := String.list_ascii_of_string s.
Definition of_chars (l : list ascii) : string := String.string_of_list_ascii l.

Definition isabs (p : string) : bool := startswith (chars p) [slash].

Definition os_path_join (a b : string) : string :=
  if isabs b then b
  else if bool_decide (a = "") || bool_decide (last (chars a) = Some slash) then a +:+ b
  else a +:+ "/" +:+ b.

(** The part up to the last slash, without the slashes at its end unless there is
    nothing else. *)
Definition dirname (p : string) : string :=
  let head := reverse (drop_while (λ c, negb (bool_decide (c = slash))) (reverse (chars p))) in
  let stripped := reverse (drop_while (λ c, bool_decide (c = slash)) (reverse head)) in
  of_chars (if decide (stripped = []) then head else stripped).

(** One component of [os.path.normpath]; the components so far are reversed. *)
Definition norm_step (absolute : bool) (new : list (list ascii)) (comp : list ascii) : list (list ascii) :=
  if decide (comp = [] ∨ comp = chars ".") then new
  else if decide (comp ≠ chars "..") then comp :: new
  else match new with
       | [] => if absolute then [] else [comp]
       | c :: new' => if decide (c = chars "..") then comp :: new else new'
       end.

Fixpoint join_comps (l : list (list ascii)) : list ascii :=
  match l with
  | [] => []
  | [c] => c
  | c :: l' => c ++ slash :: join_comps l'
  end.

Definition normpath (p : string) : string :=
  if decide (p = "") then "."
  else
    let l := chars p in
    let initial :=
      if startswith l [slash; slash] && negb (startswith l [slash; slash; slash]) then [slash; slash]
      else if startswith l [slash] then [slash] else [] in
    let comps := foldl (norm_step (negb (bool_decide (initial = [])))) [] (split_on slash l) in
    let path := initial ++ join_comps (reverse comps) in
    if decide (path = []) then "." else of_chars path.

Definition abspath (cwd p : string) : string := normpath (if isabs p then p else os_path_join cwd p).

(** ** Files *)

(** Opening a file as text: it cannot be opened, it is not UTF-8, its content. *)
Inductive read (A : Type) := NoFile | NotUtf8 | Content (a : A).
Arguments NoFile {A}.
Arguments NotUtf8 {A}.
Arguments Content {A} a.

(** A line of a file of JSON lines: blank, not JSON, or JSON. *)
Inductive rline := RBlank | RBad | RJson (j : json).

(** What the lint asks the operating system; a document that does not parse is
    [None]. *)
Record fsys := Fsys {
  cwd : string;
  isfile : string → bool;
  json_load : string → read (option json);
  readlines : string → read (list rline);
  read_all : string → read text;
  file_sha256 : string → res string;
}.

Definition _read_text (fs : fsys) (path : string) : option text :=
  match read_all fs path with Content t => Some t | _ => None end.

(** ** Failures *)

Record failure := _fail { rule_id : string; file : string }.

(** [if b: fail(rule, path, ...)]. *)
Definition fail_if (b : bool) (rule path : string) : list failure := if b then [_fail rule path] else [].

Notation INVENTORY := "S4-WORKLOAD-INVENTORY".
Notation RSCHEMA := "S4-PERF-RECORDS-SCHEMA".
Notation COVERAGE := "S4-PERF-RECORDS-COVERAGE".
Notation RECON := "S4-PERF-RECORDS-RECON".
Notation COMPTABLE := "S4-OPTLOG-COMPTABLE".

(** ** The inventory of workloads *)

Notation key := (string * string)%type.

(** A dict in the order of insertion. *)
Fixpoint assoc {K V} `{EqDecision K} (k : K) (l : list (K * V)) : option V :=
  match l with
  | [] => None
  | (k', v) :: l' => if decide (k = k') then Some v else assoc k l'
  end.
Fixpoint assign {K V} `{EqDecision K} (k : K) (v : V) (l : list (K * V)) : list (K * V) :=
  match l with
  | [] => [(k, v)]
  | (k', v') :: l' => if decide (k = k') then (k, v) :: l' else (k', v') :: assign k v l'
  end.

(** [[name for name in required if name not in item]]. *)
Definition missing (required : list string) (item : dict) : list string :=
  filter (λ name, item !! name = None) required.

Definition WORKLOAD_FIELDS : list string :=
  ["benchmark_source"; "kernel_id"; "workload_id"; "label"; "marks"; "shape"; "dtype"; "params";
   "kind"; "reason"].

Definition nonempty_str (j : option json) : option string :=
  match j with Some (JStr s) => if decide (s = "") then None else Some s | _ => None end.

Definition str_of (j : json) : option string := match j with JStr s => Some s | _ => None end.

(** What the checks read of a workload with well-typed fields. *)
Record workload := Workload {
  w_key : key;
  w_label : string;
  w_marks : list string;
  w_kind : string;
  w_reason : string;
  w_tuning_status : option json;
  w_precision_pass : option json;
}.

(** [kernel_id] and [workload_id]: strings, not empty. *)
Definition item_key (item : dict) : option key :=
  k ← nonempty_str (item !! "kernel_id");
  w ← nonempty_str (item !! "workload_id");
  Some (k, w).

Definition item_fields (key : string * string) (item : dict) : option workload :=
  _ ← nonempty_str (item !! "benchmark_source");
  label ← item !! "label" ≫= str_of;
  marks ← match item !! "marks" with Some (JList l) => mapM str_of l | _ => None end;
  _ ← match item !! "shape" with Some (JList _) | Some (JObj _) => Some tt | _ => None end;
  _ ← item !! "dtype" ≫= str_of;
  _ ← match item !! "params" with Some (JObj _) => Some tt | _ => None end;
  reason ← item !! "reason" ≫= str_of;
  kind ← item !! "kind" ≫= str_of;
  if py_in kind ["tune"; "smoke"; "skipped"]
  then Some (Workload key label marks kind reason (item !! "tuning_status") (item !! "precision_pass"))
  else None.

Definition marked (m : string) (w : workload) : bool := py_in (cps m) (lower <$> w_marks w).

Definition expected_kind (w : workload) : string :=
  if marked "skip" w then "skipped"
  else if marked "smoke" w || has_smoke_token (w_key w).2 || has_smoke_token (w_label w) then "smoke"
  else "tune".

(** [v in (a, ...)] for strings and [v = item.get(k)]. *)
Definition status_in (j : option json) (l : list string) : bool :=
  match j with Some (JStr s) => py_in s l | _ => false end.

Definition is_true (j : option json) : bool := match j with Some (JBool true) => true | _ => false end.

Definition workload_failures (path : string) (w : workload) : list failure :=
  let is_kind k := bool_decide (w_kind w = k) in
  let no_reason := bool_decide (w_reason w = "") in
  fail_if (negb (is_kind (expected_kind w))) INVENTORY path ++
  fail_if (is_kind "tune" &&
           negb (status_in (w_tuning_status w) ["winner_merged"; "no_gain"; "merge_blocked"])) INVENTORY path ++
  fail_if (status_in (w_tuning_status w) ["no_gain"; "merge_blocked"] && no_reason) INVENTORY path ++
  fail_if (is_kind "smoke" && negb (is_true (w_precision_pass w))) INVENTORY path ++
  fail_if (is_kind "smoke" && marked "full" w && no_reason) INVENTORY path ++
  fail_if (is_kind "skipped" && no_reason) INVENTORY path.

(** One round of the loop over [inventory["workloads"]]. *)
Definition check_item (path : string) (st : list failure * list (key * string)) (item : json) :
    list failure * list (key * string) :=
  let '(fails, expected) := st in
  let bad := (fails ++ [_fail INVENTORY path], expected) in
  match item with
  | JObj d =>
      if decide (missing WORKLOAD_FIELDS d = []) then
        match item_key d with
        | Some key =>
            match assoc key expected with
            | Some _ => bad
            | None =>
                match item_fields key d with
                | Some w => (fails ++ workload_failures path w, assign key (w_kind w) expected)
                | None => bad
                end
            end
        | None => bad
        end
      else bad
  | _ => bad
  end.

(** ** Measurements *)

Definition PERF_RECORD_WORKLOAD_FIELDS : list string :=
  ["round"; "candidate_id"; "parent_id"; "kernel_id"; "workload_id"; "phase"; "artifact_path";
   "artifact_sha256"; "duration_us"; "l0_pass"; "msprof_raw_path"; "timestamp"].

(** A number of JSON, read as an [int] or a [float]. *)
Inductive num := NInt (z : Z) | NFloat (f : spec_float).

Definition f_zero : spec_float := S754_zero false.
Definition f_inf : spec_float := S754_infinity false.

(** [0 < v < float("inf")], for a number that is no [bool]. *)
Definition duration_of (j : json) : option num :=
  match j with
  | JInt z => if 0 <? z then Some (NInt z) else None
  | JFloat f => if SFltb f_zero f && SFltb f f_inf then Some (NFloat f) else None
  | _ => None
  end.

Record measurement := Measurement {
  m_kernel : string;
  m_workload : string;
  m_phase : string;
  m_candidate : string;
  m_duration : num;
  m_artifact : string;
  m_sha256 : string;
}.
Definition m_key (m : measurement) : key := (m_kernel m, m_workload m).

(** [re.fullmatch(r"[0-9a-f]{64}", s)]. *)
Definition is_sha256 (s : string) : bool :=
  bool_decide (length (cps s) = 64%nat) &&
  forallb (λ c, ((48 <=? c) && (c <=? 57)) || ((97 <=? c) && (c <=? 102))) (cps s).

(** The fields of a record of a known workload. *)
Definition record_fields (key : string * string) (d : dict) : option measurement :=
  _ ← match d !! "round" with Some (JInt _) => Some tt | _ => None end;
  candidate ← nonempty_str (d !! "candidate_id");
  _ ← match d !! "parent_id" with Some JNull | Some (JStr _) => Some tt | _ => None end;
  phase ← d !! "phase" ≫= str_of;
  if negb (py_in phase ["baseline"; "candidate"; "merged"; "final"]) then None else
  duration ← d !! "duration_us" ≫= duration_of;
  if negb (is_true (d !! "l0_pass")) then None else
  _ ← nonempty_str (d !! "msprof_raw_path");
  artifact ← nonempty_str (d !! "artifact_path");
  sha ← d !! "artifact_sha256" ≫= str_of;
  if negb (is_sha256 sha) then None else
  _ ← nonempty_str (d !! "timestamp");
  Some (Measurement key.1 key.2 phase candidate duration artifact sha).

(** [measurements] and [final_versions]: the records of a workload by phase, and
    the candidates behind the final records of a kernel. *)
Notation phases := (gmap string (list measurement)).
Record tables := Tables {
  measurements : gmap key phases;
  final_versions : list (string * gset string);
}.

(** [measurements.get(key, {}).get(phase, [])]. *)
Definition records_of (ms : gmap key phases) (k : key) (phase : string) : list measurement :=
  default [] (default ∅ (ms !! k) !! phase).

(** [measurements.setdefault(key, {}).setdefault(rec["phase"], []).append(rec)]. *)
Definition add_measurement (m : measurement) (ms : gmap key phases) : gmap key phases :=
  <[m_key m := <[m_phase m := records_of ms (m_key m) (m_phase m) ++ [m]]> (default ∅ (ms !! m_key m))]> ms.

(** [final_versions.setdefault(kernel_id, set()).add(candidate_id)]. *)
Definition add_final (m : measurement) (vs : list (string * gset string)) : list (string * gset string) :=
  assign (m_kernel m) ({[m_candidate m]} ∪ default ∅ (assoc (m_kernel m) vs)) vs.

Section lint.
Context (fs : fsys).

(** The measured file against the file that is delivered. *)
Definition artifact_failures (records_path final_artifact_path : string) (m : measurement) : res (list failure) :=
  if decide (final_artifact_path = "") then Ok []
  else
    let recorded_path :=
      if isabs (m_artifact m) then m_artifact m
      else os_path_join (dirname records_path) (m_artifact m) in
    if decide (abspath (cwd fs) recorded_path ≠ abspath (cwd fs) final_artifact_path)
    then Ok [_fail RECON records_path]
    else if isfile fs final_artifact_path then
      actual_hash ← file_sha256 fs final_artifact_path;
      Ok (fail_if (negb (bool_decide (m_sha256 m = actual_hash))) RECON records_path)
    else Ok [].

(** One round of the loop over the lines of the records. *)
Definition check_line (records_path final_artifact_path : string) (expected : list (key * string))
    (st : list failure * tables) (line : rline) : res (list failure * tables) :=
  let '(fails, t) := st in
  let bad rule := Ok (fails ++ [_fail rule records_path], t) in
  match line with
  | RBlank => Ok (fails, t)
  | RBad => bad RSCHEMA
  | RJson (JObj d) =>
      if decide (missing PERF_RECORD_WORKLOAD_FIELDS d ≠ []) then bad RSCHEMA
      else
        match d !! "kernel_id" ≫= str_of, d !! "workload_id" ≫= str_of with
        | Some k, Some w =>
            if decide (assoc (k, w) expected ≠ Some "tune") then bad COVERAGE
            else
              match record_fields (k, w) d with
              | None => bad RSCHEMA
              | Some m =>
                  let ms := add_measurement m (measurements t) in
                  if decide (m_phase m = "final") then
                    fails' ← artifact_failures records_path final_artifact_path m;
                    Ok (fails ++ fails', Tables ms (add_final m (final_versions t)))
                  else Ok (fails, Tables ms (final_versions t))
              end
        | _, _ => bad RSCHEMA
        end
  | RJson _ => bad RSCHEMA
  end.

(** [for key, kind in expected.items()]: a baseline and one final record. *)
Definition coverage_failures (records_path : string) (ms : gmap key phases) (kk : key * string) : list failure :=
  if decide (kk.2 ≠ "tune") then []
  else
    let finals := records_of ms kk.1 "final" in
    fail_if (bool_decide (records_of ms kk.1 "baseline" = []) || bool_decide (finals = [])) COVERAGE records_path ++
    fail_if (negb (bool_decide (length finals = 1%nat))) RECON records_path.

(** [for kernel_id, versions in final_versions.items()]: one candidate. *)
Definition version_failures (records_path : string) (kv : string * gset string) : list failure :=
  fail_if (negb (bool_decide (size kv.2 = 1%nat))) RECON records_path.

(** ** The final table of the log *)

(** [\s*$] of a multi-line pattern, greedy: what is left behind it. *)
Fixpoint blanks_eol (t : text) : option text :=
  match t with
  | [] => Some []
  | c :: t' =>
      if isspace c then
        match blanks_eol t' with
        | Some r => Some r
        | None => if c =? 10 then Some t else None
        end
      else None
  end.

(** [^#{2,3} Final Performance Test Data\s*$] at the start of a line. *)
Definition marker_here (t : text) : option text :=
  let title := cps " Final Performance Test Data" in
  let hashes n := repeat 35 n ++ title in
  if startswith t (hashes 2%nat) then blanks_eol (drop (length (hashes 2%nat)) t)
  else if startswith t (hashes 3%nat) then blanks_eol (drop (length (hashes 3%nat)) t)
  else None.

(** The first match of the pattern; [start] says that a line starts here. *)
Fixpoint marker (start : bool) (t : text) : option text :=
  match (if start then marker_here t else None) with
  | Some r => Some r
  | None => match t with [] => None | c :: t' => marker (c =? 10) t' end
  end.

(** The lines up to the next heading. *)
Fixpoint section_lines (ls : list text) : list text :=
  match ls with
  | [] => []
  | l :: ls' => if startswith l (cps "## ") || startswith l (cps "### ") then [] else l :: section_lines ls'
  end.

(** The cells of a row of the table; headers, rules and other lines are none. *)
Definition row_cells (line : text) : option (text * text * text * text * text) :=
  let line := strip line in
  if negb (startswith line [124]) then None
  else
    let cells := strip <$> split_on 124 (strip_by (λ c, c =? 124) line) in
    match cells with
    | [c0; c1; c2; c3; c4] =>
        if py_in c0 [cps "kernel_id"; cps "---"] ||
           forallb (forallb (λ c, py_in c (cps "-: "))) cells
        then None else Some (c0, c1, c2, c3, c4)
    | _ => None
    end.

(** What a row claims of a workload: the durations before and after, and the
    candidate. *)
Record claim := Claim { c_baseline : spec_float; c_final : spec_float; c_candidate : string }.

(** [float(s)], which raises [ValueError] on other texts. *)
Context (py_float : text → option spec_float).

(** One round of the loop over the lines of the table. *)
Definition claim_row (opt_log_path : string) (st : list failure * list (key * claim))
    (cells : text * text * text * text * text) : list failure * list (key * claim) :=
  let '(fails, claims) := st in
  let '(c0, c1, c2, c3, c4) := cells in
  let k := (utf8 c0, utf8 c1) in
  let fails := fails ++ fail_if (bool_decide (is_Some (assoc k claims))) RECON opt_log_path in
  match py_float c2, py_float c3 with
  | Some b, Some f => (fails, assign k (Claim b f (utf8 c4)) claims)
  | _, _ => (fails ++ [_fail RECON opt_log_path], claims)
  end.

(** [RECON_TOLERANCE] and [1e-9]. *)
Definition RECON_TOLERANCE : spec_float := S754_finite false 5764607523034235 (-59).
Definition f_nano : spec_float := S754_finite false 4835703278458517 (-82).

(** [float(n)] of an [int] that is too large raises [OverflowError]. *)
Definition float_of (n : num) : res spec_float :=
  match n with
  | NFloat f => Ok f
  | NInt z => let f := binary_normalize 53 1024 z 0 false in
              if SFeqb (SFabs f) f_inf then Raise OverflowError else Ok f
  end.

(** [max(RECON_TOLERANCE * value, 1e-9)]. *)
Definition tolerance (v : spec_float) : spec_float :=
  let t := SFmul 53 1024 RECON_TOLERANCE v in if SFltb t f_nano then f_nano else t.

(** [abs(rec["duration_us"] - value) <= max(RECON_TOLERANCE * value, 1e-9)]. *)
Definition close_to (v : spec_float) (m : measurement) : res bool :=
  d ← float_of (m_duration m);
  Ok (SFleb (SFabs (SFsub 53 1024 d v)) (tolerance v)).

(** [any(... for rec in records)]. *)
Fixpoint any_close (v : spec_float) (records : list measurement) : res bool :=
  match records with
  | [] => Ok false
  | m :: ms => b ← close_to v m; if (b : bool) then Ok true else any_close v ms
  end.

Definition phase_failures (opt_log_path : string) (records : list measurement) (v : spec_float) :
    res (list failure) :=
  if decide (records = []) then Ok []
  else b ← any_close v records; Ok (fail_if (negb b) RECON opt_log_path).

(** The claim of one workload of [expected] against its records. *)
Definition claim_failures (opt_log_path : string) (ms : gmap key phases) (claims : list (key * claim))
    (kk : key * string) : res (list failure) :=
  if decide (kk.2 ≠ "tune") then Ok []
  else
    match assoc kk.1 claims with
    | None => Ok [_fail RECON opt_log_path]
    | Some c =>
        let finals := records_of ms kk.1 "final" in
        f1 ← phase_failures opt_log_path (records_of ms kk.1 "baseline") (c_baseline c);
        f2 ← phase_failures opt_log_path finals (c_final c);
        Ok (f1 ++ f2 ++
            match finals with
            | [m] => fail_if (negb (bool_decide (c_candidate c = m_candidate m))) RECON opt_log_path
            | _ => []
            end)
    end.

(** [for key in claims]: no other workloads. *)
Definition foreign_failures (opt_log_path : string) (expected : list (key * string)) (kc : key * claim) :
    list failure :=
  fail_if (negb (bool_decide (assoc kc.1 expected = Some "tune"))) RECON opt_log_path.

(** The rows behind the marker. *)
Definition table_rows (t : text) : list (text * text * text * text * text) := omap row_cells (section_lines (splitlines t)).

Definition table_failures (opt_log_path : string) (expected : list (key * string)) (ms : gmap key phases)
    (log : text) : res (list failure) :=
  if negb (existsb (λ kk, bool_decide (kk.2 = "tune")) expected) then Ok []
  else
    match marker true log with
    | None => Ok [_fail RECON opt_log_path]
    | Some rest =>
        let '(fails, claims) := foldl (claim_row opt_log_path) ([], []) (table_rows rest) in
        fss ← mmap (claim_failures opt_log_path ms claims) expected;
        Ok (fails ++ concat fss ++ (claims ≫= foreign_failures opt_log_path expected))
    end.

(** ** The lint *)

Definition _perf_records_workload_lint (records_path opt_log_path inventory_path final_artifact_path : string) :
    res (list failure * list failure) :=
  match json_load fs inventory_path with
  | NotUtf8 => Raise ValueError
  | NoFile | Content None => Ok ([_fail INVENTORY inventory_path], [])
  | Content (Some inventory) =>
      match inventory with
      | JObj d =>
          match d !! "workloads" with
          | Some (JList items) =>
              let '(fails1, expected) := foldl (check_item inventory_path) ([], []) items in
              lines ← match readlines fs records_path with
                      | Content ls => Ok ls
                      | NoFile => Ok []
                      | NotUtf8 => Raise ValueError
                      end;
              ft ← mfold (check_line records_path final_artifact_path expected) (fails1, Tables ∅ []) lines;
              let '(fails2, t) := ft in
              let ms := measurements t in
              let fails3 := expected ≫= coverage_failures records_path ms in
              let fails4 := final_versions t ≫= version_failures records_path in
              let log := default [] (_read_text fs opt_log_path) in
              let fails5 := fail_if (bool_decide (ms ≠ ∅) &&
                                     (negb (contains (cps "Task Duration") log) || negb (CURRENT_BEST_RE log)))
                              COMPTABLE opt_log_path in
              fails6 ← table_failures opt_log_path expected ms log;
              Ok (fails2 ++ fails3 ++ fails4 ++ fails5 ++ fails6, [])
          | _ => Ok ([_fail INVENTORY inventory_path], [])
          end
      | _ => Ok ([_fail INVENTORY inventory_path], [])
      end
  end.

Definition perf_records_lint (records_path opt_log_path final_artifact_path : string) :
    res (list failure * list failure) :=
  let inventory_path := os_path_join (dirname records_path) "workload_inventory.json" in
  if negb (isfile fs inventory_path) then Ok ([_fail INVENTORY inventory_path], [])
  else _perf_records_workload_lint records_path opt_log_path inventory_path final_artifact_path.

End lint.
