(* ===== verification/PerfAccept.v ===== *)
(** * What passing the performance lint means

    The lint of [PerfRecords] finds nothing if and only if the three documents agree:
    every workload of the inventory is classified and settled, every workload to tune
    was measured before and once after the tuning, on the delivered file, each kernel
    in one version, and the final table of the log reports these measurements, as
    long as its durations are finite numbers. *)
From Stdlib Require Import SpecFloat Ascii.
From stdpp Require Import base strings gmap numbers list.
From S2P Require Import Prelude StateSchema PerfRecords.

(** ** The specification *)

(** The workload an item of the inventory stands for. *)
Definition describes (item : json) (w : workload) : Prop :=
  ∃ d, item = JObj d ∧ missing WORKLOAD_FIELDS d = [] ∧ item_key d = Some (w_key w) ∧
       item_fields (w_key w) d = Some w.

(** It is of the kind its marks and names say, and its outcome is recorded. *)
Record classified (w : workload) : Prop := {
  cl_kind : w_kind w = expected_kind w;
  cl_tuned : w_kind w = "tune" →
    ∃ s, w_tuning_status w = Some (JStr s) ∧ s ∈ ["winner_merged"; "no_gain"; "merge_blocked"];
  cl_gainless : ∀ s, w_tuning_status w = Some (JStr s) → s ∈ ["no_gain"; "merge_blocked"] → w_reason w ≠ "";
  cl_smoke : w_kind w = "smoke" → w_precision_pass w = Some (JBool true);
  cl_full : w_kind w = "smoke" → marked "full" w = true → w_reason w ≠ "";
  cl_skipped : w_kind w = "skipped" → w_reason w ≠ "";
}.

Definition tune_keys (ws : list workload) : list key := w_key <$> filter (λ w, w_kind w = "tune") ws.

(** The measurement a line of the records stands for. *)
Definition reads (line : rline) (m : measurement) : Prop :=
  ∃ d, line = RJson (JObj d) ∧ missing PERF_RECORD_WORKLOAD_FIELDS d = [] ∧
       d !! "kernel_id" = Some (JStr (m_kernel m)) ∧ d !! "workload_id" = Some (JStr (m_workload m)) ∧
       record_fields (m_key m) d = Some m.

Definition nonblank (l : rline) : bool := match l with RBlank => false | _ => true end.

(** The records of a workload in a phase, in order. *)
Definition of_phase (ms : list measurement) (k : key) (p : string) : list measurement :=
  filter (λ m, m_key m = k ∧ m_phase m = p) ms.

Section spec.
Context (fs : fsys) (py_float : text → option spec_float).

(** The measured file is the delivered one: the same path, and the same content if
    it is there. *)
Definition delivered (records_path final_artifact_path : string) (m : measurement) : Prop :=
  final_artifact_path = "" ∨
  abspath (cwd fs) (if isabs (m_artifact m) then m_artifact m
                    else os_path_join (dirname records_path) (m_artifact m)) =
    abspath (cwd fs) final_artifact_path ∧
  (isfile fs final_artifact_path = true → file_sha256 fs final_artifact_path = Ok (m_sha256 m)).

(** The claim of a row of the final table. *)
Definition claims_row (cells : text * text * text * text * text) (kc : key * claim) : Prop :=
  let '(c0, c1, c2, c3, c4) := cells in
  kc.1 = (utf8 c0, utf8 c1) ∧ py_float c2 = Some (c_baseline kc.2) ∧
  py_float c3 = Some (c_final kc.2) ∧ c_candidate kc.2 = utf8 c4.

(** [v] is a number, not an infinity and not NaN. *)
Definition finite (v : spec_float) : bool :=
  match v with S754_zero _ | S754_finite _ _ _ => true | _ => false end.

(** The claimed duration [v] is a finite number and differs from the recorded one by
    at most one per cent of [v], or by at most [1e-9], in double precision. *)
Definition within_tolerance (v : spec_float) (m : measurement) : Prop :=
  finite v = true ∧
  ∃ d, float_of (m_duration m) = Ok d ∧
       SFleb (SFabs (SFsub 53 1024 d v)) (tolerance v) = true.

(** The claim is within the tolerance of a measurement before the tuning and of the
    final one, and names the candidate that was measured. *)
Definition reconciled (ms : list measurement) (kc : key * claim) : Prop :=
  (∃ m, m ∈ of_phase ms kc.1 "baseline" ∧ within_tolerance (c_baseline kc.2) m) ∧
  (∃ m, m ∈ of_phase ms kc.1 "final" ∧ within_tolerance (c_final kc.2) m ∧
        m_candidate m = c_candidate kc.2).

(** The durations of the final table are finite numbers. *)
Definition finite_row (cells : text * text * text * text * text) : bool :=
  let '(_, _, c2, c3, _) := cells in
  default true (finite <$> py_float c2) && default true (finite <$> py_float c3).

Definition finite_claims (log : text) : Prop :=
  ∀ rest, marker true log = Some rest → forallb finite_row (table_rows rest) = true.

Definition log_of (opt_log_path : string) : text := default [] (_read_text fs opt_log_path).

Record accepted (records_path opt_log_path final_artifact_path : string)
    (ws : list workload) (ms : list measurement) : Prop := {
  acc_inventory : let path := os_path_join (dirname records_path) "workload_inventory.json" in
    isfile fs path = true ∧
    ∃ d items, json_load fs path = Content (Some (JObj d)) ∧ d !! "workloads" = Some (JList items) ∧
               Forall2 describes items ws;
  acc_classified : Forall classified ws;
  acc_distinct : NoDup (w_key <$> ws);
  acc_records : ∃ ls, match readlines fs records_path with
                      | Content l => ls = l | NoFile => ls = [] | NotUtf8 => False end ∧
                      Forall2 reads (filter nonblank ls) ms;
  acc_known : ∀ m, m ∈ ms → m_key m ∈ tune_keys ws;
  acc_delivered : ∀ m, m ∈ ms → m_phase m = "final" → delivered records_path final_artifact_path m;
  acc_covered : ∀ k, k ∈ tune_keys ws →
    of_phase ms k "baseline" ≠ [] ∧ ∃ m, of_phase ms k "final" = [m];
  acc_version : ∀ m1 m2, m1 ∈ ms → m2 ∈ ms → m_phase m1 = "final" → m_phase m2 = "final" →
    m_kernel m1 = m_kernel m2 → m_candidate m1 = m_candidate m2;
  acc_compared : ms ≠ [] → contains (cps "Task Duration") (log_of opt_log_path) = true ∧
                           CURRENT_BEST_RE (log_of opt_log_path) = true;
  acc_table : tune_keys ws ≠ [] →
    ∃ rest rows, marker true (log_of opt_log_path) = Some rest ∧
      Forall2 claims_row (table_rows rest) rows ∧ rows.*1 ≡ₚ tune_keys ws ∧ Forall (reconciled ms) rows;
}.
End spec.

(** ** Generic lemmas *)

Lemma fail_if_nil b r p : fail_if b r p = [] ↔ b = false.
Proof. by destruct b. Qed.

Lemma app_nil_iff {A} (l k : list A) : l ++ k = [] ↔ l = [] ∧ k = [].
Proof. destruct l; naive_solver. Qed.

Lemma bind_nil_iff {A B} (f : A → list B) l : l ≫= f = [] ↔ ∀ x, x ∈ l → f x = [].
Proof.
  induction l as [|x l IH]; csimpl; [set_solver|].
  rewrite app_nil_iff, IH. set_solver.
Qed.

Section dict.
Context {K V : Type} `{EqDecision K}.
Implicit Types (l : list (K * V)).

Lemma assoc_None k l : assoc k l = None ↔ k ∉ l.*1.
Proof. induction l as [|[k' v] l IH]; csimpl; [set_solver|]. case_decide; set_solver. Qed.

Lemma assign_fresh k (v : V) l : assoc k l = None → assign k v l = l ++ [(k, v)].
Proof. induction l as [|[k' v'] l IH]; csimpl; [done|]. case_decide; [done|]. intros Hn. by rewrite IH. Qed.

Lemma assoc_elem k (v : V) l : NoDup l.*1 → assoc k l = Some v ↔ (k, v) ∈ l.
Proof.
  induction l as [|[k' v'] l IH]; csimpl; [set_solver|]. intros [Hk Hl]%NoDup_cons.
  rewrite elem_of_cons. case_decide as Hd; subst.
  - split; [set_solver|]. intros [?|Hin]; [naive_solver|]. destruct Hk. by apply (list_elem_of_fmap_2 fst) in Hin.
  - rewrite IH by done. naive_solver.
Qed.

Lemma assign_keys k (v : V) l : NoDup l.*1 → NoDup (assign k v l).*1 ∧ ∀ k', k' ∈ (assign k v l).*1 ↔ k' = k ∨ k' ∈ l.*1.
Proof.
  induction l as [|[k' v'] l IH]; csimpl; intros H.
  - split; [apply NoDup_singleton|set_solver].
  - apply NoDup_cons in H as [Hk Hl]. case_decide; csimpl.
    + subst. split; [by apply NoDup_cons|set_solver].
    + destruct (IH Hl) as [H1 H2]. split; [apply NoDup_cons; split; [rewrite H2; naive_solver|done]|].
      intros k1. rewrite !elem_of_cons, H2. naive_solver.
Qed.

Lemma assoc_assign k k' (v : V) l : assoc k (assign k' v l) = if decide (k = k') then Some v else assoc k l.
Proof.
  induction l as [|[k1 v1] l IH]; csimpl; [done|].
  destruct (decide (k' = k1)); csimpl; repeat case_decide; simplify_eq; try done; by rewrite IH.
Qed.
End dict.

(** ** The inventory *)

Lemma status_in_iff j l : status_in j l = true ↔ ∃ s, j = Some (JStr s) ∧ s ∈ l.
Proof.
  destruct j as [[]|]; simpl; try (split; [done|naive_solver]).
  unfold py_in. rewrite bool_decide_eq_true. naive_solver.
Qed.

Lemma is_true_iff j : is_true j = true ↔ j = Some (JBool true).
Proof. destruct j as [[|[]| | | | |]|]; naive_solver. Qed.

Lemma guard_false (P : Prop) `{Decision P} (b : bool) : bool_decide P && b = false ↔ (P → b = false).
Proof. destruct (bool_decide_reflect P), b; naive_solver. Qed.

Lemma workload_failures_nil path w : workload_failures path w = [] ↔ classified w.
Proof.
  unfold workload_failures. rewrite !app_nil_iff, !fail_if_nil, negb_false_iff, bool_decide_eq_true.
  rewrite <-andb_assoc, !guard_false, !negb_false_iff, status_in_iff, is_true_iff, !andb_false_iff, !bool_decide_eq_false.
  split.
  - intros (? & ? & Hs & ? & Hf & ?). split; try done.
    + intros s Hst Hin. destruct Hs as [Hs|]; [|done].
      apply not_true_iff_false in Hs. destruct Hs. apply status_in_iff. eauto.
    + intros Hk Hm. destruct (Hf Hk); [congruence|done].
  - intros []. split_and!; try done.
    + destruct (status_in _ _) eqn:E; [right|by left]. apply status_in_iff in E as (s & ? & ?). eauto.
    + intros Hk. destruct (marked "full" w); eauto.
Qed.

Lemma check_item_nil path f e item e' :
  check_item path (f, e) item = ([], e') ↔
  f = [] ∧ ∃ w, describes item w ∧ classified w ∧ w_key w ∉ e.*1 ∧ e' = e ++ [(w_key w, w_kind w)].
Proof.
  unfold check_item, describes. split.
  - intros H. repeat case_match; simplify_eq; try (by destruct f).
    match goal with H : _ ++ workload_failures _ _ = [] |- _ => apply app_nil_iff in H as [-> Hw%workload_failures_nil] end.
    match goal with H : item_fields ?k _ = Some ?w |- _ =>
      assert (w_key w = k) as Hk by (revert H; unfold item_fields; intros; repeat (case_match; simplify_option_eq); done) end.
    split; [done|]. eexists. rewrite Hk. split_and!; eauto using assign_fresh. by apply assoc_None.
  - intros (-> & w & (d & -> & Hm & Hk & Hf) & Hc & Hn & ->). apply assoc_None in Hn.
    rewrite decide_True, Hk, Hn, Hf by done. apply (workload_failures_nil path) in Hc.
    by rewrite Hc, assign_fresh.
Qed.

Definition kinds (ws : list workload) : list (key * string) := (λ w, (w_key w, w_kind w)) <$> ws.

Lemma kinds_keys ws : (kinds ws).*1 = w_key <$> ws.
Proof. unfold kinds. rewrite <-list_fmap_compose. done. Qed.

Lemma kinds_tune ws k : NoDup (w_key <$> ws) → assoc k (kinds ws) = Some "tune" ↔ k ∈ tune_keys ws.
Proof.
  intros Hnd. rewrite assoc_elem by by rewrite kinds_keys.
  unfold kinds, tune_keys. rewrite !list_elem_of_fmap. setoid_rewrite list_elem_of_filter. split.
  - intros (w & [= -> Hk] & Hin). eauto.
  - intros (w & -> & Hk & Hin). exists w. by rewrite Hk.
Qed.

Lemma check_items_nil path items e :
  foldl (check_item path) ([], []) items = ([], e) ↔
  ∃ ws, Forall2 describes items ws ∧ Forall classified ws ∧ NoDup (w_key <$> ws) ∧ e = kinds ws.
Proof.
  revert e. induction items as [|x items IH] using rev_ind; intros e.
  - simpl. split.
    + intros [= <-]. exists []. repeat constructor.
    + intros (ws & H & _ & _ & ->). apply Forall2_nil_inv_l in H as ->. done.
  - rewrite foldl_snoc. destruct (foldl _ _ items) as [f e0] eqn:E. rewrite check_item_nil. split.
    + intros (-> & w & Hd & Hc & Hn & ->). destruct (proj1 (IH e0) eq_refl) as (ws & H1 & H2 & H3 & ->).
      exists (ws ++ [w]). rewrite kinds_keys in Hn. unfold kinds. rewrite !fmap_app. split_and!; try done.
      * apply Forall2_app; [done|]. by repeat constructor.
      * apply Forall_app; eauto.
      * apply NoDup_app. split_and!; [done|set_solver|apply NoDup_singleton].
    + intros (ws & H1 & H2 & H3 & ->). apply Forall2_app_inv_l in H1 as (ws1 & k & H1 & Hx & ->).
      apply Forall2_cons_inv_l in Hx as (w & k' & Hd & ->%Forall2_nil_inv_l & ->).
      apply Forall_app in H2 as [H2 H4]. apply Forall_inv in H4. rewrite fmap_app in H3. apply NoDup_app in H3 as (H3 & H5 & _).
      assert ((f, e0) = ([], kinds ws1)) as [= -> ->] by (apply IH; eauto).
      split; [done|]. exists w. split_and!; try done; [|unfold kinds; by rewrite fmap_app].
      rewrite kinds_keys. intros Hin. apply (H5 _ Hin). set_solver.
Qed.

(** ** The records *)

Section records.
Context (fs : fsys) (records_path final_artifact_path : string).

Lemma delivered_iff m :
  artifact_failures fs records_path final_artifact_path m = Ok [] ↔
  delivered fs records_path final_artifact_path m.
Proof.
  unfold artifact_failures, delivered. case_decide as Hd; [naive_solver|].
  set (p := abspath _ (if isabs _ then _ else _)). case_decide as Hp; [split; [done|naive_solver]|].
  destruct (isfile _ _); [|split; [right; split; done|done]].
  destruct (file_sha256 _ _) as [h|e]; simpl; [|split; [done|naive_solver]].
  split.
  - intros [= H%fail_if_nil%negb_false_iff%bool_decide_eq_true]. right. by rewrite H.
  - intros [?|[_ H]]; [done|]. f_equal. apply fail_if_nil, negb_false_iff, bool_decide_eq_true. naive_solver.
Qed.

(** What a valid record adds. *)
Definition add_record (t : tables) (m : measurement) : tables :=
  Tables (add_measurement m (measurements t))
    (if decide (m_phase m = "final") then add_final m (final_versions t) else final_versions t).

Lemma record_fields_key k d m : record_fields k d = Some m → m_key m = k.
Proof.
  unfold record_fields. intros H. destruct k. repeat (case_match; simplify_option_eq); done.
Qed.

Lemma check_line_nil expected f t line t' :
  check_line fs records_path final_artifact_path expected (f, t) line = Ok ([], t') ↔
  f = [] ∧
  (line = RBlank ∧ t' = t ∨
   ∃ m, reads line m ∧ assoc (m_key m) expected = Some "tune" ∧
        (m_phase m = "final" → delivered fs records_path final_artifact_path m) ∧ t' = add_record t m).
Proof.
  unfold check_line, reads. split.
  - intros H. destruct line as [| |[| | | | | |d]]; try (injection H as ? ?; by destruct f); [naive_solver|].
    case_decide as Hm; [injection H as ? ?; by destruct f|].
    destruct (d !! "kernel_id" ≫= str_of) as [k|] eqn:Ek; [|injection H as ? ?; by destruct f].
    destruct (d !! "workload_id" ≫= str_of) as [w|] eqn:Ew; [|injection H as ? ?; by destruct f].
    case_decide as Ha; [injection H as ? ?; by destruct f|].
    destruct (record_fields _ d) as [m|] eqn:Er; [|injection H as ? ?; by destruct f].
    pose proof (record_fields_key _ _ _ Er) as Hk. unfold m_key in Hk. injection Hk as <- <-.
    assert (∀ x s, x ≫= str_of = Some s → x = Some (JStr s)) as Hs.
    { intros [[]|] s0; simpl; naive_solver. }
    apply Hs in Ek, Ew. unfold add_record, m_key. case_decide as Hf.
    + apply bind_Ok in H as (fails & H1 & [= H2 <-]). apply app_nil_iff in H2 as [-> ->].
      split; [done|]. right. exists m. split_and!; [exists d; by split_and!|done| |by rewrite decide_True].
      intros _. by apply delivered_iff.
    + injection H as -> <-. split; [done|]. right. exists m. split_and!; [exists d; by split_and!|done|done|by rewrite decide_False].
  - intros (-> & [[-> ->]|(m & (d & -> & Hm & Hk & Hw & Hr) & Ha & Hd & ->)]); [done|].
    rewrite decide_False by (by intros ?). rewrite Hk, Hw. simpl. unfold m_key in *.
    rewrite decide_False by (by intros ?). rewrite Hr. unfold add_record. case_decide as Hf; [|done].
    apply Hd, delivered_iff in Hf. by rewrite Hf.
Qed.

Definition tables_of (ms : list measurement) : tables := foldl add_record (Tables ∅ []) ms.

Lemma check_lines_nil expected f lines t :
  mfold (check_line fs records_path final_artifact_path expected) (f, Tables ∅ []) lines = Ok ([], t) ↔
  f = [] ∧ ∃ ms, Forall2 reads (filter nonblank lines) ms ∧
    (∀ m, m ∈ ms → assoc (m_key m) expected = Some "tune") ∧
    (∀ m, m ∈ ms → m_phase m = "final" → delivered fs records_path final_artifact_path m) ∧
    t = tables_of ms.
Proof.
  revert t. induction lines as [|x lines IH] using rev_ind; intros t.
  - simpl. split.
    + intros [= -> <-]. split; [done|]. exists []. split_and!; [constructor|set_solver..|done].
    + intros (-> & ms & ->%Forall2_nil_inv_l & _ & _ & ->). done.
  - rewrite mfold_app, bind_Ok, filter_app. split.
    + intros ([f1 t1] & H1 & H). simpl in H. apply bind_Ok in H as ([f2 t2] & H & [= -> ->]).
      apply check_line_nil in H as [-> Hx]. apply IH in H1 as (-> & ms & H1 & H2 & H3 & ->). split; [done|].
      destruct Hx as [[-> ->]|(m & Hr & Ha & Hd & ->)].
      * exists ms. rewrite filter_cons_False, app_nil_r by (by intros ?). eauto.
      * exists (ms ++ [m]). assert (nonblank x = true) as Hx by (by destruct Hr as (? & -> & _)).
        rewrite filter_cons_True by (by rewrite Hx). split_and!.
        -- apply Forall2_app; [done|]. by repeat constructor.
        -- intros m' [?| ->%list_elem_of_singleton]%elem_of_app; eauto.
        -- intros m' [?| ->%list_elem_of_singleton]%elem_of_app; eauto.
        -- unfold tables_of. by rewrite foldl_snoc.
    + intros (-> & ms & H1 & H2 & H3 & ->). destruct (nonblank x) eqn:Hx.
      * rewrite filter_cons_True in H1 by (by rewrite Hx).
        apply Forall2_app_inv_l in H1 as (ms1 & k & H1 & Hk & ->).
        apply Forall2_cons_inv_l in Hk as (m & k' & Hr & ->%Forall2_nil_inv_l & ->).
        exists ([], tables_of ms1). split; [apply IH; split; [done|]; exists ms1; split_and!; set_solver|].
        simpl. apply bind_Ok. exists ([], tables_of (ms1 ++ [m])). split; [|done]. apply check_line_nil.
        split; [done|]. right. exists m. unfold tables_of. rewrite foldl_snoc. split_and!; set_solver.
      * rewrite filter_cons_False, app_nil_r in H1 by (rewrite Hx; by intros []).
        exists ([], tables_of ms). split; [apply IH; eauto 10|]. simpl. by destruct x.
Qed.
End records.

(** ** The tables of measurements *)

Lemma tables_of_snoc ms m : tables_of (ms ++ [m]) = add_record (tables_of ms) m.
Proof. unfold tables_of. by rewrite foldl_snoc. Qed.

Lemma records_of_add m ms k p :
  records_of (add_measurement m ms) k p =
  records_of ms k p ++ (if decide (m_key m = k ∧ m_phase m = p) then [m] else []).
Proof.
  unfold add_measurement, records_of. destruct (decide (m_key m = k)) as [<-|Hk].
  - rewrite lookup_insert_eq. simpl. destruct (decide (m_phase m = p)) as [<-|Hp].
    + rewrite lookup_insert_eq. by rewrite decide_True.
    + rewrite lookup_insert_ne, decide_False, app_nil_r by naive_solver. done.
  - rewrite lookup_insert_ne, decide_False, app_nil_r by naive_solver. done.
Qed.

Lemma records_of_tables ms k p : records_of (measurements (tables_of ms)) k p = of_phase ms k p.
Proof.
  induction ms as [|m ms IH] using rev_ind; [done|].
  rewrite tables_of_snoc. simpl. rewrite records_of_add, IH. unfold of_phase. rewrite filter_app. f_equal.
Qed.

Lemma measurements_empty ms : measurements (tables_of ms) = ∅ ↔ ms = [].
Proof.
  destruct ms as [|m ms] using rev_ind; [done|]. rewrite tables_of_snoc. simpl. split.
  - intros H. unfold add_measurement in H. by apply insert_non_empty in H.
  - by destruct ms.
Qed.

Lemma exists_snoc {A} (P : A → Prop) l x : (∃ y, y ∈ l ++ [x] ∧ P y) ↔ (∃ y, y ∈ l ∧ P y) ∨ P x.
Proof.
  setoid_rewrite elem_of_app. setoid_rewrite list_elem_of_singleton. split.
  - intros (y & [Hy| ->] & Hp); eauto.
  - intros [(y & Hy & Hp)|Hp]; eauto.
Qed.

(** The candidates of a kernel's final records. *)
Lemma final_versions_spec ms :
  NoDup (final_versions (tables_of ms)).*1 ∧
  (∀ k, k ∈ (final_versions (tables_of ms)).*1 ↔ ∃ m, m ∈ ms ∧ m_phase m = "final" ∧ m_kernel m = k) ∧
  (∀ k c, c ∈ default ∅ (assoc k (final_versions (tables_of ms))) ↔
          ∃ m, m ∈ ms ∧ m_phase m = "final" ∧ m_kernel m = k ∧ m_candidate m = c).
Proof.
  induction ms as [|m ms (H1 & H2 & H3)] using rev_ind.
  - simpl. split_and!; [apply NoDup_nil_2|set_solver..].
  - rewrite tables_of_snoc. simpl. setoid_rewrite exists_snoc.
    case_decide as Hf; [|split_and!; [done|intros k; rewrite H2|intros k c; rewrite H3]; tauto].
    unfold add_final. destruct (assign_keys (m_kernel m)
      ({[m_candidate m]} ∪ default ∅ (assoc (m_kernel m) (final_versions (tables_of ms)))) _ H1) as [Hn Hk].
    split_and!; [done|intros k; rewrite Hk, H2; intuition congruence|]. intros k c. rewrite assoc_assign.
    case_decide; subst; simpl; [rewrite elem_of_union, elem_of_singleton|]; rewrite H3; intuition congruence.
Qed.

Lemma size_one_iff (X : gset string) : size X = 1%nat ↔ (∃ x, x ∈ X) ∧ ∀ x y, x ∈ X → y ∈ X → x = y.
Proof.
  split.
  - intros [x ->%leibniz_equiv]%size_1_elem_of. set_solver.
  - intros [[x Hx] Hu]. assert (X = {[x]}) as -> by set_solver. apply size_singleton.
Qed.

Lemma versions_nil path ms :
  final_versions (tables_of ms) ≫= version_failures path = [] ↔
  ∀ m1 m2, m1 ∈ ms → m2 ∈ ms → m_phase m1 = "final" → m_phase m2 = "final" →
    m_kernel m1 = m_kernel m2 → m_candidate m1 = m_candidate m2.
Proof.
  destruct (final_versions_spec ms) as (H1 & H2 & H3). rewrite bind_nil_iff.
  setoid_rewrite fail_if_nil. setoid_rewrite negb_false_iff. setoid_rewrite bool_decide_eq_true. split.
  - intros H m1 m2 ? ? ? ? He.
    assert (m_kernel m1 ∈ (final_versions (tables_of ms)).*1) as Hk by (apply H2; eauto).
    apply list_elem_of_fmap in Hk as ([k vs] & Hk & Hin). simpl in Hk. subst k.
    apply H in Hin as Hs. apply size_one_iff in Hs as [_ Hs]. apply assoc_elem in Hin; [|done].
    apply Hs; specialize (H3 (m_kernel m1)); rewrite Hin in H3; apply H3; eauto.
  - intros H [k vs] Hin. simpl. apply assoc_elem in Hin as Ha; [|done].
    specialize (H3 k). rewrite Ha in H3. simpl in H3. apply size_one_iff. split.
    + destruct (proj1 (H2 k)) as (m & ? & ? & ?); [by apply (list_elem_of_fmap_2 fst) in Hin|].
      exists (m_candidate m). apply H3. eauto.
    + intros x y (m1 & ? & ? & ? & <-)%H3 (m2 & ? & ? & ? & <-)%H3. apply H; congruence.
Qed.

Lemma coverage_nil path ws ms :
  kinds ws ≫= coverage_failures path (measurements (tables_of ms)) = [] ↔
  ∀ k, k ∈ tune_keys ws → of_phase ms k "baseline" ≠ [] ∧ ∃ m, of_phase ms k "final" = [m].
Proof.
  rewrite bind_nil_iff. unfold kinds, tune_keys. setoid_rewrite list_elem_of_fmap. split.
  - intros H k (w & -> & [Hw Hin]%list_elem_of_filter). specialize (H _ (ex_intro _ w (conj eq_refl Hin))).
    revert H. unfold coverage_failures. rewrite decide_False by (simpl; by intros ?). simpl.
    rewrite !records_of_tables, app_nil_iff, !fail_if_nil, orb_false_iff, !bool_decide_eq_false, negb_false_iff, bool_decide_eq_true.
    intros [[? ?] Hl]. split; [done|]. destruct (of_phase _ _ "final") as [|m [|]]; naive_solver.
  - intros H [k kd] (w & [= -> ->] & Hin). unfold coverage_failures. case_decide as Hd; [done|]. simpl in *.
    destruct (H (w_key w)) as [? [m Hm]]; [exists w; by rewrite list_elem_of_filter|].
    rewrite !records_of_tables, Hm. apply app_nil_iff. rewrite !fail_if_nil, orb_false_iff, !bool_decide_eq_false.
    done.
Qed.

(** ** The final table *)

Lemma mmap_nil {A B} (f : A → res (list B)) l :
  (∃ r, mmap f l = Ok r ∧ concat r = []) ↔ ∀ x, x ∈ l → f x = Ok [].
Proof.
  split.
  - intros (r & H%mmap_Ok & Hc). induction H as [|x y l r Hx _ IH]; [set_solver|].
    simpl in Hc. apply app_nil_iff in Hc as [-> Hc]. intros z [->|Hz]%elem_of_cons; eauto.
  - induction l as [|x l IH]; intros H; [by exists []|].
    destruct IH as (r & Hr & Hc); [set_solver|]. exists ([] :: r). simpl. rewrite H, Hr by set_solver. done.
Qed.

Section table.
Context (py_float : text → option spec_float) (path : string).

Lemma claim_row_nil f cl cells cl' :
  claim_row py_float path (f, cl) cells = ([], cl') ↔
  f = [] ∧ ∃ kc, claims_row py_float cells kc ∧ kc.1 ∉ cl.*1 ∧ cl' = cl ++ [kc].
Proof.
  destruct cells as [[[[c0 c1] c2] c3] c4]. unfold claim_row, claims_row.
  assert (∀ k, bool_decide (is_Some (assoc k cl)) = false ↔ k ∉ cl.*1) as Hn.
  { intros k. rewrite bool_decide_eq_false, <-assoc_None. symmetry. apply eq_None_not_Some. }
  split.
  - intros H. destruct (py_float c2) as [b|] eqn:E2; [|injection H as H _; by apply app_nil_iff in H as [_ ?]].
    destruct (py_float c3) as [e|] eqn:E3; [|injection H as H _; by apply app_nil_iff in H as [_ ?]].
    injection H as H <-. apply app_nil_iff in H as [-> H%fail_if_nil%Hn]. split; [done|].
    exists (utf8 c0, utf8 c1, Claim b e (utf8 c4)). split_and!; try done. apply assign_fresh. by apply assoc_None.
  - intros (-> & [k [b e c]] & (Hk & -> & -> & Hc) & Hk' & ->). simpl in *. subst k c.
    rewrite (proj2 (Hn _) Hk'). f_equal. apply assign_fresh. by apply assoc_None.
Qed.

Lemma claim_rows_nil rows cl :
  foldl (claim_row py_float path) ([], []) rows = ([], cl) ↔
  Forall2 (claims_row py_float) rows cl ∧ NoDup cl.*1.
Proof.
  revert cl. induction rows as [|x rows IH] using rev_ind; intros cl.
  - simpl. split; [intros [= <-]; split; constructor|]. by intros [->%Forall2_nil_inv_l _].
  - rewrite foldl_snoc. destruct (foldl _ _ rows) as [f cl0]. rewrite claim_row_nil. split.
    + intros (-> & kc & Hc & Hn & ->). destruct (proj1 (IH cl0) eq_refl) as [H1 H2]. rewrite fmap_app. split.
      * apply Forall2_app; [done|]. by repeat constructor.
      * apply NoDup_app. split_and!; [done|set_solver|apply NoDup_singleton].
    + intros [H1 H2]. apply Forall2_app_inv_l in H1 as (cl1 & k & H1 & Hx & ->).
      apply Forall2_cons_inv_l in Hx as (kc & k' & Hc & ->%Forall2_nil_inv_l & ->).
      rewrite fmap_app in H2. apply NoDup_app in H2 as (H2 & H3 & _).
      assert ((f, cl0) = ([], cl1)) as [= -> ->] by by apply IH.
      split; [done|]. exists kc. split_and!; try done. intros Hin. apply (H3 _ Hin). set_solver.
Qed.

Lemma any_close_true v l : any_close v l = Ok true → ∃ m, m ∈ l ∧ close_to v m = Ok true.
Proof.
  induction l as [|m l IH]; simpl; [done|]. intros ([] & Hc & H)%bind_Ok; [set_solver|].
  destruct (IH H) as (m' & ? & ?). set_solver.
Qed.

(** The durations that are ints can be compared with floats. *)
Definition comparable (m : measurement) : Prop := ∃ f, float_of (m_duration m) = Ok f.

Lemma close_to_iff v m : finite v = true → close_to v m = Ok true ↔ within_tolerance v m.
Proof.
  intros Hv. unfold close_to, within_tolerance. split.
  - intros (d & Hd & [= H])%bind_Ok. eauto.
  - intros (_ & d & -> & H). simpl. by rewrite H.
Qed.

Lemma any_close_complete v l m :
  (∀ m, m ∈ l → comparable m) → m ∈ l → close_to v m = Ok true → any_close v l = Ok true.
Proof.
  intros Hl. induction l as [|x l IH]; intros Hm Hc; simpl; [set_solver|].
  destruct (Hl x) as [d Hd]; [set_solver|]. destruct (close_to v x) as [[]|e] eqn:E.
  - done.
  - simpl. apply IH; [set_solver| |done]. apply elem_of_cons in Hm as [->|]; [congruence|done].
  - unfold close_to in E. by rewrite Hd in E.
Qed.

Lemma phase_failures_nil l v :
  l ≠ [] → phase_failures path l v = Ok [] ↔ any_close v l = Ok true.
Proof.
  intros Hl. unfold phase_failures. rewrite decide_False by done.
  destruct (any_close v l) as [[]|]; simpl; split; done.
Qed.

Lemma claim_failures_sound ms claims k :
  of_phase ms k "baseline" ≠ [] → (∃ m, of_phase ms k "final" = [m]) →
  claim_failures path (measurements (tables_of ms)) claims (k, "tune") = Ok [] →
  ∃ c, assoc k claims = Some c ∧
    (finite (c_baseline c) = true → finite (c_final c) = true → reconciled ms (k, c)).
Proof.
  intros Hb [m Hf]. unfold claim_failures. rewrite decide_False by (by intros ?). simpl.
  destruct (assoc k claims) as [c|]; [|done]. rewrite !records_of_tables, Hf.
  intros (f1 & H1 & (f2 & H2 & [= H3])%bind_Ok)%bind_Ok. apply app_nil_iff in H3 as [-> H3].
  apply app_nil_iff in H3 as [-> H3%fail_if_nil%negb_false_iff%bool_decide_eq_true].
  apply phase_failures_nil, any_close_true in H1; [|done]. apply phase_failures_nil, any_close_true in H2; [|done].
  destruct H2 as (m' & ->%list_elem_of_singleton & H2).
  exists c. split; [done|]. intros Hvb Hvf. destruct H1 as (mb & Hmb & H1). apply close_to_iff in H1, H2; [|done..].
  split; [by exists mb|]. exists m. simpl. rewrite Hf. split_and!; [set_solver|done|done].
Qed.

Lemma claim_failures_complete ms claims k c :
  (∀ m, m ∈ ms → comparable m) → (∃ m, of_phase ms k "final" = [m]) →
  assoc k claims = Some c → reconciled ms (k, c) →
  claim_failures path (measurements (tables_of ms)) claims (k, "tune") = Ok [].
Proof.
  intros Hc [m Hf] Ha [(mb & Hb & Hcb) (mf & Hmf & Hcf & Hcand)]. simpl in *.
  apply close_to_iff in Hcb; [|apply Hcb]. apply close_to_iff in Hcf; [|apply Hcf].
  unfold claim_failures. rewrite decide_False by (by intros ?). simpl. rewrite Ha, !records_of_tables.
  assert (∀ p x, x ∈ of_phase ms k p → comparable x) as Hp by (intros p x [_ ?]%list_elem_of_filter; eauto).
  pose proof (any_close_complete _ _ _ (Hp _) Hb Hcb) as H1.
  pose proof (any_close_complete _ _ _ (Hp _) Hmf Hcf) as H2.
  apply phase_failures_nil in H1; [|by intros E; rewrite E in Hb; set_solver].
  apply phase_failures_nil in H2; [|by rewrite Hf].
  rewrite H1, H2. simpl. rewrite Hf in *. apply list_elem_of_singleton in Hmf as ->.
  by rewrite bool_decide_eq_true_2.
Qed.

Lemma any_tune ws : existsb (λ kk, bool_decide (kk.2 = "tune")) (kinds ws) = true ↔ tune_keys ws ≠ [].
Proof.
  unfold kinds, tune_keys. induction ws as [|w ws IH]; [done|]. csimpl. rewrite filter_cons.
  destruct (decide (w_kind w = "tune")); [by rewrite bool_decide_eq_true_2|].
  by rewrite bool_decide_eq_false_2.
Qed.

Lemma tune_keys_NoDup ws : NoDup (w_key <$> ws) → NoDup (tune_keys ws).
Proof.
  intros H. eapply sublist_NoDup; [exact H|]. apply fmap_sublist, sublist_filter.
Qed.
End table.

(** ** The lint *)

Section lint.
Context (fs : fsys) (py_float : text → option spec_float).
Implicit Types (ws : list workload) (ms : list measurement).

Definition table_ok (ws : list workload) (ms : list measurement) (log : text) : Prop :=
  tune_keys ws ≠ [] →
  ∃ rest rows, marker true log = Some rest ∧ Forall2 (claims_row py_float) (table_rows rest) rows ∧
    rows.*1 ≡ₚ tune_keys ws ∧ Forall (reconciled ms) rows.

Definition covered (ws : list workload) (ms : list measurement) : Prop :=
  ∀ k, k ∈ tune_keys ws → of_phase ms k "baseline" ≠ [] ∧ ∃ m, of_phase ms k "final" = [m].

Lemma in_kinds ws k : k ∈ tune_keys ws ↔ (k, "tune") ∈ kinds ws.
Proof.
  unfold kinds, tune_keys. rewrite !list_elem_of_fmap. setoid_rewrite list_elem_of_filter. split.
  - intros (w & -> & Hk & Hin). exists w. by rewrite Hk.
  - intros (w & [= -> Hk] & Hin). eauto.
Qed.

Lemma finite_row_claims cells rows (kc : key * claim) :
  forallb (finite_row py_float) cells = true → Forall2 (claims_row py_float) cells rows → kc ∈ rows →
  finite (c_baseline kc.2) = true ∧ finite (c_final kc.2) = true.
Proof.
  intros Hf Hr. induction Hr as [|[[[[c0 c1] c2] c3] c4] x cells rows Hx Hr IH]; [by intros ?%not_elem_of_nil|].
  simpl in Hf. apply andb_prop in Hf as [Hf Hf']. destruct Hx as (_ & Hb & Hc & _). rewrite Hb, Hc in Hf.
  apply andb_prop in Hf. intros [->|?]%elem_of_cons; [done|auto].
Qed.

Lemma table_sound path ws ms log :
  NoDup (w_key <$> ws) → covered ws ms → finite_claims py_float log →
  table_failures py_float path (kinds ws) (measurements (tables_of ms)) log = Ok [] → table_ok ws ms log.
Proof.
  intros Hnd Hcov Hfin H Ht. unfold table_failures in H. rewrite (proj2 (any_tune ws)) in H by done. simpl in H.
  destruct (marker true log) as [rest|] eqn:Em; [|done]. destruct (foldl _ _ _) as [f cl] eqn:E.
  apply bind_Ok in H as (fss & Hm & [= H]). apply app_nil_iff in H as [-> H]. apply app_nil_iff in H as [Hc Hx].
  apply claim_rows_nil in E as [Hr Hu]. rewrite bind_nil_iff in Hx.
  assert (∀ k, k ∈ tune_keys ws → ∃ c, assoc k cl = Some c ∧ reconciled ms (k, c)) as Hk.
  { intros k Hk. destruct (Hcov k Hk) as [Hb Hf]. edestruct claim_failures_sound as (c & Ha & Hc'); [exact Hb|exact Hf| |].
    { eapply mmap_nil; [eauto|]. by apply in_kinds. }
    exists c. split; [done|]. apply assoc_elem in Ha; [|done].
    destruct (finite_row_claims _ _ _ (Hfin _ Em) Hr Ha). by apply Hc'. }
  assert (∀ kc, kc ∈ cl → kc.1 ∈ tune_keys ws) as Hf.
  { intros kc Hin. apply Hx in Hin. unfold foreign_failures in Hin.
    apply fail_if_nil, negb_false_iff, bool_decide_eq_true in Hin. by apply kinds_tune in Hin. }
  exists rest, cl. split_and!; [done..| |].
  - apply NoDup_Permutation; [done|by apply tune_keys_NoDup|]. intros k. rewrite list_elem_of_fmap. split.
    + intros (kc & -> & Hin). eauto.
    + intros (c & Ha & _)%Hk. exists (k, c). split; [done|]. by apply assoc_elem.
  - apply Forall_forall. intros [k c] Hin. destruct (Hk k) as (c' & Ha & Hc'); [by apply (Hf (k, c))|].
    apply assoc_elem in Hin; [|done]. by simplify_eq.
Qed.

Lemma table_complete path ws ms log :
  NoDup (w_key <$> ws) → covered ws ms → (∀ m, m ∈ ms → comparable m) → table_ok ws ms log →
  table_failures py_float path (kinds ws) (measurements (tables_of ms)) log = Ok [].
Proof.
  intros Hnd Hcov Hcmp Hok. unfold table_failures. destruct (existsb _ _) eqn:Et; [simpl|done].
  apply any_tune in Et. destruct (Hok Et) as (rest & rows & -> & Hr & Hp & Hrec).
  assert (NoDup rows.*1) as Hu by (rewrite Hp; by apply tune_keys_NoDup).
  rewrite (proj2 (claim_rows_nil py_float path (table_rows rest) rows)) by done.
  assert (∀ kk, kk ∈ kinds ws →
    claim_failures path (measurements (tables_of ms)) rows kk = Ok []) as Hk.
  { intros [k kd] Hin. destruct (decide (kd = "tune")) as [->|Hd].
    - assert (k ∈ tune_keys ws) as Ht by by apply in_kinds. destruct (Hcov k Ht) as [_ Hf].
      rewrite <-Hp in Ht. apply list_elem_of_fmap in Ht as ([k' c] & -> & Hc).
      rewrite Forall_forall in Hrec. eapply claim_failures_complete; eauto. by apply assoc_elem.
    - unfold claim_failures. by rewrite decide_True. }
  apply mmap_nil in Hk as (r & -> & Hr'). simpl. rewrite Hr'. simpl. f_equal. apply bind_nil_iff.
  intros [k c] Hin. apply fail_if_nil, negb_false_iff, bool_decide_eq_true, kinds_tune; [done|].
  rewrite <-Hp. by apply (list_elem_of_fmap_2 fst) in Hin.
Qed.

Lemma compared_iff path ms log :
  fail_if (bool_decide (measurements (tables_of ms) ≠ ∅) &&
           (negb (contains (cps "Task Duration") log) || negb (CURRENT_BEST_RE log))) COMPTABLE path = [] ↔
  (ms ≠ [] → contains (cps "Task Duration") log = true ∧ CURRENT_BEST_RE log = true).
Proof.
  rewrite fail_if_nil, guard_false, orb_false_iff, !negb_false_iff. split; intros H Hm; apply H; intros E; apply Hm.
  - by apply measurements_empty.
  - by apply measurements_empty in E.
Qed.

Lemma perf_lint_sound records_path opt_log_path final_artifact_path :
  finite_claims py_float (log_of fs opt_log_path) →
  perf_records_lint fs py_float records_path opt_log_path final_artifact_path = Ok ([], []) →
  ∃ ws ms, accepted fs py_float records_path opt_log_path final_artifact_path ws ms.
Proof.
  intros Hfin. unfold perf_records_lint, _perf_records_workload_lint. set (inv := os_path_join _ _).
  destruct (isfile fs inv) eqn:Ei; [simpl|done].
  destruct (json_load fs inv) as [| |[[| | | | | |d]|]] eqn:Ej; try done.
  destruct (d !! "workloads") as [[| | | | |items|]|] eqn:Ew; try done.
  destruct (foldl _ _ items) as [f1 e] eqn:E.
  intros (ls & Hl & ([f2 t] & Hm & H)%bind_Ok)%bind_Ok. apply bind_Ok in H as (f6 & Ht & [= H]).
  rewrite !app_nil_iff in H. destruct H as (-> & H3 & H4 & H5 & ->).
  apply check_lines_nil in Hm as (-> & ms & Hr & Hk & Hd & ->).
  apply check_items_nil in E as (ws & H6 & H7 & H8 & ->).
  pose proof (proj1 (coverage_nil records_path ws ms) H3) as Hcov. exists ws, ms. split; try done.
  - split; [done|]. exists d, items. done.
  - exists ls. split; [|done]. by destruct (readlines fs records_path); inv_ok.
  - intros m Hin. apply kinds_tune; eauto.
  - exact (proj1 (versions_nil _ _) H4).
  - exact (proj1 (compared_iff _ _ _) H5).
  - by apply table_sound in Ht.
Qed.

Lemma perf_lint_complete records_path opt_log_path final_artifact_path ws ms :
  accepted fs py_float records_path opt_log_path final_artifact_path ws ms → (∀ m, m ∈ ms → comparable m) →
  perf_records_lint fs py_float records_path opt_log_path final_artifact_path = Ok ([], []).
Proof.
  unfold perf_records_lint, _perf_records_workload_lint. set (inv := os_path_join _ _).
  intros [[Hi (d & items & Hj & Hw & H6)] H7 H8 (ls & Hl & Hr) Hk Hd H3 H4 H5 Ht] Hcmp.
  fold inv in Hi, Hj. rewrite Hi, Hj, Hw. simpl.
  rewrite (proj2 (check_items_nil inv items (kinds ws))) by eauto 10.
  assert (readlines fs records_path ≠ NotUtf8 ∧
    match readlines fs records_path with Content l => Ok l | NoFile => Ok [] | NotUtf8 => Raise ValueError end = Ok ls)
    as [_ ->] by (destruct (readlines fs records_path); naive_solver).
  simpl. rewrite (proj2 (check_lines_nil fs records_path final_artifact_path (kinds ws) [] ls (tables_of ms))).
  2: { split; [done|]. exists ms. split_and!; try done. intros m Hin. apply kinds_tune; eauto. }
  simpl. pose proof (proj2 (coverage_nil records_path ws ms) H3) as Hcov. pose proof (proj2 (versions_nil records_path ms) H4) as Hv.
  pose proof (proj2 (compared_iff opt_log_path ms _) H5) as Hl'. rewrite (table_complete _ _ _ _ H8 H3 Hcmp Ht). simpl.
  unfold log_of in Hl'. by rewrite Hcov, Hv, Hl'.
Qed.

End lint.

(** ** A tuning with two workloads *)

Module PerfAcceptEx.

Definition inventory : json := JObj (list_to_map [("workloads", JList
  [JObj (list_to_map
     [("benchmark_source", JStr "bench.py"); ("kernel_id", JStr "add"); ("workload_id", JStr "large");
      ("label", JStr "4096"); ("marks", JList []); ("shape", JList [JInt 4096]); ("dtype", JStr "float16");
      ("params", JObj ∅); ("kind", JStr "tune"); ("reason", JStr ""); ("tuning_status", JStr "winner_merged")]);
   JObj (list_to_map
     [("benchmark_source", JStr "bench.py"); ("kernel_id", JStr "add"); ("workload_id", JStr "Smoke-1");
      ("label", JStr "small"); ("marks", JList [JStr "FULL"]); ("shape", JList [JInt 16]); ("dtype", JStr "float16");
      ("params", JObj ∅); ("kind", JStr "smoke"); ("reason", JStr "short"); ("precision_pass", JBool true)])])]).

Definition sha : string := "0123456789abcdef0123456789abcdef0123456789abcdef0123456789abcdef".

Definition measured (phase candidate : string) (duration : Z) : rline := RJson (JObj (list_to_map
  [("round", JInt 1); ("candidate_id", JStr candidate); ("parent_id", JNull); ("kernel_id", JStr "add");
   ("workload_id", JStr "large"); ("phase", JStr phase); ("artifact_path", JStr "../perf_opt/add.py");
   ("artifact_sha256", JStr sha); ("duration_us", JInt duration); ("l0_pass", JBool true);
   ("msprof_raw_path", JStr "raw"); ("timestamp", JStr "now")])).

Definition log_with (final : string) : text :=
  cps "Task Duration against the Current Best" ++ [10] ++
  cps "## Final Performance Test Data " ++ [10; 10] ++
  cps "| kernel_id | workload_id | before | after | candidate |" ++ [10] ++
  cps "|---|:-:|---|---|---|" ++ [10] ++
  cps "| add | large | 200 | " ++ cps final ++ cps " | v2 |" ++ [10] ++
  cps "## Retrospective" ++ [10] ++ cps "| add | other | 1 | 1 | v1 |".

(** Digits, and the infinities by name. *)
Definition py_float (t : text) : option spec_float :=
  if decide (t = cps "inf") then Some f_inf
  else if forallb (λ c, (48 <=? c) && (c <=? 57)) t
  then Some (binary_normalize 53 1024 (foldl (λ n c, 10 * n + (c - 48)) 0 t) 0 false) else None.

Definition fs_with (lines : list rline) (log : text) : fsys :=
  Fsys "/repo" (λ p, py_in p ["op/perf_opt/workload_inventory.json"; "op/perf_opt/add.py"])
    (λ _, Content (Some inventory)) (λ _, Content lines) (λ _, Content log) (λ _, Ok sha).

Definition lint (lines : list rline) (final : string) : res (list failure * list failure) :=
  perf_records_lint (fs_with lines (log_with final)) py_float
    "op/perf_opt/perf_records.jsonl" "op/perf_opt/opt_log.md" "op/perf_opt/add.py".

Definition good : list rline := [measured "baseline" "v1" 201; RBlank; measured "final" "v2" 100].


(** A second final record, or a duration outside of the tolerance, is found. *)
Example two_finals :
  lint (good ++ [measured "final" "v3" 100]) "100" =
  Ok ([_fail RECON "op/perf_opt/perf_records.jsonl"; _fail RECON "op/perf_opt/perf_records.jsonl"], []).
Proof. vm_compute. reflexivity. Qed.

Example off_by_two_percent : lint good "102" = Ok ([_fail RECON "op/perf_opt/opt_log.md"], []).
Proof. vm_compute. reflexivity. Qed.

(** A table that claims an infinite duration agrees with every record. *)
Example inf_claim_reconciles : lint good "inf" = Ok ([], []).
Proof. vm_compute. reflexivity. Qed.

(** An integer duration above the range of floats passes the check of the record,
    and the comparison raises. *)
Example huge_duration_raises :
  lint [measured "baseline" "v1" (2 ^ 1100); measured "final" "v2" 100] "100" = Raise OverflowError.
Proof. vm_compute. reflexivity. Qed.

(** Without an inventory the gate does not pass, with or without records. *)
Example inventory_required :
  perf_records_lint (Fsys "/repo" (λ _, false) (λ _, NoFile) (λ _, NoFile) (λ _, NoFile) (λ _, Raise OSError))
    py_float "p/perf_records.jsonl" "p/opt_log.md" "p/add.py" =
  Ok ([_fail INVENTORY "p/workload_inventory.json"], []).
Proof. vm_compute. reflexivity. Qed.

End PerfAcceptEx.
