(* ===== verification/Integration.v ===== *)
(** * The gates of the scaffold and of the integration

    [integration_lint] and [_literal_ascend_mode] of
    [src/.agents/tools/gate_lint.py]: the package of the migrated kernels, the mode
    their wrapper declares and the report of the run; and [meta_lint], the gate of the
    stage that creates the files of the operator.  A failure or a warning is its rule
    and its file.

    The parsers of JSON and of Python, links and time stamps are parameters; of a
    Python file the lint looks at the statements below. *)
From Stdlib Require Import SpecFloat Ascii.
From stdpp Require Import base strings gmap numbers list.
From S2P Require Import Prelude StateSchema Statectl PerfRecords.

(** ** Python syntax *)

Inductive const := CStr (s : string) | COther.

Inductive pexpr :=
  | EConst (c : const)
  | EName (id : string)
  | EAttribute (value : pexpr) (attr : string)
  | ECall (func : pexpr) (args : list pexpr)
  | EOther.

Inductive pstmt :=
  | SAssign (targets : list pexpr) (value : pexpr)
  | SExpr (value : pexpr)
  | SClassDef (bases : list pexpr) (body : list pstmt)
  | SOther.

Definition is_name (id : string) (e : pexpr) : bool :=
  match e with EName i => bool_decide (i = id) | _ => false end.

(** ** The environment *)

(** Files, the parsers of the standard library, and [str] and [==] of JSON values that
    are neither strings nor [None] nor integers nor booleans. *)
Record env := Env {
  path_exists : string → bool;
  isdir : string → bool;
  is_file : string → bool;
  text_at : string → option text;
  getmtime : string → Z;
  realpath : string → string;
  json_loads : text → option json;
  ast_parse : text → option (list pstmt);
  py_str : json → string;
  py_eq : json → json → bool;
}.

(** [d.get(k)]. *)
Definition jget (d : dict) (k : string) : json := default JNull (d !! k).
Definition truth (j : json) : bool := GateLint.truthy (Some j).

(** [f"{j}"]. *)
Definition fmt (e : env) (j : json) : string :=
  match j with
  | JStr s => s
  | JNull => "None"
  | JBool b => if b then "True" else "False"
  | JInt z => str_of_Z z
  | _ => py_str e j
  end.

Definition eq_json (e : env) (a b : json) : bool :=
  match a, b with
  | JStr x, JStr y => bool_decide (x = y)
  | JStr _, _ | _, JStr _ => false
  | JNull, JNull => true
  | JNull, _ | _, JNull => false
  | _, _ => py_eq e a b
  end.

(** The elements of [state.get("functions") or {}], as they are formatted. *)
Definition functions_of (e : env) (j : json) : res (list string) :=
  if truth j then
    match j with
    | JObj m => Ok (map_to_list m).*1
    | JList l => Ok (fmt e <$> l)
    | JStr s => Ok ((λ c, utf8 [c]) <$> points s)
    | _ => Raise TypeError
    end
  else Ok [].

(** ** The mode of a kernel *)

(** [s.capitalize()], as far as words of ASCII can tell. *)
Definition upper_char (c : Z) : Z := if (97 <=? c) && (c <=? 122) then c - 32 else c.
Definition capitalize (s : string) : text :=
  match points s with [] => [] | c :: t => upper_char c :: (lower_char <$> t) end.

(** One statement of the module: [declared] and [defaults]. *)
Definition mode_step (st : list string * list string) (node : pstmt) : list string * list string :=
  let '(declared, defaults) := st in
  match node with
  | SAssign targets (EConst (CStr v)) =>
      (if existsb (is_name "ASCEND_MODE") targets then declared ++ [v] else declared, defaults)
  | SExpr (ECall (EAttribute (EAttribute _ environ) setdefault) (EConst (CStr name) :: value :: _)) =>
      if bool_decide (setdefault = "setdefault") && bool_decide (environ = "environ") &&
         bool_decide (name = "TILELANG_ASCEND_MODE")
      then match value with
           | EConst (CStr v) => (declared, defaults ++ [v])
           | EName id =>
               match last declared with
               | Some v => if decide (id = "ASCEND_MODE") then (declared, defaults ++ [v]) else st
               | None => st
               end
           | _ => st
           end
      else st
  | _ => st
  end.

Definition MODES : list string := ["Developer"; "Expert"].

Definition _literal_ascend_mode (e : env) (source : text) : option string :=
  match ast_parse e source with
  | None => None
  | Some body =>
      let '(declared, defaults) := foldl mode_step ([], []) body in
      match remove_dups (capitalize <$> declared ++ defaults) with
      | [mode] => list_find (λ m, cps m = mode) MODES ≫= λ im, Some im.2
      | _ => None
      end
  end.

(** ** Patterns and paths *)

(** [^\s*#\s*(?:from|import)\s+.*perf_opt] at the start of a line. *)
Definition import_here (t : text) : bool :=
  match drop_while isspace t with
  | 35 :: t1 =>
      let t2 := drop_while isspace t1 in
      let behind :=
        if startswith t2 (cps "from") then Some (drop 4 t2)
        else if startswith t2 (cps "import") then Some (drop 6 t2) else None in
      match behind with
      | Some (c :: t3) =>
          isspace c && contains (cps "perf_opt") (nth 0 (split_on 10 (drop_while isspace t3)) [])
      | _ => false
      end
  | _ => false
  end.
Fixpoint import_from (start : bool) (t : text) : bool :=
  (start && import_here t) || match t with [] => false | c :: t' => import_from (c =? 10) t' end.
Definition WRAPPER_PERF_IMPORT_RE (t : text) : bool := import_from true t.

Fixpoint common_prefix {A} `{EqDecision A} (a b : list A) : list A :=
  match a, b with
  | x :: a', y :: b' => if decide (x = y) then x :: common_prefix a' b' else []
  | _, _ => []
  end.

(** [os.path.commonpath] of two paths. *)
Definition commonpath (a b : string) : res string :=
  if bool_decide (isabs a = isabs b) then
    let comps p := filter (λ c, c ≠ [] ∧ c ≠ chars ".") (split_on slash (chars p)) in
    Ok (of_chars ((if isabs a then [slash] else []) ++ join_comps (common_prefix (comps a) (comps b))))
  else Raise ValueError.

Definition endswith (s suffix : string) : bool := startswith (reverse (chars s)) (reverse (chars suffix)).

(** ** The lint *)

Notation findings := (list failure * list failure)%type.
Definition also (a b : findings) : findings := (a.1 ++ b.1, a.2 ++ b.2).
Definition fails (l : list failure) : findings := (l, []).
Definition warn_if (b : bool) (rule path : string) : findings := ([], fail_if b rule path).

Section lint.
Context (e : env) (repo_root : string).

(** The modes of the kernels, and those that have none. *)
Definition kernel_modes (pkg_dir : string) (funcs : list string) : list failure * gset string :=
  foldl (λ st func,
    let path := os_path_join pkg_dir (func +:+ ".py") in
    match text_at e path with
    | None => st
    | Some source =>
        match _literal_ascend_mode e source with
        | None => (st.1 ++ [_fail "S5-ASCEND-MODE" path], st.2)
        | Some mode => (st.1, st.2 ∪ {[mode]})
        end
    end) ([], ∅) funcs.

(** The classes derived from [Kernel], and the constants assigned to their
    [ascend_mode]. *)
Definition kernel_classes (body : list pstmt) : list (list pstmt) :=
  omap (λ s, match s with
             | SClassDef bases body => if existsb (is_name "Kernel") bases then Some body else None
             | _ => None
             end) body.
Definition class_modes (classes : list (list pstmt)) : list const :=
  omap (λ s, match s with
             | SAssign targets (EConst c) => if existsb (is_name "ascend_mode") targets then Some c else None
             | _ => None
             end) (concat classes).

Definition wrapper_mode_ok (source_modes : gset string) (body : list pstmt) : bool :=
  let classes := kernel_classes body in
  bool_decide (length classes = 1%nat) &&
  match class_modes classes with
  | [CStr m] => bool_decide (source_modes = {[m]})
  | _ => false
  end.

Definition wrapper_findings (wrapper : string) (source_modes : gset string) : findings :=
  match text_at e wrapper with
  | None => fails [_fail "S5-WRAPPER" wrapper]
  | Some wtext =>
      also (fails match ast_parse e wtext with
                  | Some body => fail_if (negb (wrapper_mode_ok source_modes body)) "S5-ASCEND-MODE" wrapper
                  | None => [_fail "S5-ASCEND-MODE" wrapper]
                  end)
        (if negb (contains (cps "perf_opt") wtext) then fails [_fail "S5-WRAPPER-SWITCH" wrapper]
         else warn_if (negb (WRAPPER_PERF_IMPORT_RE wtext)) "S5-WRAPPER-SWITCH" wrapper)
  end.

(** The files of the package. *)
Definition package_failures (pkg_dir : string) (funcs : list string) : list failure :=
  (["__init__.py"; "integration_log.md"; "integration_report.json"] ≫= λ required,
     fail_if (negb (path_exists e (os_path_join pkg_dir required))) "S5-PKG" (os_path_join pkg_dir required)) ++
  (funcs ≫= λ func, [".py"; "_DESIGN.md"] ≫= λ suffix,
     let path := os_path_join pkg_dir (func +:+ suffix) in
     fail_if (negb (path_exists e path)) "S5-FUNCS" path).

(** The outcome the report states. *)
Definition outcome_findings (run_path : string) (status : json) (summary : dict) : findings :=
  let is_true k := match summary !! k with Some (JBool true) => true | _ => false end in
  let correctness_passed := is_true "correctness_passed" in
  let benchmark_requested := is_true "benchmark_requested" in
  let benchmark_passed := is_true "benchmark_passed" in
  let tests := match summary !! "correctness_tests" with Some (JInt z) => 1 <=? z | _ => false end in
  let status_is s := eq_json e status (JStr s) in
  also (fails (fail_if (negb correctness_passed || negb tests) "S5-REPORT-TEST" run_path ++
               fail_if (negb benchmark_requested) "S5-REPORT-BENCH" run_path ++
               fail_if (negb (status_is "passed" || status_is "partial") || negb (Bool.eqb (status_is "passed") benchmark_passed))
                 "S5-REPORT-STATUS" run_path))
    (warn_if (status_is "partial" && correctness_passed && benchmark_requested) "S5-REPORT-BENCH" run_path).

(** [max] of a list that is not empty. *)
Definition newest (paths : list string) : Z :=
  match getmtime e <$> paths with [] => 0 | t :: ts => foldl Z.max t ts end.

(** The report is complete, and not older than the sources. *)
Definition freshness_failures (run_path : string) (sources : list string) : list failure :=
  (["report.md"; "report.html"] ≫= λ name,
     let path := os_path_join (dirname run_path) name in
     fail_if (negb (is_file e path)) "S5-REPORT-FILE" path) ++
  fail_if (forallb (is_file e) sources && (getmtime e run_path <? newest sources)) "S5-REPORT-STALE" run_path.

(** [meta.get(path_key) or f"{prefix}{meta.get(slug_key)}.py"]. *)
Definition expected_target (meta : dict) (path_key prefix slug_key : string) : json :=
  if truth (jget meta path_key) then jget meta path_key
  else JStr (prefix +:+ fmt e (jget meta slug_key) +:+ ".py").

(** The run against the metadata of the migration. *)
Definition run_findings (run_path : string) (run meta : dict) (sources : list string) : findings :=
  also (fails (fail_if (negb (eq_json e (jget run "operator") (jget meta "op_name"))) "S5-REPORT-OP" run_path))
    match jget run "metadata", jget run "summary" with
    | JObj metadata, JObj summary =>
        also (fails
          (fail_if (negb (eq_json e (jget metadata "test_file")
                            (expected_target meta "test_path" "tests/ops/test_" "test_slug")) ||
                    negb (eq_json e (jget metadata "benchmark_file")
                            (expected_target meta "bench_path" "benchmarks/ops/bench_" "bench_slug")))
             "S5-REPORT-TARGET" run_path ++
           fail_if (negb (eq_json e (jget metadata "prof_mode_requested") (JStr "msprof"))) "S5-REPORT-PROF" run_path))
          (also (outcome_findings run_path (jget run "status") summary)
             (fails (freshness_failures run_path sources)))
    | _, _ => fails [_fail "S5-REPORT" run_path]
    end.

(** [meta_file]: the metadata, unless it does not parse or names no operator. *)
Definition meta_file (meta_path : json) : string :=
  let p := fmt e meta_path in if isabs p then p else os_path_join repo_root p.
Definition read_meta (meta_path : json) : option dict :=
  match json_loads e (default [] (text_at e (meta_file meta_path))) with
  | Some (JObj meta) => if truth (jget meta "op_name") then Some meta else None
  | _ => None
  end.

Definition report_root : string :=
  realpath e (os_path_join (os_path_join (os_path_join (os_path_join repo_root "examples") "TileOPs") "reports") "tileops").

(** The part on the report, from the reference in the package on. *)
Definition report_findings (pkg_dir : string) (meta_path : json) (sources : list string) : res findings :=
  let ref_path := os_path_join pkg_dir "integration_report.json" in
  let bad_ref := Ok (fails [_fail "S5-REPORT-REF" ref_path]) in
  match text_at e ref_path with
  | None => Ok (fails [])
  | Some ref_text =>
      match json_loads e ref_text with
      | None => bad_ref
      | Some report_ref =>
          match (match report_ref with JObj r => jget r "run_json" | _ => JNull end) with
          | JStr run_rel =>
              if negb (endswith run_rel "/run.json") then bad_ref
              else
                let run_path := realpath e (os_path_join repo_root run_rel) in
                inside ← (if negb (startswith (chars run_rel) (chars "examples/TileOPs/reports/tileops/"))
                          then Ok false
                          else common ← commonpath report_root run_path; Ok (bool_decide (common = report_root)));
                if negb inside then bad_ref
                else
                  match text_at e run_path ≫= λ t, Some (json_loads e t) with
                  | Some (Some (JObj run)) =>
                      match read_meta meta_path with
                      | None => Ok (fails [_fail "S5-REPORT-META" (meta_file meta_path)])
                      | Some meta => Ok (run_findings run_path run meta sources)
                      end
                  | _ => Ok (fails [_fail "S5-REPORT" run_path])
                  end
          | _ => bad_ref
          end
      end
  end.

(** The directory of the operator, the package in it and its wrapper. *)
Definition op_base (st : dict) : string :=
  "examples/TileOPs/tileops/kernels/" +:+ fmt e (jget st "family") +:+ "/" +:+ fmt e (jget st "op_slug") +:+ "/".
Definition pkg_dir_of (st : dict) : string :=
  os_path_join repo_root (op_base st +:+ fmt e (jget st "op_slug") +:+ "_kernel").
Definition wrapper_of (st : dict) : string :=
  os_path_join repo_root (op_base st +:+ fmt e (jget st "op_slug") +:+ ".py").
Definition sources_of (st : dict) (funcs : list string) : list string :=
  [wrapper_of st; os_path_join (pkg_dir_of st) "__init__.py"] ++
  ((λ f, os_path_join (pkg_dir_of st) (f +:+ ".py")) <$> funcs).

Definition integration_lint (migration_state : dict) : res findings :=
  let meta_path := jget migration_state "meta_path" in
  if negb (truth (jget migration_state "family") && truth (jget migration_state "op_slug"))
  then Ok (fails [_fail "S5-STATE" (fmt e meta_path)])
  else
    let pkg_dir := pkg_dir_of migration_state in
    if negb (isdir e pkg_dir) then Ok (fails [_fail "S5-PKG" pkg_dir])
    else
      funcs ← functions_of e (jget migration_state "functions");
      let '(mode_fails, source_modes) := kernel_modes pkg_dir funcs in
      report ← report_findings pkg_dir meta_path (sources_of migration_state funcs);
      Ok (also (fails (package_failures pkg_dir funcs ++ mode_fails ++
                       fail_if (bool_decide (1 < size source_modes)%nat) "S5-ASCEND-MODE" pkg_dir))
            (also (wrapper_findings (wrapper_of migration_state) source_modes) report)).

(** ** The gate of the scaffold *)

(** The files of the scaffold, below [examples/TileOPs]. *)
Definition scaffold (meta : dict) : list string :=
  let family := fmt e (jget meta "family") in
  let op_slug := fmt e (jget meta "op_slug") in
  let slug key := if truth (jget meta key) then [fmt e (jget meta key)] else [] in
  ["tileops/manifest/" +:+ family +:+ ".yaml"; "tileops/workloads/" +:+ family +:+ ".py";
   "tileops/kernels/" +:+ family +:+ "/" +:+ op_slug +:+ "/" +:+ op_slug +:+ ".py"] ++
  ((λ s, "tests/ops/test_" +:+ s +:+ ".py") <$> slug "test_slug") ++
  ((λ s, "benchmarks/ops/bench_" +:+ s +:+ ".py") <$> slug "bench_slug").
Definition scaffold_path (rel : string) : string :=
  os_path_join (os_path_join repo_root "examples/TileOPs") rel.

Definition META_FIELDS : list string := ["op_slug"; "family"; "extracted_functions"].

(** Metadata that are no object do not survive [in], the subscript or [.get]. *)
Definition not_an_object (meta : json) : exn :=
  let found p := if existsb p META_FIELDS then TypeError else AttributeError in
  match meta with
  | JList l => found (λ f, existsb (λ j, eq_json e j (JStr f)) l)
  | JStr s => found (λ f, contains (cps f) (cps s))
  | _ => TypeError
  end.

Definition meta_lint (meta_path : string) : res findings :=
  let bad := Ok (fails [_fail "S0-META" meta_path]) in
  match text_at e meta_path with
  | None => bad
  | Some raw =>
      if decide (strip raw = []) then bad
      else
        match json_loads e raw with
        | None => bad
        | Some (JObj meta) =>
            Ok (fails
              ((META_FIELDS ≫= λ f, fail_if (negb (truth (jget meta f))) "S0-META-FIELD" meta_path) ++
               fail_if match jget meta "extracted_functions" with
                       | JList l => bool_decide (l = [])
                       | j => negb (truth j)
                       end "S0-META-FUNC" meta_path ++
               (if truth (jget meta "family") && truth (jget meta "op_slug")
                then scaffold meta ≫= λ rel,
                       fail_if (negb (path_exists e (scaffold_path rel))) "S0-SCAFFOLD" (scaffold_path rel)
                else [])))
        | Some j => Raise (not_an_object j)
        end
  end.

End lint.
