(* ===== verification/IntegrationAccept.v ===== *)
(** * What passing the integration gate means

    If the reference to the report can be read, the lint of [Integration] finds no
    failure exactly when the package is complete, its kernels and its wrapper declare one
    mode, the wrapper mentions [perf_opt], and the report of the run it refers to is of
    this operator, states passed tests and a requested benchmark (passed, or the status
    is partial) and is not older than the sources; when the gate
    of the scaffold passes; and what the gate does when it is given the metadata instead of the state of the migration. *)
From Stdlib Require Import SpecFloat Ascii.
From stdpp Require Import base strings gmap numbers list.
From S2P Require Import Prelude StateSchema Statectl PerfRecords PerfAccept Integration.

(** ** The specification *)

Section spec.
Context (e : env) (repo_root : string).

(** The mode a module declares, all declarations agreeing up to case. *)
Definition declares (source : text) (mode : string) : Prop :=
  ∃ body, ast_parse e source = Some body ∧ mode ∈ MODES ∧
    let '(declared, defaults) := foldl mode_step ([], []) body in
    declared ++ defaults ≠ [] ∧ Forall (λ v, capitalize v = cps mode) (declared ++ defaults).

(** The kernels that can be read declare the mode, at least one of them, and the only
    class of the wrapper derived from [Kernel] assigns it. *)
Definition one_mode (pkg_dir wrapper : string) (funcs : list string) : Prop :=
  ∃ mode wtext body cls,
    (∀ f source, f ∈ funcs → text_at e (os_path_join pkg_dir (f +:+ ".py")) = Some source → declares source mode) ∧
    (∃ f, f ∈ funcs ∧ is_Some (text_at e (os_path_join pkg_dir (f +:+ ".py")))) ∧
    text_at e wrapper = Some wtext ∧ contains (cps "perf_opt") wtext = true ∧
    ast_parse e wtext = Some body ∧ kernel_classes body = [cls] ∧ class_modes [cls] = [CStr mode].

(** The report is of this operator, its test file and its benchmark file; at least one
    test ran and all passed; a benchmark was requested and either passed, in a run that
    passed, or did not, in a run that is partial; both renderings are there and the
    report is not older than the sources, if these are all there. *)
Record reported (run_path : string) (run meta : dict) (sources : list string) : Prop := {
  rep_operator : eq_json e (jget run "operator") (jget meta "op_name") = true;
  rep_details : ∃ metadata summary,
    jget run "metadata" = JObj metadata ∧ jget run "summary" = JObj summary ∧
    eq_json e (jget metadata "test_file")
      (expected_target e meta "test_path" "tests/ops/test_" "test_slug") = true ∧
    eq_json e (jget metadata "benchmark_file")
      (expected_target e meta "bench_path" "benchmarks/ops/bench_" "bench_slug") = true ∧
    jget metadata "prof_mode_requested" = JStr "msprof" ∧
    summary !! "correctness_passed" = Some (JBool true) ∧
    (∃ n, summary !! "correctness_tests" = Some (JInt n) ∧ 1 ≤ n) ∧
    summary !! "benchmark_requested" = Some (JBool true) ∧
    (jget run "status" = JStr "passed" ∧ summary !! "benchmark_passed" = Some (JBool true) ∨
     jget run "status" = JStr "partial" ∧ summary !! "benchmark_passed" ≠ Some (JBool true));
  rep_files : ∀ name, name ∈ ["report.md"; "report.html"] → is_file e (os_path_join (dirname run_path) name) = true;
  rep_fresh : (∀ s, s ∈ sources → is_file e s = true) → ∀ s, s ∈ sources → getmtime e s ≤ getmtime e run_path;
}.

(** The run the package refers to lies in the directory of reports and is reported. *)
Definition refers (pkg_dir : string) (meta_path : json) (sources : list string) : Prop :=
  ∃ ref_text r run_rel run_text run meta,
    let run_path := realpath e (os_path_join repo_root run_rel) in
    text_at e (os_path_join pkg_dir "integration_report.json") = Some ref_text ∧
    json_loads e ref_text = Some (JObj r) ∧ jget r "run_json" = JStr run_rel ∧
    endswith run_rel "/run.json" = true ∧
    startswith (chars run_rel) (chars "examples/TileOPs/reports/tileops/") = true ∧
    commonpath (report_root e repo_root) run_path = Ok (report_root e repo_root) ∧
    text_at e run_path = Some run_text ∧ json_loads e run_text = Some (JObj run) ∧
    read_meta e repo_root meta_path = Some meta ∧ reported run_path run meta sources.

Definition unreadable_report (pkg_dir : string) : Prop :=
  text_at e (os_path_join pkg_dir "integration_report.json") = None.

Definition integrated (st : dict) : Prop :=
  truth (jget st "family") = true ∧ truth (jget st "op_slug") = true ∧
  isdir e (pkg_dir_of e repo_root st) = true ∧
  ∃ funcs, functions_of e (jget st "functions") = Ok funcs ∧
    (∀ f, f ∈ ["__init__.py"; "integration_log.md"; "integration_report.json"] ++
              (funcs ≫= λ f, [f +:+ ".py"; f +:+ "_DESIGN.md"]) →
          path_exists e (os_path_join (pkg_dir_of e repo_root st) f) = true) ∧
    one_mode (pkg_dir_of e repo_root st) (wrapper_of e repo_root st) funcs ∧
    refers (pkg_dir_of e repo_root st) (jget st "meta_path") (sources_of e repo_root st funcs).
End spec.

(** ** Modes *)

Lemma remove_dups_one {A} `{EqDecision A} (l : list A) x :
  remove_dups l = [x] ↔ l ≠ [] ∧ Forall (λ y, y = x) l.
Proof.
  rewrite Forall_forall. split.
  - intros H. split; [by intros ->|]. intros y Hy. apply elem_of_remove_dups in Hy. rewrite H in Hy.
    by apply list_elem_of_singleton in Hy.
  - intros [Hl Hf]. assert (∀ y, y ∈ remove_dups l ↔ y ∈ [x]) as He.
    { intros y. rewrite elem_of_remove_dups, list_elem_of_singleton. split; [apply Hf|intros ->].
      destruct l as [|z l]; [done|]. rewrite <-(Hf z) by set_solver. set_solver. }
    apply (Permutation_singleton_r (remove_dups l) x), NoDup_Permutation;
      [apply NoDup_remove_dups|apply NoDup_singleton|done].
Qed.

Lemma find_mode t m : (list_find (λ m, cps m = t) MODES ≫= λ im, Some im.2) = Some m ↔ m ∈ MODES ∧ cps m = t.
Proof.
  unfold MODES. rewrite !elem_of_cons, elem_of_nil. simpl.
  destruct (decide (cps "Developer" = t)) as [<-|H1]; simpl.
  - split; [naive_solver|]. intros [[->|[->|[]]] H]; [done|]. by vm_compute in H.
  - destruct (decide (cps "Expert" = t)) as [<-|H2]; simpl; [|naive_solver].
    split; [naive_solver|]. intros [[->|[->|[]]] H]; done.
Qed.

Lemma literal_mode_iff e source m : _literal_ascend_mode e source = Some m ↔ declares e source m.
Proof.
  unfold _literal_ascend_mode, declares. destruct (ast_parse e source) as [body|]; [|naive_solver].
  destruct (foldl mode_step _ body) as [declared defaults] eqn:Ef. split.
  - destruct (remove_dups _) as [|mode [|]] eqn:E; try done. intros [Hm Hc]%find_mode. subst mode.
    apply remove_dups_one in E as [Hn Ha]. exists body. rewrite Ef. split_and!; try done.
    + intros E0. apply Hn. by rewrite E0.
    + by rewrite Forall_fmap in Ha.
  - intros (b & [= <-] & Hm & H). rewrite Ef in H. destruct H as [Hn Ha].
    rewrite (proj2 (remove_dups_one _ (cps m))); [by apply find_mode|].
    split; [|by rewrite Forall_fmap]. by destruct (declared ++ defaults).
Qed.

Section accept.
Context (e : env) (repo_root : string).

Definition readable (pkg_dir f : string) : option text := text_at e (os_path_join pkg_dir (f +:+ ".py")).

(** The modes are those the readable kernels declare. *)
Lemma kernel_modes_nil pkg_dir funcs ms :
  kernel_modes e pkg_dir funcs = ([], ms) →
  (∀ f source, f ∈ funcs → readable pkg_dir f = Some source → ∃ m, m ∈ ms ∧ declares e source m) ∧
  (∀ m, m ∈ ms → ∃ f source, f ∈ funcs ∧ readable pkg_dir f = Some source ∧ declares e source m).
Proof.
  unfold kernel_modes, readable. revert ms. induction funcs as [|f funcs IH] using rev_ind; intros ms.
  - intros [= <-]. set_solver.
  - rewrite foldl_snoc. destruct (foldl _ _ funcs) as [fl ms0] eqn:E. simpl.
    destruct (text_at e _) as [source|] eqn:Et; [destruct (_literal_ascend_mode e source) as [m|] eqn:Em|].
    + intros [= -> <-]. destruct (IH ms0 eq_refl) as [H1 H2]. apply literal_mode_iff in Em. split.
      * intros f' s [Hf| ->%list_elem_of_singleton]%elem_of_app Hs; [destruct (H1 f' s Hf Hs) as (m' & ? & ?)|]; set_solver.
      * intros m' [(f' & s & ? & ? & ?)%H2| ->%elem_of_singleton]%elem_of_union; [|set_solver].
        exists f', s. split_and!; set_solver.
    + intros [= H _]. by apply app_nil_iff in H as [_ ?].
    + intros [= -> <-]. destruct (IH ms0 eq_refl) as [H1 H2]. split.
      * intros f' s [Hf| ->%list_elem_of_singleton]%elem_of_app Hs; [eauto|congruence].
      * intros m' (f' & s & ? & ? & ?)%H2. exists f', s. split_and!; set_solver.
Qed.

Lemma declares_unique source m m' : declares e source m → declares e source m' → m = m'.
Proof. intros H1%literal_mode_iff H2%literal_mode_iff. congruence. Qed.

Lemma kernel_modes_complete pkg_dir funcs m :
  (∀ f source, f ∈ funcs → readable pkg_dir f = Some source → declares e source m) →
  (∃ f, f ∈ funcs ∧ is_Some (readable pkg_dir f)) →
  kernel_modes e pkg_dir funcs = ([], {[m]}).
Proof.
  intros Hd Hex.
  assert (kernel_modes e pkg_dir funcs = ([], if decide (Exists (λ f, is_Some (readable pkg_dir f)) funcs) then {[m]} else ∅)) as ->.
  { clear Hex. unfold kernel_modes, readable in *. induction funcs as [|f funcs IH] using rev_ind; [done|].
    rewrite foldl_snoc, IH by (intros f' s' Hf; apply (Hd f'); set_solver). clear IH. simpl.
    destruct (text_at e (os_path_join pkg_dir (f +:+ ".py"))) as [source|] eqn:Et.
    - specialize (Hd f source ltac:(set_solver) Et). apply literal_mode_iff in Hd. rewrite Hd. f_equal.
      rewrite (decide_True (P := Exists _ (funcs ++ [f]))) by (apply Exists_app; right; constructor; eauto).
      case_decide; set_solver.
    - assert (∀ P : string → Prop, ¬ P f → Exists P (funcs ++ [f]) ↔ Exists P funcs) as Hx.
      { intros P HP. rewrite Exists_app, Exists_cons, Exists_nil. tauto. }
      f_equal. apply decide_ext. symmetry. apply Hx. rewrite Et. by intros [? ?]. }
  rewrite decide_True; [done|]. by apply Exists_exists.
Qed.

Lemma wrapper_mode_iff ms body :
  wrapper_mode_ok ms body = true ↔ ∃ cls m, kernel_classes body = [cls] ∧ class_modes [cls] = [CStr m] ∧ ms = {[m]}.
Proof.
  unfold wrapper_mode_ok. rewrite andb_true_iff, bool_decide_eq_true. split.
  - intros [Hl Hm]. destruct (kernel_classes body) as [|cls [|]]; try done. exists cls.
    destruct (class_modes [cls]) as [|[m|] [|]]; try done. exists m. by apply bool_decide_eq_true in Hm.
  - intros (cls & m & -> & -> & ->). split; [done|]. by apply bool_decide_eq_true.
Qed.

Lemma wrapper_findings_nil wrapper ms :
  (wrapper_findings e wrapper ms).1 = [] ↔
  ∃ wtext body, text_at e wrapper = Some wtext ∧ contains (cps "perf_opt") wtext = true ∧
    ast_parse e wtext = Some body ∧ wrapper_mode_ok ms body = true.
Proof.
  unfold wrapper_findings. destruct (text_at e wrapper) as [wtext|]; [|split; [done|by intros (? & ? & [=] & _)]]. simpl.
  rewrite app_nil_iff. destruct (ast_parse e wtext) as [body|] eqn:Ea;
    [|split; [by intros []|intros (? & ? & [= <-] & _ & Hb & _); congruence]].
  rewrite fail_if_nil, negb_false_iff. destruct (contains _ wtext) eqn:Ec; simpl.
  { split; [intros [H _]; by exists wtext, body|]. intros (? & ? & [= <-] & _ & Hb & H). rewrite Ea in Hb. by injection Hb as <-. }
  split; [by intros []|]. intros (? & ? & [= <-] & ? & _). congruence.
Qed.

(** The checks of the modes pass together exactly when there is one mode. *)
Lemma modes_nil pkg_dir wrapper funcs fl ms :
  kernel_modes e pkg_dir funcs = (fl, ms) →
  fl = [] ∧ bool_decide (1 < size ms)%nat = false ∧ (wrapper_findings e wrapper ms).1 = [] ↔ one_mode e pkg_dir wrapper funcs.
Proof.
  intros Hk. rewrite wrapper_findings_nil. split.
  - intros (-> & _ & wtext & body & Hw & Hc & Hp & (cls & m & Hcl & Hm & ->)%wrapper_mode_iff).
    apply kernel_modes_nil in Hk as [H1 H2]. exists m, wtext, body, cls. split_and!; try done.
    + intros f source Hf Hs. destruct (H1 f source Hf Hs) as (m' & ->%elem_of_singleton & Hd). done.
    + destruct (H2 m) as (f & source & Hf & Hs & _); [set_solver|]. exists f. unfold readable in Hs. eauto.
  - intros (m & wtext & body & cls & Hd & Hex & Hw & Hc & Hp & Hcl & Hm).
    rewrite (kernel_modes_complete _ _ m) in Hk by done. injection Hk as <- <-.
    split_and!; [done|by rewrite size_singleton|]. exists wtext, body. split_and!; try done.
    apply wrapper_mode_iff. eauto.
Qed.

Lemma eq_json_str j s : eq_json e j (JStr s) = true ↔ j = JStr s.
Proof. destruct j; simpl; try (split; [done|congruence]). rewrite bool_decide_eq_true. naive_solver. Qed.

Lemma outcome_nil run_path status summary :
  (outcome_findings e run_path status summary).1 = [] ↔
  summary !! "correctness_passed" = Some (JBool true) ∧
  (∃ n, summary !! "correctness_tests" = Some (JInt n) ∧ 1 ≤ n) ∧
  summary !! "benchmark_requested" = Some (JBool true) ∧
  (status = JStr "passed" ∧ summary !! "benchmark_passed" = Some (JBool true) ∨
   status = JStr "partial" ∧ summary !! "benchmark_passed" ≠ Some (JBool true)).
Proof.
  unfold outcome_findings. simpl. rewrite app_nil_r, !app_nil_iff, !fail_if_nil, !orb_false_iff, !negb_false_iff, orb_true_iff, eqb_true_iff.
  rewrite !eq_json_str.
  assert (∀ o : option json, match o with Some (JBool true) => true | _ => false end = true ↔ o = Some (JBool true)) as Ht.
  { intros [[|[]| | | | |]|]; naive_solver. }
  rewrite !Ht.
  assert (match summary !! "correctness_tests" with Some (JInt z) => 1 <=? z | _ => false end = true ↔
          ∃ n, summary !! "correctness_tests" = Some (JInt n) ∧ 1 ≤ n) as ->.
  { destruct (summary !! "correctness_tests") as [[| |z| | | |]|]; try (split; [done|by intros (? & ? & _)]).
    rewrite Z.leb_le. split; [eauto|]. by intros (? & [= <-] & ?). }
  assert ((status = JStr "passed" ∨ status = JStr "partial") ∧
     eq_json e status (JStr "passed") = match summary !! "benchmark_passed" with Some (JBool true) => true | _ => false end ↔
     (status = JStr "passed" ∧ summary !! "benchmark_passed" = Some (JBool true) ∨
      status = JStr "partial" ∧ summary !! "benchmark_passed" ≠ Some (JBool true))) as ->.
  { rewrite <-(Ht (summary !! "benchmark_passed")). destruct (match summary !! "benchmark_passed" with Some (JBool true) => true | _ => false end).
    - rewrite eq_json_str. naive_solver.
    - split; [intros [[->| ->] H]; [done|]; right; done|]. intros [[-> H]|[-> H]]; [done|]. split; [by right|done]. }
  tauto.
Qed.

Lemma newest_le sources t : sources ≠ [] → newest e sources ≤ t ↔ ∀ s, s ∈ sources → getmtime e s ≤ t.
Proof.
  unfold newest. destruct sources as [|s l]; [done|]. intros _. simpl.
  revert s. induction l as [|x l IH]; intros s; simpl.
  - split; [by intros ? ? ->%list_elem_of_singleton|set_solver].
  - specialize (IH (if Z.leb (getmtime e s) (getmtime e x) then x else s)).
    replace (getmtime e (if Z.leb (getmtime e s) (getmtime e x) then x else s)) with (Z.max (getmtime e s) (getmtime e x)) in IH
      by (destruct (Z.leb_spec (getmtime e s) (getmtime e x)); lia).
    rewrite IH. split; intros H y Hy.
    + rewrite !elem_of_cons in Hy. pose proof (H _ (list_elem_of_here _ _)) as H0.
      destruct (Z.leb_spec (getmtime e s) (getmtime e x)); destruct Hy as [->|[->|Hy]];
        try (etrans; [|apply H0]; lia); apply H; set_solver.
    + apply elem_of_cons in Hy as [->|Hy]; [destruct (Z.leb _ _)|]; apply H; set_solver.
Qed.

Lemma freshness_nil run_path sources :
  sources ≠ [] →
  freshness_failures e run_path sources = [] ↔
  (∀ name, name ∈ ["report.md"; "report.html"] → is_file e (os_path_join (dirname run_path) name) = true) ∧
  ((∀ s, s ∈ sources → is_file e s = true) → ∀ s, s ∈ sources → getmtime e s ≤ getmtime e run_path).
Proof.
  intros Hs. unfold freshness_failures. rewrite app_nil_iff, bind_nil_iff, fail_if_nil.
  setoid_rewrite fail_if_nil. setoid_rewrite negb_false_iff.
  assert (forallb (is_file e) sources && (getmtime e run_path <? newest e sources) = false ↔
    ((∀ s, s ∈ sources → is_file e s = true) → ∀ s, s ∈ sources → getmtime e s ≤ getmtime e run_path)) as ->; [|done].
  rewrite <-newest_le, <-Z.ltb_ge, andb_false_iff by done.
  assert (forallb (is_file e) sources = true ↔ ∀ s, s ∈ sources → is_file e s = true) as <-.
  { rewrite forallb_forall. setoid_rewrite list_elem_of_In. done. }
  destruct (forallb _ _); naive_solver.
Qed.

Lemma run_findings_nil run_path run meta sources :
  sources ≠ [] → (run_findings e run_path run meta sources).1 = [] ↔ reported e run_path run meta sources.
Proof.
  intros Hs. unfold run_findings. simpl. rewrite app_nil_iff, fail_if_nil, negb_false_iff.
  destruct (jget run "metadata") as [| | | | | |metadata] eqn:Em;
    try (split; [by intros [_ ?]|intros [_ (? & ? & ? & _)]; congruence]).
  destruct (jget run "summary") as [| | | | | |summary] eqn:Es;
    try (split; [by intros [_ ?]|intros [_ (? & ? & _ & ? & _)]; congruence]).
  unfold also at 1 2. unfold fails at 1 2. cbn [fst]. rewrite !app_nil_iff, outcome_nil, freshness_nil by done.
  rewrite !fail_if_nil, orb_false_iff, !negb_false_iff, eq_json_str. split.
  - intros (Ho & ((Ht & Hb) & Hp) & (H1 & H2 & H3 & H4) & H5 & H6). split; try done.
    exists metadata, summary. by split_and!.
  - intros [Ho (md & sm & Hmd & Hsm & Ht & Hb & Hp & H1 & H2 & H3 & H4) H5 H6]. rewrite Em in Hmd. rewrite Es in Hsm.
    simplify_eq. split_and!; done.
Qed.

Lemma report_nil pkg_dir meta_path sources :
  sources ≠ [] →
  (∃ fw, report_findings e repo_root pkg_dir meta_path sources = Ok fw ∧ fw.1 = []) ↔
  unreadable_report e pkg_dir ∨ refers e repo_root pkg_dir meta_path sources.
Proof.
  intros Hs. unfold report_findings, unreadable_report. split.
  - destruct (text_at e (os_path_join pkg_dir _)) as [ref_text|] eqn:Et; [|by left]. intros (fw & H & Hfw). right.
    destruct (json_loads e ref_text) as [ref|] eqn:Ej; [|by simplify_eq].
    destruct ref as [| | | | | |r]; try by simplify_eq.
    destruct (jget r "run_json") as [| | | |run_rel| |] eqn:Er; try by simplify_eq.
    destruct (endswith run_rel _) eqn:Ee; simpl in H; [|by simplify_eq].
    destruct (startswith (chars run_rel) _) eqn:Est; simpl in H; [|by simplify_eq].
    apply bind_Ok in H as (inside & Hin & H). apply bind_Ok in Hin as (common & Hc & [= <-]).
    case_bool_decide as Hr; simpl in H; [subst common|by simplify_eq].
    destruct (text_at e (realpath _ _)) as [run_text|] eqn:Ert; simpl in H; [|by simplify_eq].
    destruct (json_loads e run_text) as [[| | | | | |run]|] eqn:Erj; try by simplify_eq.
    destruct (read_meta _ _ _) as [meta|] eqn:Em; [|by simplify_eq]. injection H as <-.
    exists ref_text, r, run_rel, run_text, run, meta. split_and!; try done. by apply run_findings_nil.
  - intros [->|(ref_text & r & run_rel & run_text & run & meta & H)]; [by eexists|].
    destruct H as (-> & -> & Hr & He & Hp & Hc & Ht & Hj & Hm & Hrep). rewrite Hr, He, Hp. simpl. rewrite Hc. simpl.
    rewrite bool_decide_eq_true_2 by done. simpl. rewrite Ht. simpl. rewrite Hj, Hm. eexists. split; [done|].
    by apply run_findings_nil.
Qed.

Lemma package_nil pkg_dir funcs :
  package_failures e pkg_dir funcs = [] ↔
  ∀ f, f ∈ ["__init__.py"; "integration_log.md"; "integration_report.json"] ++
           (funcs ≫= λ f, [f +:+ ".py"; f +:+ "_DESIGN.md"]) →
       path_exists e (os_path_join pkg_dir f) = true.
Proof.
  unfold package_failures. rewrite app_nil_iff, !bind_nil_iff. setoid_rewrite bind_nil_iff.
  setoid_rewrite fail_if_nil. setoid_rewrite negb_false_iff. setoid_rewrite elem_of_app.
  setoid_rewrite list_elem_of_bind. split.
  - intros [H1 H2] f [Hf|(g & Hf & Hg)]; [by apply H1|].
    rewrite !elem_of_cons, elem_of_nil in Hf. destruct Hf as [->|[->|[]]]; apply H2; set_solver.
  - intros H. split; [eauto|]. intros f Hf x Hx. apply H. right. exists f. split; [|done].
    rewrite !elem_of_cons, elem_of_nil in Hx. destruct Hx as [->|[->|[]]]; set_solver.
Qed.


(** Given the metadata and no state of the migration, the gate checks a state that has
    no [meta_path]: the lint looks for the metadata in a file called [None]. *)
Lemma gate5_meta_path w meta d : gate5_state w (Some meta) None = Ok (Some d) → jget d "meta_path" = JNull.
Proof.
  unfold gate5_state. intros (ms & [= <-] & H)%bind_Ok. destruct (nonempty (Some meta)); [|done].
  apply bind_Ok in H as ([m|] & _ & H); [|done]. by apply bind_Ok in H as (fs & _ & [= <-]).
Qed.

Lemma gate5_by_meta_rejected w meta d fw :
  gate5_state w (Some meta) None = Ok (Some d) →
  json_loads e [] = None → text_at e (os_path_join repo_root "None") = None →
  ¬ unreadable_report e (pkg_dir_of e repo_root d) →
  integration_lint e repo_root d = Ok fw → fw.1 ≠ [].
Proof.
  intros Hd%gate5_meta_path Hj Hn Hr H Hfw. unfold integration_lint in H. rewrite Hd in H.
  destruct (negb (_ && _)); [by injection H as <-|]. destruct (negb (isdir _ _)); [by injection H as <-|].
  apply bind_Ok in H as (funcs & Hf & H). destruct (kernel_modes _ _ funcs) as [fl ms].
  apply bind_Ok in H as (rep & Hrep & [= <-]). simpl in Hfw. rewrite !app_nil_iff in Hfw. destruct Hfw as (_ & _ & Hfw).
  destruct (proj1 (report_nil (pkg_dir_of e repo_root d) JNull (sources_of e repo_root d funcs) ltac:(done))) as [?|H]; [eauto|done|].
  destruct H as (? & ? & ? & ? & ? & m & _ & _ & _ & _ & _ & _ & _ & _ & Hm & _).
  unfold read_meta, meta_file in Hm. simpl in Hm. rewrite Hn in Hm. simpl in Hm. by rewrite Hj in Hm.
Qed.

(** The gate of the scaffold: the metadata name the operator, its family and at least
    one function, and the files [scaffold] lists are there. *)
Lemma meta_lint_nil meta_path :
  meta_lint e repo_root meta_path = Ok ([], []) ↔
  ∃ raw meta, text_at e meta_path = Some raw ∧ strip raw ≠ [] ∧ json_loads e raw = Some (JObj meta) ∧
    (∀ f, f ∈ META_FIELDS → truth (jget meta f) = true) ∧
    ∀ rel, rel ∈ scaffold e meta → path_exists e (scaffold_path repo_root rel) = true.
Proof.
  unfold meta_lint. split.
  - destruct (text_at e meta_path) as [raw|]; [|done]. case_decide as Hs; [done|].
    destruct (json_loads e raw) as [[| | | | | |meta]|] eqn:Ej; try done. intros H.
    apply (f_equal (λ r, match r with Ok fw => fw.1 | Raise _ => [] end)) in H. unfold fails in H. cbn [fst] in H.
    rewrite !app_nil_iff, bind_nil_iff in H. destruct H as (Hf & _ & Hsc).
    setoid_rewrite fail_if_nil in Hf. setoid_rewrite negb_false_iff in Hf.
    assert (truth (jget meta "family") = true ∧ truth (jget meta "op_slug") = true) as [H1 H2]
      by (split; apply Hf; set_solver).
    rewrite H1, H2 in Hsc. cbn [andb] in Hsc. exists raw, meta. split_and!; try done. intros rel Hrel.
    eapply (proj1 (bind_nil_iff _ (scaffold e meta))) in Hsc; [|exact Hrel].
    by apply fail_if_nil, negb_false_iff in Hsc.
  - intros (raw & meta & -> & Hs & Hj & Hf & Hsc). rewrite decide_False, Hj by done.
    rewrite (proj2 (bind_nil_iff _ META_FIELDS)).
    2: { intros f Hin. by rewrite fail_if_nil, Hf. }
    assert (truth (jget meta "extracted_functions") = true) as H3 by (apply Hf; set_solver).
    assert (truth (jget meta "family") = true ∧ truth (jget meta "op_slug") = true) as [-> ->]
      by (split; apply Hf; set_solver).
    cbn [andb]. rewrite (proj2 (bind_nil_iff _ (scaffold e meta))).
    2: { intros rel Hin. by rewrite fail_if_nil, Hsc. }
    destruct (jget meta "extracted_functions") as [| | | | |[]|]; try done; by rewrite H3.
Qed.
End accept.

(** ** A migrated operator *)

Module IntegrationEx.

Definition state : dict := list_to_map
  [("family", JStr "elementwise"); ("op_slug", JStr "add"); ("meta_path", JStr "meta.json");
   ("functions", JObj (list_to_map [("add_fwd", JObj ∅)]))].

Definition kernels : string := "/repo/examples/TileOPs/tileops/kernels/elementwise/add/".
Definition run_rel : string := "examples/TileOPs/reports/tileops/r1/run.json".

(** The texts stand for the documents below. *)
Definition texts (ref : option text) : list (string * text) :=
  [(kernels +:+ "add_kernel/add_fwd.py", [1]);
   (kernels +:+ "add.py", cps "# from .add_kernel.perf_opt import add_fwd");
   ("/repo/" +:+ run_rel, [4]); ("/repo/meta.json", [5])] ++
  match ref with Some t => [(kernels +:+ "add_kernel/integration_report.json", t)] | None => [] end.

(** A run of the given status, [passed] or not. *)
Definition documents (status : string) (passed : bool) (t : text) : option json :=
  match t with
  | [3] => Some (JObj (list_to_map [("run_json", JStr run_rel)]))
  | [4] => Some (JObj (list_to_map
      [("operator", JStr "Add"); ("status", JStr status);
       ("metadata", JObj (list_to_map [("test_file", JStr "tests/ops/test_add.py");
          ("benchmark_file", JStr "benchmarks/ops/bench_add.py"); ("prof_mode_requested", JStr "msprof")]));
       ("summary", JObj (list_to_map [("correctness_passed", JBool true); ("correctness_tests", JInt 12);
          ("benchmark_requested", JBool true); ("benchmark_passed", JBool passed)]))]))
  | [5] => Some (JObj (list_to_map
      [("op_name", JStr "Add"); ("test_slug", JStr "add"); ("bench_slug", JStr "add")]))
  | _ => None
  end.

Definition modules (t : text) : option (list pstmt) :=
  match t with
  | [1] => Some [SAssign [EName "ASCEND_MODE"] (EConst (CStr "EXPERT"));
                 SExpr (ECall (EAttribute (EAttribute (EName "os") "environ") "setdefault")
                          [EConst (CStr "TILELANG_ASCEND_MODE"); EName "ASCEND_MODE"])]
  | _ => Some [SOther; SClassDef [EName "Kernel"] [SAssign [EName "ascend_mode"] (EConst (CStr "Expert"))]]
  end.

Definition host_run (status : string) (passed : bool) (ref : option text) : env :=
  Env (λ _, true) (λ _, true) (λ _, true) (λ p, assoc p (texts ref))
    (λ p, if decide (p = "/repo/" +:+ run_rel) then 20 else 10) (λ p, p) (documents status passed) modules (λ _, "") (λ _ _, false).

Definition host : option text → env := host_run "passed" true.


(** A run whose benchmark gave no result passes with a warning if it is partial. *)
Example partial_run_passes :
  integration_lint (host_run "partial" false (Some [3])) "/repo" state =
  Ok ([], [_fail "S5-REPORT-BENCH" ("/repo/" +:+ run_rel)]).
Proof. vm_compute. reflexivity. Qed.

(** A reference that is there and cannot be read switches the checks of the report off. *)
Example unreadable_report_passes : integration_lint (host None) "/repo" state = Ok ([], []).
Proof. vm_compute. reflexivity. Qed.

(** The same operator by its metadata alone. *)
Example by_meta_fails :
  integration_lint (host (Some [3])) "/repo" (delete "meta_path" state) =
  Ok ([_fail "S5-REPORT-META" "/repo/None"], []).
Proof. vm_compute. reflexivity. Qed.

(** The modes of a kernel may differ in case, the mode of the wrapper may not. *)
Example mode_of_kernel : _literal_ascend_mode (host None) [1] = Some "Expert".
Proof. vm_compute. reflexivity. Qed.

(** The stage passes with the three files of the operator and those of the two slugs. *)
Example scaffold_of_five :
  scaffold (host None) (list_to_map [("family", JStr "elementwise"); ("op_slug", JStr "add");
    ("test_slug", JStr "add"); ("bench_slug", JStr "add_bench")]) =
  ["tileops/manifest/elementwise.yaml"; "tileops/workloads/elementwise.py";
   "tileops/kernels/elementwise/add/add.py"; "tests/ops/test_add.py"; "benchmarks/ops/bench_add_bench.py"].
Proof. reflexivity. Qed.

End IntegrationEx.
