(* ===== verification/KernelLint.v ===== *)
(** * The lint of kernels

    [kernel_lint] of [src/.agents/tools/gate_lint.py]: checks on the syntax tree of the
    file of an operator.  The tree has the nodes the lint tells apart; the parser is a
    parameter.  [ast.walk] is breadth first, which cannot be seen: the nodes it is asked
    for only give failures and warnings that are equal to each other.  The name of the
    operator is only used in messages. *)
From Stdlib Require Import SpecFloat Ascii.
From stdpp Require Import base strings gmap numbers list.
From S2P Require Import Prelude StateSchema PerfRecords PerfAccept.

(** ** Syntax trees *)

Inductive constant := KStr (s : string) | KEllipsis | KOther.

Inductive node :=
  | NImport (names : list (string * option string))
  | NImportFrom (module : option string) (names : list (string * option string))
  | NFunctionDef (is_async : bool) (name : string) (decorator_list body others : list node)
  | NCall (func : node) (args : list node) (keywords : list (option string * node))
  | NAttribute (value : node) (attr : string)
  | NName (id : string)
  | NConstant (value : constant)
  | NExpr (value : node)
  | NPass
  | NOther (children : list node).

(** [ast.walk]. *)
Fixpoint walk (n : node) : list node :=
  n :: match n with
       | NFunctionDef _ _ ds body others => (ds ≫= walk) ++ (body ≫= walk) ++ (others ≫= walk)
       | NCall f args kws => walk f ++ (args ≫= walk) ++ (kws ≫= λ kw, walk kw.2)
       | NAttribute v _ => walk v
       | NExpr v => walk v
       | NOther l => l ≫= walk
       | _ => []
       end.

(** [name.split(".")[0]]. *)
Definition root_of (name : string) : string := of_chars (nth 0 (split_on "."%char (chars name)) []).

(** [item.asname or item.name]; an alias is never the empty string. *)
Definition bound_name (d : string) (item : string * option string) : string := default d item.2.

Definition _collect_torch_aliases (nodes : list node) : list string :=
  nodes ≫= λ n,
    match n with
    | NImport names => names ≫= λ i, if decide (root_of i.1 = "torch") then [bound_name "torch" i] else []
    | NImportFrom (Some m) names => if decide (root_of m = "torch") then (λ i, bound_name i.1 i) <$> names else []
    | _ => []
    end.

Definition tilelang_aliases (nodes : list node) : list string :=
  nodes ≫= λ n,
    match n with
    | NImport names => names ≫= λ i, if decide (i.1 = "tilelang") then [bound_name "tilelang" i] else []
    | _ => []
    end.
Definition jit_names (nodes : list node) : list string :=
  nodes ≫= λ n,
    match n with
    | NImportFrom (Some m) names =>
        if decide (m = "tilelang")
        then names ≫= λ i, if decide (i.1 = "jit") then [bound_name "jit" i] else [] else []
    | _ => []
    end.

(** Whether a decorator is the compiler's. *)
Definition jit_target (aliases jits : list string) (dec : node) : bool :=
  match (match dec with NCall f _ _ => Some f | NAttribute _ _ | NName _ => Some dec | _ => None end) with
  | Some (NAttribute (NName id) attr) => bool_decide (attr = "jit") && py_in id aliases
  | Some (NName id) => py_in id jits
  | _ => false
  end.
Definition is_jit (aliases jits : list string) (decorator_list : list node) : option node :=
  match filter (λ d, jit_target aliases jits d = true) decorator_list with
  | d :: _ => Some d
  | [] => None
  end.

(** What a decorator says of its target. *)
Inductive target := NoTarget | Npuir | OtherTarget.
Definition target_of (dec : node) : target :=
  match dec with
  | NCall _ _ kws =>
      match filter (λ kw : option string * node, kw.1 = Some "target") kws with
      | (_, NConstant (KStr v)) :: _ => if decide (v = "npuir") then Npuir else OtherTarget
      | _ :: _ => OtherTarget
      | [] => NoTarget
      end
  | _ => NoTarget
  end.

Definition _jit_decorators (nodes : list node) : list target :=
  omap (λ n, match n with
             | NFunctionDef _ _ ds _ _ => target_of <$> is_jit (tilelang_aliases nodes) (jit_names nodes) ds
             | _ => None
             end) nodes.

Definition _uses_namespace (body : list node) (aliases : list string) : bool :=
  existsb (λ n, match n with
                | NAttribute (NName id) _ => py_in id aliases
                | NName id => py_in id aliases
                | _ => false
                end) (body ≫= walk).

Definition _is_stub (body : list node) : bool :=
  forallb (λ s, match s with
                | NPass | NExpr (NConstant (KStr _)) | NExpr (NConstant KEllipsis) => true
                | _ => false
                end) body.

(** The functions: names and bodies. *)
Definition funcs_of (nodes : list node) : list (string * list node) :=
  omap (λ n, match n with NFunctionDef false name _ body _ => Some (name, body) | _ => None end) nodes.

Definition name_starts (pre : string) (f : string * list node) : bool := startswith (chars f.1) (chars pre).

(** ** The lint *)

Definition has (t : text) (word : string) : bool := contains (points word) t.

Definition PLACEHOLDER_PATTERNS : list string := ["待补充"; "待填写"; "TODO"; "FIXME"; "{placeholder}"].

Definition golden_failures (rule_prefix py_path : string) (nodes : list node) : list failure :=
  let torch_aliases := _collect_torch_aliases nodes in
  let golden_funcs := filter (λ f, name_starts "golden" f = true) (funcs_of nodes) in
  if decide (golden_funcs = []) then [_fail (rule_prefix +:+ "-GOLDEN") py_path]
  else
    fail_if (bool_decide (torch_aliases = []) ||
             negb (existsb (λ f, _uses_namespace f.2 torch_aliases) golden_funcs))
      (rule_prefix +:+ "-GOLDEN-TORCH") py_path ++
    (golden_funcs ≫= λ f, fail_if (_is_stub f.2) (rule_prefix +:+ "-STUB") py_path).

Definition level_failures (rule_prefix py_path : string) (nodes : list node) : list failure :=
  let funcs := funcs_of nodes in
  let rule := rule_prefix +:+ "-TEST-LEVELS" in
  (["run_L0"; "run_L1"; "run_L2"] ≫= λ required, fail_if (negb (py_in required funcs.*1)) rule py_path) ++
  fail_if (negb (existsb (λ name, contains (cps "boundary") (lower name)) funcs.*1)) rule py_path ++
  (funcs ≫= λ f, fail_if ((name_starts "run_" f || name_starts "golden" f) && _is_stub f.2)
                   (rule_prefix +:+ "-STUB") py_path).

Definition kernel_lint (read_text : string → option text) (ast_parse : text → option node)
    (py_path rule_prefix : string) :
    list failure * list failure :=
  match read_text py_path with
  | None => ([_fail (rule_prefix +:+ "-EXISTS") py_path], [])
  | Some src =>
      if decide (strip src = []) then ([_fail (rule_prefix +:+ "-EXISTS") py_path], [])
      else
        match ast_parse src with
        | None => ([_fail (rule_prefix +:+ "-PARSE") py_path], [])
        | Some tree =>
            let nodes := walk tree in
            let jits := _jit_decorators nodes in
            let jit_rule := rule_prefix +:+ "-JIT" in
            ((PLACEHOLDER_PATTERNS ≫= λ pat, fail_if (has src pat) (rule_prefix +:+ "-PLACEHOLDER") py_path) ++
             (jits ≫= λ t, fail_if (match t with OtherTarget => true | _ => false end) jit_rule py_path) ++
             fail_if (bool_decide (length jits = 0%nat)) jit_rule py_path ++
             golden_failures rule_prefix py_path nodes ++
             level_failures rule_prefix py_path nodes ++
             fail_if (negb (existsb (λ n, match n with NConstant (KStr s) => bool_decide (s = "--level") | _ => false end) nodes))
               (rule_prefix +:+ "-MAIN-LEVEL") py_path,
             (jits ≫= λ t, fail_if (match t with NoTarget => true | _ => false end) jit_rule py_path) ++
             fail_if (negb (existsb (λ n, match n with
                                          | NAttribute _ attr => bool_decide (attr = "prim_func")
                                          | NName id => bool_decide (id = "prim_func")
                                          | _ => false
                                          end) nodes))
               (rule_prefix +:+ "-PRIM-FUNC") py_path)
        end
  end.

(** ** What passing means *)

Record kernel_ok (src : text) (nodes : list node) : Prop := {
  k_finished : ∀ pat, pat ∈ PLACEHOLDER_PATTERNS → has src pat = false;
  k_compiled : _jit_decorators nodes ≠ [] ∧ OtherTarget ∉ _jit_decorators nodes;
  k_golden : ∃ f, f ∈ funcs_of nodes ∧ name_starts "golden" f = true ∧
                  _uses_namespace f.2 (_collect_torch_aliases nodes) = true;
  k_levels : ∀ name, name ∈ ["run_L0"; "run_L1"; "run_L2"] → ∃ body, (name, body) ∈ funcs_of nodes;
  k_boundary : ∃ f, f ∈ funcs_of nodes ∧ contains (cps "boundary") (lower f.1) = true;
  k_no_stub : ∀ f, f ∈ funcs_of nodes → name_starts "run_" f = true ∨ name_starts "golden" f = true →
    _is_stub f.2 = false;
  k_level_option : NConstant (KStr "--level") ∈ nodes;
}.

Lemma existsb_iff {A} (p : A → bool) l : existsb p l = true ↔ ∃ x, x ∈ l ∧ p x = true.
Proof. rewrite existsb_exists. setoid_rewrite list_elem_of_In. done. Qed.

Lemma uses_alias body aliases : _uses_namespace body aliases = true → aliases ≠ [].
Proof.
  unfold _uses_namespace. intros (n & _ & Hn)%existsb_iff ->.
  destruct n as [| | | |[]| | | | |]; simpl in Hn; try done; by rewrite bool_decide_eq_true in Hn; apply not_elem_of_nil in Hn.
Qed.

Lemma golden_nil prefix path nodes :
  golden_failures prefix path nodes = [] ↔
  (∃ f, f ∈ funcs_of nodes ∧ name_starts "golden" f = true ∧
        _uses_namespace f.2 (_collect_torch_aliases nodes) = true) ∧
  ∀ f, f ∈ funcs_of nodes → name_starts "golden" f = true → _is_stub f.2 = false.
Proof.
  unfold golden_failures. set (g := filter _ _).
  assert (∀ f, f ∈ g ↔ f ∈ funcs_of nodes ∧ name_starts "golden" f = true) as Hg.
  { intros f. unfold g. rewrite list_elem_of_filter. tauto. }
  case_decide as He.
  - split; [done|]. intros [(f & Hf & Hn & _) _]. assert (f ∈ g) as Hin by by apply Hg. rewrite He in Hin.
    by apply not_elem_of_nil in Hin.
  - rewrite app_nil_iff, fail_if_nil, orb_false_iff, bool_decide_eq_false, negb_false_iff, existsb_iff, bind_nil_iff.
    setoid_rewrite fail_if_nil. setoid_rewrite Hg. split.
    + intros [[_ (f & [Hf Hn] & Hu)] Hs]. split; eauto 10.
    + intros [(f & Hf & Hn & Hu) Hs]. split; [|intros f' []; eauto]. split; [by eapply uses_alias|eauto].
Qed.

Lemma level_nil prefix path nodes :
  level_failures prefix path nodes = [] ↔
  (∀ name, name ∈ ["run_L0"; "run_L1"; "run_L2"] → ∃ body, (name, body) ∈ funcs_of nodes) ∧
  (∃ f, f ∈ funcs_of nodes ∧ contains (cps "boundary") (lower f.1) = true) ∧
  ∀ f, f ∈ funcs_of nodes → name_starts "run_" f = true ∨ name_starts "golden" f = true → _is_stub f.2 = false.
Proof.
  unfold level_failures. rewrite !app_nil_iff, !bind_nil_iff. setoid_rewrite fail_if_nil.
  rewrite negb_false_iff, existsb_iff. setoid_rewrite negb_false_iff.
  assert (∀ name, py_in name (funcs_of nodes).*1 = true ↔ ∃ body, (name, body) ∈ funcs_of nodes) as Hn.
  { intros name. unfold py_in. rewrite bool_decide_eq_true, list_elem_of_fmap. split.
    - intros ([n b] & -> & Hin). eauto.
    - intros [b Hin]. by exists (name, b). }
  setoid_rewrite Hn.
  assert ((∃ x, x ∈ (funcs_of nodes).*1 ∧ contains (cps "boundary") (lower x) = true) ↔
          ∃ f, f ∈ funcs_of nodes ∧ contains (cps "boundary") (lower f.1) = true) as ->.
  { setoid_rewrite list_elem_of_fmap. split; [intros (x & (f & -> & Hf) & Hc)|intros (f & Hf & Hc)]; eauto. }
  setoid_rewrite andb_false_iff. setoid_rewrite orb_false_iff.
  split; intros (H1 & H2 & H3); (split_and!; [done..|]); intros f Hf.
  - intros Hs. destruct (H3 f Hf) as [[Ha Hb]|]; [|done]. destruct Hs; congruence.
  - destruct (name_starts "run_" f) eqn:E1; [right; eauto|].
    destruct (name_starts "golden" f) eqn:E2; [right; eauto|by left].
Qed.

(** The gate of a kernel has no failure exactly when the file is a finished program
    with a compiled function, no function compiled for another target, a reference that
    uses torch, the entry points of the test levels, none of them empty, and the option
    that selects the level. *)
Lemma kernel_lint_nil read_text ast_parse path prefix :
  (kernel_lint read_text ast_parse path prefix).1 = [] ↔
  ∃ src tree, read_text path = Some src ∧ strip src ≠ [] ∧ ast_parse src = Some tree ∧ kernel_ok src (walk tree).
Proof.
  unfold kernel_lint. split.
  - destruct (read_text path) as [src|]; [|done]. case_decide as Hs; [done|].
    destruct (ast_parse src) as [tree|] eqn:Ea; [|done]. cbn [fst].
    rewrite !app_nil_iff, golden_nil, level_nil, !bind_nil_iff. setoid_rewrite fail_if_nil.
    rewrite negb_false_iff, existsb_iff, bool_decide_eq_false.
    intros (Hp & Ht & Hj & [Hg _] & (Hl & Hb & Hst) & (n & Hn & Hlv)). exists src, tree. split_and!; try done.
    split; try done.
    + split; [by intros E; rewrite E in Hj|]. intros Hin. by apply Ht in Hin.
    + destruct n as [| | | | | |[s| |]| | |]; try done. apply bool_decide_eq_true in Hlv as ->. done.
  - intros (src & tree & -> & Hs & Ha & [Hp [Hj Ht] Hg Hl Hb Hst Hlv]). rewrite decide_False, Ha by done. cbn [fst].
    rewrite !app_nil_iff, golden_nil, level_nil, !bind_nil_iff. setoid_rewrite fail_if_nil.
    rewrite negb_false_iff, existsb_iff, bool_decide_eq_false. split_and!; try done.
    + intros [] Hin; done.
    + intros E. destruct (_jit_decorators (walk tree)); done.
    + intros f Hf Hn. eauto.
    + exists (NConstant (KStr "--level")). split; [done|]. by apply bool_decide_eq_true.
Qed.

(** ** A kernel file *)

Module KernelLintEx.

Definition def (name : string) (ds body : list node) : node := NFunctionDef false name ds body [].
Definition call : node := NExpr (NCall (NAttribute (NName "torch") "add") [] []).

(** [import tilelang as tl], a function compiled with [tl.jit(target=...)], a reference
    and the entry points. *)
Definition tree (target : constant) : node := NOther
  [NImport [("tilelang", Some "tl"); ("torch", None)];
   def "add" [NCall (NAttribute (NName "tl") "jit") [] [(Some "target", NConstant target)]]
     [NExpr (NAttribute (NName "T") "prim_func")];
   def "golden_add" [] [call]; def "run_L0" [] [call]; def "run_L1" [] [call]; def "run_L2" [] [call];
   def "run_Boundary" [] [call]; NExpr (NConstant (KStr "--level"))].

Definition lint (target : constant) : list failure * list failure :=
  kernel_lint (λ _, Some (cps "source")) (λ _, Some (tree target)) "add.py" "S3".

Example npuir_passes : lint (KStr "npuir") = ([], []).
Proof. reflexivity. Qed.
Example cuda_fails : lint (KStr "cuda") = ([_fail "S3-JIT" "add.py"], []).
Proof. reflexivity. Qed.

End KernelLintEx.
