(* ===== verification/DocLints.v ===== *)
(** * The lints of the documents

    [design_lint], [review_lint] and [perf_feedback_lint] of
    [src/.agents/tools/gate_lint.py], with the splitting of a document into sections
    they stand on, and [perf_lint], the gate of the tuning stage.  Documents are lists
    of code points; each regular expression is the function that finds what it matches.
    A failure or a warning is its rule and its file. *)
From Stdlib Require Import SpecFloat Ascii.
From stdpp Require Import base strings gmap numbers list.
From S2P Require Import Prelude StateSchema PerfRecords KernelLint.

(** ** Patterns *)

Fixpoint span {A} (p : A → bool) (l : list A) : list A * list A :=
  match l with
  | x :: l' => if p x then let '(a, b) := span p l' in (x :: a, b) else ([], l)
  | [] => ([], [])
  end.

(** The rest behind [#{1,n}] and [\s*], if the text starts so; a longer run of hashes
    does not match, since neither a blank nor what follows here is a hash. *)
Definition hashes (n : nat) (t : text) : option text :=
  let '(h, rest) := span (λ c, c =? 35) t in
  if decide (1 ≤ length h ≤ n)%nat then Some rest else None.

(** The first position where a multi-line pattern [^...] matches: what it
    captured, the text in front and the text behind. *)
Fixpoint search_line {A} (here : text → option (A * text)) (start : bool) (t : text) :
    option (A * text * text) :=
  match (if start then here t else None) with
  | Some (a, rest) => Some (a, [], rest)
  | None =>
      match t with
      | [] => None
      | c :: t' =>
          match search_line here (c =? 10) t' with
          | Some (a, front, rest) => Some (a, c :: front, rest)
          | None => None
          end
      end
  end.

(** The matches of [open[^open close \n]*[cjk][^open close \n]*close]: one entry each.
    [fuel] is the length of the text. *)
Fixpoint templates (open close : Z) (fuel : nat) (t : text) : nat :=
  match fuel, t with
  | S fuel', c :: t' =>
      if c =? open then
        let '(body, rest) := span (λ x, negb ((x =? open) || (x =? close) || (x =? 10))) t' in
        match rest with
        | x :: rest' =>
            if (x =? close) && existsb (λ x, (19968 <=? x) && (x <=? 40959)) body
            then S (templates open close fuel' rest') else templates open close fuel' t'
        | [] => templates open close fuel' t'
        end
      else templates open close fuel' t'
  | _, _ => 0%nat
  end.
Definition TEMPLATE_BRACE_RE (t : text) : nat := templates 123 125 (length t) t.
Definition TEMPLATE_ANGLE_RE (t : text) : nat := templates 60 62 (length t) t.

(** A character of a path in prose. *)
Definition path_char (c : Z) : bool :=
  negb (isspace c) && negb (py_in c (points "`'<>()[]（）【】：，。；、！？")) && negb (c =? 34).

(** [(?:docs|examples|testing|\.agents)/path_char+] here: the match and the rest. *)
Definition ref_here (t : text) : option (text * text) :=
  let try_dir (d : string) :=
    let p := cps d ++ [47] in
    if startswith t p then
      let '(name, rest) := span path_char (drop (length p) t) in
      if decide (name = []) then None else Some (p ++ name, rest)
    else None in
  match try_dir "docs" with
  | Some r => Some r
  | None => match try_dir "examples" with
            | Some r => Some r
            | None => match try_dir "testing" with Some r => Some r | None => try_dir ".agents" end
            end
  end.
(** [REF_PATH_RE.finditer]; [fuel] is the length of the text. *)
Fixpoint REF_PATH_RE (fuel : nat) (t : text) : list text :=
  match fuel, t with
  | S fuel', _ :: t' =>
      match ref_here t with
      | Some (m, rest) => m :: REF_PATH_RE fuel' rest
      | None => REF_PATH_RE fuel' t'
      end
  | _, _ => []
  end.

(** ** Sections *)

Definition digit (c : Z) : bool := (48 <=? c) && (c <=? 57).

(** A dotted number, greedy: the components. *)
Fixpoint number (fuel : nat) (t : text) : option (list text * text) :=
  match fuel with
  | O => None
  | S fuel' =>
      let '(ds, rest) := span digit t in
      if decide (ds = []) then None
      else match rest with
           | 46 :: rest' =>
               match number fuel' rest' with
               | Some (cs, r) => Some (ds :: cs, r)
               | None => Some ([ds], rest)
               end
           | _ => Some ([ds], rest)
           end
  end.

(** [[.\s、)：:]]. *)
Definition terminator (c : Z) : bool := isspace c || py_in c (points ".、)：:").

Fixpoint join_dots (cs : list text) : text :=
  match cs with [] => [] | [c] => c | c :: cs' => c ++ 46 :: join_dots cs' end.

(** The number of a heading line: one to six hashes, blanks, a dotted number and a
    terminator.  Where no terminator follows, the pattern gives the last component back
    and takes the dot in front of it for the terminator. *)
Definition heading_number (line : text) : option text :=
  rest ← hashes 6 line;
  let '(blanks, rest) := span isspace rest in
  if decide (blanks = []) then None
  else
    '(cs, rest) ← number (length rest) rest;
    if match rest with c :: _ => terminator c | [] => false end then Some (join_dots cs)
    else match cs with
         | [_] => None
         | _ => Some (join_dots (take (length cs - 1) cs))
         end.

(** Numbers in the order of their first headings, each with the lines of its bodies
    and its headings. *)
Definition sections_t := list (text * (list text * list text)).

Definition split_step (st : sections_t * option text) (line : text) : sections_t * option text :=
  let '(secs, current) := st in
  match heading_number line with
  | Some num =>
      let '(body, heads) := default ([], []) (assoc num secs) in
      (assign num (body, heads ++ [line]) secs, Some num)
  | None =>
      match current with
      | Some num =>
          let '(body, heads) := default ([], []) (assoc num secs) in
          (assign num (body ++ [line], heads) secs, current)
      | None => st
      end
  end.

Definition split_lines (lines : list text) : sections_t := (foldl split_step ([], None) lines).1.

(** ["\n".join(l)]. *)
Fixpoint join_lines (l : list text) : text :=
  match l with [] => [] | [x] => x | x :: l' => x ++ 10 :: join_lines l' end.

Definition split_sections (t : text) : list (text * text) * list (text * text) :=
  let secs := split_lines (splitlines t) in
  ((λ s, (s.1, join_lines s.2.1)) <$> secs, (λ s, (s.1, join_lines s.2.2)) <$> secs).

Definition in_region (prefix num : text) : bool :=
  bool_decide (num = prefix) || startswith num (prefix ++ [46]).

Definition region (secs : list (text * text)) (prefix : string) : text :=
  join_lines (snd <$> filter (λ s : text * text, in_region (cps prefix) s.1) secs).

Definition region_all (sh : list (text * text) * list (text * text)) (prefix : string) : text :=
  region sh.1 prefix ++ 10 :: region sh.2 prefix.

Definition blank (t : text) : bool := bool_decide (strip t = []).

(** [n in sections]. *)
Definition in_sections (sh : list (text * text) * list (text * text)) (n : string) : bool :=
  bool_decide (is_Some (assoc (cps n) sh.1)).

(** ** Stage 1: the design *)

Definition DESIGN_REQUIRED_SECTIONS : list string :=
  ["1"; "1.1"; "1.3"; "1.4"; "1.6"; "1.6.0"; "1.6.1"; "1.6.2"; "1.6.3"; "2"; "3"; "3.5"; "4"; "4.1"; "4.2";
   "5"; "6"; "7"; "8"].
Definition DESIGN_MIG_REQUIRED : list string := ["0"; "0.1"; "0.3"; "0.4"; "0.5"; "0.6"].
Definition DESIGN_MIG_RECOMMENDED : list string := ["0.2"; "0.7"].
Definition RESEARCH_4Q : list (list string) := [["等价"; "化简"]; ["在线"]; ["复杂度"]; ["亲和"]].
Definition CORES_PLAN_KEYWORDS : list string :=
  ["无需适配"; "整数倍"; "核内串行"; "串行"; "persistent"; "规模判定"].

(** What the lints ask of the files. *)
Record docs := Docs {
  doc_text : string → option text;
  doc_exists : string → bool;
  doc_isfile : string → bool;
  doc_cwd : string;
}.

Section lints.
Context (fs : docs).

Definition placeholder_failures (rule path : string) (templates_found : nat) (t : text) : list failure :=
  (PLACEHOLDER_PATTERNS ≫= λ pat, fail_if (has t pat) rule path) ++
  repeat (_fail rule path) templates_found.

(** [m.group(0).rstrip(".,;:!?、。】")]. *)
Definition trim_token (t : text) : text :=
  reverse (drop_while (λ c, py_in c (points ".,;:!?、。】")) (reverse t)).

Fixpoint ref_failures (seen : list text) (tokens : list text) (file_path repo_root rule : string) : list failure :=
  match tokens with
  | [] => []
  | m :: tokens' =>
      let token := trim_token m in
      if py_in token seen then ref_failures seen tokens' file_path repo_root rule
      else
        (if existsb (λ c, py_in c (cps "{}*")) token then []
         else fail_if (negb (doc_exists fs (os_path_join repo_root (utf8 token)))) rule file_path) ++
        ref_failures (token :: seen) tokens' file_path repo_root rule
  end.
Definition _ref_path_failures (t : text) (file_path repo_root rule : string) : list failure :=
  ref_failures [] (REF_PATH_RE (length t) t) file_path repo_root rule.

Definition missing_sections (sh : list (text * text) * list (text * text)) : list string :=
  filter (λ n, (negb (in_sections sh n) || blank (region_all sh n)) = true) DESIGN_REQUIRED_SECTIONS.

(** The equivalence check of adopted optimisations. *)
Definition equiv_failures (design_path : string) (r161 : text) : list failure :=
  if blank r161 || has r161 "无优化空间" then []
  else
    let equiv_script := os_path_join (dirname (abspath (doc_cwd fs) design_path)) "verify_equiv.py" in
    fail_if (negb (doc_isfile fs equiv_script)) "S1-EQUIV-EXEC" design_path ++
    fail_if (negb (has r161 "EQUIV_PASS")) "S1-EQUIV-EXEC" design_path ++
    fail_if (has r161 "EQUIV_FAIL") "S1-EQUIV-EXEC" design_path.

(** The research of section 1.6.0. *)
Definition research_failures (design_path : string) (r160 : text) : list failure :=
  if blank r160 then []
  else
    fail_if (negb (forallb (forallb (has r160)) RESEARCH_4Q)) "S1-RESEARCH-4Q" design_path ++
    fail_if (negb (has r160 "基线")) "S1-RESEARCH-BASELINE" design_path ++
    fail_if (negb (has r160 "调研结论")) "S1-RESEARCH-CONCL" design_path.

(** A keyword of the core split: a failure, or a warning if it is elsewhere. *)
Definition cores_findings (design_path : string) (sec5 t : text) (rule kw : string) : list failure * list failure :=
  if has sec5 kw then ([], [])
  else if has t kw then ([], [_fail rule design_path]) else ([_fail rule design_path], []).

Definition design_lint (design_path : string) (migration : bool) (repo_root : string) :
    list failure * list failure :=
  match doc_text fs design_path with
  | None => ([_fail "S1-EXISTS" design_path], [])
  | Some t =>
      if blank t then ([_fail "S1-EXISTS" design_path], [])
      else
        let sh := split_sections t in
        let sec5 := region_all sh "5" in
        let sec8 := region_all sh "8" in
        let logical := cores_findings design_path sec5 t "S1-CORES-LOGICAL" "逻辑核数" in
        let physical := cores_findings design_path sec5 t "S1-CORES-PHYSICAL" "get_aicore_num" in
        (placeholder_failures "S1-PLACEHOLDER" design_path (TEMPLATE_BRACE_RE t) t ++
         fail_if (negb (bool_decide (missing_sections sh = []))) "S1-SECT-MISSING" design_path ++
         fail_if (migration && negb (forallb (in_sections sh) DESIGN_MIG_REQUIRED)) "S1-MIG-S0" design_path ++
         research_failures design_path (region_all sh "1.6.0") ++
         ([("1.6.1", "优化结论"); ("1.6.2", "向量化结论"); ("1.6.3", "布局决策结论")] ≫= λ sl,
            match assoc (cps sl.1) sh.1 with
            | Some body => fail_if (negb (has body sl.2)) "S1-SECT-CONCL" design_path
            | None => []
            end) ++
         equiv_failures design_path (region_all sh "1.6.1") ++
         fail_if (negb (blank (region_all sh "2")) &&
                  negb (existsb (has (region_all sh "2")) ["Developer"; "developer"; "Expert"; "expert"; "混合"]))
           "S1-MODE" design_path ++
         logical.1 ++ physical.1 ++
         fail_if (negb (has sec5 "分核") || negb (existsb (has sec5) CORES_PLAN_KEYWORDS)) "S1-CORES-PLAN" design_path ++
         (if blank sec8 then [] else
          fail_if (negb (has sec8 "olden")) "S1-GOLDEN-PLAN" design_path ++
          fail_if (negb (has sec8 "L0")) "S1-L0-PLAN" design_path) ++
         _ref_path_failures t design_path repo_root "S1-REF-PATHS",
         (if migration
          then DESIGN_MIG_RECOMMENDED ≫= λ n, fail_if (negb (in_sections sh n)) "S1-MIG-S0" design_path
          else []) ++ logical.2 ++ physical.2)
  end.

(** ** Stage 2: the review *)

Definition bold (t : text) : text := if startswith t (cps "**") then drop 2 t else t.
Definition after (word : text) (t : text) : option text :=
  if startswith t word then Some (drop (length word) t) else None.

(** [CONCLUSION_RE] here: blanks, the word for conclusion, which may be bold, a colon of
    either width and one of the two verdicts, alone up to the end of the line; whether
    it is a pass. *)
Definition conclusion_here (t : text) : option (bool * text) :=
  rest ← after (points "结论") (bold (drop_while isspace t));
  match drop_while isspace (bold rest) with
  | c :: rest =>
      if negb ((c =? 58) || (c =? 65306)) then None
      else
        let rest := drop_while isspace rest in
        match after (points "通过") rest with
        | Some r => r' ← blanks_eol r; Some (true, r')
        | None => r ← after (points "不通过") rest; r' ← blanks_eol r; Some (false, r')
        end
  | [] => None
  end.
(** The first of [CONCLUSION_RE.findall(text)]. *)
Definition conclusion (t : text) : option bool := (λ r, r.1.1) <$> search_line conclusion_here true t.

Definition dim_end (c : Z) : bool := isspace c || (c =? 46) || (c =? 12289).

(** [^#{1,4}\s*k[.、\s]] here. *)
Definition dim_here (k : nat) (t : text) : option (unit * text) :=
  rest ← hashes 4 t;
  rest ← after (cps (str_of_Z (Z.of_nat k))) (drop_while isspace rest);
  match rest with c :: rest' => if dim_end c then Some (tt, rest') else None | [] => None end.
(** [^#{1,4}\s*[0-9]+[.、\s]] here. *)
Definition next_here (t : text) : option (unit * text) :=
  rest ← hashes 4 t;
  let '(ds, rest) := span digit (drop_while isspace rest) in
  if decide (ds = []) then None
  else match rest with c :: rest' => if dim_end c then Some (tt, rest') else None | [] => None end.

Definition _dim_body (t : text) (k : nat) : option text :=
  '(_, _, rest) ← search_line (dim_here k) true t;
  match search_line next_here true rest with
  | Some (_, front, _) => Some front
  | None => Some rest
  end.

Definition review_lint (review_path : string) (migration : bool) : list failure * list failure :=
  match doc_text fs review_path with
  | None => ([_fail "S2-EXISTS" review_path], [])
  | Some t =>
      if blank t then ([_fail "S2-EXISTS" review_path], [])
      else
        let concl := conclusion t in
        let required_dims := if migration then seq 0 9 else seq 1 8 in
        let dim8 :=
          match _dim_body t 8 with
          | Some m8 => (fail_if (negb ((has m8 "复核" || has m8 "复算") && has m8 "核对")) "S2-DIM8-EVIDENCE" review_path, [])
          | None => ([], [_fail "S2-DIM8-EVIDENCE" review_path])
          end in
        let dim0 :=
          match (if migration then _dim_body t 0 else None) with
          | Some body =>
              fail_if (has (filter (λ c, c ≠ 32) body) "n/a" || negb (has body "源码")) "S2-MIG-DIM0" review_path
          | None => []
          end in
        (fail_if (bool_decide (concl = None)) "S2-CONCLUSION" review_path ++
         fail_if (negb (forallb (λ k, bool_decide (is_Some (search_line (dim_here k) true t))) required_dims))
           "S2-DIMS" review_path ++
         dim8.1 ++ dim0 ++
         fail_if (bool_decide (concl = Some true) && has t "检视问题列表") "S2-PASS-NO-ISSUES" review_path,
         dim8.2)
  end.

(** ** Stage 4: feedback and the gate of the tuning *)

Definition PERF_FEEDBACK_SECTIONS : list string := ["触发判定"; "参照锚定"; "假设"; "实测"; "影响面"; "反馈结论"].

(** A heading that starts with the title, and the next heading of any kind. *)
Definition title_here (title : string) (t : text) : option (unit * text) :=
  rest ← hashes 6 t;
  rest ← after (points title) (drop_while isspace rest);
  Some (tt, rest).
Definition heading_here (t : text) : option (unit * text) :=
  rest ← hashes 6 t;
  let '(blanks, rest) := span isspace rest in
  if decide (blanks = []) then None else Some (tt, rest).

Definition _section_body (t : text) (title : string) : option text :=
  '(_, _, rest) ← search_line (title_here title) true t;
  match search_line heading_here true rest with
  | Some (_, front, _) => Some front
  | None => Some rest
  end.

(** [\d], and [float] of what it matches. *)
Context (isdecimal : Z → bool) (py_float : text → option spec_float).

(** [(\d+(?:\.\d+)?)\s*(?:x|×|倍)] here: the number. *)
Definition speedup_here (t : text) : option (text * text) :=
  let '(ds, rest) := span isdecimal t in
  if decide (ds = []) then None
  else
    let '(num, rest) :=
      match rest with
      | 46 :: r => let '(fs, r') := span isdecimal r in
                   if decide (fs = []) then (ds, rest) else (ds ++ 46 :: fs, r')
      | _ => (ds, rest)
      end in
    match drop_while isspace rest with
    | c :: r => if (c =? 120) || (c =? 215) || (c =? 20493) then Some (num, r) else None
    | [] => None
    end.
(** [SPEEDUP_RE.findall]; [fuel] is the length of the text. *)
Fixpoint SPEEDUP_RE (fuel : nat) (t : text) : list text :=
  match fuel, t with
  | S fuel', _ :: t' =>
      match speedup_here t with
      | Some (n, rest) => n :: SPEEDUP_RE fuel' rest
      | None => SPEEDUP_RE fuel' t'
      end
  | _, _ => []
  end.

Definition f_two : spec_float := S754_finite false 4503599627370496 (-51).

Definition perf_feedback_lint (path repo_root : string) : res (list failure * list failure) :=
  let bad := Ok ([_fail "S4-PERF-FEEDBACK" path], []) in
  match doc_text fs path with
  | None => bad
  | Some t =>
      if blank t then bad
      else
        let body title := default [] (_section_body t title) in
        let anchor := body "参照锚定" in
        let trig := body "触发判定" in
        speedups ← mmap (λ v, or_raise ValueError (py_float v)) (SPEEDUP_RE (length trig) trig);
        Ok (placeholder_failures "S4-PERF-FEEDBACK-PLACEHOLDER" path (TEMPLATE_ANGLE_RE t) t ++
            (PERF_FEEDBACK_SECTIONS ≫= λ title,
               fail_if (bool_decide (_section_body t title = None)) "S4-PERF-FEEDBACK-SCHEMA" path) ++
            fail_if (negb (blank anchor) &&
                     (negb (has anchor "参照实现") ||
                      negb (has anchor "未找到参照") && negb (has anchor "不可移植")))
              "S4-PERF-FEEDBACK-ANCHOR" path ++
            fail_if (negb (has trig "设计层归因")) "S4-PERF-FEEDBACK-TRIGGER" path ++
            fail_if (negb (existsb (SFltb f_two) speedups || has trig "矛盾")) "S4-PERF-FEEDBACK-TRIGGER" path ++
            fail_if (negb (has (body "实测") "msprof")) "S4-PERF-FEEDBACK-METRIC" path ++
            fail_if (negb (has (body "反馈结论") "建议路由")) "S4-PERF-FEEDBACK-ROUTE" path ++
            _ref_path_failures t path repo_root "S4-PERF-FEEDBACK-REF", [])
  end.

(** The gate of the tuning; [ast_parse] is the parser of kernels and [data] what the
    lint of the records reads. *)
Definition perf_lint (ast_parse : text → option node) (data : fsys)
    (perf_py_path opt_log_path feedback_path records_path repo_root : string) :
    res (list failure * list failure) :=
  let kernel_findings := kernel_lint (doc_text fs) ast_parse perf_py_path "S4" in
  let log_findings :=
    match doc_text fs opt_log_path with
    | None => ([_fail "S4-OPTLOG" opt_log_path], [])
    | Some log =>
        if blank log then ([_fail "S4-OPTLOG" opt_log_path], [])
        else ([], fail_if (negb (has log "Skill Retrospective")) "S4-OPTLOG" opt_log_path)
    end in
  feedback ← (if doc_exists fs feedback_path then perf_feedback_lint feedback_path repo_root else Ok ([], []));
  records ← perf_records_lint data py_float records_path opt_log_path perf_py_path;
  Ok (kernel_findings.1 ++ log_findings.1 ++ feedback.1 ++ records.1,
      kernel_findings.2 ++ log_findings.2 ++ feedback.2 ++ records.2).

End lints.
