(* ===== verification/DocAccept.v ===== *)
(** * What the lints of the documents find

    Correctness of the splitting into sections of [DocLints], which sections the gate of
    the design asks for, when a review passes, and that the gate of the tuning stage
    stands on the performance records. *)
From Stdlib Require Import SpecFloat Ascii.
From stdpp Require Import base strings gmap numbers list.
From S2P Require Import Prelude StateSchema PerfRecords PerfAccept KernelLint DocLints.

(** Membership in a list written out. *)
Ltac in_list := repeat first [apply list_elem_of_here | apply list_elem_of_further].

(** ** Sections *)

(** The reference: the headings of a number, and the lines that follow one of them up
    to the next heading. *)
Definition headings_of (num : text) (lines : list text) : list text :=
  filter (λ l, heading_number l = Some num) lines.
Fixpoint owned (current : option text) (num : text) (lines : list text) : list text :=
  match lines with
  | [] => []
  | l :: ls =>
      match heading_number l with
      | Some n => owned (Some n) num ls
      | None => (if decide (current = Some num) then [l] else []) ++ owned current num ls
      end
  end.

Lemma split_fold lines secs current num :
  (∀ n, current = Some n → is_Some (assoc n secs)) →
  assoc num (foldl split_step (secs, current) lines).1 =
  match assoc num secs with
  | Some (body, heads) => Some (body ++ owned current num lines, heads ++ headings_of num lines)
  | None => if decide (headings_of num lines = []) then None
            else Some (owned current num lines, headings_of num lines)
  end.
Proof.
  unfold headings_of. revert secs current. induction lines as [|l ls IH]; intros secs current Hc; csimpl.
  - destruct (assoc num secs) as [[b h]|]; [by rewrite !app_nil_r|done].
  - rewrite filter_cons. destruct (heading_number l) as [n|] eqn:En.
    + destruct (assoc n secs) as [[b h]|] eqn:Ea; simpl; rewrite IH;
        try (intros n' [= <-]; rewrite assoc_assign, decide_True; by eauto);
        rewrite assoc_assign; destruct (decide (num = n)) as [->|Hn].
      * rewrite Ea, decide_True by done. by rewrite <-app_assoc.
      * rewrite (decide_False (P := Some n = Some num)) by congruence. done.
      * rewrite Ea, !(decide_True (P := Some n = Some n)) by done. by rewrite decide_False.
      * rewrite (decide_False (P := Some n = Some num)) by congruence. done.
    + rewrite (decide_False (P := None = Some num)) by done. destruct current as [n|]; simpl; [|by rewrite IH].
      destruct (Hc n eq_refl) as [[b h] Ea]. rewrite Ea. simpl. rewrite IH;
        [|intros n' [= <-]; rewrite assoc_assign, decide_True; by eauto].
      rewrite assoc_assign. destruct (decide (num = n)) as [->|Hn].
      * rewrite Ea, decide_True by done. by rewrite <-app_assoc.
      * rewrite (decide_False (P := Some n = Some num)) by congruence. done.
Qed.

Lemma split_lines_spec lines num :
  assoc num (split_lines lines) =
  if decide (headings_of num lines = []) then None else Some (owned None num lines, headings_of num lines).
Proof. unfold split_lines. by rewrite split_fold. Qed.

Lemma assoc_fmap {V W} (f : V → W) (k : text) l :
  assoc k ((λ s : text * V, (s.1, f s.2)) <$> l) = f <$> assoc k l.
Proof. induction l as [|[k' v] l IH]; csimpl; [done|]. by case_decide. Qed.

(** The two dictionaries of [split_sections]. *)
Lemma split_sections_spec t num :
  assoc num (split_sections t).1 =
    (if decide (headings_of num (splitlines t) = []) then None
     else Some (join_lines (owned None num (splitlines t)))) ∧
  assoc num (split_sections t).2 =
    (if decide (headings_of num (splitlines t) = []) then None
     else Some (join_lines (headings_of num (splitlines t)))).
Proof.
  unfold split_sections. simpl.
  rewrite (assoc_fmap (λ v, join_lines v.1)), (assoc_fmap (λ v, join_lines v.2)), split_lines_spec.
  by case_decide.
Qed.

(** ** Blank regions *)

Lemma drop_while_elem {A} (p : A → bool) l x : x ∈ l → p x = false → x ∈ drop_while p l.
Proof.
  induction l as [|y l IH]; simpl; [set_solver|]. intros [<-|Hx]%elem_of_cons Hp.
  - rewrite Hp. set_solver.
  - destruct (p y); [eauto|set_solver].
Qed.

Lemma blank_elem t c : c ∈ t → isspace c = false → blank t = false.
Proof.
  intros Hc Hs. apply bool_decide_eq_false. unfold strip, strip_by. intros He.
  assert (c ∈ ([] : text)) as []%not_elem_of_nil. rewrite <-He. apply elem_of_reverse, drop_while_elem; [|done].
  apply elem_of_reverse. by apply drop_while_elem.
Qed.

Lemma join_lines_elem (c : Z) l ls : c ∈ l → l ∈ ls → c ∈ join_lines ls.
Proof.
  intros Hc. induction ls as [|x ls IH]; [set_solver|]. intros [<-|Hl]%elem_of_cons; destruct ls; set_solver.
Qed.

Lemma heading_hash line num : heading_number line = Some num → 35 ∈ line.
Proof.
  unfold heading_number, hashes. destruct line as [|c line]; simpl; [done|].
  destruct (Z.eqb_spec c 35) as [->|]; [set_solver|done].
Qed.

Lemma assoc_in {K V} `{EqDecision K} (k : K) (v : V) l : assoc k l = Some v → (k, v) ∈ l.
Proof. induction l as [|[k' v'] l IH]; simpl; [done|]. case_decide; set_solver. Qed.

(** The headings are part of a region, so the region of a section that is there is
    never blank, whatever its body. *)
Lemma region_never_blank t n :
  in_sections (split_sections t) n = true → blank (region_all (split_sections t) n) = false.
Proof.
  unfold in_sections. rewrite bool_decide_eq_true. destruct (split_sections_spec t (cps n)) as [-> H2].
  intros [b Hb]. revert H2 Hb. case_decide as Hh; [done|]. intros Ha%assoc_in _.
  destruct (headings_of (cps n) (splitlines t)) as [|l ls] eqn:El; [done|].
  assert (heading_number l = Some (cps n)) as Hl.
  { assert (l ∈ headings_of (cps n) (splitlines t)) as [? _]%list_elem_of_filter by (rewrite El; set_solver). done. }
  apply heading_hash in Hl. apply (blank_elem _ 35); [|done]. unfold region_all, region.
  apply elem_of_app. right. apply elem_of_cons. right.
  eapply join_lines_elem; [eapply (join_lines_elem 35 l (l :: ls)); [done|set_solver]|].
  apply list_elem_of_fmap. exists (cps n, join_lines (l :: ls)). split; [done|]. apply list_elem_of_filter.
  split; [|done]. unfold in_region. simpl. by rewrite bool_decide_eq_true_2.
Qed.

Lemma in_sections_iff t n :
  in_sections (split_sections t) n = true ↔ ∃ line, line ∈ splitlines t ∧ heading_number line = Some (cps n).
Proof.
  unfold in_sections. rewrite bool_decide_eq_true. destruct (split_sections_spec t (cps n)) as [-> _].
  unfold headings_of. split.
  - case_decide as Hh; [by intros [? ?]|]. intros _. destruct (filter _ (splitlines t)) as [|l ls] eqn:El; [done|].
    assert (l ∈ filter (λ l, heading_number l = Some (cps n)) (splitlines t)) as [? ?]%list_elem_of_filter
      by (rewrite El; set_solver).
    eauto.
  - intros (line & Hin & Hn). rewrite decide_False; [by eauto|]. intros He.
    assert (line ∈ ([] : list text)) as []%not_elem_of_nil. rewrite <-He. by apply list_elem_of_filter.
Qed.

Lemma missing_sections_nil t :
  missing_sections (split_sections t) = [] ↔
  ∀ n, n ∈ DESIGN_REQUIRED_SECTIONS → ∃ line, line ∈ splitlines t ∧ heading_number line = Some (cps n).
Proof.
  setoid_rewrite <-in_sections_iff. unfold missing_sections. split.
  - intros H n Hn. destruct (in_sections (split_sections t) n) eqn:E; [done|].
    assert (n ∈ ([] : list string)) as []%not_elem_of_nil. rewrite <-H. apply list_elem_of_filter. by rewrite E.
  - intros H. apply elem_of_nil_inv. intros n [Hn Hin]%list_elem_of_filter. specialize (H n Hin).
    by rewrite H, region_never_blank in Hn.
Qed.

(** ** The design *)

Section accept.
Context (fs : docs).

(** The paths cited in a text are there, templates and globs apart. *)
Definition cited (root : string) (t : text) : Prop :=
  ∀ m, m ∈ REF_PATH_RE (length t) t →
    existsb (λ c, py_in c (cps "{}*")) (trim_token m) = false →
    doc_exists fs (os_path_join root (utf8 (trim_token m))) = true.

Lemma ref_failures_nil seen tokens path root rule :
  ref_failures fs seen tokens path root rule = [] ↔
  ∀ m, m ∈ tokens → trim_token m ∉ seen →
    existsb (λ c, py_in c (cps "{}*")) (trim_token m) = false →
    doc_exists fs (os_path_join root (utf8 (trim_token m))) = true.
Proof.
  revert seen. induction tokens as [|m tokens IH]; intros seen; [simpl; set_solver|]. cbn [ref_failures].
  unfold py_in at 1. case_bool_decide as Hs.
  - rewrite IH. split; intros H m' Hm'; [|intros; apply H; [by right|done..]].
    apply elem_of_cons in Hm' as [->|Hm']; [done|eauto].
  - rewrite app_nil_iff, IH.
    assert ((if existsb (λ c, py_in c (cps "{}*")) (trim_token m) then []
             else fail_if (negb (doc_exists fs (os_path_join root (utf8 (trim_token m))))) rule path) = [] ↔
            (existsb (λ c, py_in c (cps "{}*")) (trim_token m) = false →
             doc_exists fs (os_path_join root (utf8 (trim_token m))) = true)) as ->.
    { destruct (existsb _ _); [done|]. rewrite fail_if_nil, negb_false_iff. naive_solver. }
    split.
    + intros [H1 H2] m' Hm' Hn Ht. destruct (decide (trim_token m' = trim_token m)) as [E|Hne]; [rewrite E in *; eauto|].
      apply elem_of_cons in Hm' as [->|Hm']; [done|]. apply H2; [done| |done]. rewrite not_elem_of_cons. done.
    + intros H. split; [intros; apply H; [by left|done..]|]. intros m' Hm' [_ Hn]%not_elem_of_cons. apply H; [by right|done].
Qed.

(** No required section is empty: one that has a heading has a body, its own or one of
    its subsections. *)
Definition filled (t : text) : Prop :=
  ∀ n, n ∈ DESIGN_REQUIRED_SECTIONS → in_sections (split_sections t) n = true →
    blank (region (split_sections t).1 n) = false.

Record designed (path : string) (migration : bool) (root : string) (t : text) : Prop := {
  d_finished : (∀ pat, pat ∈ PLACEHOLDER_PATTERNS → has t pat = false) ∧ TEMPLATE_BRACE_RE t = 0%nat;
  d_sections : ∀ n, n ∈ DESIGN_REQUIRED_SECTIONS ++ (if migration then DESIGN_MIG_REQUIRED else []) →
    ∃ line, line ∈ splitlines t ∧ heading_number line = Some (cps n);
  d_bodies : ∀ n, n ∈ DESIGN_REQUIRED_SECTIONS → blank (region (split_sections t).1 n) = false;
  d_research : let r160 := region_all (split_sections t) "1.6.0" in
    (∀ q kw, q ∈ RESEARCH_4Q → kw ∈ q → has r160 kw = true) ∧ has r160 "基线" = true ∧ has r160 "调研结论" = true;
  d_conclusions : ∀ sub kw, (sub, kw) ∈ [("1.6.1", "优化结论"); ("1.6.2", "向量化结论"); ("1.6.3", "布局决策结论")] →
    has (join_lines (owned None (cps sub) (splitlines t))) kw = true;
  d_equivalent : let r161 := region_all (split_sections t) "1.6.1" in
    has r161 "无优化空间" = true ∨
    doc_isfile fs (os_path_join (dirname (abspath (doc_cwd fs) path)) "verify_equiv.py") = true ∧
    has r161 "EQUIV_PASS" = true ∧ has r161 "EQUIV_FAIL" = false;
  d_mode : ∃ w, w ∈ ["Developer"; "developer"; "Expert"; "expert"; "混合"] ∧
    has (region_all (split_sections t) "2") w = true;
  d_cores : (∀ kw, kw ∈ ["逻辑核数"; "get_aicore_num"] →
      has (region_all (split_sections t) "5") kw = true ∨ has t kw = true) ∧
    has (region_all (split_sections t) "5") "分核" = true ∧
    ∃ kw, kw ∈ CORES_PLAN_KEYWORDS ∧ has (region_all (split_sections t) "5") kw = true;
  d_verified : has (region_all (split_sections t) "8") "olden" = true ∧ has (region_all (split_sections t) "8") "L0" = true;
  d_cited : cited root t;
}.

Lemma forallb_iff {A} (p : A → bool) l : forallb p l = true ↔ ∀ x, x ∈ l → p x = true.
Proof. rewrite forallb_forall. setoid_rewrite list_elem_of_In. done. Qed.

Lemma placeholder_nil rule path n t :
  placeholder_failures rule path n t = [] ↔ (∀ pat, pat ∈ PLACEHOLDER_PATTERNS → has t pat = false) ∧ n = 0%nat.
Proof.
  unfold placeholder_failures. rewrite app_nil_iff, bind_nil_iff. setoid_rewrite fail_if_nil.
  destruct n; simpl; naive_solver.
Qed.

Lemma cores_nil path sec5 t rule kw :
  (cores_findings path sec5 t rule kw).1 = [] ↔ has sec5 kw = true ∨ has t kw = true.
Proof. unfold cores_findings. destruct (has sec5 kw); [naive_solver|]. destruct (has t kw); naive_solver. Qed.

Lemma research_nil path r160 :
  blank r160 = false →
  research_failures path r160 = [] ↔
  (∀ q kw, q ∈ RESEARCH_4Q → kw ∈ q → has r160 kw = true) ∧ has r160 "基线" = true ∧ has r160 "调研结论" = true.
Proof.
  intros Hb. unfold research_failures. rewrite Hb, !app_nil_iff, !fail_if_nil, !negb_false_iff, forallb_iff.
  setoid_rewrite forallb_iff. naive_solver.
Qed.

Lemma equiv_nil path r161 :
  blank r161 = false →
  equiv_failures fs path r161 = [] ↔
  has r161 "无优化空间" = true ∨
  doc_isfile fs (os_path_join (dirname (abspath (doc_cwd fs) path)) "verify_equiv.py") = true ∧
  has r161 "EQUIV_PASS" = true ∧ has r161 "EQUIV_FAIL" = false.
Proof.
  intros Hb. unfold equiv_failures. rewrite Hb. simpl. destruct (has r161 "无优化空间"); [naive_solver|].
  rewrite !app_nil_iff, !fail_if_nil, !negb_false_iff. naive_solver.
Qed.

Lemma conclusions_nil path t (l : list (string * string)) :
  (∀ sl, sl ∈ l → in_sections (split_sections t) sl.1 = true) →
  (l ≫= λ sl, match assoc (cps sl.1) (split_sections t).1 with
              | Some body => fail_if (negb (has body sl.2)) "S1-SECT-CONCL" path
              | None => []
              end) = [] ↔
  ∀ sub kw, (sub, kw) ∈ l → has (join_lines (owned None (cps sub) (splitlines t))) kw = true.
Proof.
  intros Hs. rewrite bind_nil_iff.
  assert (∀ sl, sl ∈ l → assoc (cps sl.1) (split_sections t).1 = Some (join_lines (owned None (cps sl.1) (splitlines t)))) as Ha.
  { intros sl Hin. apply Hs in Hin. unfold in_sections in Hin. apply bool_decide_eq_true in Hin as [b Hb].
    destruct (split_sections_spec t (cps sl.1)) as [E _]. rewrite E in Hb |- *. by case_decide. }
  split.
  - intros H sub kw Hin. specialize (H _ Hin). rewrite (Ha _ Hin), fail_if_nil, negb_false_iff in H. done.
  - intros H [sub kw] Hin. rewrite (Ha _ Hin). apply fail_if_nil, negb_false_iff. by apply H.
Qed.

Lemma mode_nil path sec2 :
  blank sec2 = false →
  fail_if (negb (blank sec2) && negb (existsb (has sec2) ["Developer"; "developer"; "Expert"; "expert"; "混合"]))
    "S1-MODE" path = [] ↔
  ∃ w, w ∈ ["Developer"; "developer"; "Expert"; "expert"; "混合"] ∧ has sec2 w = true.
Proof. intros ->. cbn [negb andb]. by rewrite fail_if_nil, negb_false_iff, existsb_iff. Qed.

Lemma plan_nil path sec5 :
  fail_if (negb (has sec5 "分核") || negb (existsb (has sec5) CORES_PLAN_KEYWORDS)) "S1-CORES-PLAN" path = [] ↔
  has sec5 "分核" = true ∧ ∃ kw, kw ∈ CORES_PLAN_KEYWORDS ∧ has sec5 kw = true.
Proof. by rewrite fail_if_nil, orb_false_iff, !negb_false_iff, existsb_iff. Qed.

Lemma verified_nil path sec8 :
  blank sec8 = false →
  (if blank sec8 then [] else
   fail_if (negb (has sec8 "olden")) "S1-GOLDEN-PLAN" path ++ fail_if (negb (has sec8 "L0")) "S1-L0-PLAN" path) = [] ↔
  has sec8 "olden" = true ∧ has sec8 "L0" = true.
Proof. intros ->. cbv iota. by rewrite app_nil_iff, !fail_if_nil, !negb_false_iff. Qed.

Lemma migration_nil path migration t :
  fail_if (migration && negb (forallb (in_sections (split_sections t)) DESIGN_MIG_REQUIRED)) "S1-MIG-S0" path = [] ↔
  ∀ n, n ∈ (if migration then DESIGN_MIG_REQUIRED else []) →
    ∃ line, line ∈ splitlines t ∧ heading_number line = Some (cps n).
Proof.
  rewrite fail_if_nil. destruct migration; cbn [andb]; [|set_solver]. rewrite negb_false_iff, forallb_iff.
  by setoid_rewrite in_sections_iff.
Qed.

Lemma concl_required (sl : string * string) :
  sl ∈ [("1.6.1", "优化结论"); ("1.6.2", "向量化结论"); ("1.6.3", "布局决策结论")] → sl.1 ∈ DESIGN_REQUIRED_SECTIONS.
Proof. rewrite !elem_of_cons, elem_of_nil. intros [->|[->|[->|[]]]]; in_list. Qed.


(** ** The review *)

Record reviewed (migration : bool) (t : text) : Prop := {
  r_verdict : ∃ pass, conclusion t = Some pass ∧ (pass = true → has t "检视问题列表" = false);
  r_dimensions : ∀ k, ((if migration then 0 else 1) ≤ k ≤ 8)%nat → is_Some (_dim_body t k);
  r_recomputed : ∀ body, _dim_body t 8 = Some body →
    (has body "复核" = true ∨ has body "复算" = true) ∧ has body "核对" = true;
  r_source : migration = true → ∀ body, _dim_body t 0 = Some body →
    has (filter (λ c, c ≠ 32) body) "n/a" = false ∧ has body "源码" = true;
}.

Lemma dim_body_iff t k : is_Some (_dim_body t k) ↔ is_Some (search_line (dim_here k) true t).
Proof.
  unfold _dim_body. destruct (search_line (dim_here k) true t) as [[[[] f] rest]|]; simpl.
  - split; [eauto|]. intros _. destruct (search_line next_here true rest) as [[[? ?] ?]|]; eauto.
  - done.
Qed.

(** A review passes, without a warning, exactly when it states one of the two verdicts
    (a pass without a list of issues), has a section for every dimension, with evidence of
    recomputation in the last one and, for a migration, of the sources in the first. *)
Lemma review_accepts path migration t :
  doc_text fs path = Some t → blank t = false →
  review_lint fs path migration = ([], []) ↔ reviewed migration t.
Proof.
  intros Ht Hb. unfold review_lint. rewrite Ht, Hb.
  set (dims := if migration then seq 0 9 else seq 1 8).
  assert (∀ k, k ∈ dims ↔ ((if migration then 0 else 1) ≤ k ≤ 8)%nat) as Hd.
  { intros k. unfold dims. destruct migration; rewrite elem_of_seq; lia. }
  assert (forallb (λ k, bool_decide (is_Some (search_line (dim_here k) true t))) dims = true ↔
          ∀ k, ((if migration then 0 else 1) ≤ k ≤ 8)%nat → is_Some (_dim_body t k)) as Hdims.
  { rewrite forallb_iff. setoid_rewrite bool_decide_eq_true. setoid_rewrite dim_body_iff. by setoid_rewrite Hd. }
  split.
  - intros H. injection H as H Hw. rewrite !app_nil_iff in H. destruct H as (Hc & Hk & H8 & H0 & Hi).
    rewrite fail_if_nil, negb_false_iff, Hdims in Hk. rewrite fail_if_nil, bool_decide_eq_false in Hc.
    rewrite fail_if_nil, andb_false_iff, bool_decide_eq_false in Hi. split; try done.
    + destruct (conclusion t) as [pass|]; [|done]. exists pass. split; [done|]. intros ->. by destruct Hi.
    + intros body Hbd. rewrite Hbd in H8. simpl in H8.
      rewrite fail_if_nil, negb_false_iff, andb_true_iff, orb_true_iff in H8. done.
    + intros -> body Hbd. rewrite Hbd in H0. by rewrite fail_if_nil, orb_false_iff, negb_false_iff in H0.
  - intros [(pass & Hc & Hi) Hk H8 H0]. destruct (Hk 8%nat) as [m8 Hm8]; [destruct migration; lia|].
    rewrite Hc, Hm8, (proj2 Hdims Hk). cbn [fst snd].
    specialize (H8 _ Hm8). rewrite <-orb_true_iff, <-andb_true_iff in H8. rewrite H8. cbn [negb].
    rewrite bool_decide_eq_false_2 by done.
    assert (bool_decide (Some pass = Some true) && has t "检视问题列表" = false) as ->.
    { destruct pass; [by rewrite Hi|done]. }
    destruct migration; [|done]. destruct (Hk 0%nat) as [m0 Hm0]; [lia|]. rewrite Hm0.
    destruct (H0 eq_refl _ Hm0) as [Hn Hsrc]. rewrite Hn, Hsrc. done.
Qed.

(** ** The gate of the tuning *)

(** When it passes and the log claims finite durations, the tuned kernel is in order
    and the performance records are accepted. *)
Lemma perf_gate_sound isdecimal py_float ast_parse data perf_py log_path feedback_path records_path root w :
  finite_claims py_float (log_of data log_path) →
  perf_lint fs isdecimal py_float ast_parse data perf_py log_path feedback_path records_path root = Ok ([], w) →
  (∃ src tree, doc_text fs perf_py = Some src ∧ ast_parse src = Some tree ∧ kernel_ok src (walk tree)) ∧
  ∃ ws ms, accepted data py_float records_path log_path perf_py ws ms.
Proof.
  unfold perf_lint. intros Hfin (fb & Hf & ([f w'] & Hr & [= H _])%bind_Ok)%bind_Ok.
  rewrite !app_nil_iff in H. destruct H as (Hk & _ & _ & ->). split.
  - apply kernel_lint_nil in Hk as (src & tree & ? & _ & ? & ?). eauto.
  - apply perf_lint_sound; [done|]. assert (w' = []) as ->; [|done].
    revert Hr. unfold perf_records_lint, _perf_records_workload_lint. intros Hr. repeat (case_match || inv_ok); done.
Qed.
End accept.

(** ** A design *)

Module DocAcceptEx.

(** A design whose sections 1.1 to 1.4, 3, 4, 6 and 7 have the body [body]. *)
Definition design_with (body : list string) : text := join_lines (points <$>
  ["# 1 overview"; "## 1.1 op"] ++ body ++ ["## 1.3 io"] ++ body ++ ["## 1.4 math"] ++ body ++
  ["## 1.6 plan"; "### 1.6.0 research"; "等价 化简 在线 复杂度 亲和 基线 调研结论";
   "### 1.6.1 optimisation"; "优化结论: 无优化空间"; "### 1.6.2 vectors"; "向量化结论"; "### 1.6.3 layout";
   "布局决策结论"; "# 2 mode"; "Expert"; "# 3 api"] ++ body ++ ["## 3.5 errors"] ++ body ++
  ["# 4 memory"; "## 4.1 ub"] ++ body ++ ["## 4.2 l1"] ++ body ++
  ["# 5 tiling"; "逻辑核数 get_aicore_num 分核 整数倍"; "# 6 loops"] ++ body ++
  ["# 7 risks see docs/notes.md."] ++ body ++ ["# 8 tests"; "golden L0"]).

Definition design : text := design_with ["text"].

Definition fs_of (t : text) : docs :=
  Docs (λ _, Some t) (λ p, bool_decide (p = "/repo/docs/notes.md")) (λ _, false) "/repo".
Definition fs : docs := fs_of design.

Lemma design_filled : filled design.
Proof.
  assert (forallb (λ n, negb (blank (region (split_sections design).1 n))) DESIGN_REQUIRED_SECTIONS = true) as H
    by (vm_compute; reflexivity).
  intros n Hn _. rewrite forallb_iff in H. by apply H, negb_true_iff in Hn.
Qed.


(** The same design with these sections empty passes as well. *)
Example empty_sections_pass :
  assoc (cps "1.3") (split_sections (design_with [])).1 = Some [] ∧
  (design_lint (fs_of (design_with [])) "DESIGN.md" false "/repo").1 = [].
Proof. split; vm_compute; reflexivity. Qed.

(** A number alone on its line loses its last component, or is no heading. *)
Example bare_heading : heading_number (points "## 1.6") = Some (cps "1") ∧ heading_number (points "# 5") = None.
Proof. split; vm_compute; reflexivity. Qed.

(** A review that rejects the design passes its gate. *)
Example negative_verdict : conclusion (join_lines (points <$> ["# 评审"; "**结论**： 不通过 "; "x"])) = Some false.
Proof. vm_compute. reflexivity. Qed.

End DocAcceptEx.
