(* ===== verification/Graph.v ===== *)
(** * The operator graph of the roller

    [src/tilelang/carver/roller/node.py]: nodes, edges and the depth-first
    topological sort, and the simulated allocation of the intermediate buffers of
    a graph in [src/tilelang/carver/roller/policy/default.py].  A node object is
    a key of the graph, which holds its edge lists. *)
From stdpp Require Import base strings gmap numbers sorting relations list.
From S2P Require Import Prelude BestFit.

(** ** Nodes and edges *)

Record Edge := MkEdge { src_node : nat; dst_node : nat; src_id : nat; dst_id : nat }.

Inductive node_kind := KPlaceHolder | KPrimFunc | KOutput.

#[export] Instance Edge_eq_dec : EqDecision Edge.
Proof. solve_decision. Defined.
#[export] Instance node_kind_eq_dec : EqDecision node_kind.
Proof. solve_decision. Defined.

Record Node := MkNode { kind : node_kind; in_edges : list Edge; out_edges : list Edge }.

Definition graph := gmap nat Node.

Definition no_node : Node := MkNode KPrimFunc [] [].
Definition node (g : graph) (n : nat) : Node := default no_node (g !! n).

Definition inputs (g : graph) (n : nat) : list Edge := in_edges (node g n).
Definition outputs (g : graph) (n : nat) : list Edge := out_edges (node g n).
Definition is_placeholder (g : graph) (n : nat) : bool := bool_decide (kind (node g n) = KPlaceHolder).
Definition is_output (g : graph) (n : nat) : bool := bool_decide (kind (node g n) = KOutput).

(** [max([e.src_id for e in self.outputs]) + 1]. *)
Definition num_outputs (g : graph) (n : nat) : nat :=
  match outputs g n with
  | [] => 0
  | es => S (foldr Nat.max 0%nat (src_id <$> es))
  end.

(** ** Building a graph

    [PrimFuncNode._assign_placeholder_node]: one placeholder per input buffer;
    [OutputNode.__init__]: one more out edge. *)

(** One iteration of the loop over the inputs. *)
Definition connect_placeholder (self : nat) (acc : graph * nat * nat) : graph * nat * nat :=
  let '(g, fresh, dst) := acc in
  let e := MkEdge fresh self 0 dst in
  let me := node g self in
  (<[fresh := MkNode KPlaceHolder [] [e]]>
     (<[self := MkNode (kind me) (in_edges me ++ [e]) (out_edges me)]> g), S fresh, S dst).

(** A new node with [k] input buffers; identities from [fresh] on. *)
Definition PrimFuncNode (k : nat) (g : graph) (fresh : nat) : graph * nat * nat :=
  let g0 := <[fresh := MkNode KPrimFunc [] []]> g in
  let '(g', fresh', _) := Nat.iter k (connect_placeholder fresh) (g0, S fresh, 0%nat) in
  (g', fresh', fresh).

Definition OutputNode (n : nat) (id : nat) (g : graph) (fresh : nat) : res (graph * nat * nat) :=
  let e := MkEdge n fresh id 0 in
  let src := node g n in
  py_assert (bool_decide (kind src = KPrimFunc));;
  Ok (<[fresh := MkNode KOutput [e] []]>
        (<[n := MkNode (kind src) (in_edges src) (out_edges src ++ [e])]> g), S fresh, fresh).

(** [Node.set_inputs]. *)
Definition set_inputs (n i : nat) (e : Edge) (g : graph) : res graph :=
  let me := node g n in
  py_assert (bool_decide (i < length (in_edges me))%nat);;
  Ok (<[n := MkNode (kind me) (<[i := e]> (in_edges me)) (out_edges me)]> g).

(** [FlashAttentionTemplate.initialize_function]: input [i] of [b] reads output
    [id] of [a] from now on. *)
Definition link (a id b i : nat) (g : graph) : res graph :=
  let e := MkEdge a b id i in
  let src := node g a in
  set_inputs b i e (<[a := MkNode (kind src) (in_edges src) (out_edges src ++ [e])]> g).

(** ** The topological sort *)

(** The nested [topo_sort_dfs]; the state is the set of visited nodes and the
    order so far, [None] when the fuel runs out. *)
Fixpoint topo_sort_dfs (succ : nat → list nat) (fuel : nat) (n : nat) (st : gset nat * list nat) :
    option (gset nat * list nat) :=
  match fuel with
  | O => None
  | S fuel' =>
      if decide (n ∈ st.1) then Some st
      else
        st' ← foldl (λ acc m, s ← acc; topo_sort_dfs succ fuel' m s) (Some ({[n]} ∪ st.1, st.2)) (succ n);
        Some (st'.1, st'.2 ++ [n])
  end.

Definition sources (g : graph) (n : nat) : list nat := src_node <$> inputs g n.

Definition find_topo_sort (g : graph) (outs : list nat) : option (list nat) :=
  snd <$> foldl (λ acc n, s ← acc; topo_sort_dfs (sources g) (S (base.size g)) n s) (Some (∅, [])) outs.

(** ** Correctness of the sort *)

(** The edge lists of the two ends of an edge agree; a placeholder keeps its edge
    when another node takes its place. *)
Record wf_graph (g : graph) : Prop := {
  wf_in n e : e ∈ inputs g n → dst_node e = n ∧ is_Some (g !! src_node e) ∧ e ∈ outputs g (src_node e);
  wf_out n e : is_placeholder g n = false → e ∈ outputs g n → src_node e = n ∧ is_Some (g !! dst_node e) ∧ e ∈ inputs g (dst_node e);
  wf_leaf n : is_placeholder g n = true → inputs g n = [];
  wf_sink n : is_output g n = true → outputs g n = [];
}.

(** A rank that decreases from a node to its sources. *)
Definition acyclic (succ : nat → list nat) : Prop :=
  ∃ rank : nat → nat, ∀ n m, m ∈ succ n → (rank m < rank n)%nat.

(** Every node stands behind its sources. *)
Definition ordered (succ : nat → list nat) (l : list nat) : Prop :=
  ∀ l1 x l2, l = l1 ++ x :: l2 → ∀ m, m ∈ succ x → m ∈ l1.

Definition reaches (succ : nat → list nat) : nat → nat → Prop := rtc (λ n m, m ∈ succ n).

Lemma ordered_nil succ : ordered succ [].
Proof. intros [|] ? ? ?; done. Qed.

Lemma ordered_snoc succ l x : ordered succ l → (∀ m, m ∈ succ x → m ∈ l) → ordered succ (l ++ [x]).
Proof.
  intros Hl Hx l1 y l2 E m Hm. destruct l2 as [|z l2 _] using rev_ind.
  - apply app_inj_tail in E as [-> ->]. auto.
  - rewrite app_comm_cons, app_assoc in E. apply app_inj_tail in E as [-> ->]. by eapply Hl.
Qed.

Lemma ordered_closed succ l x y : ordered succ l → x ∈ l → reaches succ x y → y ∈ l.
Proof.
  intros Ho Hx Hr. induction Hr as [|x z y Hz Hr IH]; [done|]. apply IH.
  apply list_elem_of_split in Hx as (l1 & l2 & ->). rewrite elem_of_app. left. by eapply Ho.
Qed.

Section dfs.
Context (succ : nat → list nat).

(** What a call adds to the state: new nodes, each once, all reached from the
    start nodes [ns], which are visited afterwards. *)
Definition extends (ns : list nat) (st st' : gset nat * list nat) : Prop :=
  ∃ new, st'.2 = st.2 ++ new ∧ NoDup new ∧ (∀ x, x ∈ st'.1 ↔ x ∈ st.1 ∨ x ∈ new) ∧
    (∀ x, x ∈ new → x ∉ st.1) ∧
    (∀ x, x ∈ new → ∃ n, n ∈ ns ∧ reaches succ n x) ∧ (∀ n, n ∈ ns → n ∈ st'.1).

(** With acyclic sources: behind its sources, and nothing unfinished is met. *)
Definition sorts (rank : nat → nat) (ns : list nat) (st st' : gset nat * list nat) : Prop :=
  (∀ n m, m ∈ succ n → (rank m < rank n)%nat) → ordered succ st.2 → (∀ v n, v ∈ st.1 → n ∈ ns → v ∈ st.2 ∨ (rank n < rank v)%nat) →
  ordered succ st'.2 ∧ ∀ n, n ∈ ns → n ∈ st'.2.

Lemma extends_nil st : extends [] st st.
Proof. exists []. split_and!; try set_solver. by rewrite app_nil_r. constructor. Qed.

Lemma extends_app ns1 ns2 st1 st2 st3 :
  extends ns1 st1 st2 → extends ns2 st2 st3 → extends (ns1 ++ ns2) st1 st3.
Proof.
  intros (k1 & E1 & D1 & V1 & N1 & R1 & S1) (k2 & E2 & D2 & V2 & N2 & R2 & S2). exists (k1 ++ k2).
  split_and!.
  - by rewrite E2, E1, (assoc_L (++)).
  - apply NoDup_app. split; [done|]. split; [|done]. intros x Hx H2. apply (N2 x H2), V1. by right.
  - intros x. rewrite V2, V1. set_solver.
  - intros x. rewrite elem_of_app. intros [Hx|Hx]; [auto|]. intros Hx1. apply (N2 x Hx), V1. by left.
  - intros x. rewrite elem_of_app. intros [Hx|Hx]; [destruct (R1 x Hx)|destruct (R2 x Hx)]; set_solver.
  - intros n. rewrite elem_of_app. intros [Hn|Hn]; [apply V2; left; auto|auto].
Qed.

Lemma extends_visited ns st st' : extends ns st st' → st.1 ⊆ st'.1.
Proof. intros (k & _ & _ & V & _). intros x Hx. apply V. by left. Qed.

(** A chain of calls extends step by step. *)
Lemma fold_extends (call : nat → gset nat * list nat → option (gset nat * list nat)) rank (V U : gset nat) ns st :
  (∀ n s, n ∈ ns → V ⊆ s.1 → s.1 ⊆ U →
     ∃ s', call n s = Some s' ∧ s'.1 ⊆ U ∧ extends [n] s s' ∧ sorts rank [n] s s') →
  V ⊆ st.1 → st.1 ⊆ U →
  ∃ st', foldl (λ acc m, s ← acc; call m s) (Some st) ns = Some st' ∧ st'.1 ⊆ U ∧
    extends ns st st' ∧ sorts rank ns st st'.
Proof.
  revert st. induction ns as [|n ns IH]; intros st Hcall HV Hst; simpl.
  - exists st. split_and!; [done|done|apply extends_nil|]. intros _ Ho _. split; [done|].
    by intros ? ?%elem_of_nil.
  - destruct (Hcall n st) as (st1 & -> & HU1 & He1 & Hs1); [by left|done|done|].
    pose proof (extends_visited _ _ _ He1) as Hvis1.
    destruct (IH st1) as (st2 & Hf & HU2 & He2 & Hs2);
      [intros m s Hm; apply Hcall; by right|by transitivity (st.1)|done|].
    exists st2. split_and!; [done|done|by apply (extends_app [n] ns st st1)|].
    intros Hrk Ho Hv. destruct Hs1 as [Ho1 Hn1]; [done|done| |].
    { intros v m Hvis ->%list_elem_of_singleton. apply Hv; [done|by left]. }
    pose proof He1 as (k1 & E1 & _ & V1 & _). destruct Hs2 as [Ho2 Hn2]; [done|done| |].
    { intros v m Hvis Hm. rewrite E1, elem_of_app. apply V1 in Hvis as [Hvis|Hvis]; [|by left; right].
      destruct (Hv v m) as [?|?]; [done|by right|by left; left|by right]. }
    split; [done|]. intros m [->|Hm]%elem_of_cons; [|auto]. destruct He2 as (k2 & E2 & _).
    rewrite E2, elem_of_app. left. apply Hn1. by left.
Qed.

Context (U : gset nat) (closed : ∀ n m, n ∈ U → m ∈ succ n → m ∈ U).

(** The depth of the recursion is bounded by the nodes not yet visited. *)
Lemma dfs_spec rank fuel n st :
  n ∈ U → st.1 ⊆ U → (base.size (U ∖ st.1) < fuel)%nat →
  ∃ st', topo_sort_dfs succ fuel n st = Some st' ∧ st'.1 ⊆ U ∧ extends [n] st st' ∧ sorts rank [n] st st'.
Proof using closed.
  revert n st. induction fuel as [|fuel IH]; intros n [vis ord] Hn Hst Hf; [lia|]. simpl in *.
  destruct (decide (n ∈ vis)) as [Hv|Hv].
  { exists (vis, ord). split_and!; [done|done| |].
    - exists []. split_and!; try set_solver. by rewrite app_nil_r. constructor.
    - intros Hrk Ho Hvis. split; [done|]. intros m ->%list_elem_of_singleton.
      destruct (Hvis n n Hv) as [?|?]; [by left|done|lia]. }
  assert (base.size (U ∖ ({[n]} ∪ vis)) < fuel)%nat as Hsz.
  { apply Nat.lt_le_trans with (base.size (U ∖ vis)); [|lia]. apply subset_size. set_solver. }
  destruct (fold_extends (topo_sort_dfs succ fuel) rank ({[n]} ∪ vis) U (succ n) ({[n]} ∪ vis, ord)) as
    ([vis1 ord1] & -> & HU1 & He & Hs); [|done|simpl; set_solver|].
  { intros m st' Hm HV Hst'. apply IH; [by eapply closed|done|].
    apply Nat.le_lt_trans with (base.size (U ∖ ({[n]} ∪ vis))); [|done]. apply subseteq_size. set_solver. }
  destruct He as (k & E & Dk & Vk & Nk & Rk & Sk). simpl in *. subst ord1.
  assert (n ∉ k) as Hnk by (intros Hk; apply (Nk n Hk); set_solver).
  eexists (vis1, _). split; [done|]. split; [done|]. split.
  - exists (k ++ [n]). simpl. split_and!.
    + by rewrite (assoc_L (++)).
    + apply NoDup_app. split; [done|]. split; [set_solver|apply NoDup_singleton].
    + intros x. rewrite Vk. set_solver.
    + intros x. rewrite elem_of_app, list_elem_of_singleton. intros [Hx|Hx]; [|by subst].
      intros Hx'. apply (Nk x Hx). set_solver.
    + intros x. rewrite elem_of_app, list_elem_of_singleton. intros [Hx|Hx].
      * destruct (Rk x Hx) as (m & Hm & Hr). exists n. split; [by left|]. by eapply rtc_l.
      * subst. exists n. split; [by left|apply rtc_refl].
    + intros m ->%list_elem_of_singleton. apply Vk. left. set_solver.
  - intros Hrk Ho Hvis. simpl. destruct Hs as [Ho1 Hn1]; [done|done| |].
    { intros v m Hv' Hm. simpl in Hv'. apply elem_of_union in Hv' as [->%elem_of_singleton|Hv']; [right; by apply Hrk|].
      destruct (Hvis v n Hv') as [?|?]; [by left|by left|right]. pose proof (Hrk n m Hm). lia. }
    split; [by apply ordered_snoc|]. intros m ->%list_elem_of_singleton. rewrite elem_of_app. right. by left.
Qed.
End dfs.

Lemma topo_sort_spec g outs :
  wf_graph g → (∀ n, n ∈ outs → is_Some (g !! n)) →
  ∃ l, find_topo_sort g outs = Some l ∧ NoDup l ∧
    (∀ x, x ∈ l → ∃ n, n ∈ outs ∧ reaches (sources g) n x) ∧
    (acyclic (sources g) →
     ordered (sources g) l ∧ ∀ n x, n ∈ outs → reaches (sources g) n x → x ∈ l).
Proof.
  intros Hwf Houts. set (U := dom g).
  assert (∀ n m, n ∈ U → m ∈ sources g n → m ∈ U) as Hcl.
  { intros n m _ (e & -> & He)%list_elem_of_fmap. apply elem_of_dom. by apply (wf_in _ Hwf) in He as (_ & ? & _). }
  assert (∀ rank, ∃ l, find_topo_sort g outs = Some l ∧ NoDup l ∧
    (∀ x, x ∈ l → ∃ n, n ∈ outs ∧ reaches (sources g) n x) ∧
    ((∀ n m, m ∈ sources g n → (rank m < rank n)%nat) → ordered (sources g) l ∧ ∀ n, n ∈ outs → n ∈ l)) as Hall.
  { intros rank. destruct (fold_extends (sources g) (topo_sort_dfs (sources g) (S (base.size g))) rank ∅ U outs (∅, []))
      as ([vis l] & Hf & _ & (k & E & Dk & _ & _ & Rk & _) & Hs); [|done|apply empty_subseteq|].
    - intros n s Hn _ Hs. apply (dfs_spec (sources g) U Hcl); [by apply elem_of_dom, Houts|done|].
      apply Nat.lt_succ_r. transitivity (base.size U); [apply subseteq_size; set_solver|].
      apply Nat.eq_le_incl, (size_dom (g : gmap nat Node)).
    - cbn [fst snd app] in *. subst l. exists k. unfold find_topo_sort. rewrite Hf. split_and!; try done.
      intros Hrk. apply Hs; [done|apply ordered_nil|]. set_solver. }
  destruct (Hall (λ _, 0%nat)) as (l & Hl & Hnd & Hr & _). exists l. split_and!; try done.
  intros [rank Hrk]. destruct (Hall rank) as (l' & Hl' & _ & _ & Ho). rewrite Hl in Hl'. simplify_eq.
  destruct (Ho Hrk) as [Ho' Hin]. split; [done|]. intros n x Hn Hx. eapply ordered_closed; eauto.
Qed.

Lemma topo_sorted g outs :
  wf_graph g → acyclic (sources g) → (∀ n, n ∈ outs → is_Some (g !! n)) →
  ∃ t, find_topo_sort g outs = Some t ∧ NoDup t ∧ ordered (sources g) t ∧
    ∀ n x, n ∈ outs → reaches (sources g) n x → x ∈ t.
Proof.
  intros Hwf Hac Hin. destruct (topo_sort_spec g outs Hwf Hin) as (t & Ht & Hnd & _ & Ho).
  destruct (Ho Hac). by exists t.
Qed.

(** ** Graphs that are built *)

(** The nodes created so far have the identities below [f]. *)
Definition below (g : graph) (f : nat) : Prop := ∀ n, is_Some (g !! n) → (n < f)%nat.

Definition operator (g : graph) (n : nat) : Prop := is_Some (g !! n) ∧ kind (node g n) = KPrimFunc.

(** Operators are created, connected while nothing reads the second one, and
    delivered, in any order. *)
Inductive built : graph → nat → Prop :=
| built_empty : built ∅ 0
| built_prim_func g f k g' f' n : built g f → PrimFuncNode k g f = (g', f', n) → built g' f'
| built_link g f a id b i e g' :
    built g f → operator g a → operator g b → a ≠ b → outputs g b = [] →
    inputs g b !! i = Some e → is_placeholder g (src_node e) = true →
    link a id b i g = Ok g' → built g' f
| built_output g f n id g' f' o : built g f → is_Some (g !! n) → OutputNode n id g f = Ok (g', f', o) → built g' f'.

(** What every construction keeps. *)
Record sound (g : graph) (f : nat) : Prop := {
  s_wf : wf_graph g;
  s_acyclic : acyclic (sources g);
  s_below : below g f;
}.

Lemma node_insert (g : graph) n x m : node (<[n := x]> g) m = if decide (m = n) then x else node g m.
Proof.
  unfold node. case_decide as H; [by subst; rewrite (lookup_insert_eq (g : gmap nat Node))|].
  by rewrite (lookup_insert_ne (g : gmap nat Node)).
Qed.

Lemma some_insert (g : graph) n x m : is_Some (<[n := x]> g !! m) ↔ m = n ∨ is_Some (g !! m).
Proof. rewrite (lookup_insert_is_Some' (g : gmap nat Node)). naive_solver. Qed.

Lemma node_absent (g : graph) n : ¬ is_Some (g !! n) → node g n = no_node.
Proof. intros H. unfold node. by apply eq_None_not_Some in H as ->. Qed.

Lemma sources_source g n m : wf_graph g → m ∈ sources g n → is_Some (g !! m) ∧ ∃ e, e ∈ outputs g m ∧ dst_node e = n.
Proof.
  intros W (e & -> & He)%list_elem_of_fmap. destruct (wf_in _ W _ _ He) as (? & ? & ?). eauto.
Qed.

(** One more edge, which may take the place of one from a placeholder. *)
Record adds (e : Edge) (g g' : graph) : Prop := {
  a_old m : is_Some (g !! m) → is_Some (g' !! m) ∧ kind (node g' m) = kind (node g m);
  a_ends : is_Some (g' !! src_node e) ∧ is_Some (g' !! dst_node e);
  a_in m x : x ∈ inputs g' m → x ∈ inputs g m ∨ (x = e ∧ m = dst_node e);
  a_read : e ∈ inputs g' (dst_node e);
  a_keep m x : x ∈ inputs g m → is_placeholder g (src_node x) = false → x ∈ inputs g' m;
  a_out m x : x ∈ outputs g' m ↔ x ∈ outputs g m ∨ (x = e ∧ m = src_node e);
  a_kinds : is_placeholder g' (dst_node e) = false ∧ is_output g' (src_node e) = false;
}.

Lemma in_present (g : graph) n e : e ∈ inputs g n → is_Some (g !! n).
Proof. destruct (g !! n) eqn:E; [done|]. unfold inputs, node. rewrite E. by intros ?%elem_of_nil. Qed.

Lemma out_present (g : graph) n e : e ∈ outputs g n → is_Some (g !! n).
Proof. destruct (g !! n) eqn:E; [done|]. unfold outputs, node. rewrite E. by intros ?%elem_of_nil. Qed.

Lemma adds_wf e g g' : adds e g g' → wf_graph g → wf_graph g'.
Proof.
  intros A W. split.
  - intros n x [Hx|[-> ->]]%(a_in _ _ _ A).
    + destruct (wf_in _ W _ _ Hx) as (? & Hs & Ho). split_and!; [done|by apply (a_old _ _ _ A)|].
      apply (a_out _ _ _ A). by left.
    + split_and!; [done|apply (a_ends _ _ _ A)|]. apply (a_out _ _ _ A). by right.
  - intros n x Hp [Hx|[-> ->]]%(a_out _ _ _ A).
    + unfold is_placeholder in Hp. rewrite (proj2 (a_old _ _ _ A n (out_present _ _ _ Hx))) in Hp.
      destruct (wf_out _ W n x Hp Hx) as (Hs & Hd & Hi). split_and!; [done|by apply (a_old _ _ _ A)|].
      apply (a_keep _ _ _ A); [done|]. by rewrite Hs.
    + split_and!; [done|apply (a_ends _ _ _ A)|apply (a_read _ _ _ A)].
  - intros n Hp. apply elem_of_nil_inv. intros x [Hx|[-> ->]]%(a_in _ _ _ A).
    + unfold is_placeholder in Hp. rewrite (proj2 (a_old _ _ _ A n (in_present _ _ _ Hx))) in Hp.
      rewrite (wf_leaf _ W n Hp) in Hx. by apply elem_of_nil in Hx.
    + by rewrite (proj1 (a_kinds _ _ _ A)) in Hp.
  - intros n Hp. apply elem_of_nil_inv. intros x [Hx|[-> ->]]%(a_out _ _ _ A).
    + unfold is_output in Hp. rewrite (proj2 (a_old _ _ _ A n (out_present _ _ _ Hx))) in Hp.
      rewrite (wf_sink _ W n Hp) in Hx. by apply elem_of_nil in Hx.
    + by rewrite (proj2 (a_kinds _ _ _ A)) in Hp.
Qed.

(** The edge closes no cycle when its source is new or nothing reads its end. *)
Lemma adds_acyclic e g g' :
  adds e g g' → wf_graph g → src_node e ≠ dst_node e →
  ¬ is_Some (g !! src_node e) ∨ outputs g (dst_node e) = [] → acyclic (sources g) → acyclic (sources g').
Proof.
  intros A W Hne Hc [rank Hrk].
  assert (∀ n m, m ∈ sources g' n → m ∈ sources g n ∨ (m = src_node e ∧ n = dst_node e)) as Hs.
  { intros n m (x & -> & [Hx|[-> ->]]%(a_in _ _ _ A))%list_elem_of_fmap; [left|by right].
    by apply (list_elem_of_fmap_2 src_node). }
  destruct Hc as [Hc|Hc].
  - exists (λ x, if decide (x = src_node e) then 0 else S (rank x))%nat.
    intros n m [Hm|[-> ->]]%Hs; [|rewrite decide_True, decide_False by done; lia].
    destruct (sources_source g n m W Hm) as (Hp & x & Hx & Hd). rewrite decide_False by (by intros ->).
    rewrite decide_False; [pose proof (Hrk n m Hm); lia|]. intros ->.
    apply list_elem_of_fmap in Hm as (y & _ & Hy%in_present). done.
  - exists (λ x, if decide (x = dst_node e) then S (rank (src_node e) + rank x) else rank x)%nat.
    intros n m [Hm|[-> ->]]%Hs; [|rewrite decide_False, decide_True by done; lia].
    destruct (sources_source g n m W Hm) as (Hp & x & Hx & Hd). rewrite decide_False.
    + pose proof (Hrk n m Hm). case_decide; lia.
    + intros ->. rewrite Hc in Hx. by apply elem_of_nil in Hx.
Qed.

(** The edges and kinds after an update, by cases on the node. *)
Ltac node_cases :=
  unfold inputs, outputs, is_placeholder, is_output; rewrite ?node_insert, ?some_insert;
  repeat case_decide; simplify_eq/=; try done.

Lemma adds_leaf g f n d :
  below g f → operator g n →
  let e := MkEdge f n 0 d in
  let me := node g n in
  adds e g (<[f := MkNode KPlaceHolder [] [e]]> (<[n := MkNode (kind me) (in_edges me ++ [e]) (out_edges me)]> g)).
Proof.
  intros B [Hn Hk]. cbv zeta. pose proof (B n Hn) as Hlt. split; simpl.
  - intros m Hm. pose proof (B m Hm). node_cases; try lia; eauto.
  - rewrite !some_insert. auto.
  - intros m x. node_cases; set_solver.
  - node_cases; [lia|set_solver].
  - intros m x Hx _. pose proof (B m (in_present _ _ _ Hx)). revert Hx. node_cases; [lia|set_solver].
  - intros m x. assert (node g f = no_node) as Hf by (apply node_absent; intros ?%B; lia).
    node_cases; rewrite ?Hf; simpl; set_solver.
  - node_cases; first [congruence|exfalso; lia].
Qed.

Lemma adds_sink g f n id :
  below g f → operator g n →
  let e := MkEdge n f id 0 in
  let me := node g n in
  adds e g (<[f := MkNode KOutput [e] []]> (<[n := MkNode (kind me) (in_edges me) (out_edges me ++ [e])]> g)).
Proof.
  intros B [Hn Hk]. cbv zeta. pose proof (B n Hn) as Hlt. assert (node g f = no_node) as Hf by (apply node_absent; intros ?%B; lia).
  split; simpl.
  - intros m Hm. pose proof (B m Hm). node_cases; try lia; eauto.
  - rewrite !some_insert. auto.
  - intros m x. node_cases; set_solver.
  - node_cases; set_solver.
  - intros m x Hx _. pose proof (B m (in_present _ _ _ Hx)). revert Hx. node_cases; lia.
  - assert (n ≠ f) by lia. intros m x. node_cases; rewrite ?Hf; simpl; rewrite ?elem_of_app, ?elem_of_nil, ?list_elem_of_singleton; naive_solver.
  - node_cases; first [congruence|exfalso; lia].
Qed.

Lemma adds_link g a id b i e0 g' :
  operator g a → operator g b → a ≠ b → inputs g b !! i = Some e0 → is_placeholder g (src_node e0) = true →
  link a id b i g = Ok g' → adds (MkEdge a b id i) g g'.
Proof.
  intros [Ha Hka] [Hb Hkb] Hne Hi Hp. unfold link, set_inputs. rewrite node_insert, decide_False by done.
  intros E. apply bind_Ok in E as ([] & _ & [= <-]). pose proof (lookup_lt_Some _ _ _ Hi) as Hlt. unfold inputs in *.
  split; simpl.
  - intros m Hm. node_cases; eauto.
  - rewrite !some_insert. auto.
  - intros m x. node_cases; try naive_solver. intros (j & Hj)%list_elem_of_lookup.
    apply list_lookup_insert_Some in Hj as [(_ & <- & _)|[_ Hj%list_elem_of_lookup_2]]; auto.
  - node_cases. by apply list_elem_of_insert.
  - intros m x. node_cases. intros Hx Hpx. apply list_elem_of_lookup in Hx as [j Hj]. apply list_elem_of_lookup. exists j.
    rewrite list_lookup_insert_ne; [done|]. intros ->. unfold is_placeholder in *. assert (x = e0) as -> by congruence. by apply bool_decide_eq_true in Hp.
  - intros m x. node_cases; set_solver.
  - node_cases; congruence.
Qed.

Lemma adds_sound e g g' f f' :
  adds e g g' → sound g f → (f ≤ f')%nat → src_node e ≠ dst_node e →
  (¬ is_Some (g !! src_node e) ∨ outputs g (dst_node e) = []) →
  (∀ n, is_Some (g' !! n) → is_Some (g !! n) ∨ (n < f')%nat) → sound g' f'.
Proof.
  intros A [W C B] Hf Hne Hc Hnew. split.
  - by eapply adds_wf.
  - by eapply adds_acyclic.
  - intros n [Hn%B|?]%Hnew; lia.
Qed.

Lemma sound_new g f k : sound g f → sound (<[f := MkNode k [] []]> g) (S f).
Proof.
  intros [W [rank Hrk] B]. set (g' := <[f := MkNode k [] []]> g : graph).
  assert (∀ m, is_Some (g !! m) → m ≠ f) as Hf by (intros m ?%B; lia).
  assert (node g f = no_node) as Hno by (apply node_absent; by intros ?%Hf).
  assert (∀ n, inputs g' n = inputs g n) as Hi by (intros n; unfold g'; node_cases; by rewrite Hno).
  assert (∀ n, outputs g' n = outputs g n) as Ho by (intros n; unfold g'; node_cases; by rewrite Hno).
  assert (∀ n, is_Some (g !! n) → node g' n = node g n) as Hn.
  { intros n ?%Hf. unfold g'. by rewrite node_insert, decide_False. }
  assert (∀ n, is_Some (g !! n) → is_Some (g' !! n)) as Hs by (intros n ?; apply some_insert; by right).
  split; [split|..].
  - intros n e. rewrite Hi, Ho. intros (? & ? & ?)%(wf_in _ W). auto.
  - intros n e Hp. rewrite Hi, Ho. intros He. unfold is_placeholder in Hp.
    rewrite (Hn _ (out_present _ _ _ He)) in Hp. destruct (wf_out _ W n e Hp He) as (? & ? & ?). auto.
  - intros n Hp. rewrite Hi. apply elem_of_nil_inv. intros e He. unfold is_placeholder in Hp.
    rewrite (Hn _ (in_present _ _ _ He)) in Hp. rewrite (wf_leaf _ W n Hp) in He. by apply elem_of_nil in He.
  - intros n Hp. rewrite Ho. apply elem_of_nil_inv. intros e He. unfold is_output in Hp.
    rewrite (Hn _ (out_present _ _ _ He)) in Hp. rewrite (wf_sink _ W n Hp) in He. by apply elem_of_nil in He.
  - exists rank. intros n m. unfold sources. rewrite Hi. apply Hrk.
  - intros n [->|?%B]%some_insert; lia.
Qed.

(** The placeholders of a new operator. *)
Lemma connect_sound k self g f d :
  sound g f → operator g self →
  ∃ g', Nat.iter k (connect_placeholder self) (g, f, d) = (g', f + k, d + k)%nat ∧
    sound g' (f + k) ∧ operator g' self ∧ outputs g' self = outputs g self ∧
    (∀ n, is_Some (g' !! n) → is_Some (g !! n) ∨ is_placeholder g' n = true).
Proof.
  intros S O. induction k as [|k (g' & E & S' & O' & Hout & Hnew)].
  - exists g. rewrite !Nat.add_0_r. split_and!; auto.
  - rewrite Nat.iter_succ, E. unfold connect_placeholder.
    pose proof (adds_leaf g' (f + k) self (d + k) (s_below _ _ S') O') as A. cbv zeta in A.
    pose proof (s_below _ _ S' self (proj1 O')) as Hlt.
    eexists. split; [by rewrite !Nat.add_succ_r|]. split_and!.
    + eapply adds_sound; [exact A|exact S'|lia|simpl; lia|left|].
      * simpl. intros ?%(s_below _ _ S'). lia.
      * intros n. rewrite !some_insert. intros [->|[->|?]]; [right; lia|left; apply O'|by left].
    + destruct O' as [Hs Hk]. destruct (a_old _ _ _ A self Hs) as [? Hk']. split; [done|]. by rewrite Hk'.
    + rewrite <- Hout. node_cases. lia.
    + intros n. rewrite !some_insert. intros [->|Hn].
      * right. unfold is_placeholder. by rewrite node_insert, decide_True.
      * assert (is_Some (g' !! n)) as Hn' by (destruct Hn as [->|?]; [apply O'|done]).
        destruct (Hnew n Hn') as [?|Hp]; [by left|right]. unfold is_placeholder.
        by rewrite (proj2 (a_old _ _ _ A n Hn')).
Qed.

Lemma built_sound g f : built g f → sound g f.
Proof.
  induction 1 as [|g f k g' f' n H IH E|g f a id b i e g' H IH Ha Hb Hne Hout Hi Hp E|g f n id g' f' o H IH Hn E].
  - split; [split|..]; try (intros; by set_solver); [by exists (λ _, 0%nat); intros ? ? ?%elem_of_nil|by intros n []].
  - unfold PrimFuncNode in E.
    destruct (connect_sound k f _ (S f) 0 (sound_new g f KPrimFunc IH)) as (g1 & E1 & S1 & _).
    + split; [apply some_insert; by left|]. by rewrite node_insert, decide_True.
    + rewrite E1 in E. by injection E as <- <- <-.
  - pose proof (adds_link _ _ id _ _ _ _ Ha Hb Hne Hi Hp E) as A. eapply adds_sound; [exact A|done|lia|done|by right|].
    unfold link, set_inputs in E. apply bind_Ok in E as ([] & _ & [= <-]). intros n. rewrite !some_insert.
    intros [->|[->|?]]; left; [apply Hb|apply Ha|done].
  - unfold OutputNode in E. apply bind_Ok in E as (u & Hk%py_assert_Ok%bool_decide_eq_true & [= <- <- <-]).
    pose proof (adds_sink g f n id (s_below _ _ IH) (conj Hn Hk)) as A. cbv zeta in A.
    pose proof (s_below _ _ IH n Hn).
    eapply adds_sound; [exact A|exact IH|lia|simpl; lia|right|].
    + simpl. apply elem_of_nil_inv. intros x Hx%out_present%(s_below _ _ IH). lia.
    + intros m. rewrite !some_insert. intros [->|[->|?]]; [right; lia|by left|by left].
Qed.

(** C30: on every graph that is built, the sort terminates and returns exactly the
    nodes the outputs depend on, each once and behind all the nodes it reads. *)
Theorem find_topo_sort_correct g f outs :
  built g f → (∀ n, n ∈ outs → is_Some (g !! n)) →
  ∃ l, find_topo_sort g outs = Some l ∧ NoDup l ∧ ordered (sources g) l ∧
    ∀ x, x ∈ l ↔ ∃ n, n ∈ outs ∧ reaches (sources g) n x.
Proof.
  intros [W C _]%built_sound Hin. destruct (topo_sort_spec g outs W Hin) as (l & ? & ? & Hr & Ho).
  destruct (Ho C) as [? Ha]. exists l. split_and!; [done..|]. intros x. split; [apply Hr|]. intros (n & ? & ?). eauto.
Qed.

(** ** Witness *)
Module GraphEx.

(** The graph of the flash attention template: two products of two inputs, the
    first of which is the first input of the second. *)
Definition flash0 : graph := (PrimFuncNode 2 ∅ 0).1.1.
Definition flash1 : graph := (PrimFuncNode 2 flash0 3).1.1.
Definition flash2 : graph := match link 0 0 3 0 flash1 with Ok g => g | Raise _ => flash1 end.
Definition flash : graph := match OutputNode 3 0 flash2 6 with Ok (g, _, _) => g | Raise _ => flash2 end.

Lemma flash_built : built flash 7.
Proof.
  eapply (built_output flash2 6 3 0); [|by eexists|done].
  eapply (built_link flash1 6 0 0 3 0); [|by split; [eexists|]..|done|done|done|done|done].
  eapply (built_prim_func flash0 3 2); [|done]. eapply (built_prim_func ∅ 0 2); [apply built_empty|done].
Qed.

Lemma find_topo_sort_correct_witness :
  find_topo_sort flash [6%nat] = Some [1; 2; 0; 5; 3; 6]%nat ∧ NoDup [1; 2; 0; 5; 3; 6]%nat.
Proof.
  destruct (find_topo_sort_correct flash 7 [6%nat] flash_built) as (l & Hl & Hnd & _).
  - intros n ->%list_elem_of_singleton. by eexists.
  - assert (find_topo_sort flash [6%nat] = Some [1; 2; 0; 5; 3; 6]%nat) as E by (by vm_compute).
    rewrite E in Hl. injection Hl as <-. by split.
Defined.
End GraphEx.
