(* ===== verification/TileSearch.v ===== *)
(** * The tile search of the roller

    The loop of [dfs_smem_tile] in [src/tilelang/carver/roller/policy/default.py]
    and [ascend.py]: from the base tile, the tile with the least priority is taken
    from a queue and its successors along every dimension are looked at.  The
    search is stated over what a tile costs; [RollerPolicy] computes it.  The numbers
    of Python, [int] or [float], come first: the memory multiplier of a policy is
    either, and so is a cost. *)
From stdpp Require Import base strings gmap numbers sorting list.
From Stdlib Require Import SpecFloat QArith.
From S2P Require Import Prelude.
#[local] Open Scope Z_scope.

(** ** Python floats

    Binary64.  An [int] is turned into a float with one rounding; [a / b] of two
    ints is the rounded quotient. *)
Definition float := spec_float.

Definition f_of_Z (z : Z) : float := binary_normalize 53 1024 z 0 false.
Definition f_add : float → float → float := SFadd 53 1024.
Definition f_mul : float → float → float := SFmul 53 1024.

Definition f_exact (z : Z) : float :=
  match z with
  | Z0 => S754_zero false
  | Zpos p => S754_finite false p 0
  | Zneg p => S754_finite true p 0
  end.

Definition py_truediv (a b : Z) : res float :=
  if b =? 0 then Raise ZeroDivisionError else Ok (SFdiv 53 1024 (f_exact a) (f_exact b)).

(** [int(np.ceil(x))] of a finite float. *)
Definition f_ceil (x : float) : Z :=
  match x with
  | S754_finite s m e =>
      let z := if s then Zneg m else Zpos m in
      if 0 <=? e then z * 2 ^ e else - ((- z) / 2 ^ (- e))
  | _ => 0
  end.

Lemma f_ltb_asym x y : SFltb x y = true → SFltb y x = false.
Proof.
  unfold SFltb. destruct x as [[]|[]| |[] m e], y as [[]|[]| |[] m' e']; simpl; try done;
    change (Pos.compare_cont Eq m m') with (Pos.compare m m');
    change (Pos.compare_cont Eq m' m) with (Pos.compare m' m);
    rewrite (Z.compare_antisym e' e), (Pos.compare_antisym m' m);
    destruct (Z.compare e' e); simpl; try done; destruct (Pos.compare m' m); done.
Qed.

(** ** Python numbers: an [int] or a [float] *)

Inductive num := PyInt (z : Z) | PyFloat (f : float).

Definition to_float (x : num) : float := match x with PyInt z => f_of_Z z | PyFloat f => f end.

(** [x * y]: a float when one of them is. *)
Definition num_mul (x y : num) : num :=
  match x, y with PyInt a, PyInt b => PyInt (a * b) | _, _ => PyFloat (f_mul (to_float x) (to_float y)) end.

(** The exact value of a number. *)
Inductive xval := XNan | XInf (negative : bool) | XFin (q : Q).

Definition num_val (x : num) : xval :=
  match x with
  | PyInt z => XFin (inject_Z z)
  | PyFloat S754_nan => XNan
  | PyFloat (S754_infinity s) => XInf s
  | PyFloat (S754_zero _) => XFin (inject_Z 0)
  | PyFloat (S754_finite s m e) => XFin (Qmult (inject_Z (if s then Zneg m else Zpos m)) (Qpower (inject_Z 2) e))
  end.

(** [x > c] for an [int] c: Python compares the exact values. *)
Definition num_gtb (x : num) (c : Z) : bool :=
  match num_val x with
  | XNan => false
  | XInf negative => negb negative
  | XFin q => negb (Qle_bool q (inject_Z c))
  end.

Definition num_le (x y : num) : Prop :=
  match num_val x, num_val y with
  | XNan, _ | _, XNan => False
  | XInf true, _ | _, XInf false => True
  | XFin q, XFin r => Qle q r
  | _, _ => False
  end.

Lemma num_gtb_int z c : num_gtb (PyInt z) c = (c <? z).
Proof.
  unfold num_gtb. simpl. unfold Qle_bool. simpl. rewrite !Z.mul_1_r. symmetry. apply Z.ltb_antisym.
Qed.

Lemma num_le_fits x y c : num_le x y → num_gtb y c = false → num_gtb x c = false.
Proof.
  unfold num_le, num_gtb. destruct (num_val x) as [|[]|q], (num_val y) as [|[]|r]; try done.
  rewrite !negb_false_iff, !Qle_bool_iff. apply Qle_trans.
Qed.

Lemma num_le_int a b : num_le (PyInt a) (PyInt b) ↔ a ≤ b.
Proof. unfold num_le. simpl. by rewrite Zle_Qle. Qed.

(** ** [sorted(l, key=key)] *)

Section sort.
Context {A : Type} (key : A → float).

Fixpoint insert_by (x : A) (l : list A) : list A :=
  match l with
  | [] => [x]
  | y :: l' => if SFltb (key y) (key x) then y :: insert_by x l' else x :: y :: l'
  end.

Definition sorted_by (l : list A) : list A := foldr insert_by [] l.

Lemma insert_by_perm x l : insert_by x l ≡ₚ x :: l.
Proof.
  induction l as [|y l IH]; simpl; [done|]. destruct (SFltb _ _); [|done]. rewrite IH. apply Permutation_swap.
Qed.

Lemma sorted_by_perm l : sorted_by l ≡ₚ l.
Proof. induction l as [|x l IH]; simpl; [done|]. rewrite insert_by_perm. by rewrite IH. Qed.

(** No element is greater than the next one. *)
Definition ascending : list A → Prop := Sorted (λ x y, SFltb (key y) (key x) = false).

Lemma insert_by_ascending x l : ascending l → ascending (insert_by x l).
Proof.
  induction 1 as [|y l Hl IH Hy]; simpl; [by repeat constructor|].
  destruct (SFltb (key y) (key x)) eqn:E; [|by repeat constructor].
  constructor; [done|]. destruct l as [|z l]; simpl; [constructor; by apply f_ltb_asym|].
  destruct (SFltb (key z) (key x)); constructor; [by inversion Hy|by apply f_ltb_asym].
Qed.

Lemma sorted_by_ascending l : ascending (sorted_by l).
Proof. induction l; simpl; [constructor|by apply insert_by_ascending]. Qed.
End sort.

(** ** The search *)

(** The lists of [int] tiles and of queue entries compare lexicographically. *)
Fixpoint tile_ltb (t u : list Z) : bool :=
  match t, u with
  | _, [] => false
  | [], _ :: _ => true
  | x :: t', y :: u' => if x =? y then tile_ltb t' u' else x <? y
  end.

Definition entry := (float * list Z)%type.

Definition entry_ltb (a b : entry) : bool :=
  if SFeqb a.1 b.1 then tile_ltb a.2 b.2 else SFltb a.1 b.1.

(** [queue.get()] of a priority queue that holds [x] and [q]. *)
Fixpoint pop_min (x : entry) (q : list entry) : entry * list entry :=
  match q with
  | [] => (x, [])
  | y :: q' =>
      if entry_ltb y x then let '(m, r) := pop_min y q' in (m, x :: r)
      else let '(m, r) := pop_min x q' in (m, y :: r)
  end.

(** The tiles one step further along a dimension, the last dimension first. *)
Definition neighbours (steps : list (list Z)) (tile : list Z) : res (list (list Z)) :=
  pairs ← zip_strict steps tile;
  dim_ids ← mmap (λ '(step, t), py_find t step) pairs;
  Ok (omap (λ i : nat,
        step ← steps !! i; id ← dim_ids !! i; x ← step !! Z.to_nat (id + 1);
        Some (<[i := x]> tile))
      (reverse (seq 0 (length dim_ids)))).

Section search.
Context {TD : Type} (compute_tile_dict : list Z → res TD) (valid : TD → bool) (prio : TD → float).
Context (steps : list (list Z)).

(** [visited_tiles] in insertion order, and the queue. *)
Record search := Search { visited_tiles : list (list Z * TD); queue : list entry }.

Definition add_to_queue (s : search) (tile : list Z) : res search :=
  if bool_decide (tile ∈ (visited_tiles s).*1) then Ok s
  else
    td ← compute_tile_dict tile;
    Ok (Search (visited_tiles s ++ [(tile, td)])
          (if valid td then queue s ++ [(prio td, tile)] else queue s)).

(** The [while] loop; [None] when the fuel runs out. *)
Fixpoint search_loop (fuel : nat) (s : search) : option (res search) :=
  match fuel with
  | O => None
  | S fuel' =>
      match queue s with
      | [] => Some (Ok s)
      | x :: q =>
          if 2000 <? len (visited_tiles s) then Some (Ok s)
          else
            let '((_, tile), q') := pop_min x q in
            match neighbours steps tile ≫= mfold add_to_queue (Search (visited_tiles s) q') with
            | Ok s' => search_loop fuel' s'
            | Raise e => Some (Raise e)
            end
      end
  end.

Definition run_search (init_tile : list Z) : option (res search) :=
  match add_to_queue (Search [] []) init_tile with
  | Ok s => search_loop 2001 s
  | Raise e => Some (Raise e)
  end.

Definition search_tiles (init_tile : list Z) : option (res (list TD)) :=
  r ← run_search init_tile;
  Some (s ← r; Ok (sorted_by prio (List.filter valid (visited_tiles s).*2))).

(** ** What it returns *)

Definition on_grid (tile : list Z) : Prop := Forall2 (λ step t, t ∈ step) steps tile.

Lemma pop_min_perm x q : (pop_min x q).1 :: (pop_min x q).2 ≡ₚ x :: q.
Proof.
  clear. revert x. induction q as [|y q IH]; intros x; simpl; [done|]. destruct (entry_ltb y x).
  - specialize (IH y). destruct (pop_min y q) as [m r]. simpl in *. rewrite Permutation_swap, IH. done.
  - specialize (IH x). destruct (pop_min x q) as [m r]. simpl in *. rewrite Permutation_swap, IH. apply Permutation_swap.
Qed.

Lemma py_find_lookup {A} `{EqDecision A} (x : A) l :
  x ∈ l → ∃ i : nat, py_find x l = Ok (Z.of_nat i) ∧ l !! i = Some x.
Proof.
  induction 1 as [x l|x y l Hx (i & E & Hi)]; simpl.
  - exists 0%nat. by rewrite decide_True.
  - case_decide as Hd; [subst; by exists 0%nat|]. exists (S i). rewrite E. simpl. split; [f_equal; lia|done].
Qed.

(** The indices of a tile of the grid. *)
Lemma grid_ids tile :
  on_grid tile → ∃ ids, mmap (λ '(step, t), py_find t step) (zip steps tile) = Ok ids ∧
    Forall2 (λ '(step, t) id, 0 ≤ id ∧ py_find t step = Ok id) (zip steps tile) ids ∧ length ids = length tile.
Proof using Type.
  unfold on_grid. induction 1 as [|step t steps' tile' Ht H (ids & E & Hf & Hl)]; simpl; [by exists []|].
  destruct (py_find_lookup t step Ht) as (i & Ei & Hi). rewrite Ei, E. simpl.
  eexists. split; [done|]. split; [|simpl; lia]. constructor; [|done]. split; [lia|done].
Qed.

Lemma neighbours_grid tile :
  on_grid tile → ∃ ns, neighbours steps tile = Ok ns ∧ ∀ n, n ∈ ns → on_grid n.
Proof using Type.
  intros G. pose proof (Forall2_length _ _ _ G) as Hl. destruct (grid_ids tile G) as (ids & E & Hf & Hi).
  unfold neighbours, zip_strict. rewrite decide_True by done. simpl. rewrite E. simpl. eexists. split; [done|].
  intros n (i & _ & Hn)%list_elem_of_omap. destruct (steps !! i) as [step|] eqn:Es; [|done]. simpl in Hn.
  destruct (ids !! i) as [id|]; [|done]. simpl in Hn.
  destruct (step !! _) as [x|] eqn:Ex; [|done]. simplify_eq/=.
  unfold on_grid. replace steps with (<[i := step]> steps) at 1 by (by apply list_insert_id).
  apply Forall2_insert; [done|]. by eapply list_elem_of_lookup_2.
Qed.
(** The tiles the search may look at: the base tile, and the successors of valid
    ones. *)
Inductive reached (init_tile : list Z) : list Z → Prop :=
| reached_init : reached init_tile init_tile
| reached_step t td ns n :
    reached init_tile t → compute_tile_dict t = Ok td → valid td = true →
    neighbours steps t = Ok ns → n ∈ ns → reached init_tile n.

(** Between two iterations; [X] are the tiles whose successors are being added. *)
Record inv (init_tile : list Z) (X : list Z → Prop) (s : search) : Prop := {
  i_init : init_tile ∈ (visited_tiles s).*1;
  i_nodup : NoDup (visited_tiles s).*1;
  i_visited t td : (t, td) ∈ visited_tiles s → compute_tile_dict t = Ok td ∧ on_grid t ∧ reached init_tile t;
  i_queue : NoDup (queue s).*2;
  i_entry t : t ∈ (queue s).*2 → ∃ td, (t, td) ∈ visited_tiles s ∧ valid td = true;
  i_closed t td ns n : (t, td) ∈ visited_tiles s → valid td = true → t ∉ (queue s).*2 → ¬ X t →
    neighbours steps t = Ok ns → n ∈ ns → n ∈ (visited_tiles s).*1;
}.

(** Tiles that are no longer waiting. *)
Definition settled (s : search) : Z := len (visited_tiles s) - len (queue s).

Lemma fst_elem {A B} (l : list (A * B)) a : a ∈ l.*1 ↔ ∃ b, (a, b) ∈ l.
Proof. rewrite list_elem_of_fmap. split; [intros ([? b] & -> & ?); eauto|intros [b ?]; by exists (a, b)]. Qed.

Lemma add_spec init X s n :
  inv init X s → on_grid n → reached init n →
  match add_to_queue s n with
  | Ok s' => inv init X s' ∧ n ∈ (visited_tiles s').*1 ∧
      (∀ t, t ∈ (visited_tiles s).*1 → t ∈ (visited_tiles s').*1) ∧ settled s ≤ settled s'
  | Raise e => compute_tile_dict n = Raise e
  end.
Proof.
  intros I Hg Hr. unfold add_to_queue. case_bool_decide as Hv; [by split_and!|].
  destruct (compute_tile_dict n) as [td|e] eqn:E; [|done]. simpl.
  set (q := if valid td then queue s ++ [(prio td, n)] else queue s).
  assert (∀ t, t ∈ q.*2 ↔ t ∈ (queue s).*2 ∨ (t = n ∧ valid td = true)) as Hq.
  { intros t. unfold q. destruct (valid td); [rewrite fmap_app, elem_of_app; simpl; rewrite list_elem_of_singleton|]; naive_solver. }
  assert (∀ t, t ∈ (visited_tiles s ++ [(n, td)]).*1 ↔ t ∈ (visited_tiles s).*1 ∨ t = n) as Hvis.
  { intros t. rewrite fmap_app, elem_of_app. simpl. by rewrite list_elem_of_singleton. }
  assert (n ∉ (queue s).*2) as Hnq.
  { intros (td' & Hin & _)%(i_entry _ _ _ I). apply Hv, fst_elem. eauto. }
  split_and!; simpl.
  - split; simpl.
    + apply Hvis. left. apply I.
    + rewrite fmap_app. apply NoDup_app. split; [apply I|]. simpl. split; [|apply NoDup_singleton].
      intros t Ht ->%list_elem_of_singleton. done.
    + intros t td'. rewrite elem_of_app, list_elem_of_singleton. intros [Ht|[= -> ->]]; [by apply (i_visited _ _ _ I)|done].
    + unfold q. destruct (valid td); [|apply I]. rewrite fmap_app. apply NoDup_app. split; [apply I|].
      simpl. split; [|apply NoDup_singleton]. intros t Ht ->%list_elem_of_singleton. done.
    + intros t. rewrite Hq. intros [(td' & ? & ?)%(i_entry _ _ _ I)|[-> ?]]; [exists td'|exists td]; rewrite elem_of_app; split; auto.
      right. by left.
    + intros t td' ns m. rewrite elem_of_app, list_elem_of_singleton, Hq, Hvis.
      intros [Ht|[= -> ->]] Hval Hn HX Hns Hm; [left; eapply (i_closed _ _ _ I t td'); eauto|naive_solver].
  - apply Hvis. by right.
  - intros t Ht. apply Hvis. by left.
  - unfold settled, len, q. simpl. rewrite length_app. destruct (valid td); rewrite ?length_app; simpl; lia.
Qed.

Lemma adds_spec init X ns s :
  inv init X s → (∀ n, n ∈ ns → on_grid n ∧ reached init n) →
  match mfold add_to_queue s ns with
  | Ok s' => inv init X s' ∧ (∀ n, n ∈ ns → n ∈ (visited_tiles s').*1) ∧
      (∀ t, t ∈ (visited_tiles s).*1 → t ∈ (visited_tiles s').*1) ∧ settled s ≤ settled s'
  | Raise e => ∃ t, on_grid t ∧ reached init t ∧ compute_tile_dict t = Raise e
  end.
Proof.
  revert s. induction ns as [|n ns IH]; intros s I Hns; simpl.
  { split_and!; try done. by intros ? ?%elem_of_nil. }
  destruct (Hns n) as [Hg Hr]; [by left|]. pose proof (add_spec init X s n I Hg Hr) as Ha.
  destruct (add_to_queue s n) as [s1|e]; simpl; [|by exists n].
  destruct Ha as (I1 & Hn & Hm & Hs). pose proof (IH s1 I1 (λ m Hm, Hns m (list_elem_of_further _ _ _ Hm))) as H.
  destruct (mfold add_to_queue s1 ns) as [s2|e]; [|done]. destruct H as (I2 & Hn2 & Hm2 & Hs2).
  split_and!; [done| |auto|lia]. intros m [->|?]%elem_of_cons; auto.
Qed.
(** Taking an entry leaves the invariant but for the successors of its tile. *)
Lemma inv_pop init s x q :
  inv init (λ _, False) s → queue s = x :: q →
  inv init (λ t, t = (pop_min x q).1.2) (Search (visited_tiles s) (pop_min x q).2) ∧
  (∃ td, ((pop_min x q).1.2, td) ∈ visited_tiles s ∧ valid td = true) ∧ length (pop_min x q).2 = length q.
Proof.
  intros I Hq. pose proof (pop_min_perm x q) as Hp. destruct (pop_min x q) as [m r]; simpl in *.
  assert (m.2 :: r.*2 ≡ₚ (queue s).*2) as Hp2 by (rewrite Hq; by apply (Permutation_map snd) in Hp).
  split_and!.
  - pose proof (i_queue _ _ _ I) as Hnd. rewrite <- Hp2 in Hnd. apply NoDup_cons in Hnd as [Hm Hnd].
    split; simpl; [apply I|apply I|apply I|done|..].
    + intros t Ht. apply (i_entry _ _ _ I). rewrite <- Hp2. by right.
    + intros t td ns n Ht Hv Hn HX. apply (i_closed _ _ _ I t td); [done|done| |by intros []].
      rewrite <- Hp2. intros [?|?]%elem_of_cons; done.
  - apply (i_entry _ _ _ I). rewrite <- Hp2. by left.
  - apply Permutation_length in Hp. simpl in Hp. lia.
Qed.

Lemma search_loop_spec init fuel s :
  inv init (λ _, False) s → (1 ≤ fuel)%nat → 2001 ≤ settled s + Z.of_nat fuel →
  ∃ r, search_loop fuel s = Some r ∧
    match r with
    | Ok s' => inv init (λ _, False) s' ∧ (queue s' = [] ∨ 2000 < len (visited_tiles s'))
    | Raise e => ∃ t, on_grid t ∧ reached init t ∧ compute_tile_dict t = Raise e
    end.
Proof.
  revert s. induction fuel as [|fuel IH]; intros s I Hf Hm; [lia|]. simpl.
  destruct (queue s) as [|x q] eqn:Hq; [eexists; split; [done|]; simpl; auto|].
  destruct (Z.ltb_spec 2000 (len (visited_tiles s))); [eexists; split; [done|]; simpl; auto|].
  destruct (inv_pop init s x q I Hq) as (I1 & (td & Htd & Hval) & Hlen).
  destruct (pop_min x q) as [[p tile] q'] eqn:Ep. simpl in I1, Htd, Hlen.
  destruct (i_visited _ _ _ I _ _ Htd) as (Hc & Hg & Hr).
  destruct (neighbours_grid tile Hg) as (ns & Hns & Hgn). rewrite Hns. cbn [mbind res_bind].
  pose proof (adds_spec init _ ns _ I1) as Ha.
  assert (∀ n, n ∈ ns → on_grid n ∧ reached init n) as Hn by (intros n Hn; split; [auto|by eapply reached_step]).
  specialize (Ha Hn). destruct (mfold _ _ ns) as [s2|e]; [|eexists; split; [done|]; auto].
  destruct Ha as (I2 & Hn2 & _ & Hs2). apply IH; unfold settled, len in *; simpl in *; rewrite ?Hq in *; simpl in *; [|lia..].
  destruct I2 as [? ? ? ? ? Hcl]. split; try done. intros t td' ns' n Ht Hv Hnq _ Hns' Hnn.
  destruct (decide (t = tile)) as [->|Hne]; [|by eapply (Hcl t td' ns' n)].
  rewrite Hns in Hns'. injection Hns' as <-. auto.
Qed.

Lemma run_search_spec init_tile :
  on_grid init_tile →
  ∃ r, run_search init_tile = Some r ∧
    match r with
    | Ok s => inv init_tile (λ _, False) s ∧ (queue s = [] ∨ 2000 < len (visited_tiles s))
    | Raise e => ∃ t, on_grid t ∧ reached init_tile t ∧ compute_tile_dict t = Raise e
    end.
Proof.
  intros G. unfold run_search, add_to_queue. rewrite bool_decide_false by apply not_elem_of_nil.
  destruct (compute_tile_dict init_tile) as [td|e] eqn:E; cbn [mbind res_bind].
  2: { eexists. split; [done|]. exists init_tile. split_and!; [done|apply reached_init|done]. }
  generalize (eq_refl 2001%nat). generalize 2001%nat at 1 3. intros fuel Hfuel.
  apply search_loop_spec; [|lia|unfold settled, len; simpl; destruct (valid td); simpl; lia].
  split; simpl.
  - by left.
  - apply NoDup_singleton.
  - intros t td' [= -> ->]%list_elem_of_singleton. split_and!; [done|done|apply reached_init].
  - destruct (valid td); simpl; [apply NoDup_singleton|constructor].
  - intros t Ht. exists td. destruct (valid td); simpl in Ht; [|by apply elem_of_nil in Ht].
    apply list_elem_of_singleton in Ht as ->. split; [by left|done].
  - intros t td' ns n [= -> ->]%list_elem_of_singleton Hv. rewrite Hv. intros Hn. destruct Hn. by left.
Qed.

(** The tiles of the grid. *)
Fixpoint grid (ss : list (list Z)) : list (list Z) :=
  match ss with
  | [] => [[]]
  | step :: ss' => x ← step; (x ::.) <$> grid ss'
  end.

Lemma elem_of_grid ss tile : Forall2 (λ step t, t ∈ step) ss tile → tile ∈ grid ss.
Proof using Type.
  clear. induction 1 as [|step t ss tile Ht H IH]; simpl; [by left|].
  apply list_elem_of_bind. exists t. split; [|done]. by apply (list_elem_of_fmap_2 (t ::.)).
Qed.

(** Within the bound of 2000 tiles nothing that can be reached is missed. *)
Lemma run_search_complete init_tile s :
  on_grid init_tile → run_search init_tile = Some (Ok s) → (length (grid steps) ≤ 2000)%nat →
  ∀ t, reached init_tile t → t ∈ (visited_tiles s).*1.
Proof.
  intros G Hs Hgrid. destruct (run_search_spec init_tile G) as (r & Hr & H). rewrite Hs in Hr. simplify_eq.
  destruct H as [I Hend].
  assert (queue s = []) as Hq.
  { destruct Hend as [?|Hlen]; [done|]. exfalso.
    assert ((visited_tiles s).*1 ⊆+ grid steps) as Hsub%submseteq_length.
    { apply NoDup_submseteq; [apply I|]. intros t [td Ht]%fst_elem. apply elem_of_grid.
      by destruct (i_visited _ _ _ I _ _ Ht) as (_ & ? & _). }
    rewrite length_fmap in Hsub. unfold len in Hlen. lia. }
  induction 1 as [|t td ns n Ht IH Hc Hv Hns Hn]; [apply I|].
  apply fst_elem in IH as [td' Htd]. destruct (i_visited _ _ _ I _ _ Htd) as (Hc' & _).
  assert (td' = td) as -> by congruence. eapply (i_closed _ _ _ I t td); eauto.
  rewrite Hq. apply not_elem_of_nil.
Qed.
(** The valid entries of a dict, with their keys. *)
Lemma valid_tiles (l : list (list Z * TD)) :
  NoDup l.*1 → ∃ tiles, NoDup tiles ∧ (∀ t, t ∈ tiles → t ∈ l.*1) ∧
    Forall2 (λ t td, (t, td) ∈ l ∧ valid td = true) tiles (List.filter valid l.*2).
Proof.
  induction l as [|[t td] l IH]; simpl; [by exists []; repeat constructor|].
  intros [Ht Hnd]%NoDup_cons. destruct (IH Hnd) as (tiles & Hnt & Hsub & Hf).
  assert (Forall2 (λ u td', (u, td') ∈ (t, td) :: l ∧ valid td' = true) tiles (List.filter valid l.*2)) as Hf'.
  { eapply Forall2_impl; [exact Hf|]. intros ? ? [? ?]. split; [by right|done]. }
  destruct (valid td) eqn:Ev; [|exists tiles; split_and!; [done|intros; right; auto|done]].
  exists (t :: tiles). split_and!.
  - constructor; [|done]. intros ?%Hsub. done.
  - intros u [->|?]%elem_of_cons; [by left|right; auto].
  - constructor; [split; [by left|done]|done].
Qed.

Lemma search_tiles_spec init_tile :
  on_grid init_tile →
  ∃ r, search_tiles init_tile = Some r ∧
    match r with
    | Ok l =>
        ascending prio l ∧
        (∃ tiles, NoDup tiles ∧
           Forall2 (λ t td, on_grid t ∧ reached init_tile t ∧ compute_tile_dict t = Ok td ∧ valid td = true) tiles l) ∧
        (∀ td, compute_tile_dict init_tile = Ok td → valid td = true → td ∈ l) ∧
        ((length (grid steps) ≤ 2000)%nat →
         ∀ t td, reached init_tile t → compute_tile_dict t = Ok td → valid td = true → td ∈ l)
    | Raise e => ∃ t, on_grid t ∧ reached init_tile t ∧ compute_tile_dict t = Raise e
    end.
Proof.
  intros G. destruct (run_search_spec init_tile G) as (r & Hr & H). unfold search_tiles. rewrite Hr. cbn [mbind option_bind].
  eexists. split; [done|]. destruct r as [s|e]; [|done]. destruct H as [I _]. cbn [mbind res_bind].
  assert (∀ t td, t ∈ (visited_tiles s).*1 → compute_tile_dict t = Ok td → valid td = true →
    td ∈ sorted_by prio (List.filter valid (visited_tiles s).*2)) as Hin.
  { intros t td [td' Ht]%fst_elem Hc Hv. destruct (i_visited _ _ _ I _ _ Ht) as (Hc' & _).
    assert (td' = td) as -> by congruence. rewrite sorted_by_perm.
    apply list_elem_of_In, filter_In. split; [|done]. apply list_elem_of_In. by apply (list_elem_of_fmap_2 snd _ (t, td)). }
  split_and!.
  - apply sorted_by_ascending.
  - destruct (valid_tiles _ (i_nodup _ _ _ I)) as (tiles & Hnd & _ & Hf%Forall2_flip).
    destruct (Permutation_Forall2 (symmetry (sorted_by_perm prio _)) Hf) as (tiles' & Hp' & Hf'%Forall2_flip).
    exists tiles'. split; [by rewrite <- Hp'|]. eapply Forall2_impl; [exact Hf'|].
    intros t td [Ht Hv]. destruct (i_visited _ _ _ I _ _ Ht) as (? & ? & ?). done.
  - intros td Hc Hv. eapply Hin; [apply I|done|done].
  - intros Hg t td Ht Hc Hv. eapply Hin; [|done|done]. by eapply run_search_complete.
Qed.
(** ** Every valid tile, when validity goes downwards *)

Lemma py_find_NoDup {A} `{EqDecision A} (l : list A) i x :
  NoDup l → l !! i = Some x → py_find x l = Ok (Z.of_nat i).
Proof.
  intros Hnd Hi. destruct (py_find_lookup x l (list_elem_of_lookup_2 _ _ _ Hi)) as (j & E & Hj).
  by rewrite (NoDup_lookup _ _ _ _ Hnd Hi Hj).
Qed.

Lemma neighbours_next tile i j step x y ns :
  neighbours steps tile = Ok ns → steps !! i = Some step → tile !! i = Some x → NoDup step →
  step !! j = Some x → step !! S j = Some y → <[i := y]> tile ∈ ns.
Proof using Type.
  unfold neighbours, zip_strict. case_decide as Hl; [|done]. simpl.
  intros (ids & E & [= <-])%bind_Ok Hs Ht Hnd Hx Hy.
  assert (length ids = length (zip steps tile) ∧ ∀ k p, zip steps tile !! k = Some p → ∃ id, ids !! k = Some id ∧
    (let '(s, u) := p in py_find u s) = Ok id) as [Hlen Hids].
  { clear -E. revert ids E. induction (zip steps tile) as [|[s u] l IH]; simpl; intros ids E.
    - injection E as <-. split; [done|]. by intros [|k].
    - apply bind_Ok in E as (id & E1 & (ids' & E2 & [= <-])%bind_Ok). destruct (IH ids' E2) as [Hl Hk].
      split; [simpl; lia|]. intros [|k] p; simpl; [intros [= <-]; eauto|apply Hk]. }
  destruct (Hids i (step, x)) as (id & Hid & Hf); [apply lookup_zip_with_Some; eauto|].
  rewrite (py_find_NoDup step j x Hnd Hx) in Hf. injection Hf as <-.
  apply list_elem_of_omap. exists i. split.
  - rewrite elem_of_reverse. apply elem_of_seq. apply lookup_lt_Some in Hid. lia.
  - rewrite Hs. simpl. rewrite Hid. simpl. replace (Z.to_nat (Z.of_nat j + 1)) with (S j) by lia. by rewrite Hy.
Qed.

(** One dimension is climbed step by step. *)
Lemma reached_climb init ss1 ss2 step pre post j x0 x :
  steps = ss1 ++ step :: ss2 → length pre = length ss1 → NoDup step →
  head step = Some x0 → step !! j = Some x → reached init (pre ++ x0 :: post) →
  (∀ k y, (k ≤ j)%nat → step !! k = Some y → on_grid (pre ++ y :: post) ∧
     ∃ td, compute_tile_dict (pre ++ y :: post) = Ok td ∧ valid td = true) →
  reached init (pre ++ x :: post).
Proof using Type.
  intros Hs Hl Hnd H0 Hx Hr Hv. revert x Hx. induction j as [|j IH]; intros x Hx.
  - rewrite head_lookup, Hx in H0. by simplify_eq.
  - destruct (lookup_lt_is_Some_2 step j) as [y Hy]; [apply lookup_lt_Some in Hx; lia|].
    destruct (Hv j y) as (Hg & td & Hc & Hval); [lia|done|].
    destruct (neighbours_grid _ Hg) as (ns & Hns & _).
    eapply reached_step; [apply (IH (λ k z Hk, Hv k z ltac:(lia)) y Hy)|done|done|done|].
    replace (pre ++ x :: post) with (<[length pre := x]> (pre ++ y :: post)) by (by rewrite insert_app_r_alt, Nat.sub_diag by done).
    eapply neighbours_next; [done| | |done|done|done].
    + by rewrite Hs, Hl, list_lookup_middle.
    + by rewrite list_lookup_middle.
Qed.

(** A tile below the given one, pointwise. *)
Definition below_tile (t u : list Z) : Prop := Forall2 Z.le t u.

Definition down_closed : Prop := ∀ t u tdu,
  on_grid t → on_grid u → below_tile t u → compute_tile_dict u = Ok tdu → valid tdu = true →
  ∃ td, compute_tile_dict t = Ok td ∧ valid td = true.

Lemma sorted_lookup_le (l : list Z) i j x y :
  StronglySorted Z.lt l → (i ≤ j)%nat → l !! i = Some x → l !! j = Some y → x ≤ y.
Proof.
  intros H. revert i j. induction H as [|z l Hl IH Hz]; intros [|i] [|j] Hij; simpl; try done; try lia.
  - intros. simplify_eq. lia.
  - intros [= <-] Hy. rewrite Forall_forall in Hz. apply list_elem_of_lookup_2 in Hy. specialize (Hz y Hy). lia.
  - apply IH. lia.
Qed.

Lemma sorted_NoDup (l : list Z) : StronglySorted Z.lt l → NoDup l.
Proof.
  induction 1 as [|x l Hl IH Hx]; constructor; [|done]. intros Hin. rewrite Forall_forall in Hx.
  specialize (Hx x Hin). lia.
Qed.

(** The heads of the steps are below every tile of the grid. *)
Lemma heads_below ss hs t :
  Forall (StronglySorted Z.lt) ss → Forall2 (λ step x, head step = Some x) ss hs →
  Forall2 (λ step x, x ∈ step) ss t → Forall2 (λ step x, x ∈ step) ss hs ∧ below_tile hs t.
Proof.
  intros Hss Hh. revert t. induction Hh as [|step x ss hs Hx Hh IH]; intros t Ht; inversion Ht; subst; [by split; constructor|].
  apply Forall_cons in Hss as [Hs Hss]. destruct (IH Hss _ ltac:(eassumption)) as [? ?].
  rewrite head_lookup in Hx. split; constructor; try done; [by eapply list_elem_of_lookup_2|].
  destruct (list_elem_of_lookup_1 step y ltac:(done)) as [j Hj]. eapply (sorted_lookup_le step 0 j); eauto. lia.
Qed.

Lemma reached_from init ss1 ss2 pre t2 init2 :
  steps = ss1 ++ ss2 → Forall2 (λ step t, t ∈ step) ss1 pre → Forall2 (λ step t, t ∈ step) ss2 t2 →
  Forall2 (λ step x, head step = Some x) ss2 init2 → Forall (StronglySorted Z.lt) ss2 →
  reached init (pre ++ init2) →
  (∀ u, on_grid u → below_tile u (pre ++ t2) → ∃ td, compute_tile_dict u = Ok td ∧ valid td = true) →
  reached init (pre ++ t2).
Proof using Type.
  intros Hs Hpre H2. revert ss1 pre init2 Hs Hpre. induction H2 as [|step x ss2 t2 Hx H2 IH]; intros ss1 pre init2 Hs Hpre Hh Hss Hr Hv.
  { inversion Hh; by subst. }
  inversion Hh as [|? x0 ? init2' Hx0 Hh']; subst. apply Forall_cons in Hss as [Hst Hss].
  destruct (heads_below ss2 init2' t2 Hss Hh' H2) as [Hg2 Hb2].
  destruct (list_elem_of_lookup_1 step x Hx) as [j Hj].
  rewrite cons_middle, (assoc_L (++)). apply (IH (ss1 ++ [step])) with init2'; try done.
  - by rewrite <- (assoc_L (++)).
  - apply Forall2_app; [done|by repeat constructor].
  - rewrite <- (assoc_L (++)). simpl.
    eapply (reached_climb init ss1 ss2 step pre init2' j x0); try done; [by rewrite (Forall2_length _ _ _ Hpre)|by apply sorted_NoDup|].
    intros k y Hk Hy.
    assert (on_grid (pre ++ y :: init2')) as Hg.
    { unfold on_grid. rewrite Hs. apply Forall2_app; [done|]. constructor; [|done]. by eapply list_elem_of_lookup_2. }
    split; [done|]. apply Hv; [done|]. apply Forall2_app; [clear; induction pre; constructor; [lia|done]|].
    constructor; [by eapply (sorted_lookup_le step k j)|done].
  - intros u Hu Hb. apply Hv; [done|]. by rewrite <- (assoc_L (++)) in Hb.
Qed.

Lemma down_closed_reached init_tile t td :
  Forall (StronglySorted Z.lt) steps → Forall2 (λ step x, head step = Some x) steps init_tile → down_closed →
  on_grid t → compute_tile_dict t = Ok td → valid td = true → reached init_tile t.
Proof.
  intros Hss Hh Hd Ht Hc Hv. apply (reached_from init_tile [] steps [] t init_tile); try done; [apply reached_init|].
  intros u Hu Hb. by apply (Hd u t td).
Qed.
End search.
