(* ===== verification/SmemUsage.v ===== *)
(** * The shared memory of a graph

    [_compute_shared_memory_usage] of
    [src/tilelang/carver/roller/policy/default.py]: the nodes of a graph are run
    through in order, and the best-fit allocator simulates the buffers that are
    live between a producer and its consumers.  The bytes of a node and of its
    outputs are arguments; [infer_node_smem_usage] and the strides compute them. *)
From stdpp Require Import base strings gmap numbers sorting relations list.
From S2P Require Import Prelude BestFit Graph TileSearch.

(** The variables of the loop. *)
Record mem := Mem {
  allocator : BestFit;
  block_map : gmap (nat * nat) nat;
  processed : gset nat;
}.

(** A call on the allocator. *)
Definition on_alloc {A} (p : prog BestFit A) : prog mem A := λ s,
  let '(r, a) := p (allocator s) in (r, Mem a (block_map s) (processed s)).

(** A [for] loop. *)
Fixpoint for_each {S A} (l : list A) (body : A → prog S unit) : prog S unit :=
  match l with
  | [] => mret tt
  | x :: l' => body x;; for_each l' body
  end.

(** [_init_with_output_nodes]: the operators in topological order. *)
Definition ordered_nodes (g : graph) (outs : list nat) : option (list nat) :=
  filter (λ n, kind (node g n) = KPrimFunc) <$> find_topo_sort g outs.

(** The nodes all of whose readers are outputs. *)
Definition output_nodes (g : graph) (ordered : list nat) : list nat :=
  filter (λ n, forallb (λ e, is_output g (dst_node e)) (outputs g n) = true) ordered.

Section usage.
Context (g : graph) (out_bytes : nat → nat → Z).

Definition can_free (done : gset nat) (n out_id : nat) : bool :=
  forallb (λ e, negb (bool_decide (src_id e = out_id)) || bool_decide (dst_node e ∈ done)) (outputs g n).

(** [allocator.free(block_map.pop((edge.src_node, edge.src_id)))]. *)
Definition free_input (e : Edge) : prog mem unit :=
  s ← get;
  if negb (is_placeholder g (src_node e)) && can_free (processed s) (src_node e) (src_id e) then
    match block_map s !! (src_node e, src_id e) with
    | None => raise KeyError
    | Some b =>
        modify (λ s, Mem (allocator s) (delete (src_node e, src_id e) (block_map s)) (processed s));;
        on_alloc (free b)
    end
  else mret tt.

Definition alloc_output (n : nat) (e : Edge) : prog mem unit :=
  s ← get;
  if negb (is_output g (dst_node e)) && bool_decide (block_map s !! (n, src_id e) = None) then
    b ← on_alloc (malloc (out_bytes n (src_id e)));
    modify (λ s, Mem (allocator s) (<[(n, src_id e) := b]> (block_map s)) (processed s))
  else mret tt.

(** One iteration of the loop over the nodes. *)
Definition alloc_node (internal : nat → Z) (n : nat) : prog mem unit :=
  block ← on_alloc (malloc (internal n));
  on_alloc (free block);;
  modify (λ s, Mem (allocator s) (block_map s) ({[n]} ∪ processed s));;
  for_each (inputs g n) free_input;;
  for_each (outputs g n) (alloc_output n).

(** The whole function; [custom_mem_mul], an [int] or a [float], is only an
    attribute of a policy built from a function. *)
Definition compute_shared_memory_usage (internal : nat → Z) (custom_mem_mul : option num) (ordered : list nat) : res num :=
  match for_each ordered (alloc_node internal) (Mem (init 32) ∅ ∅) with
  | (Raise e, _) => Raise e
  | (Ok _, s) =>
      mul ← or_raise AttributeError custom_mem_mul;
      py_assert (bool_decide (block_map s = ∅));;
      Ok (num_mul (PyInt (limit (allocator s))) mul)
  end.

(** ** What the allocator has to hold *)

(** The outputs of the nodes [P] that a node outside of [P] still reads. *)
Definition pending (P : list nat) (k : nat * nat) : Prop :=
  k.1 ∈ P ∧ ∃ e, e ∈ outputs g k.1 ∧ src_id e = k.2 ∧ is_output g (dst_node e) = false ∧ dst_node e ∉ P.

(** The bytes of some outputs. *)
Definition total (ks : list (nat * nat)) : Z := foldr (λ k acc, out_bytes k.1 k.2 + acc) 0 ks.

(** The graphs the function is meant for: the order is topological, every reader
    is in it, no node reads the same output twice, and no output is both delivered
    and read. *)
Record schedulable (l : list nat) : Prop := {
  sch_wf : wf_graph g;
  sch_nodup : NoDup l;
  sch_kind n : n ∈ l → is_placeholder g n = false ∧ is_output g n = false;
  sch_order l1 n l2 e : l = l1 ++ n :: l2 → e ∈ inputs g n → is_placeholder g (src_node e) = true ∨ src_node e ∈ l1;
  sch_consumed n e : n ∈ l → e ∈ outputs g n → is_output g (dst_node e) = true ∨ dst_node e ∈ l;
  sch_once n : n ∈ l →
    NoDup ((λ e, (src_node e, src_id e)) <$> filter (λ e, is_placeholder g (src_node e) = false) (inputs g n));
  sch_uniform n e e' : n ∈ l → e ∈ outputs g n → e' ∈ outputs g n → src_id e = src_id e' →
    is_output g (dst_node e) = is_output g (dst_node e');
}.

Lemma sch_out l n e :
  schedulable l → n ∈ l → e ∈ outputs g n → src_node e = n ∧ e ∈ inputs g (dst_node e).
Proof. intros S Hn He. destruct (wf_out _ (sch_wf _ S) n e) as (? & _ & ?); [by apply (sch_kind _ S)|done|done]. Qed.

(** ** Blocks and their sizes *)

Definition sizes (bs : list Block) : Z := foldr (λ b acc, BestFit.size b + acc) 0 bs.

Lemma sizes_tiled al a l b : tiled al a l b → sizes l = b - a ∧ Forall (λ x, 0 ≤ BestFit.size x) l.
Proof.
  revert a. induction l as [|x l IH]; simpl; intros a; [intros ->; split; [lia|constructor]|].
  intros (<- & Hs & _ & Ht). destruct (IH _ Ht) as [-> Hf]. split; [unfold BestFit.size; lia|by constructor].
Qed.

Lemma sizes_submseteq bs l : bs ⊆+ l → Forall (λ x, 0 ≤ BestFit.size x) l → sizes bs ≤ sizes l.
Proof.
  induction 1; simpl; intros Hf; rewrite ?Forall_cons in *; try (intuition lia).
  transitivity (sizes l2); [apply IHsubmseteq1|auto]. rewrite Forall_forall in *.
  intros x Hx. apply Hf. by eapply elem_of_submseteq.
Qed.

Lemma live_sizes s bs :
  Inv s → NoDup bs → (∀ b, b ∈ bs → b ∈ list_ s) → sizes bs ≤ limit s.
Proof.
  intros I Hnd Hin. destruct (sizes_tiled _ _ _ _ (inv_tiled _ I)) as [E Hf].
  replace (limit s) with (sizes (list_ s)) by lia. apply sizes_submseteq; [|done]. by apply NoDup_submseteq.
Qed.

(** The allocator holds exactly one block per key of [K]. *)
Record holds (s : mem) (K : nat * nat → Prop) : Prop := {
  h_inv : Inv (allocator s);
  h_align : align (allocator s) = 32;
  h_keys k : is_Some (block_map s !! k) ↔ K k;
  h_live k b : block_map s !! k = Some b →
    ∃ a z, live (allocator s) b a z ∧ z - a = round_up (out_bytes k.1 k.2) 32;
  h_inj k k' b : block_map s !! k = Some b → block_map s !! k' = Some b → k = k';
}.

(** Distinct keys have distinct blocks. *)
Lemma holds_blocks s K ks :
  holds s K → NoDup ks → (∀ k, k ∈ ks → K k) →
  ∃ bs, NoDup bs ∧ total ks ≤ sizes bs ∧
    (∀ b, b ∈ bs → b ∈ list_ (allocator s) ∧ is_free b = false ∧ ∃ k, k ∈ ks ∧ block_map s !! k = Some (bid b)).
Proof.
  intros H. induction ks as [|k ks IH]; intros Hnd HK.
  - exists []. split; [constructor|]. split; [done|]. by intros ? ?%elem_of_nil.
  - apply NoDup_cons in Hnd as [Hk Hnd]. destruct IH as (bs & Hb & Ht & Hin); [done|intros; apply HK; by right|].
    destruct (proj2 (h_keys _ _ H k)) as [i Hi]; [apply HK; by left|].
    destruct (h_live _ _ H k i Hi) as (a & z & Hlv & Hz).
    exists (MkBlock i a z false :: bs). split; [|split].
    + constructor; [|done]. intros (_ & _ & k' & Hk' & E)%Hin. simpl in E.
      by rewrite (h_inj _ _ H k k' i Hi E) in Hk.
    + simpl. unfold BestFit.size; simpl. destruct (round_up_spec (out_bytes k.1 k.2) 32); [lia|]. lia.
    + intros b [->|Hbb]%elem_of_cons.
      * split; [done|]. split; [done|]. exists k. by split; [left|].
      * destruct (Hin b Hbb) as (? & ? & k' & ? & ?). split; [done|]. split; [done|]. exists k'. by split; [right|].
Qed.

Lemma holds_total s K ks :
  holds s K → NoDup ks → (∀ k, k ∈ ks → K k) → total ks ≤ limit (allocator s).
Proof.
  intros H Hnd HK. destruct (holds_blocks s K ks H Hnd HK) as (bs & Hb & Ht & Hin).
  etransitivity; [done|]. apply live_sizes; [apply H|done|]. intros b Hbb. by apply Hin.
Qed.

(** A further block beside those of the keys. *)
Lemma malloc_holds s K sz :
  holds s K → 0 ≤ sz →
  ∃ i s', on_alloc (malloc sz) s = (Ok i, s') ∧ holds s' K ∧
    block_map s' = block_map s ∧ processed s' = processed s ∧ limit (allocator s) ≤ limit (allocator s') ∧
    (∃ a z, live (allocator s') i a z ∧ z - a = round_up sz 32) ∧
    (∀ k, block_map s !! k ≠ Some i) ∧
    (∀ ks, NoDup ks → (∀ k, k ∈ ks → K k) → sz + total ks ≤ limit (allocator s')).
Proof.
  intros H Hsz. destruct s as [al bm pr]. simpl in *.
  destruct (malloc_ok al sz (h_inv _ _ H) Hsz) as (i & al' & Hm & I' & l & nb & k & Hl & Hi & Hf & Hs & He & Hlim & Hmem & Hids).
  pose proof (h_align _ _ H) as Ha. simpl in Ha. rewrite Ha in *.
  assert (∀ j a z, live al j a z → live al' j a z) as Hlive.
  { intros j a z Hj. unfold live in *. rewrite Hl. apply Hmem in Hj; [|done].
    rewrite elem_of_app, elem_of_cons. apply elem_of_app in Hj as [|]; auto. }
  assert (∀ k, bm !! k ≠ Some i) as Hnew.
  { intros key Hk. destruct (h_live _ _ H key i Hk) as (a & z & Hlv & _). by apply (Hids _ Hlv). }
  assert (holds (Mem al' bm pr) K) as H'.
  { split; simpl; [done|congruence|apply (h_keys _ _ H)| |apply (h_inj _ _ H)].
    intros key b Hk. destruct (h_live _ _ H key b Hk) as (a & z & Hlv & Hz). exists a, z. auto. }
  exists i, (Mem al' bm pr). unfold on_alloc. simpl. rewrite Hm. split_and!; try done.
  - exists (start nb), (end_ nb). split; [|by rewrite <- Hs]. unfold live. rewrite Hl.
    destruct nb; simpl in *; subst.
    apply elem_of_app. right. by left.
  - intros ks Hnd HK. destruct (holds_blocks _ K ks H' Hnd HK) as (bs & Hb & Ht & Hin). simpl in *.
    transitivity (sizes (nb :: bs)).
    + simpl. rewrite Hs. destruct (round_up_spec sz 32); [lia|]. lia.
    + apply live_sizes; [done| |].
      * constructor; [|done]. intros (_ & _ & key & _ & E)%Hin. rewrite Hi in E. by apply (Hnew key).
      * intros b [->|Hbb]%elem_of_cons; [rewrite Hl; apply elem_of_app; right; by left|by apply Hin].
Qed.

Lemma holds_ext s K K' : (∀ k, K k ↔ K' k) → holds s K → holds s K'.
Proof. intros E [? ? Hk ? ?]. split; try done. intros k. by rewrite Hk. Qed.

Lemma free_holds s K i :
  holds s K → (∀ k, block_map s !! k ≠ Some i) → (∃ a z, live (allocator s) i a z) →
  ∃ s', on_alloc (free i) s = (Ok tt, s') ∧ holds s' K ∧ block_map s' = block_map s ∧
    processed s' = processed s ∧ limit (allocator s') = limit (allocator s).
Proof.
  intros H Hnew (a & z & Hlv). destruct s as [al bm pr]. simpl in *.
  destruct (free_ok al i a z (h_inv _ _ H) Hlv) as (al' & Hf & I' & Hlim & Hmem & _).
  assert (align al' = align al) as Ha.
  { unfold free in Hf. repeat case_match; by simplify_eq/=. }
  exists (Mem al' bm pr). unfold on_alloc. simpl. rewrite Hf. split_and!; try done.
  split; simpl; [done|rewrite Ha; apply (h_align _ _ H)|apply (h_keys _ _ H)| |apply (h_inj _ _ H)].
  intros k b Hk. destruct (h_live _ _ H k b Hk) as (a' & z' & Hlv' & Hz'). exists a', z'. split; [|done].
  unfold live. apply Hmem; [done|]. split; [exact Hlv'|]. simpl. intros ->. by apply (Hnew k).
Qed.

Lemma free_input_spec s K e :
  holds s K →
  (is_placeholder g (src_node e) = false → can_free (processed s) (src_node e) (src_id e) = true →
   K (src_node e, src_id e)) →
  ∃ s', free_input e s = (Ok tt, s') ∧ processed s' = processed s ∧
    limit (allocator s') = limit (allocator s) ∧
    holds s' (λ k, K k ∧ ¬ (is_placeholder g (src_node e) = false ∧
      can_free (processed s) (src_node e) (src_id e) = true ∧ k = (src_node e, src_id e))).
Proof.
  intros H HK. unfold free_input, get, mbind, prog_bind.
  destruct (is_placeholder g (src_node e)), (can_free (processed s) (src_node e) (src_id e)); simpl;
    try (exists s; split_and!; try done; eapply holds_ext; [|done]; naive_solver).
  destruct (proj2 (h_keys _ _ H _) (HK eq_refl eq_refl)) as [b Hb]. rewrite Hb. unfold modify.
  set (k0 := (src_node e, src_id e)) in *.
  assert (holds (Mem (allocator s) (delete k0 (block_map s)) (processed s)) (λ k, K k ∧ k ≠ k0)) as H1.
  { split; simpl; [apply H|apply H|..].
    - intros k. rewrite lookup_delete_is_Some, (h_keys _ _ H). naive_solver.
    - intros k i [_ Hk]%lookup_delete_Some. by apply (h_live _ _ H).
    - intros k k' i [_ Hk]%lookup_delete_Some [_ Hk']%lookup_delete_Some. by eapply (h_inj _ _ H). }
  destruct (free_holds _ _ b H1) as (s' & Hf & H' & _ & Hp & Hlim).
  - simpl. intros k [Hne Hk]%lookup_delete_Some. apply Hne. by eapply (h_inj _ _ H).
  - destruct (h_live _ _ H _ _ Hb) as (a & z & Hlv & _). by exists a, z.
  - exists s'. split_and!; try done. eapply holds_ext; [|done]. naive_solver.
Qed.

Lemma alloc_output_spec n s K e :
  (∀ n o, 0 ≤ out_bytes n o) → holds s K →
  ∃ s', alloc_output n e s = (Ok tt, s') ∧ processed s' = processed s ∧
    limit (allocator s) ≤ limit (allocator s') ∧
    holds s' (λ k, K k ∨ (is_output g (dst_node e) = false ∧ k = (n, src_id e))).
Proof.
  intros Hob H. unfold alloc_output, get, mbind, prog_bind.
  destruct (is_output g (dst_node e)); simpl;
    [exists s; split_and!; try done; eapply holds_ext; [|done]; naive_solver|].
  case_bool_decide as Hk; [|exists s; split_and!; try done; eapply holds_ext; [|done]; intros k].
  - destruct (malloc_holds s K (out_bytes n (src_id e)) H (Hob _ _))
      as (i & s1 & -> & H1 & Hbm & Hpr & Hlim & Hlv & Hnew & _). unfold modify.
    eexists. split; [done|]. simpl. split; [done|]. split; [done|].
    split; simpl; [apply H1|apply H1|..].
    + intros k. rewrite lookup_insert_is_Some', (h_keys _ _ H1). naive_solver.
    + intros k b [[<- <-]|[Hne Hkb]]%lookup_insert_Some; [done|by apply (h_live _ _ H1)].
    + rewrite Hbm. intros k k' b [[<- <-]|[Hne Hkb]]%lookup_insert_Some [[<- ?]|[Hne' Hkb']]%lookup_insert_Some;
        try done; [by destruct (Hnew k')|subst; by destruct (Hnew k)|by eapply (h_inj _ _ H)].
  - assert (is_Some (block_map s !! (n, src_id e))) as Hs by (by apply not_eq_None_Some).
    rewrite (h_keys _ _ H) in Hs. naive_solver.
Qed.

Lemma for_each_app {S A} (l1 l2 : list A) (body : A → prog S unit) s :
  for_each (l1 ++ l2) body s =
  match for_each l1 body s with (Ok _, s') => for_each l2 body s' | (Raise e, s') => (Raise e, s') end.
Proof.
  revert s. induction l1 as [|x l1 IH]; intros s; simpl; [done|].
  unfold mbind, prog_bind. destruct (body x s) as [[[]|e] s']; [apply IH|done].
Qed.

(** The loop over the inputs of a node: the keys it frees leave. *)
Lemma free_inputs_spec s K es :
  holds s K → NoDup ((λ e, (src_node e, src_id e)) <$> filter (λ e, is_placeholder g (src_node e) = false) es) →
  (∀ e, e ∈ es → is_placeholder g (src_node e) = false → K (src_node e, src_id e)) →
  ∃ s', for_each es free_input s = (Ok tt, s') ∧ processed s' = processed s ∧
    limit (allocator s') = limit (allocator s) ∧
    holds s' (λ k, K k ∧ ¬ (∃ e, e ∈ es ∧ is_placeholder g (src_node e) = false ∧
      can_free (processed s) (src_node e) (src_id e) = true ∧ k = (src_node e, src_id e))).
Proof.
  revert s K. induction es as [|e es IH]; intros s K H Hnd HK; simpl.
  { exists s. split_and!; try done. eapply holds_ext; [|done]. intros k. split; [|by intros []].
    intros. split; [done|]. by intros (? & ?%elem_of_nil & _). }
  destruct (free_input_spec s K e H) as (s1 & E1 & Hp1 & Hl1 & H1); [intros; apply HK; [by left|done]|].
  unfold mbind, prog_bind. rewrite E1.
  rewrite filter_cons in Hnd.
  assert (NoDup ((λ e, (src_node e, src_id e)) <$> filter (λ e, is_placeholder g (src_node e) = false) es)) as Hnd'.
  { case_decide; [by apply NoDup_cons in Hnd as [_ ?]|done]. }
  destruct (IH s1 _ H1 Hnd') as (s2 & E2 & Hp2 & Hl2 & H2).
  { intros e' He' Hpl. split; [apply HK; [by right|done]|]. intros (Hpe & _ & Hk).
    rewrite decide_True in Hnd by done. apply NoDup_cons in Hnd as [Hnin _]. apply Hnin.
    rewrite <- Hk. apply (list_elem_of_fmap_2 (λ e, (src_node e, src_id e))), list_elem_of_filter. done. }
  exists s2. split; [done|]. split; [congruence|]. split; [congruence|].
  eapply holds_ext; [|done]. intros k. rewrite Hp1. setoid_rewrite elem_of_cons. naive_solver.
Qed.

Lemma alloc_outputs_spec n s K es :
  (∀ n o, 0 ≤ out_bytes n o) → holds s K →
  ∃ s', for_each es (alloc_output n) s = (Ok tt, s') ∧ processed s' = processed s ∧
    limit (allocator s) ≤ limit (allocator s') ∧
    holds s' (λ k, K k ∨ ∃ e, e ∈ es ∧ is_output g (dst_node e) = false ∧ k = (n, src_id e)).
Proof.
  intros Hob. revert s K. induction es as [|e es IH]; intros s K H; simpl.
  { exists s. split_and!; try done. eapply holds_ext; [|done]. intros k. split; [by left|].
    intros [?|(? & ?%elem_of_nil & _)]; done. }
  destruct (alloc_output_spec n s K e Hob H) as (s1 & E1 & Hp1 & Hl1 & H1).
  unfold mbind, prog_bind. rewrite E1. destruct (IH s1 _ H1) as (s2 & E2 & Hp2 & Hl2 & H2).
  exists s2. split; [done|]. split; [congruence|]. split; [lia|].
  eapply holds_ext; [|done]. intros k. setoid_rewrite elem_of_cons. naive_solver.
Qed.

Lemma can_free_spec done n o :
  can_free done n o = true ↔ ∀ e, e ∈ outputs g n → src_id e = o → dst_node e ∈ done.
Proof.
  unfold can_free. rewrite forallb_forall. split.
  - intros Hf e He%list_elem_of_In Ho. specialize (Hf e He). rewrite bool_decide_true in Hf by done.
    by apply bool_decide_eq_true in Hf.
  - intros Hd e He%list_elem_of_In. case_bool_decide; simpl; [|done]. apply bool_decide_eq_true. auto.
Qed.

Lemma forallb_false {A} (f : A → bool) l : forallb f l = false → ∃ x, x ∈ l ∧ f x = false.
Proof.
  induction l as [|x l IH]; simpl; [done|]. destruct (f x) eqn:E; simpl; [|exists x; by split; [left|]].
  intros (y & Hy & Hf)%IH. exists y. by split; [right|].
Qed.

Lemma can_free_false done n o :
  can_free done n o = false → ∃ e, e ∈ outputs g n ∧ src_id e = o ∧ dst_node e ∉ done.
Proof.
  intros (e & He & Hf)%forallb_false. exists e. split; [done|]. apply orb_false_elim in Hf as [H1 H2].
  apply negb_false_iff in H1. by rewrite bool_decide_eq_true, bool_decide_eq_false in *.
Qed.

(** The keys left after freeing the inputs of [n], and those added for its
    outputs, are the pending ones. *)
Lemma pending_step l P n rest k :
  schedulable l → l = P ++ n :: rest →
  ((pending P k ∧ ¬ (∃ e, e ∈ inputs g n ∧ is_placeholder g (src_node e) = false ∧
      can_free ({[n]} ∪ list_to_set P) (src_node e) (src_id e) = true ∧ k = (src_node e, src_id e))) ∨
   ∃ e, e ∈ outputs g n ∧ is_output g (dst_node e) = false ∧ k = (n, src_id e)) ↔
  pending (P ++ [n]) k.
Proof.
  clear out_bytes. intros S Hl. pose proof (sch_nodup _ S) as Hnd. rewrite Hl in Hnd.
  apply NoDup_app in Hnd as (_ & Hdis & [Hnr _]%NoDup_cons).
  assert (n ∉ P) as HnP by (intros HP; apply (Hdis n HP); by left).
  assert (∀ e, e ∈ outputs g n → dst_node e ∉ P ++ [n]) as Hlater.
  { intros e He. destruct (sch_out l n e S) as [Hsrc Hin]; [subst l; set_solver|done|].
    assert (∀ l1 m l2, l = l1 ++ m :: l2 → dst_node e = m → n ∈ l1) as Hbefore.
    { intros l1 m l2 E <-. destruct (sch_order _ S l1 _ l2 e E Hin) as [Hpl|?]; [|by rewrite <- Hsrc].
      rewrite Hsrc in Hpl. destruct (sch_kind _ S n) as [? _]; [subst l; set_solver|congruence]. }
    rewrite elem_of_app, list_elem_of_singleton. intros [HP|Hn].
    - apply list_elem_of_split in HP as (p1 & p2 & HP). apply HnP. rewrite HP, elem_of_app. left.
      eapply (Hbefore p1 _ (p2 ++ n :: rest)); [|done]. rewrite Hl, HP. by rewrite <- (assoc_L (++)).
    - apply HnP. by eapply Hbefore. }
  destruct k as [m o]. unfold pending; cbn [fst snd]. split.
  - intros [[(HmP & e & He & Ho & Hout & HdP) Hnot]|(e & He & Hout & [= -> ->])].
    2: { split; [set_solver|]. exists e. split_and!; auto. }
    split; [set_solver|]. destruct (decide (dst_node e = n)) as [Hd|Hd].
    + destruct (sch_out l m e S) as [Hsrc Hin]; [subst l; set_solver|done|]. rewrite Hd in Hin.
      destruct (can_free ({[n]} ∪ list_to_set P) m o) eqn:Hcf.
      * destruct Hnot. exists e. rewrite Hsrc, Ho. split_and!; try done.
        apply (sch_kind _ S). subst l. set_solver.
      * destruct (can_free_false _ _ _ Hcf) as (e' & He' & Ho' & Hd').
        exists e'. split_and!; try done; [|set_solver].
        rewrite <- Hout. apply (sch_uniform _ S m); try done; [subst l; set_solver|congruence].
    + exists e. split_and!; try done. set_solver.
  - intros (HmP & e & He & Ho & Hout & HdP). destruct (decide (m = n)) as [->|Hmn].
    { right. exists e. by rewrite <- Ho. }
    left. split; [split; [set_solver|]; exists e; split_and!; try done; set_solver|].
    intros (e' & He' & Hpl & Hcf & [= Em Eo]). rewrite can_free_spec in Hcf.
    rewrite <- Em, <- Eo in Hcf. specialize (Hcf e He Ho). set_solver.
Qed.

Lemma alloc_node_spec internal l P n rest s :
  schedulable l → (∀ n o, 0 ≤ out_bytes n o) → 0 ≤ internal n → l = P ++ n :: rest →
  holds s (pending P) → processed s = list_to_set P →
  ∃ s', alloc_node internal n s = (Ok tt, s') ∧ holds s' (pending (P ++ [n])) ∧
    processed s' = list_to_set (P ++ [n]) ∧ limit (allocator s) ≤ limit (allocator s') ∧
    (∀ ks, NoDup ks → (∀ k, k ∈ ks → pending P k) → internal n + total ks ≤ limit (allocator s')).
Proof.
  intros S Hob Hint Hl H Hp. unfold alloc_node.
  destruct (malloc_holds s _ (internal n) H Hint) as (i & s1 & E1 & H1 & Hbm1 & Hp1 & Hl1 & (a & z & Hlv & _) & Hnew & Hks).
  destruct (free_holds s1 _ i H1) as (s2 & E2 & H2 & Hbm2 & Hp2 & Hl2); [by rewrite Hbm1|by exists a, z|].
  set (s3 := Mem (allocator s2) (block_map s2) ({[n]} ∪ processed s2)).
  assert (holds s3 (pending P)) as H3 by (destruct H2; by split).
  assert (n ∈ l) as Hn by (subst l; set_solver).
  destruct (free_inputs_spec s3 _ (inputs g n) H3 (sch_once _ S n Hn)) as (s4 & E4 & Hp4 & Hl4 & H4).
  { intros e He Hpl. destruct (sch_order _ S P n rest e Hl He) as [?|HP]; [congruence|].
    destruct (wf_in _ (sch_wf _ S) _ _ He) as (Hd & _ & Hout). split; [done|]. exists e. cbn [fst snd].
    rewrite Hd. pose proof (sch_nodup _ S) as Hnd. rewrite Hl in Hnd. apply NoDup_app in Hnd as (_ & Hdis & _).
    split_and!; [done|done|by apply (sch_kind _ S)|]. intros HnP. apply (Hdis n HnP). by left. }
  destruct (alloc_outputs_spec n s4 _ (outputs g n) Hob H4) as (s5 & E5 & Hp5 & Hl5 & H5).
  exists s5. unfold mbind, prog_bind. rewrite E1. cbv [mbind prog_bind]. rewrite E2. unfold modify. fold s3.
  rewrite E4, E5. split; [done|]. split; [|split].
  - eapply holds_ext; [|exact H5]. intros k. rewrite <- (pending_step l P n rest k S Hl).
    simpl processed. by rewrite Hp2, Hp1, Hp.
  - rewrite Hp5, Hp4. simpl processed. rewrite Hp2, Hp1, Hp. rewrite list_to_set_app_L. simpl. set_solver.
  - simpl allocator in Hl4. split; [lia|]. intros ks Hnd Hk. pose proof (Hks ks Hnd Hk). lia.
Qed.

(** All nodes, and what the limit has covered so far. *)
Lemma alloc_nodes_spec internal l P rest s :
  schedulable l → (∀ n o, 0 ≤ out_bytes n o) → (∀ n, 0 ≤ internal n) → l = P ++ rest →
  holds s (pending P) → processed s = list_to_set P →
  ∃ s', for_each rest (alloc_node internal) s = (Ok tt, s') ∧ holds s' (pending l) ∧
    limit (allocator s) ≤ limit (allocator s') ∧
    (∀ P1 n P2 ks, rest = P1 ++ n :: P2 → NoDup ks → (∀ k, k ∈ ks → pending (P ++ P1) k) →
       internal n + total ks ≤ limit (allocator s')).
Proof.
  intros S Hob Hint. revert P s. induction rest as [|n rest IH]; intros P s Hl H Hp; simpl.
  { exists s. rewrite app_nil_r in Hl. subst P. split_and!; try done. by intros [|]. }
  destruct (alloc_node_spec internal l P n rest s S Hob (Hint n) Hl H Hp) as (s1 & E1 & H1 & Hp1 & Hl1 & Hk1).
  unfold mbind, prog_bind. rewrite E1.
  destruct (IH (P ++ [n]) s1) as (s2 & E2 & H2 & Hl2 & Hk2); [by rewrite <- (assoc_L (++))|done|done|].
  exists s2. split_and!; [done|done|lia|]. intros [|m P1] n' P2 ks E Hnd Hk; simplify_eq/=.
  - rewrite app_nil_r in Hk. pose proof (Hk1 ks Hnd Hk). lia.
  - eapply Hk2; [done|done|]. by rewrite <- (assoc_L (++)).
Qed.

Lemma pending_all l k : schedulable l → ¬ pending l k.
Proof.
  intros S (Hk & e & He & _ & Hout & Hd). destruct (sch_consumed _ S _ _ Hk He); [congruence|done].
Qed.

Lemma holds_init : holds (Mem (init 32) ∅ ∅) (pending []).
Proof.
  split; simpl; [by apply init_Inv|done|..].
  - intros k. rewrite lookup_empty. split; [by intros []|]. by intros [?%elem_of_nil _].
  - intros k b. by rewrite lookup_empty.
  - intros k k' b. by rewrite lookup_empty.
Qed.
End usage.

(** ** The operators of a graph *)

Lemma filter_split (P : nat → Prop) `{∀ x, Decision (P x)} t l1 n l2 :
  filter P t = l1 ++ n :: l2 → ∃ t1 t2, t = t1 ++ n :: t2 ∧ filter P t1 = l1.
Proof.
  revert l1. induction t as [|x t IH]; intros l1 E; [by destruct l1|].
  rewrite filter_cons in E. case_decide as Hx.
  - destruct l1 as [|y l1]; simplify_eq/=; [by exists [], t|].
    destruct (IH _ H1) as (t1 & t2 & -> & <-). exists (y :: t1), t2. split; [done|]. by rewrite filter_cons_True.
  - destruct (IH _ E) as (t1 & t2 & -> & <-). exists (x :: t1), t2. split; [done|]. by rewrite filter_cons_False.
Qed.

(** The order of the operators of an acyclic graph is one the function is meant
    for, when every reader is needed, nothing is read twice by one node, and
    nothing is both delivered and read. *)
Lemma ordered_schedulable g outs l :
  wf_graph g → acyclic (sources g) → (∀ n, n ∈ outs → is_Some (g !! n)) → ordered_nodes g outs = Some l →
  (∀ n e, n ∈ l → e ∈ outputs g n → ∃ o, o ∈ outs ∧ reaches (sources g) o (dst_node e)) →
  (∀ n, n ∈ l → NoDup ((λ e, (src_node e, src_id e)) <$>
     filter (λ e, is_placeholder g (src_node e) = false) (inputs g n))) →
  (∀ n e e', n ∈ l → e ∈ outputs g n → e' ∈ outputs g n → src_id e = src_id e' →
     is_output g (dst_node e) = is_output g (dst_node e')) →
  schedulable g l.
Proof.
  intros Hwf Hac Hin Hl Hneed Honce Huni. unfold ordered_nodes in Hl.
  destruct (topo_sorted g outs Hwf Hac Hin) as (t & Ht & Hnd & Hord & Hall). rewrite Ht in Hl. injection Hl as <-.
  assert (∀ n, is_placeholder g n = false → is_output g n = false → kind (node g n) = KPrimFunc) as Hk.
  { intros n. unfold is_placeholder, is_output. rewrite !bool_decide_eq_false. by destruct (kind (node g n)). }
  split; try done.
  - by apply NoDup_filter.
  - intros n [Hn _]%list_elem_of_filter. unfold is_placeholder, is_output. by rewrite Hn.
  - intros l1 n l2 e (t1 & t2 & -> & <-)%filter_split He.
    destruct (wf_in _ Hwf _ _ He) as (_ & _ & Ho). destruct (is_placeholder g (src_node e)) eqn:Hp; [by left|right].
    apply list_elem_of_filter. split.
    + apply Hk; [done|]. apply not_true_iff_false. intros Hs%(wf_sink _ Hwf). by rewrite Hs, elem_of_nil in Ho.
    + eapply Hord; [done|]. by apply (list_elem_of_fmap_2 src_node).
  - intros n e Hn He. destruct (is_output g (dst_node e)) eqn:Ho; [by left|right].
    destruct (Hneed n e Hn He) as (o & Hoo & Hr). apply list_elem_of_filter. split; [|by eapply Hall].
    apply Hk; [|done]. apply not_true_iff_false. intros Hp%(wf_leaf _ Hwf).
    apply list_elem_of_filter in Hn as [Hn _]. destruct (wf_out _ Hwf n e ltac:(unfold is_placeholder; by rewrite Hn) He) as (_ & _ & Hi). by rewrite Hp, elem_of_nil in Hi.
Qed.


(** ** The policy of a function *)

(** [_init_with_prim_func]: the graph of one function with [k] input buffers. *)
Definition init_with_prim_func (k : nat) : res (graph * list nat) :=
  let '(g, f, n) := PrimFuncNode k ∅ 0 in
  '(g', _, o) ← OutputNode n 0 g f;
  Ok (g', [o]).

Lemma init_built k : ∃ g f,
  init_with_prim_func k = Ok (g, [f]) ∧ built g (S f) ∧ operator g 0 ∧ is_output g f = true ∧
  is_Some (g !! f) ∧ sources g f = [0%nat] ∧ outputs g 0 = [MkEdge 0 f 0 0] ∧
  (∀ n, is_Some (g !! n) → n = 0%nat ∨ n = f ∨ is_placeholder g n = true).
Proof.
  unfold init_with_prim_func, PrimFuncNode.
  destruct (connect_sound k 0 _ 1 0 (sound_new ∅ 0 KPrimFunc (built_sound _ _ built_empty)))
    as (g & E & S & O & Ho & Hn).
  { split; [apply some_insert; by left|]. by rewrite node_insert, decide_True. }
  rewrite E. unfold OutputNode. rewrite bool_decide_true by apply O. eexists _, _. split; [done|].
  pose proof (adds_sink g (1 + k) 0 0 (s_below _ _ S) O) as A. cbv zeta in A.
  split_and!.
  - eapply (built_output g (1 + k) 0 0);
      [|apply O|unfold OutputNode; by rewrite bool_decide_true by apply O]. eapply (built_prim_func ∅ 0 k); [apply built_empty|].
    unfold PrimFuncNode. by rewrite E.
  - destruct O as [Hs Hk]. destruct (a_old _ _ _ A 0%nat Hs) as [? Hk']. split; [done|]. by rewrite Hk'.
  - by node_cases.
  - apply some_insert. by left.
  - unfold sources. by node_cases.
  - unfold outputs. rewrite node_insert, decide_False, node_insert, decide_True by done. simpl. fold (outputs g 0).
    by rewrite Ho.
  - intros n. rewrite !some_insert. intros [->|[->|Hp]]; [by right; left|by left|].
    destruct (Hn n Hp) as [[->|[]%is_Some_None]%some_insert|Hpl]; [by left|]. right; right.
    unfold is_placeholder. by rewrite (proj2 (a_old _ _ _ A n Hp)).
Qed.

Lemma reaches_present g n x : wf_graph g → is_Some (g !! n) → reaches (sources g) n x → is_Some (g !! x).
Proof. intros W Hn Hr. induction Hr as [|n m x Hm _ IH]; [done|]. by apply IH, (sources_source g n m W Hm). Qed.

Lemma NoDup_only (l : list nat) a : NoDup l → (∀ x, x ∈ l ↔ x = a) → l = [a].
Proof.
  intros Hnd Hl. apply Permutation_singleton_r. apply NoDup_Permutation; [done|apply NoDup_singleton|].
  intros x. by rewrite Hl, list_elem_of_singleton.
Qed.

Lemma for_each_skip {S A} (l : list A) (body : A → prog S unit) s :
  (∀ x, x ∈ l → body x s = (Ok tt, s)) → for_each l body s = (Ok tt, s).
Proof.
  induction l as [|x l IH]; intros H; simpl; [done|]. unfold mbind, prog_bind. rewrite H by (by left).
  apply IH. intros; apply H; by right.
Qed.

(** The bytes of the first node, given back at once. *)
Lemma malloc_free_init z : ∃ i s1 s2,
  on_alloc (malloc z) (Mem (init 32) ∅ ∅) = (Ok i, s1) ∧ on_alloc (free i) s1 = (Ok tt, s2) ∧
  limit (allocator s2) = BestFit.round_up z 32 ∧ block_map s2 = ∅.
Proof. eexists _, _, _. split; [reflexivity|]. split; [reflexivity|]. by split. Qed.

Lemma init_usage k internal out_bytes mul :
  ∃ g outs, init_with_prim_func k = Ok (g, outs) ∧
  ordered_nodes g outs = Some [0%nat] ∧ output_nodes g [0%nat] = [0%nat] ∧
  compute_shared_memory_usage g out_bytes internal (Some mul) [0%nat] =
    Ok (num_mul (PyInt (BestFit.round_up (internal 0%nat) 32)) mul).
Proof.
  destruct (init_built k) as (g' & f & -> & [W C B]%built_sound & [H0 Hk] & Hf & Hpf & Hs & Ho & Hall).
  exists g', [f]. split_and!; [done|..].
  - destruct (topo_sorted g' [f] W C) as (t & Ht & Hnd & _ & Hin); [by intros n ->%list_elem_of_singleton|].
    destruct (topo_sort_spec g' [f] W) as (t' & Ht' & _ & Hr & _); [by intros n ->%list_elem_of_singleton|].
    rewrite Ht in Ht'. injection Ht' as <-. unfold ordered_nodes. rewrite Ht. simpl. f_equal.
    apply NoDup_only; [by apply NoDup_filter|]. intros x. rewrite list_elem_of_filter. split.
    + intros [Hx (n & ->%list_elem_of_singleton & Hrx)%Hr].
      destruct (Hall x (reaches_present _ _ _ W Hpf Hrx)) as [->|[->|Hp]]; [done|..].
      * unfold is_output in Hf. by rewrite Hx in Hf.
      * unfold is_placeholder in Hp. by rewrite Hx in Hp.
    + intros ->. split; [done|]. apply (Hin f); [by left|]. apply rtc_once. rewrite Hs. by left.
  - unfold output_nodes. rewrite filter_cons_True; [done|]. rewrite Ho. simpl. by rewrite Hf.
  - assert (∀ e s, e ∈ inputs g' 0 → free_input g' e s = (Ok tt, s)) as Hin.
    { intros e s He. destruct (wf_in _ W _ _ He) as (_ & Hp & Heo). unfold free_input, get, mbind, prog_bind.
      destruct (Hall _ Hp) as [E|[E|E]]; [..|by rewrite E].
      - destruct C as [rank Hrk]. pose proof (Hrk 0%nat 0%nat ltac:(rewrite <- E at 1; by apply (list_elem_of_fmap_2 src_node))). lia.
      - rewrite E, (wf_sink _ W f Hf) in Heo. by apply elem_of_nil in Heo. }
    assert (∀ e s, e ∈ outputs g' 0 → alloc_output g' out_bytes 0 e s = (Ok tt, s)) as Hout.
    { intros e s. rewrite Ho. intros ->%list_elem_of_singleton. unfold alloc_output, get, mbind, prog_bind. simpl.
      by rewrite Hf. }
    destruct (malloc_free_init (internal 0%nat)) as (i & s1 & s2 & E1 & E2 & Hl & Hb).
    unfold compute_shared_memory_usage. cbn [for_each]. unfold alloc_node. cbv [mbind prog_bind modify mret prog_ret].
    rewrite E1, E2, for_each_skip, for_each_skip by auto. simpl. by rewrite Hl, Hb, bool_decide_true.
Qed.

(** For a policy made from a function the operators are the function alone, it
    is an output node, and the reported usage is exactly its own bytes rounded up to
    the 32 bytes of the allocator, times the factor. *)
Theorem prim_func_usage k internal out_bytes mul :
  ∃ g outs, init_with_prim_func k = Ok (g, outs) ∧
  ordered_nodes g outs = Some [0%nat] ∧ output_nodes g [0%nat] = [0%nat] ∧
  compute_shared_memory_usage g out_bytes internal (Some mul) [0%nat] =
    Ok (num_mul (PyInt (BestFit.round_up (internal 0%nat) 32)) mul).
Proof. apply init_usage. Qed.

(** ** Graphs the function fails on *)

(** One operator that reads two outputs of another, both the same. *)
Definition squared : graph := list_to_map [
  (0%nat, MkNode KPrimFunc [] [MkEdge 0 1 0 0; MkEdge 0 1 0 1]);
  (1%nat, MkNode KPrimFunc [MkEdge 0 1 0 0; MkEdge 0 1 0 1] [MkEdge 1 2 0 0]);
  (2%nat, MkNode KOutput [MkEdge 1 2 0 0] [])].

(** An output that is delivered and read by another operator. *)
Definition reused : graph := list_to_map [
  (0%nat, MkNode KPrimFunc [] [MkEdge 0 1 0 0; MkEdge 0 3 0 0]);
  (1%nat, MkNode KPrimFunc [MkEdge 0 1 0 0] [MkEdge 1 2 0 0]);
  (2%nat, MkNode KOutput [MkEdge 1 2 0 0] []);
  (3%nat, MkNode KOutput [MkEdge 0 3 0 0] [])].

Lemma shared_memory_fails :
  compute_shared_memory_usage squared (λ _ _, 64) (λ _, 64) (Some (PyInt 1)) [0; 1]%nat = Raise KeyError ∧
  compute_shared_memory_usage reused (λ _ _, 64) (λ _, 64) (Some (PyInt 1)) [0; 1]%nat = Raise AssertionError ∧
  compute_shared_memory_usage GraphEx.flash (λ _ _, 64) (λ _, 64) None [0; 3]%nat = Raise AttributeError.
Proof. by vm_compute. Qed.

(** ** Witness *)
Module SmemUsageEx.
Import GraphEx.

End SmemUsageEx.
