(* ===== verification/RollerPolicy.v ===== *)
(** * Operators and tiles of the roller

    The analyses of an operator in [src/tilelang/carver/roller/node.py], the
    strides of [hint.py], and of the policies ([policy/default.py], [ascend.py])
    what a tile costs and the tile search.  A policy that works is made from one
    function: [from_output_nodes] leaves out an attribute that every cost reads
    ([SmemUsage.shared_memory_fails]).  So the policy has one operator, which is
    the node 0 of [SmemUsage.init_with_prim_func].

    Shape inference is a parameter here; [ShapeTotal.inference_implements] gives
    the code's own for it.  A dict keyed by the reduction axes is the list of its values in
    the order of the axes. *)
From stdpp Require Import base strings gmap numbers sorting list.
From Stdlib Require Import SpecFloat QArith.
From S2P Require Import Prelude BestFit Factors Graph SmemUsage TileSearch.
#[local] Open Scope Z_scope.

(** ** Strides ([hint.py]) *)

Record Stride := MkStride { stride : Z; ax : Z }.

Definition Stride_default : Stride := MkStride 1 (-1).

Definition Stride_is_valid (s : Stride) : bool := 0 <=? ax s.

Definition compute_elements_from_shape (s : Stride) (shape : list Z) : res Z :=
  let original_shape := prod shape in
  if negb (Stride_is_valid s) then Ok original_shape
  else
    py_assert (ax s <? len shape);;
    let strided_elem := prod (take (Z.to_nat (ax s + 1)) shape) * stride s in
    py_assert (original_shape <=? strided_elem);;
    Ok strided_elem.

(** The loop from the last dimension but one down to the first: [i] is the
    position, [rest] the strides of the later dimensions. *)
Fixpoint strides_from (s : Stride) (i : Z) (shape : list Z) : list Z :=
  match shape with
  | [] => []
  | [_] => [1]
  | _ :: ((d :: _) as shape') =>
      let rest := strides_from s (i + 1) shape' in
      (if i =? ax s then stride s else default 1 (head rest) * d) :: rest
  end.

Definition compute_strides_from_shape (s : Stride) (shape : list Z) : list Z := strides_from s 0 shape.

(** ** Operators ([node.py]) *)

Record Buffer := MkBuffer { name : string; shape : list Z; bits : Z }.

#[export] Instance Buffer_eq_dec : EqDecision Buffer.
Proof. solve_decision. Defined.

(** A TIR block: the buffer it writes first, those it reads, whether it reduces,
    and the blocks that read its output. *)
Record TirBlock := MkTirBlock {
  output_buffer : Buffer;
  read_buffers : list Buffer;
  is_reduction : bool;
  consumers : list nat;
}.

(** What [_analysis_funcinfo] records of a function. *)
Record PrimFunc := MkPrimFunc {
  blocks : list TirBlock;
  reduction_block : option nat;
  raxis : list (string * Z);
  space_dim : list Z;
  input_buffers : list Buffer;
  output_buffers : list Buffer;
}.

(** [set_dtype] stores [bool] as [int8]. *)
Definition dtype_bits (b : Buffer) : Z := if bits b =? 1 then 8 else bits b.

Definition nbytes (z : Z) : Z := (z + 7) / 8.

(** [d[k]] of a dict. *)
Definition dict_get {A} (d : list (string * A)) (k : string) : res A :=
  or_raise KeyError ((list_to_map d : gmap string A) !! k).

Section node.
Context (f : PrimFunc).
(** [self.ana.infer(shape, rstep, targets)]: the shapes of the targets (of all
    buffers without targets) for a tile and the steps of some axes, and the names
    bound to an intermediate. *)
Context (infer : list Z → list (string * Z) → option (list string) → list (string * list Z) * list string).

Definition args : list Buffer := input_buffers f ++ output_buffers f.

(** The dict of the steps of the axes. *)
Definition axis_steps (rstep : list Z) : list (string * Z) := zip (raxis f).*1 rstep.

Definition propagate_inputs (tile rstep : list Z) : res (list (list Z)) :=
  let targets := name <$> input_buffers f in
  let '(shapes, intermediate_bind) := infer tile (axis_steps rstep) (Some targets) in
  mmap (λ arg,
    s ← dict_get shapes (name arg);
    if bool_decide (name arg ∈ intermediate_bind) then Ok s
    else Ok (zip_with Z.min s (shape arg))) (input_buffers f).

(** The trimming takes the shape of the input buffer of the same position. *)
Definition propagate_outputs (tile rstep : list Z) : res (list (list Z)) :=
  let targets := name <$> output_buffers f in
  let '(shapes, _) := infer tile (axis_steps rstep) (Some targets) in
  mmap (λ '(i, arg),
    s ← dict_get shapes (name arg);
    b ← py_index (input_buffers f) i;
    Ok (zip_with Z.min s (shape b))) (zip (seqZ 0 (len (output_buffers f))) (output_buffers f)).

Definition reduction_inputs : list Buffer :=
  match reduction_block f with
  | None => []
  | Some r => default [] (read_buffers <$> blocks f !! r)
  end.

Definition propagate_reduction_inputs (tile rstep : list Z) : list (string * list Z) :=
  match reduction_block f with
  | None => []
  | Some _ => (infer tile (axis_steps rstep) (Some (name <$> reduction_inputs))).1
  end.

Definition get_reduce_inputs_dtype : list (string * Z) := (λ b, (name b, bits b)) <$> reduction_inputs.

(** [pre_order_traverse] from the reduction block along its consumers: the same
    recursion as that of the topological sort. *)
Definition reduce_dependent_blocks (r : nat) : option (list nat) :=
  snd <$> topo_sort_dfs (λ b, default [] (consumers <$> blocks f !! b)) (S (length (blocks f))) r (∅, []).

Definition is_after_reduce_stage (b : nat) : option bool :=
  match reduction_block f with
  | None => Some false
  | Some r => deps ← reduce_dependent_blocks r; Some (negb (bool_decide (b ∈ deps)))
  end.

Definition is_broadcast_pattern (shapes : list (string * list Z)) (b out : Buffer) : res bool :=
  if negb (bool_decide (b ∈ args)) then Ok false
  else
    so ← dict_get shapes (name out);
    sb ← dict_get shapes (name b);
    Ok ((length sb <? length so)%nat && (prod sb <? prod so)).

(** One buffer read by block [i]; the accumulator is [result] and
    [cached_tensor]. *)
Definition footprint_buffer (shapes : list (string * list Z)) (stride_map : list (string * Stride))
    (after : bool) (blk : TirBlock) (acc : Z * list string) (b : Buffer) : res (Z * list string) :=
  let '(result, cached) := acc in
  cache ← (if bool_decide (name b ∈ cached) then Ok false
           else bc ← is_broadcast_pattern shapes b (output_buffer blk); Ok (bc || is_reduction blk));
  if negb cache then Ok acc
  else if after then Ok (result, cached ++ [name b])
  else
    s ← dict_get shapes (name b);
    num_elem ← (match (list_to_map stride_map : gmap string Stride) !! name b with
                | Some st => compute_elements_from_shape st s
                | None => Ok (prod s)
                end);
    let buffer_len := num_elem * nbytes (bits b) in
    Ok (result + (buffer_len + 31) / 32 * 32, cached ++ [name b]).

(** The blocks dependent on the reduction are found first; a traversal that runs
    out of fuel would be [RuntimeError], see [reduce_dependent_total]. *)
Definition footprint (tile rstep : list Z) (stride_map : list (string * Stride)) : res (Z * list string) :=
  let '(shapes, _) := infer tile (axis_steps rstep) None in
  mfold (λ acc '(i, blk),
    after ← or_raise RuntimeError (is_after_reduce_stage i);
    mfold (footprint_buffer shapes stride_map after blk) acc (read_buffers blk))
    (0, []) (imap pair (blocks f)).
End node.

(** ** Chips and policies ([npu_arch.py], the constructors of the policies) *)

Record ChipSpec := MkChip { cores : Z; UB : Z; L1 : Z; L0A : Z; L0B : Z; L0C : Z; L2 : Z; cube : list Z }.

Definition CHIP_SPECS : list (string * ChipSpec) := [
  ("Ascend910A", MkChip 32 (256 * 1024) (1024 * 1024) (64 * 1024) (64 * 1024) (256 * 1024) (16 * 1024 * 1024) [16; 16; 16]);
  ("Ascend910B", MkChip 30 (192 * 1024) (1024 * 1024) (64 * 1024) (64 * 1024) (512 * 1024) (16 * 1024 * 1024) [16; 16; 16]);
  ("Ascend950", MkChip 24 (248 * 1024) (512 * 1024) (64 * 1024) (64 * 1024) (256 * 1024) (112 * 1024 * 1024) [16; 16; 16])]%string.

Definition DEFAULT_CHIP : string := "Ascend910B".

Record AscendArch := MkArch {
  chip_name : string;
  compute_max_core : Z;
  ub_cap : Z; l1_cap : Z; l0a_cap : Z; l0b_cap : Z; l0c_cap : Z;
  cube_spec : list Z;
  transaction_size : Z * Z;
}.

(** [AscendArch.__init__]; [detected] is the number of cube cores the device
    reports, if there is one. *)
Definition AscendArch_init (chip : string) (detected : option Z) : res AscendArch :=
  let chip := if bool_decide (chip ∈ CHIP_SPECS.*1) then chip else DEFAULT_CHIP in
  spec ← dict_get CHIP_SPECS chip;
  Ok (MkArch chip (default (cores spec) detected) (UB spec) (L1 spec) (L0A spec) (L0B spec) (L0C spec)
        (cube spec) (32, 32)).

Definition is_cube_supported_precision (in_dtype accum_dtype : string) (arch : AscendArch) : bool :=
  bool_decide (chip_name arch ∈ ["Ascend910A"; "Ascend910B"; "Ascend310P"]%string) &&
  (bool_decide (in_dtype ∈ ["float16"; "bfloat16"]%string) &&
   bool_decide (accum_dtype ∈ ["float16"; "bfloat16"; "float32"]%string)).

(** [ARCH_MAP]: the class of an architecture, by the prefix of the device name. *)
Inductive arch_class := AscendArch910B | AscendArch910_95 | AscendArchBase.

Definition ARCH_MAP : list (string * arch_class) :=
  [("Ascend910B", AscendArch910B); ("Ascend910_95", AscendArch910_95)]%string.

Definition get_arch_obj (device_name : string) (detected : option Z) : res (arch_class * AscendArch) :=
  let cls := default AscendArchBase (snd <$> List.find (λ '(p, _), String.prefix p device_name) ARCH_MAP) in
  arch ← AscendArch_init device_name detected;
  Ok (cls, arch).

(** ** What a tile costs *)

(** The reduction steps, the cost and the validity of a tile. *)
Record TileDict := MkTileDict {
  output_tile : list Z;
  tile_map : list Z;
  rstep_map : list Z;
  traffic : float;
  smem_cost : num;
  cached_tensors : list string;
  grid_size : Z;
  num_wave : Z;
  td_valid : bool;
}.

(** The methods of a policy that its other methods call and its subclasses
    override: the candidates for the steps of the axes, and the bytes the operator
    needs for a tile and steps, with the tensors it caches. *)
Record Methods := MkMethods {
  get_node_reduce_step_candidates : option (list (list Z));
  infer_node_smem_usage : list Z → list Z → res (Z * list string);
}.

(** [sum] of floats and the float of an exact quotient. *)
Definition f_of_Q (q : Q) : float := SFdiv 53 1024 (f_exact (Qnum q)) (f_exact (Zpos (Qden q))).

Section policy.
Context `{NumPy} (arch : AscendArch) (f : PrimFunc) (custom_mem_mul : num).
Context (infer : list Z → list (string * Z) → option (list string) → list (string * list Z) * list string).
Context (M : Methods).

Definition ub_capacity : Z := ub_cap arch.
Definition num_ai_cores : Z := compute_max_core arch.

(** [_get_output_tile_map] for the one output node. *)
Definition output_tile_map (tile : list Z) : res (list Z) :=
  mmap (λ '(i, t),
    d ← py_index (space_dim f) i;
    py_floordiv (t * d) d) (zip (seqZ 0 (len tile)) tile).

(** The traffic of one buffer; [nb] are the bytes of an element. *)
Definition buffer_traffic (acc : float) (sub full : list Z) (nb transaction : Z) : res float :=
  elements ← py_floordiv transaction nb;
  q ← coalesced_tensor_shape sub full elements;
  Ok (f_add acc (f_mul (f_of_Q q) (f_of_Z nb))).

(** [_compute_memory_traffic]: the placeholders have the shapes and types of the
    input buffers, the output node reads output 0. *)
Definition compute_memory_traffic (tile : list Z) : res (float * list Z) :=
  op_tile ← output_tile_map tile;
  input_shapes ← propagate_inputs f infer op_tile [];
  output_shapes ← propagate_outputs f infer op_tile [];
  t ← mfold (λ acc '(i, b),
        s ← py_index input_shapes i;
        buffer_traffic acc s (shape b) (nbytes (dtype_bits b)) (transaction_size arch).2)
      (f_of_Z 0) (zip (seqZ 0 (len (input_buffers f))) (input_buffers f));
  out ← py_index (output_buffers f) 0;
  s ← py_index output_shapes 0;
  t ← buffer_traffic t s (shape out) (nbytes (dtype_bits out)) (transaction_size arch).1;
  Ok (t, op_tile).

(** [_compute_shared_memory_usage] on the graph of the function. *)
Definition shared_memory_usage (tile rstep : list Z) : res (num * list string) :=
  '(internal, cached) ← infer_node_smem_usage M tile rstep;
  '(g, _) ← init_with_prim_func (length (input_buffers f));
  cost ← compute_shared_memory_usage g (λ _ _, 0) (λ _, internal) (Some custom_mem_mul) [0%nat];
  Ok (cost, cached).

(** [AscendDefaultPolicy.compute_tile_dict], with the capacity that bounds the
    cost of a tile. *)
Definition compute_tile_dict (capacity : Z) (tile rstep : list Z) : res TileDict :=
  '(t, tm) ← compute_memory_traffic tile;
  '(cost, cached) ← shared_memory_usage tm rstep;
  if num_gtb cost capacity then Ok (MkTileDict tile tm rstep t cost cached (-1) (-1) false)
  else
    pairs ← zip_strict tile (space_dim f);
    blocks ← mmap (λ '(x, y), py_floordiv (y + x - 1) x) pairs;
    waves ← py_truediv (prod blocks) num_ai_cores;
    Ok (MkTileDict tile tm rstep t cost cached (prod blocks) (f_ceil waves) true).

(** ** The search of the Ascend policy *)

Definition f_tenth : float := SFdiv 53 1024 (f_exact 1) (f_exact 10).

Definition prio (td : TileDict) : float :=
  let traffic_score := f_add (traffic td) (f_of_Z 1) in
  let alignment_bonus :=
    foldl (λ bonus t, if t mod 16 =? 0 then f_mul bonus f_tenth else bonus) (f_of_Z 1) (output_tile td) in
  f_mul (f_mul traffic_score (f_of_Z (num_wave td))) alignment_bonus.

(** [step[step.index(t):]] for every dimension. *)
Definition factor_steps (init_tile : list Z) : res (list (list Z)) :=
  pairs ← zip_strict (get_all_factors <$> space_dim f) init_tile;
  mmap (λ '(step, t), i ← py_find t step; Ok (py_from step i)) pairs.

Definition simd_friendly_sizes : list Z := [16; 32; 64; 128; 256; 512].

(** [sorted] of a list of ints. *)
Definition sorted_ints (l : list Z) : list Z := merge_sort Z.le l.

Definition added_sizes (step : list Z) (first last : Z) : list Z :=
  List.filter (λ s, (s <? last * 2) && (first <? s) && negb (bool_decide (s ∈ step))) simd_friendly_sizes.

Definition add_simd_sizes (step : list Z) : res (list Z) :=
  first ← py_index step 0;
  last ← py_index step (-1);
  Ok (sorted_ints (step ++ added_sizes step first last)).

(** [calc_numel_threshold]: the largest tile, whether the kernel is tiny, and the
    size below which further hints are dropped. *)
Record thresholds := MkThresholds { max_numel_threshold : Z; tiny_kernel : bool; stop_numel : Z }.

Definition calc_numel_threshold (steps : list (list Z)) : res thresholds :=
  out ← py_index (output_buffers f) 0;
  let dtype_bytes := nbytes (dtype_bits out) in
  max_numel ← py_floordiv ub_capacity dtype_bytes;
  lasts ← mmap (λ step, py_index step (-1)) steps;
  let max_total_numel := prod lasts in
  let tiny := max_total_numel <? 128 * 1024 in
  small ← py_floordiv 1024 dtype_bytes;
  stop ← (if tiny then share ← py_floordiv max_total_numel (num_ai_cores * 2); Ok (Z.min small share) else Ok small);
  Ok (MkThresholds max_numel tiny stop).

(** [dfs_smem_tile]: the thresholds it sets and the tiles it returns. *)
Definition dfs_smem_tile (capacity : Z) (init_tile rstep : list Z) : option (res (thresholds * list TileDict)) :=
  match (steps ← factor_steps init_tile; th ← calc_numel_threshold steps; steps' ← mmap add_simd_sizes steps; Ok (th, steps')) with
  | Raise e => Some (Raise e)
  | Ok (th, steps) =>
      r ← search_tiles (λ tile, compute_tile_dict capacity tile rstep) td_valid prio steps init_tile;
      Some (l ← r; Ok (th, l))
  end.

(** ** Reduction steps *)

(** Powers of two up to the extent; [None] when the fuel runs out. *)
Fixpoint powers_of_two (fuel : nat) (last extent : Z) : option (list Z) :=
  match fuel with
  | O => None
  | S fuel' => if last <? extent then (last ::.) <$> powers_of_two fuel' (last * 2) extent else Some [last]
  end.

Definition step_candidates (extent : Z) : option (list Z) :=
  let all_factors := get_all_factors extent in
  if (len all_factors =? 2) && (64 <? extent) then powers_of_two (S (Z.to_nat extent)) 1 extent
  else Some all_factors.

(** [DefaultPolicy.get_node_reduce_step_candidates]. *)
Definition factor_candidates : option (list (list Z)) := mapM step_candidates (raxis f).*2.

(** [{k: all_steps[k][rstep_id[k]] for k in rstep_id}]. *)
Definition steps_at (all_steps : list (list Z)) (ids : list nat) : res (list Z) :=
  mmap (λ '(steps, i), or_raise IndexError (steps !! i)) (zip all_steps ids).

(** The indices with one axis moved on, in the order of the axes. *)
Definition enlargements (all_steps : list (list Z)) (ids : list nat) : list (list nat) :=
  omap (λ ax,
    steps ← all_steps !! ax; id ← ids !! ax;
    if (S id =? length steps)%nat then None else Some (<[ax := S id]> ids)) (seq 0 (length ids)).

(** [max(candidates, key=lambda x: x[1])]: the first one of the greatest score. *)
Definition max_by {A B} (ltb : B → B → bool) (first : A * B) (rest : list (A * B)) : A * B :=
  foldl (λ best c, if ltb best.2 c.2 then c else best) first rest.

(** [_assign_reduce_step] of [ascend.py]. *)
Definition dma_alignment : Z := 32.

Definition assign_score (all_steps : list (list Z)) (ids : list nat) : res float :=
  rstep ← steps_at all_steps ids;
  shapes ← propagate_inputs f infer (replicate (length (space_dim f)) 1) rstep;
  mfold (λ score '(i, b),
    s ← py_index shapes i;
    let innermost := default 1 (last s) in
    let dma_score := if (innermost * nbytes (bits b)) mod dma_alignment =? 0 then f_of_Z 1
                     else SFdiv 53 1024 (f_exact 1) (f_exact 2) in
    c ← coalesced_factor s (shape b);
    Ok (f_add score (f_mul dma_score (f_of_Z c))))
    (f_of_Z 0) (zip (seqZ 0 (len (input_buffers f))) (input_buffers f)).

(** The loop of at most [n] iterations. *)
Fixpoint assign_loop (n : nat) (all_steps : list (list Z)) (ids : list nat) (score : float) : res (list nat) :=
  match n with
  | O => Ok ids
  | S n' =>
      own ← assign_score all_steps ids;
      rest ← mmap (λ c, s ← assign_score all_steps c; Ok (c, s)) (enlargements all_steps ids);
      let '(new_ids, new_score) := max_by SFltb (ids, own) rest in
      if SFleb new_score score then Ok ids else assign_loop n' all_steps new_ids new_score
  end.

Definition assign_reduce_step : option (res (list Z)) :=
  match reduction_block f with
  | None => Some (Ok [])
  | Some _ =>
      if bool_decide (raxis f = []) then Some (Ok [])
      else
        all_steps ← get_node_reduce_step_candidates M;
        let ids := replicate (length (raxis f)) 0%nat in
        Some (score ← assign_score all_steps ids;
              ids' ← assign_loop 100 all_steps ids score;
              steps_at all_steps ids')
  end.

(** [_expand_reduce_axis]: the steps grow while the cost stays within the
    buffer. *)
Definition expand_score (tile : list Z) (all_steps : list (list Z)) (ids : list nat) : res Z :=
  rstep ← steps_at all_steps ids;
  shapes ← propagate_inputs f infer tile rstep;
  mfold (λ score '(i, b), s ← py_index shapes i; c ← coalesced_factor s (shape b); Ok (score + c))
    0 (zip (seqZ 0 (len (input_buffers f))) (input_buffers f)).

(** One more step for the axis of the greatest score. *)
Definition expand_enlarge (score : list nat → res Z) (all_steps : list (list Z)) (ids : list nat) : res (option (list nat)) :=
  candidates ← mmap (λ c, s ← score c; Ok (c, s)) (enlargements all_steps ids);
  match candidates with
  | [] => Ok None
  | c :: cs => Ok (Some (max_by Z.ltb c cs).1)
  end.

Fixpoint expand_loop (score : list nat → res Z) (usage : list Z → res (num * list string)) (limit : Z)
    (fuel : nat) (all_steps : list (list Z)) (ids : list nat) : option (res (list nat)) :=
  match fuel with
  | O => None
  | S fuel' =>
      match expand_enlarge score all_steps ids with
      | Raise e => Some (Raise e)
      | Ok None => Some (Ok ids)
      | Ok (Some new_ids) =>
          match (rstep ← steps_at all_steps new_ids; usage rstep) with
          | Raise e => Some (Raise e)
          | Ok (n, _) => if num_gtb n limit then Some (Ok ids) else expand_loop score usage limit fuel' all_steps new_ids
          end
      end
  end.

(** The candidates that are multiples of the current step; [rstep[k]] raises for
    an axis without a step. *)
Definition multiples (all_steps : list (list Z)) (rstep : list Z) : res (list (list Z)) :=
  if negb (length all_steps =? length rstep)%nat then Raise KeyError
  else
    mmap (λ '(steps, r), if r =? 0 then (if bool_decide (steps = []) then Ok [] else Raise ZeroDivisionError)
                         else Ok (List.filter (λ x, x mod r =? 0) steps)) (zip all_steps rstep).

Definition optimize (score : list (list Z) → list nat → res Z) (usage : list Z → res (num * list string)) (limit : Z)
    (rstep : list Z) : option (res (list Z)) :=
  candidates ← get_node_reduce_step_candidates M;
  match multiples candidates rstep with
  | Raise e => Some (Raise e)
  | Ok all_steps =>
      if existsb (λ steps, bool_decide (steps = [])) all_steps then Some (Ok rstep)
      else
        match mmap (λ '(steps, r), i ← py_find r steps; Ok (Z.to_nat i)) (zip all_steps rstep) with
        | Raise e => Some (Raise e)
        | Ok ids =>
            r ← expand_loop (score all_steps) usage limit (S (sum_list (length <$> all_steps))) all_steps ids;
            Some (ids' ← r; steps_at all_steps ids')
        end
  end.

(** The tile dict with other steps and their cost. *)
Definition with_rstep (td : TileDict) (rstep : list Z) : res TileDict :=
  '(cost, cached) ← shared_memory_usage (tile_map td) rstep;
  Ok (MkTileDict (output_tile td) (tile_map td) rstep (traffic td) cost cached (grid_size td) (num_wave td) (td_valid td)).

Definition expand_reduce_axis (td : TileDict) : option (res TileDict) :=
  r ← (if bool_decide (raxis f = []) then Some (Ok (rstep_map td))
       else optimize (expand_score (tile_map td)) (shared_memory_usage (tile_map td)) ub_capacity (rstep_map td));
  Some (rstep ← r; with_rstep td rstep).

(** ** Hints *)

Record Hint := MkHint {
  block : list Z;
  thread : list Z;
  rstep : list Z;
  reduce_thread : list Z;
  hint_cached : list string;
  vectorize : list (string * Z);
  warp : list Z;
  use_tc : bool;
  pipeline_stage : Z;
  block_reduction_depth : option Z;
  merge_static_smem : option bool;
}.

(** [_plan_vectorize_simd]; the width is compared with bits. *)
Definition simd_width : Z := 32.

Definition is_aligned (s : list Z) (factor : Z) : bool := prod s mod factor =? 0.

Definition is_dma_aligned (dtype_bytes vec : Z) : res bool :=
  let access_bytes := dtype_bytes * vec in
  if access_bytes mod dma_alignment =? 0 then Ok true
  else r ← py_mod dma_alignment access_bytes; Ok (r =? 0).

Definition is_type_allowed (dtype vec : Z) : bool := dtype * vec <=? simd_width.

Fixpoint vector_size (s : list Z) (dtype : Z) (sizes : list Z) : res Z :=
  match sizes with
  | [] => Ok 1
  | v :: sizes' =>
      ok ← (if is_aligned s v then is_dma_aligned (nbytes dtype) v else Ok false);
      if ok && is_type_allowed dtype v then Ok v else vector_size s dtype sizes'
  end.

Definition plan_vectorize_simd (tile rs : list Z) : res (list (string * Z)) :=
  mmap (λ '(tensor, s),
    dtype ← dict_get (get_reduce_inputs_dtype f) tensor;
    v ← vector_size s dtype [16; 8; 4; 2; 1];
    Ok (tensor, v)) (propagate_reduction_inputs f infer tile rs).

Definition assign_block_size (td : TileDict) : res Hint :=
  let tile := tile_map td in
  rsteps ← mmap (λ '(i, _), or_raise KeyError (rstep_map td !! i)) (imap pair (raxis f));
  v ← plan_vectorize_simd tile (rstep_map td);
  Ok (MkHint tile (replicate (length tile) 1) rsteps (replicate (length (raxis f)) 1) (cached_tensors td) v
        [] false 1 None None).

(** [check_tile_shape_isvalid]. *)
Definition check_tile_shape_isvalid (td : TileDict) : bool :=
  if num_gtb (smem_cost td) ub_capacity then false
  else negb (existsb (λ t, t <=? 0) (tile_map td)).

(** A policy: the methods above and those [emit_config] calls. *)
Record Policy := MkPolicy {
  methods : Methods;
  tile_buffer_capacity : Z;
  p_assign_reduce_step : option (res (list Z));
  p_check : TileDict → res bool;
  p_expand : TileDict → option (res TileDict);
  p_assign : TileDict → res (option Hint);
}.

(** The loop of [emit_config] over the candidates; [recommend_block_size] is the
    one size 1, so a tile gives one hint, or none when the assignment fails. *)
Fixpoint collect (P : Policy) (topk : Z) (tds : list TileDict) (results : list Hint) : option (res (list Hint)) :=
  match tds with
  | [] => Some (Ok results)
  | td :: tds' =>
      match p_check P td with
      | Raise e => Some (Raise e)
      | Ok false => collect P topk tds' results
      | Ok true =>
          r ← p_expand P td;
          match (td' ← r; p_assign P td') with
          | Raise e => Some (Raise e)
          | Ok h =>
              let results' := results ++ option_list h in
              if topk <=? len results' then Some (Ok results') else collect P topk tds' results'
          end
      end
  end.

Definition calculate_tile_numel (h : Hint) : Z := foldl Z.mul 1 (block h).

(** The last loop: hints that are too large, or too small once there are enough. *)
Definition verify_step (topk : Z) (th : thresholds) (verified : list Hint) (h : Hint) : list Hint :=
  let threshold := if (len verified <? topk / 2) || tiny_kernel th then 0 else stop_numel th + 128 in
  let n := calculate_tile_numel h in
  if (n <=? max_numel_threshold th) && (threshold <=? n) then verified ++ [h] else verified.

Definition verify_results (topk : Z) (th : thresholds) (results : list Hint) : list Hint :=
  foldl (verify_step topk th) [] results.

(** [get_base_tile] and the work per item it compares. *)
Definition compute_workload_per_item (tile : list Z) : res float :=
  op_tile ← output_tile_map tile;
  propagate_inputs f infer op_tile [];;
  py_truediv (prod op_tile) (prod tile).

Definition get_base_tile : res (list Z) :=
  let ones := replicate (length (space_dim f)) 1 in
  wpi ← compute_workload_per_item ones;
  r ← mfold (λ acc '(dim, n),
        let '(wpi, base_tile) := acc in
        t ← py_index base_tile dim;
        if n =? t then Ok acc
        else
          tile ← py_setitem base_tile dim n;
          new_wpi ← compute_workload_per_item tile;
          Ok (if SFltb new_wpi wpi then (new_wpi, tile) else acc))
      (wpi, ones) (zip (seqZ 0 (len (space_dim f))) (space_dim f));
  Ok r.2.

End policy.

Section emit.
Context `{NumPy} (arch : AscendArch) (f : PrimFunc) (custom_mem_mul : num).
Context (infer : list Z → list (string * Z) → option (list string) → list (string * list Z) * list string).

(** [emit_config] of a policy. *)
Definition emit_config (P : Policy) (topk : Z) : option (res (list Hint)) :=
  match get_base_tile f infer with
  | Raise e => Some (Raise e)
  | Ok base_tile =>
      r ← p_assign_reduce_step P;
      match r with
      | Raise e => Some (Raise e)
      | Ok rs =>
          r ← dfs_smem_tile arch f custom_mem_mul infer (methods P) (tile_buffer_capacity P) base_tile rs;
          match r with
          | Raise e => Some (Raise e)
          | Ok (th, tds) =>
              r ← collect P topk tds [];
              Some (results ← r; Ok (verify_results topk th results))
          end
      end
  end.

(** The policy for vector operations. *)
Definition AscendDefaultMethods : Methods :=
  MkMethods (factor_candidates f) (λ tile rstep, footprint f infer tile rstep []).

Definition AscendDefaultPolicy : Policy :=
  let M := AscendDefaultMethods in
  MkPolicy M (ub_capacity arch) (assign_reduce_step f infer M) (λ td, Ok (check_tile_shape_isvalid arch td))
    (expand_reduce_axis arch f custom_mem_mul infer M) (λ td, h ← assign_block_size f infer td; Ok (Some h)).
End emit.
