(* ===== verification/RollerHints.v ===== *)
(** * The hints of the Ascend policy

    The loops of [src/tilelang/carver/roller/policy/ascend.py] shared by its
    policies: that growing reduction steps terminates within the buffer and that
    hints are collected without an exception; and the addresses of a strided tile
    of [hint.py]. *)
From stdpp Require Import base strings gmap numbers sorting list.
From Stdlib Require Import SpecFloat QArith.
From S2P Require Import Prelude BestFit Factors Graph SmemUsage TileSearch RollerPolicy.
#[local] Open Scope Z_scope.

Notation positive := (Forall (λ t : Z, 0 < t)).

(** ** Generic totality *)

Lemma mmap_total {A B} (P : A → B → Prop) (g : A → res B) l :
  (∀ x, x ∈ l → ∃ y, g x = Ok y ∧ P x y) → ∃ k, mmap g l = Ok k ∧ Forall2 P l k.
Proof.
  induction l as [|x l IH]; intros Hg; simpl; [eexists; split; [done|constructor]|].
  destruct (Hg x) as (y & -> & Hy); [by left|]. destruct IH as (k & -> & Hk); [intros; apply Hg; by right|].
  eexists. split; [done|by constructor].
Qed.

Lemma mfold_total {A B} (g : B → A → res B) l b :
  (∀ c x, x ∈ l → ∃ c', g c x = Ok c') → ∃ b', mfold g b l = Ok b'.
Proof.
  revert b. induction l as [|x l IH]; intros b Hg; simpl; [eauto|].
  destruct (Hg b x) as [c' ->]; [by left|]. apply IH. intros; apply Hg; by right.
Qed.

Lemma mfold_total_inv {A B} (P : B → Prop) (g : B → A → res B) l b :
  P b → (∀ c x, x ∈ l → P c → ∃ c', g c x = Ok c' ∧ P c') → ∃ b', mfold g b l = Ok b' ∧ P b'.
Proof.
  revert b. induction l as [|x l IH]; intros b Hb Hg; simpl; [eauto|].
  destruct (Hg b x) as (c' & -> & Hc); [by left|done|]. apply IH; [done|]. intros; apply Hg; [by right|done].
Qed.

Lemma zip_seqZ_elem {A} (l : list A) i x :
  (i, x) ∈ zip (seqZ 0 (len l)) l → ∃ k : nat, i = Z.of_nat k ∧ l !! k = Some x.
Proof.
  intros (k & (y & z & E & Hy & Hz)%lookup_zip_with_Some)%list_elem_of_lookup_1. simplify_eq.
  exists k. apply lookup_seqZ in Hy as [-> _]. split; [lia|done].
Qed.

Lemma mfold_indexed {A B} (g : B → Z * A → res B) l b :
  (∀ c k x, l !! k = Some x → ∃ c', g c (Z.of_nat k, x) = Ok c') → ∃ b', mfold g b (zip (seqZ 0 (len l)) l) = Ok b'.
Proof.
  intros Hg. apply mfold_total. intros c [i x] (k & -> & Hk)%zip_seqZ_elem. eauto.
Qed.

(** ** Costs *)

(** A policy whose operators take whole lines of 32 bytes. *)
Class WholeLines (M : Methods) : Prop :=
  whole_lines tile rs n c : infer_node_smem_usage M tile rs = Ok (n, c) → (32 | n).

Section costs.
Context `{NumPy} (arch : AscendArch) (f : PrimFunc) (custom_mem_mul : num).
Context (infer : list Z → list (string * Z) → option (list string) → list (string * list Z) * list string).

(** Every cached buffer takes whole lines of 32 bytes. *)
Lemma footprint_lines tile rs st n c : footprint f infer tile rs st = Ok (n, c) → (32 | n).
Proof using Type.
  unfold footprint. destruct (infer tile _ None) as [shapes bound]. intros E.
  change ((32 | (n, c).1)). revert E. apply (mfold_inv (λ acc, (32 | acc.1))); [apply Z.divide_0_r|].
  intros acc [i blk] acc' Ha _ (after & _ & E)%bind_Ok. revert E.
  apply (mfold_inv (λ acc, (32 | acc.1))); [done|]. clear. intros [r cached] b acc' Ha _ E. unfold footprint_buffer in E.
  apply bind_Ok in E as ([] & _ & E); simpl in E; [|by simplify_eq].
  destruct after; [by simplify_eq|].
  apply bind_Ok in E as (s & _ & (m & _ & [= <-])%bind_Ok). simpl in *.
  apply Z.divide_add_r; [done|apply Z.divide_factor_r].
Qed.

#[export] Instance AscendDefaultMethods_lines : WholeLines (AscendDefaultMethods f infer).
Proof using Type. intros tile rs n c. apply footprint_lines. Qed.

Context (M : Methods) {L : WholeLines M}.

(** The simulated allocation adds nothing for a single operator. *)
Lemma shared_memory_usage_eq tile rs :
  shared_memory_usage f custom_mem_mul M tile rs =
  '(n, c) ← infer_node_smem_usage M tile rs; Ok (num_mul (PyInt n) custom_mem_mul, c).
Proof using L.
  unfold shared_memory_usage. destruct (infer_node_smem_usage M tile rs) as [[n c]|e] eqn:E; [|done]. cbn [mbind res_bind].
  destruct (init_usage (length (input_buffers f)) (λ _, n) (λ _ _, 0) custom_mem_mul) as (g & outs & -> & _ & _ & Hu).
  cbn [mbind res_bind]. rewrite Hu. cbn [mbind res_bind]. do 2 f_equal.
  assert (BestFit.round_up n 32 = n) as ->; [|done].
  destruct (whole_lines _ _ _ _ E) as [k ->]. unfold BestFit.round_up.
  replace (k * 32 + 32 - 1) with (31 + k * 32) by lia. rewrite Z.div_add by lia. change (31 / 32) with 0. lia.
Qed.

(** What a tile dict records of its tile. *)
Record priced (capacity : Z) (td : TileDict) : Prop := {
  p_cost : shared_memory_usage f custom_mem_mul M (tile_map td) (rstep_map td) = Ok (smem_cost td, cached_tensors td);
  p_tile : output_tile_map f (output_tile td) = Ok (tile_map td);
  p_valid : td_valid td = true ↔ num_gtb (smem_cost td) capacity = false;
}.

Lemma compute_tile_dict_priced capacity tile rs td :
  compute_tile_dict arch f custom_mem_mul infer M capacity tile rs = Ok td →
  priced capacity td ∧ output_tile td = tile ∧ rstep_map td = rs.
Proof using Type.
  unfold compute_tile_dict. intros ([t tm] & Ht & E)%bind_Ok. apply bind_Ok in E as ([cost cached] & Hc & E).
  assert (output_tile_map f tile = Ok tm) as Htm.
  { unfold compute_memory_traffic in Ht. apply bind_Ok in Ht as (op & Hop & Ht).
    repeat (apply bind_Ok in Ht as (? & _ & Ht)). by simplify_eq. }
  destruct (num_gtb cost capacity) eqn:Hgt.
  - injection E as <-. split; [|done]. split; simpl; [done|done|]. by rewrite Hgt.
  - repeat (apply bind_Ok in E as (? & _ & E)). injection E as <-. split; [|done]. split; simpl; [done|done|]. by rewrite Hgt.
Qed.

Lemma output_tile_map_id tile tm :
  Forall (λ d, 0 < d) (space_dim f) → output_tile_map f tile = Ok tm → tm = tile.
Proof using Type.
  intros Hd Hm%mmap_Ok.
  assert ((zip (seqZ 0 (len tile)) tile).*2 = tile) as Hz by (apply snd_zip; rewrite length_seqZ; unfold len; lia).
  rewrite <- Hz. apply list_eq_Forall2, Forall2_fmap_r, Forall2_flip. eapply Forall2_impl; [exact Hm|].
  intros [i t] y E. simpl in *. apply bind_Ok in E as (d & Hi & E).
  assert (0 < d) as Hd0.
  { apply py_index_Ok in Hi as [_ Hi]. rewrite Forall_forall in Hd. apply Hd. by eapply list_elem_of_lookup_2. }
  unfold py_floordiv in E. destruct (Z.eqb_spec d 0); [lia|]. injection E as <-. by rewrite Z.div_mul by lia.
Qed.

(** ** Growing the reduction steps *)

Lemma sum_list_insert (l : list nat) i x : l !! i = Some x → sum_list (<[i := S x]> l) = S (sum_list l).
Proof.
  revert i. induction l as [|y l IH]; intros [|i] Hi; simplify_eq/=; [lia|]. rewrite (IH i Hi). lia.
Qed.

(** Indices within their lists. *)
Definition in_range (all_steps : list (list Z)) (ids : list nat) : Prop :=
  Forall2 (λ (steps : list Z) i, (i < length steps)%nat) all_steps ids.

Lemma enlargements_spec all_steps ids c :
  in_range all_steps ids → c ∈ enlargements all_steps ids →
  in_range all_steps c ∧ sum_list c = S (sum_list ids).
Proof using Type.
  intros Hr (ax & _ & Hc)%list_elem_of_omap. destruct (all_steps !! ax) as [steps|] eqn:Es; [|done].
  destruct (ids !! ax) as [id|] eqn:Ei; [|done]. cbn [mbind option_bind] in Hc. destruct (Nat.eqb_spec (S id) (length steps)); [done|].
  injection Hc as <-. split; [|by apply sum_list_insert].
  pose proof (Forall2_lookup_lr _ _ _ _ _ _ Hr Es Ei) as Hlt. simpl in Hlt.
  unfold in_range. replace all_steps with (<[ax := steps]> all_steps) by (by apply list_insert_id).
  apply Forall2_insert; [done|]. lia.
Qed.

Lemma in_range_sum all_steps ids : in_range all_steps ids → (sum_list ids ≤ sum_list (length <$> all_steps))%nat.
Proof. unfold in_range. induction 1 as [|steps i all_steps ids Hi H' IH]; simpl in *; [done|]. apply Nat.add_le_mono; [lia|done]. Qed.

Lemma max_by_elem {A B} (ltb : B → B → bool) (c : A * B) cs : max_by ltb c cs ∈ c :: cs.
Proof.
  unfold max_by. revert c. induction cs as [|d cs IH]; intros c; simpl; [by left|].
  specialize (IH (if ltb c.2 d.2 then d else c)); rewrite !elem_of_cons in *; destruct (ltb c.2 d.2); naive_solver.
Qed.

Lemma expand_enlarge_total score all_steps ids :
  (∀ c, in_range all_steps c → ∃ z, score c = Ok z) → in_range all_steps ids →
  ∃ o, expand_enlarge score all_steps ids = Ok o ∧
    ∀ r, o = Some r → in_range all_steps r ∧ sum_list r = S (sum_list ids).
Proof using Type.
  intros Hs Hr. unfold expand_enlarge.
  destruct (mmap_total (λ (c : list nat) (p : list nat * Z), c = p.1 ∧ c ∈ enlargements all_steps ids) (λ c, s ← score c; Ok (c, s))
    (enlargements all_steps ids)) as (cs & -> & Hcs).
  { intros c Hc. destruct (Hs c) as [z ->]; [by eapply enlargements_spec|]. simpl. eauto. }
  cbn [mbind res_bind]. destruct cs as [|c cs]; [eexists; by split|]. eexists. split; [done|]. intros r [= <-]. apply enlargements_spec; [done|].
  pose proof (max_by_elem Z.ltb c cs) as Hin. apply list_elem_of_lookup_1 in Hin as [k Hk].
  by destruct (Forall2_lookup_r _ _ _ _ _ Hcs Hk) as (x & Hx & <- & ?).
Qed.

(** The cost of the steps at some indices. *)
Definition cost_at (usage : list Z → res (num * list string)) (all_steps : list (list Z)) (ids : list nat) : res (num * list string) :=
  rstep ← steps_at all_steps ids; usage rstep.

(** The loop ends, and with indices that are the first ones or affordable. *)
Lemma expand_loop_total score usage limit fuel all_steps ids :
  (∀ c, in_range all_steps c → ∃ z, score c = Ok z) → (∀ c, in_range all_steps c → ∃ x, cost_at usage all_steps c = Ok x) →
  in_range all_steps ids → (sum_list (length <$> all_steps) < sum_list ids + fuel)%nat →
  ∃ ids', expand_loop score usage limit fuel all_steps ids = Some (Ok ids') ∧ in_range all_steps ids' ∧
    (ids' = ids ∨ ∃ n c, cost_at usage all_steps ids' = Ok (n, c) ∧ num_gtb n limit = false).
Proof using Type.
  intros Hs Hu. revert ids. induction fuel as [|fuel IH]; intros ids Hr Hf.
  { pose proof (in_range_sum _ _ Hr). lia. }
  simpl. destruct (expand_enlarge_total score all_steps ids Hs Hr) as (o & -> & Ho).
  destruct o as [new|]; [|by eauto]. destruct (Ho new eq_refl) as [Hr' Hsum]. fold (cost_at usage all_steps new).
  destruct (Hu new Hr') as [[n c] Hc]. rewrite Hc.
  destruct (num_gtb n limit) eqn:Hgt; [by eauto|].
  destruct (IH new Hr') as (ids' & -> & Hr'' & Hor); [lia|]. exists ids'. split_and!; [done|done|].
  right. destruct Hor as [->|?]; eauto.
Qed.

Lemma powers_of_two_total fuel last extent :
  1 ≤ last → extent - last < Z.of_nat fuel → is_Some (powers_of_two fuel last extent) ∨ fuel = 0%nat.
Proof.
  revert last. induction fuel as [|fuel IH]; intros last Hl Hf; [by right|]. left. simpl.
  destruct (Z.ltb_spec last extent); [|done].
  destruct (IH (last * 2)) as [[l ->]| ->]; [lia|lia|done|]. simpl in Hf. lia.
Qed.

Lemma candidates_total : is_Some (factor_candidates f).
Proof.
  unfold factor_candidates. apply mapM_is_Some_2, Forall_forall. intros extent _.
  change (is_Some (step_candidates extent)). unfold step_candidates. destruct (_ && _) eqn:E; [|done]. apply andb_true_iff in E as [_ E%Z.ltb_lt].
  destruct (powers_of_two_total (S (Z.to_nat extent)) 1 extent); [lia|lia|done|done].
Qed.

Lemma multiples_spec all_steps rs ms :
  multiples all_steps rs = Ok ms →
  Forall2 (λ steps r, ∀ x, x ∈ steps → (r | x)) ms rs.
Proof using Type.
  unfold multiples. destruct (Nat.eqb_spec (length all_steps) (length rs)) as [Hl|]; [|done]. simpl.
  intros Hm%mmap_Ok. assert ((zip all_steps rs).*2 = rs) as Hz by (apply snd_zip; lia).
  rewrite <- Hz. apply Forall2_fmap_r, Forall2_flip. eapply Forall2_impl; [exact Hm|].
  intros [steps r] ys E x Hx. simpl in *. destruct (Z.eqb_spec r 0).
  - destruct (bool_decide _); simplify_eq. by apply elem_of_nil in Hx.
  - injection E as <-. apply list_elem_of_In, filter_In in Hx as [_ Hx%Z.eqb_eq]. by apply Z.mod_divide in Hx.
Qed.

(** The indices of the steps themselves. *)
Lemma find_ids ms rs ids :
  length ms = length rs →
  mmap (λ '(steps, r), i ← py_find r steps; Ok (Z.to_nat i)) (zip ms rs) = Ok ids →
  in_range ms ids ∧ steps_at ms ids = Ok rs.
Proof using Type.
  unfold in_range, steps_at. revert rs ids. induction ms as [|steps ms IH]; intros [|r rs] ids Hl E; simpl in *; try done.
  { by simplify_eq. }
  apply bind_Ok in E as (i & (j & Hj & [= <-])%bind_Ok & (ids' & E & [= <-])%bind_Ok).
  destruct (IH rs ids') as [Hr Hs]; [lia|done|].
  assert (r ∈ steps) as Hin by (clear -Hj; revert j Hj; induction steps as [|s steps IHs]; simpl; intros j; [done|];
    case_decide; [subst; by left|]; intros (k & Hk & _)%bind_Ok; right; eauto).
  destruct (py_find_lookup r steps Hin) as (k & Ek & Hk). rewrite Hj in Ek. simplify_eq.
  rewrite Nat2Z.id. split; [constructor; [by eapply lookup_lt_Some|done]|]. simpl. rewrite Hk. simpl. by rewrite Hs.
Qed.

Lemma steps_at_elem ms ids rs : steps_at ms ids = Ok rs → length ms = length ids → Forall2 (λ (steps : list Z) r, r ∈ steps) ms rs.
Proof using Type.
  unfold steps_at. revert ids rs. induction ms as [|steps ms IH]; intros [|i ids] rs E Hl; simpl in *; try done.
  { simplify_eq. constructor. }
  apply bind_Ok in E as (x & Hx & (rs' & E & [= <-])%bind_Ok). constructor; [|apply (IH ids rs' E); lia].
  unfold or_raise in Hx. case_match; simplify_eq. by eapply list_elem_of_lookup_2.
Qed.

(** Lists of candidates, and indices into them. *)
Definition steps_ok (all_steps : list (list Z)) : Prop := Forall positive all_steps.

Lemma steps_at_total all_steps ids :
  steps_ok all_steps → in_range all_steps ids →
  ∃ rs, steps_at all_steps ids = Ok rs ∧ positive rs ∧ Forall2 (λ (s : list Z) r, r ∈ s) all_steps rs.
Proof.
  intros Hp Hr. assert (∃ rs, steps_at all_steps ids = Ok rs) as [rs Hrs].
  { unfold steps_at. destruct (mmap_total (λ _ _, True) (λ '(steps, i), or_raise IndexError (steps !! i)) (zip all_steps ids)) as (l & -> & _); [|eauto].
    intros [s i] (k & (x & y & E & Hx & Hy)%lookup_zip_with_Some)%list_elem_of_lookup_1. simplify_eq.
    pose proof (Forall2_lookup_lr _ _ _ _ _ _ Hr Hx Hy) as Hlt. simpl in Hlt. destruct (lookup_lt_is_Some_2 _ _ Hlt) as [z ->]. eauto. }
  pose proof (steps_at_elem all_steps ids rs Hrs (Forall2_length _ _ _ Hr)) as He. exists rs. split_and!; [done| |done].
  unfold steps_ok in Hp. apply Forall_forall. intros r [k Hk]%list_elem_of_lookup_1. destruct (Forall2_lookup_r _ _ _ _ _ He Hk) as (s & Hs & Hin).
  rewrite Forall_forall in Hp. specialize (Hp s (list_elem_of_lookup_2 _ _ _ Hs)). rewrite Forall_forall in Hp. auto.
Qed.

(** Steps that can be grown along their candidates: each is one of them, or none
    of them is a multiple of it. *)
Definition startable (cands : list (list Z)) (rs : list Z) : Prop :=
  Forall2 (λ (steps : list Z) r, 0 < r ∧ (r ∈ steps ∨ ∀ x, x ∈ steps → ¬ (r | x))) cands rs.

Lemma startable_elem cands rs : positive rs → Forall2 (λ (s : list Z) r, r ∈ s) cands rs → startable cands rs.
Proof using Type.
  clear. intros Hp. unfold startable. induction 1; constructor; apply Forall_cons in Hp as [? ?]; [split; [done|by left]|auto].
Qed.

Lemma startable_multiples cands rs :
  Forall positive cands → startable cands rs →
  ∃ ms, multiples cands rs = Ok ms ∧ steps_ok ms ∧
    (Forall (λ m, m ≠ []) ms → Forall2 (λ (s : list Z) r, r ∈ s) ms rs).
Proof using Type.
  intros Hp Hst. unfold multiples. rewrite (Forall2_length _ _ _ Hst), Nat.eqb_refl. cbn [negb].
  induction Hst as [|s r cands rs [Hr Hor] Hst IH]; [by exists []; repeat constructor|].
  apply Forall_cons in Hp as [Hs Hp]. destruct (IH Hp) as (ms & Hms & Hok & Hin). clear IH. simpl in Hms |- *. rewrite Hms. clear Hms.
  destruct (Z.eqb_spec r 0); [lia|]. cbn [mbind res_bind]. eexists. split_and!; [done|constructor; [|done]|].
  - apply Forall_forall. intros x [Hx _]%list_elem_of_In%filter_In. rewrite Forall_forall in Hs. by apply Hs, list_elem_of_In.
  - intros [Hne Hne']%Forall_cons. constructor; [|by apply Hin]. destruct Hor as [Hrs|Hno].
    + apply list_elem_of_In, filter_In. split; [by apply list_elem_of_In|]. by rewrite Z_mod_same_full.
    + destruct Hne. apply elem_of_nil_inv. intros x [Hx E%Z.eqb_eq%Z.mod_divide]%list_elem_of_In%filter_In; [|done].
      by apply (Hno x); [apply list_elem_of_In|].
Qed.

Lemma optimize_total score usage limit cands rs :
  get_node_reduce_step_candidates M = Some cands → Forall positive cands → startable cands rs →
  (∀ all_steps ids, steps_ok all_steps → in_range all_steps ids → ∃ z, score all_steps ids = Ok z) →
  (∀ rs', length rs' = length rs → positive rs' → ∃ x, usage rs' = Ok x) →
  ∃ rs', optimize M score usage limit rs = Some (Ok rs') ∧ length rs' = length rs ∧ positive rs' ∧
    Forall2 (λ a b, (a | b)) rs rs' ∧ (rs' = rs ∨ ∃ n c, usage rs' = Ok (n, c) ∧ num_gtb n limit = false).
Proof using Type.
  intros Hc Hp Hst Hscore Husage. unfold optimize. rewrite Hc. cbn [mbind option_bind].
  assert (positive rs) as Hrs.
  { apply Forall_forall. intros r [k Hk]%list_elem_of_lookup_1. by destruct (Forall2_lookup_r _ _ _ _ _ Hst Hk) as (? & _ & ? & _). }
  assert (Forall2 (λ a b, (a | b)) rs rs) as Hrefl by (clear; induction rs; constructor; [apply Z.divide_refl|done]).
  destruct (startable_multiples cands rs Hp Hst) as (ms & Hm & Hok & Hin). rewrite Hm.
  destruct (existsb _ ms) eqn:He; [exists rs; split_and!; by auto|].
  assert (Forall2 (λ (s : list Z) r, r ∈ s) ms rs) as Hel.
  { apply Hin, Forall_forall. intros m Hmem Hm0. rewrite <- not_true_iff_false in He.
    apply He. apply existsb_exists. exists m. split; [by apply list_elem_of_In|by rewrite bool_decide_eq_true]. }
  pose proof (multiples_spec _ _ _ Hm) as Hmul. pose proof (Forall2_length _ _ _ Hel) as Hlen.
  destruct (mmap_total (λ _ _, True) (λ '(steps, r), i ← py_find r steps; Ok (Z.to_nat i)) (zip ms rs)) as (ids & Hids & _).
  { intros [s r] (k & (x & y & E & Hx & Hy)%lookup_zip_with_Some)%list_elem_of_lookup_1. simplify_eq.
    pose proof (Forall2_lookup_lr _ _ _ _ _ _ Hel Hx Hy) as Hr. simpl in Hr.
    destruct (py_find_lookup _ _ Hr) as (j & -> & _). cbn [mbind res_bind]. eauto. }
  rewrite Hids. destruct (find_ids ms rs ids Hlen Hids) as [Hr Hs].
  destruct (expand_loop_total (score ms) usage limit (S (sum_list (length <$> ms))) ms ids) as (ids' & -> & Hr' & Hor); [auto| |done|lia|].
  { intros c Hcr. unfold cost_at. destruct (steps_at_total ms c Hok Hcr) as (rs' & -> & Hp' & He'). apply Husage; [|done].
    by rewrite <- (Forall2_length _ _ _ He'). }
  cbn [mbind option_bind]. destruct (steps_at_total ms ids' Hok Hr') as (rs' & Hrs' & Hp' & He').
  exists rs'. cbn [mbind res_bind]. rewrite Hrs'. split_and!; [done|by rewrite <- (Forall2_length _ _ _ He')|done| |].
  - apply Forall2_flip in Hmul. eapply Forall2_trans; [|exact Hmul|exact He']. intros r steps x Hr0 Hx. exact (Hr0 x Hx).
  - destruct Hor as [->|(n & c & Hn & Hle)]; [left; congruence|right]. exists n, c. split; [|done]. unfold cost_at in Hn. by rewrite Hrs' in Hn.
Qed.

(** ** The tiles of the search *)

Lemma merge_sort_elem (l : list Z) x : x ∈ sorted_ints l ↔ x ∈ l.
Proof. unfold sorted_ints. by rewrite merge_sort_Permutation. Qed.

Lemma py_find_nat {A} `{EqDecision A} (x : A) l i : py_find x l = Ok i → ∃ k : nat, i = Z.of_nat k ∧ l !! k = Some x.
Proof. intros [Hi Hl]%py_find_Ok. exists (Z.to_nat i). by rewrite Z2Nat.id. Qed.

Lemma py_from_nat {A} (l : list A) (k : nat) x : l !! k = Some x → py_from l (Z.of_nat k) = drop k l.
Proof.
  intros Hk. pose proof (lookup_lt_Some _ _ _ Hk) as Hlt. unfold py_from, slice_bound, norm_idx, len.
  destruct (Z.ltb_spec (Z.of_nat k) 0); [lia|]. f_equal. lia.
Qed.

(** The base tile is on the grid it spans. *)
Lemma steps_on_grid init_tile steps steps' :
  factor_steps f init_tile = Ok steps → mmap add_simd_sizes steps = Ok steps' → on_grid steps' init_tile.
Proof.
  unfold factor_steps, zip_strict. case_decide as Hl; [|done]. simpl. intros Hs%mmap_Ok Hs'%mmap_Ok.
  unfold on_grid. apply Forall2_flip.
  assert ((zip (get_all_factors <$> space_dim f) init_tile).*2 = init_tile) as Hz by (apply snd_zip; lia).
  rewrite <- Hz. apply Forall2_fmap_l. eapply Forall2_trans; [|exact Hs|exact Hs'].
  intros [step t] s s' E1 E2. simpl in *. apply bind_Ok in E1 as (i & Hi & [= <-]).
  destruct (py_find_nat _ _ _ Hi) as (k & -> & Hk).
  unfold add_simd_sizes in E2. apply bind_Ok in E2 as (? & _ & (? & _ & [= <-])%bind_Ok).
  apply merge_sort_elem, elem_of_app. left. rewrite (py_from_nat step k t Hk).
  apply (list_elem_of_lookup_2 _ 0). rewrite lookup_drop, <- Hk. f_equal. lia.
Qed.

(** What the search hands to the loop over the candidates. *)
Definition candidate (capacity : Z) (steps : list (list Z)) (rs : list Z) (td : TileDict) : Prop :=
  priced capacity td ∧ rstep_map td = rs ∧ td_valid td = true ∧ on_grid steps (output_tile td).

Lemma dfs_smem_tile_spec capacity init_tile rs :
  ∃ r, dfs_smem_tile arch f custom_mem_mul infer M capacity init_tile rs = Some r ∧
    ∀ th tds, r = Ok (th, tds) → ∃ steps steps',
      factor_steps f init_tile = Ok steps ∧ mmap add_simd_sizes steps = Ok steps' ∧
      calc_numel_threshold arch f steps = Ok th ∧ ascending prio tds ∧ Forall (candidate capacity steps' rs) tds.
Proof.
  unfold dfs_smem_tile. destruct (factor_steps f init_tile) as [steps|e] eqn:Hs; [|eexists; split; [done|]; by intros ? ? [=]].
  cbn [mbind res_bind].
  destruct (calc_numel_threshold arch f steps) as [th|e] eqn:Ht; [|eexists; split; [done|]; by intros ? ? [=]].
  cbn [mbind res_bind].
  destruct (mmap add_simd_sizes steps) as [steps'|e] eqn:Hs'; [|eexists; split; [done|]; by intros ? ? [=]].
  cbn [mbind res_bind].
  destruct (search_tiles_spec (λ tile, compute_tile_dict arch f custom_mem_mul infer M capacity tile rs) td_valid prio steps' init_tile
    (steps_on_grid _ _ _ Hs Hs')) as (r & -> & Hr). cbn [mbind option_bind].
  eexists. split; [done|]. intros th' tds (l & -> & [= <- <-])%bind_Ok.
  destruct Hr as (Hasc & (tiles & _ & Hf) & _). exists steps, steps'. split_and!; try done.
  apply Forall_forall. intros td [k Hk]%list_elem_of_lookup_1.
  destruct (Forall2_lookup_r _ _ _ _ _ Hf Hk) as (tile & _ & Hg & _ & Hc & Hv).
  destruct (compute_tile_dict_priced _ _ _ _ Hc) as (? & Hout & ?). split_and!; try done. by rewrite Hout.
Qed.

(** The steps in the order of the axes. *)
Lemma steps_of_axes td :
  length (rstep_map td) = length (raxis f) →
  mmap (λ '(i, _), or_raise KeyError (rstep_map td !! i)) (imap pair (raxis f)) = Ok (rstep_map td).
Proof using Type.
  intros Hl. destruct (mmap_total (λ (p : nat * (string * Z)) r, rstep_map td !! p.1 = Some r)
    (λ '(i, _), or_raise KeyError (rstep_map td !! i)) (imap pair (raxis f))) as (rs & -> & Hrs).
  { intros [i a] (k & Hk)%list_elem_of_lookup_1. rewrite list_lookup_imap in Hk. destruct (raxis f !! k) eqn:E; simplify_eq/=.
    apply lookup_lt_Some in E. destruct (lookup_lt_is_Some_2 (rstep_map td) i) as [r ->]; [lia|]. eauto. }
  f_equal. apply list_eq. intros i. destruct (rs !! i) as [y|] eqn:Hy.
  - destruct (Forall2_lookup_r _ _ _ _ _ Hrs Hy) as ([j a] & Hx & E).
    rewrite list_lookup_imap in Hx. by destruct (raxis f !! i); simplify_eq/=.
  - symmetry. apply lookup_ge_None. apply lookup_ge_None in Hy. pose proof (Forall2_length _ _ _ Hrs) as Hlen.
    rewrite length_imap in Hlen. lia.
Qed.

Lemma assign_block_size_spec td h :
  length (rstep_map td) = length (raxis f) → assign_block_size f infer td = Ok h →
  block h = tile_map td ∧ rstep h = rstep_map td ∧ hint_cached h = cached_tensors td ∧
  thread h = replicate (length (block h)) 1 ∧ reduce_thread h = replicate (length (raxis f)) 1.
Proof using Type.
  intros Hl. unfold assign_block_size. rewrite (steps_of_axes td Hl). cbn [mbind res_bind].
  intros (v & _ & [= <-])%bind_Ok. by split_and!.
Qed.

Lemma check_spec td :
  check_tile_shape_isvalid arch td = true → num_gtb (smem_cost td) (ub_capacity arch) = false ∧ Forall (λ t, 0 < t) (tile_map td).
Proof using Type.
  unfold check_tile_shape_isvalid. destruct (num_gtb (smem_cost td) (ub_capacity arch)); [done|].
  intros Hn%negb_true_iff. split; [done|]. apply Forall_forall. intros x Hx%list_elem_of_In.
  destruct (Z.leb_spec x 0) as [Hle|]; [|lia].
  assert (existsb (λ t, t <=? 0) (tile_map td) = true); [|congruence].
  apply existsb_exists. exists x. split; [done|lia].
Qed.

(** The loop over the candidates returns: hints that have a property which the
    methods of the policy establish for every candidate they accept. *)
Lemma collect_total (P : Policy) (Q : TileDict → Prop) (R : Hint → Prop) topk tds results :
  (∀ td, Q td → ∃ b, p_check P td = Ok b ∧
    (b = true → ∃ td' o, p_expand P td = Some (Ok td') ∧ p_assign P td' = Ok o ∧ ∀ h, o = Some h → R h)) →
  Forall Q tds →
  ∃ new, collect P topk tds results = Some (Ok (results ++ new)) ∧ Forall R new ∧
    (len results < Z.max 1 topk → len (results ++ new) ≤ Z.max 1 topk).
Proof using Type.
  intros HP Hq. revert results. induction Hq as [|td tds Hq _ IH]; intros results; simpl.
  { exists []. rewrite app_nil_r. split_and!; [done|constructor|lia]. }
  destruct (HP td Hq) as ([] & -> & Hb); [|apply IH].
  destruct (Hb eq_refl) as (td' & o & -> & Ho & HR). cbn [mbind option_bind res_bind]. rewrite Ho.
  assert (Forall R (option_list o)) as HRo by (destruct o; simpl; [apply Forall_singleton; auto|constructor]).
  assert ((length (option_list o) ≤ 1)%nat) as Hlo by (destruct o; simpl; lia).
  destruct (Z.leb_spec topk (len (results ++ option_list o))) as [Hk|Hk].
  - exists (option_list o). split_and!; [done|done|]. unfold len. rewrite length_app. lia.
  - destruct (IH (results ++ option_list o)) as (new & -> & Hn & Hlen). exists (option_list o ++ new).
    rewrite (assoc_L (++)). split_and!; [done|by apply Forall_app|]. intros _. apply Hlen. lia.
Qed.

Lemma verify_results_spec topk th results h :
  h ∈ verify_results topk th results → h ∈ results ∧ calculate_tile_numel h ≤ max_numel_threshold th.
Proof using Type.
  unfold verify_results.
  assert (∀ acc, h ∈ foldl (verify_step topk th) acc results →
    h ∈ acc ∨ (h ∈ results ∧ calculate_tile_numel h ≤ max_numel_threshold th)) as Hgen.
  { induction results as [|x results IH]; intros acc; cbn [foldl]; [auto|]. intros [Hin|[Hin Hle]]%IH.
    2: { right. split; [by right|done]. }
    unfold verify_step in Hin. destruct (_ && _) eqn:E; [|auto].
    apply elem_of_app in Hin as [?| ->%list_elem_of_singleton]; [auto|right]. split; [by left|].
    apply andb_true_iff in E as [E _]. lia. }
  intros [?%elem_of_nil|?]%Hgen; done.
Qed.

Lemma verify_results_length topk th results : (length (verify_results topk th results) ≤ length results)%nat.
Proof using Type.
  unfold verify_results.
  assert (∀ acc, (length (foldl (verify_step topk th) acc results) ≤ length acc + length results)%nat) as Hgen; [|apply (Hgen [])].
  induction results as [|x results IH]; intros acc; cbn [foldl length]; [lia|].
  etransitivity; [apply IH|]. unfold verify_step. destruct (_ && _); rewrite ?length_app; simpl; lia.
Qed.

Lemma tile_numel_prod l : foldl Z.mul 1 l = prod l.
Proof.
  assert (∀ acc, foldl Z.mul acc l = acc * prod l) as Hgen; [|rewrite Hgen; lia].
  unfold prod. induction l as [|x l IH]; intros acc; simpl; [lia|]. rewrite IH. lia.
Qed.

Lemma calc_threshold_bound steps th n :
  calc_numel_threshold arch f steps = Ok th → 0 ≤ n ≤ max_numel_threshold th →
  (∀ b, b ∈ output_buffers f → 0 < bits b) →
  ∃ out, output_buffers f !! 0%nat = Some out ∧ n * nbytes (dtype_bits out) ≤ ub_capacity arch.
Proof using Type.
  unfold calc_numel_threshold. intros E Hn Hb. apply bind_Ok in E as (out & Hout & E).
  apply py_index_Ok in Hout as [_ Ho]. change (output_buffers f !! 0%nat = Some out) in Ho. rename out into o.
  assert (0 < nbytes (dtype_bits o)) as Hnb.
  { assert (0 < bits o) by (apply Hb; by eapply list_elem_of_lookup_2). unfold nbytes, dtype_bits.
    destruct (bits o =? 1); [done|]. apply Z.div_str_pos. lia. }
  apply bind_Ok in E as (m & Hm & E). repeat (apply bind_Ok in E as (? & _ & E)). injection E as <-. simpl in Hn.
  unfold py_floordiv in Hm. destruct (Z.eqb_spec (nbytes (dtype_bits o)) 0); [lia|]. injection Hm as <-.
  exists o. split; [done|]. transitivity (ub_capacity arch / nbytes (dtype_bits o) * nbytes (dtype_bits o)).
  - apply Z.mul_le_mono_nonneg_r; lia.
  - rewrite Z.mul_comm. apply Z.mul_div_le. lia.
Qed.

Lemma prod_nonneg l : Forall (λ t, 0 < t) l → 0 ≤ prod l.
Proof. unfold prod. induction 1; simpl; lia. Qed.

End costs.

(** ** Which tiles the search finds *)

Section exhaustive.
Context `{!NumPy, !NumPyLaws} (arch : AscendArch) (f : PrimFunc) (custom_mem_mul : num).
Context (infer : list Z → list (string * Z) → option (list string) → list (string * list Z) * list string).

Lemma sorted_ints_lt l : NoDup l → StronglySorted Z.lt (sorted_ints l).
Proof using Type.
  intros Hnd. pose proof (StronglySorted_merge_sort Z.le l) as Hs. fold (sorted_ints l) in Hs.
  assert (NoDup (sorted_ints l)) as Hnd' by (unfold sorted_ints; by rewrite merge_sort_Permutation).
  revert Hs Hnd'. generalize (sorted_ints l). clear. intros k Hs.
  induction Hs as [|x k Hl IH Hx]; [constructor|]. intros [Hn Hnd]%NoDup_cons. constructor; [auto|].
  rewrite Forall_forall in *. intros y Hy. specialize (Hx y Hy). destruct (decide (x = y)); [by subst|lia].
Qed.

Lemma sorted_head (l : list Z) x : StronglySorted Z.lt l → x ∈ l → (∀ y, y ∈ l → x ≤ y) → head l = Some x.
Proof.
  intros Hs Hx Hmin. destruct Hs as [|z l Hl Hz]; [by apply elem_of_nil in Hx|]. simpl. f_equal.
  apply elem_of_cons in Hx as [->|Hx]; [done|]. rewrite Forall_forall in Hz. specialize (Hz x Hx).
  specialize (Hmin z ltac:(by left)). lia.
Qed.

Lemma StronglySorted_drop (l : list Z) n : StronglySorted Z.lt l → StronglySorted Z.lt (drop n l).
Proof. clear. intros Hl. revert n. induction Hl as [|x l Hl IH Hx]; intros [|n]; simpl; [constructor..|by constructor|done]. Qed.

Lemma add_simd_sorted step step' :
  StronglySorted Z.lt step → add_simd_sizes step = Ok step' →
  StronglySorted Z.lt step' ∧ head step' = head step.
Proof using Type.
  intros Hs. unfold add_simd_sizes. intros (first & Hf & (last & _ & E)%bind_Ok)%bind_Ok.
  assert (step' = sorted_ints (step ++ added_sizes step first last)) as -> by congruence. set (added := added_sizes step first last).
  assert (∀ x, x ∈ added → first < x ∧ x ∉ step) as Hadd.
  { intros x [_ Hx]%list_elem_of_In%filter_In. apply andb_true_iff in Hx as [Hx Hn]. apply andb_true_iff in Hx as [_ Hx].
    split; [lia|]. by apply negb_true_iff, bool_decide_eq_false in Hn. }
  assert (NoDup added) as Hnd by (apply NoDup_ListNoDup, List.NoDup_filter, NoDup_ListNoDup; by apply (bool_decide_unpack _)).
  apply py_index_Ok in Hf as [_ Hf]. change (step !! 0%nat = Some first) in Hf.
  assert (StronglySorted Z.lt (sorted_ints (step ++ added))) as Hs'.
  { apply sorted_ints_lt, NoDup_app. split_and!; [by apply sorted_NoDup| |done]. intros x Hx Ha. by apply Hadd in Ha as [_ ?]. }
  split; [done|]. rewrite (head_lookup step), Hf. apply sorted_head; [done| |].
  - apply merge_sort_elem, elem_of_app. left. by eapply list_elem_of_lookup_2.
  - intros y [Hy|[? _]%Hadd]%merge_sort_elem%elem_of_app; [|lia].
    apply list_elem_of_lookup_1 in Hy as [j Hj]. by eapply (sorted_lookup_le step 0 j); [|lia|..].
Qed.

Lemma grid_steps_sorted init_tile steps steps' :
  Forall (λ d, 1 ≤ d < 2 ^ 52) (space_dim f) →
  factor_steps f init_tile = Ok steps → mmap add_simd_sizes steps = Ok steps' →
  Forall (StronglySorted Z.lt) steps' ∧ Forall2 (λ step x, head step = Some x) steps' init_tile.
Proof using Type*.
  intros Hd. unfold factor_steps, zip_strict. case_decide as Hl; [|done]. simpl. intros Hs%mmap_Ok Hs'%mmap_Ok.
  rewrite length_fmap in Hl.
  assert (Forall2 (λ p step', StronglySorted Z.lt step' ∧ head step' = Some p.2)
    (zip (get_all_factors <$> space_dim f) init_tile) steps') as Hf.
  { apply Forall2_same_length_lookup_2; [by rewrite (Forall2_length _ _ _ Hs), (Forall2_length _ _ _ Hs')|].
    intros j [step t] s' Hj Hj'. pose proof (list_elem_of_lookup_2 _ _ _ Hj) as Hin. simpl.
    destruct (Forall2_lookup_r _ _ _ _ _ Hs' Hj') as (s & Hjs & E2).
    pose proof (Forall2_lookup_lr _ _ _ _ _ _ Hs Hj Hjs) as E1. simpl in E1.
    apply bind_Ok in E1 as (i & (k & -> & Hk)%py_find_nat & [= <-]).
    rewrite (py_from_nat step k t Hk) in E2.
    assert (StronglySorted Z.lt step) as Hst.
    { apply elem_of_zip_l, list_elem_of_fmap in Hin as (d & -> & Hin). rewrite Forall_forall in Hd.
      by apply get_all_factors_spec, Hd. }
    destruct (add_simd_sorted _ _ (StronglySorted_drop step k Hst) E2) as [? ->]. split; [done|].
    rewrite head_lookup, lookup_drop, <- Hk. f_equal. lia. }
  split.
  - apply Forall_forall. intros step' [k Hk]%list_elem_of_lookup_1. by destruct (Forall2_lookup_r _ _ _ _ _ Hf Hk) as (? & _ & ? & _).
  - assert ((zip (get_all_factors <$> space_dim f) init_tile).*2 = init_tile) as Hz by (apply snd_zip; rewrite length_fmap; lia).
    rewrite <- Hz. apply Forall2_fmap_r, Forall2_flip. eapply Forall2_impl; [exact Hf|]. by intros ? ? [].
Qed.
End exhaustive.

(** ** Strides

    The address of an element is the sum of its coordinates times the strides. *)
Definition address (strides idx : list Z) : Z := foldr Z.add 0 (zip_with Z.mul idx strides).

Definition in_box (shape idx : list Z) : Prop := Forall2 (λ d x, 0 ≤ x < d) shape idx.

(** The elements from the first one to the end of the last row. *)
Definition span (s : Stride) (i : Z) (shape : list Z) : Z :=
  match shape with [] => 1 | d :: _ => d * default 1 (head (strides_from s i shape)) end.

Lemma strides_from_cons s i d e shape :
  strides_from s i (d :: e :: shape) =
  (if i =? ax s then stride s else span s (i + 1) (e :: shape)) :: strides_from s (i + 1) (e :: shape).
Proof. unfold span. rewrite (Z.mul_comm e). done. Qed.

(** Behind the strided axis the rows are contiguous; a stride on the last axis is
    not used. *)
Lemma span_plain s i shape : ax s < i ∨ i + len shape - 1 ≤ ax s → span s i shape = prod shape.
Proof.
  revert i. induction shape as [|d [|e shape] IH]; intros i Hi; [done|done|]. unfold len in Hi. simpl in Hi.
  unfold span at 1. rewrite strides_from_cons. destruct (Z.eqb_spec i (ax s)); [lia|].
  cbn [head default from_option id]. rewrite IH by (unfold len; simpl; lia). done.
Qed.

Lemma span_strided s i shape :
  i ≤ ax s < i + len shape - 1 → span s i shape = prod (take (Z.to_nat (ax s + 1 - i)) shape) * stride s.
Proof.
  revert i. induction shape as [|d [|e shape] IH]; intros i Hi; unfold len in Hi; simpl in Hi; [lia|lia|].
  unfold span at 1. rewrite strides_from_cons. destruct (Z.eqb_spec i (ax s)) as [->|].
  - replace (Z.to_nat (ax s + 1 - ax s)) with 1%nat by lia. cbn. lia.
  - replace (Z.to_nat (ax s + 1 - i)) with (S (Z.to_nat (ax s + 1 - (i + 1)))) by lia.
    cbn [take head default from_option id]. rewrite IH by (unfold len; simpl; lia). rewrite prod_cons. lia.
Qed.

(** The strided axis is given room for the rows behind it. *)
Definition roomy (s : Stride) (i : Z) (shape : list Z) : Prop :=
  i ≤ ax s < i + len shape - 1 → prod (drop (Z.to_nat (ax s + 1 - i)) shape) ≤ stride s.

Lemma address_span s i shape :
  positive shape → roomy s i shape →
  (∀ idx, in_box shape idx → 0 ≤ address (strides_from s i shape) idx < span s i shape) ∧
  (∀ idx idx', in_box shape idx → in_box shape idx' →
    address (strides_from s i shape) idx = address (strides_from s i shape) idx' → idx = idx').
Proof.
  revert i. induction shape as [|d [|e shape] IH]; intros i Hp Hr.
  - split; [intros idx ->%Forall2_nil_inv_l; cbn; lia|]. by intros ? ? ->%Forall2_nil_inv_l ->%Forall2_nil_inv_l.
  - split.
    + intros idx (x & ? & ? & ->%Forall2_nil_inv_l & ->)%Forall2_cons_inv_l. cbn. lia.
    + intros ? ? (x & ? & ? & ->%Forall2_nil_inv_l & ->)%Forall2_cons_inv_l (y & ? & ? & ->%Forall2_nil_inv_l & ->)%Forall2_cons_inv_l.
      cbn. intros. f_equal. lia.
  - apply Forall_cons in Hp as [Hd Hp]. destruct (IH (i + 1) Hp) as [Hb Hi].
    { intros Ha. replace (Z.to_nat (ax s + 1 - (i + 1))) with (Nat.pred (Z.to_nat (ax s + 1 - i))) by lia.
      unfold roomy, len in Hr, Ha. simpl in Ha. simpl (length _) in Hr. specialize (Hr ltac:(lia)).
      destruct (Z.to_nat (ax s + 1 - i)) eqn:E; [lia|]. exact Hr. }
    set (h := if i =? ax s then stride s else span s (i + 1) (e :: shape)).
    assert (span s (i + 1) (e :: shape) ≤ h) as Hh.
    { unfold h. destruct (Z.eqb_spec i (ax s)) as [->|]; [|done]. rewrite span_plain by lia.
      unfold roomy, len in Hr. simpl (length _) in Hr. specialize (Hr ltac:(lia)).
      by replace (Z.to_nat (ax s + 1 - ax s)) with 1%nat in Hr by lia. }
    rewrite strides_from_cons. fold h. assert (span s i (d :: e :: shape) = d * h) as -> by (unfold span; by rewrite strides_from_cons).
    assert (∀ x idx, address (h :: strides_from s (i + 1) (e :: shape)) (x :: idx) =
                     x * h + address (strides_from s (i + 1) (e :: shape)) idx) as Hc by done.
    split.
    + intros idx (x & idx' & Hx & Hbox & ->)%Forall2_cons_inv_l. rewrite Hc. specialize (Hb _ Hbox). nia.
    + intros ? ? (x & t & Hx & Ht & ->)%Forall2_cons_inv_l (y & u & Hy & Hu & ->)%Forall2_cons_inv_l. rewrite !Hc. intros E.
      pose proof (Hb _ Ht). pose proof (Hb _ Hu). assert (x = y) as -> by nia. f_equal. apply Hi; [done|done|lia].
Qed.

(** Whenever the elements of a strided tile are counted without an assertion
    failing, its strides store distinct elements at distinct addresses below that
    count. *)
Theorem strided_addresses s shape n :
  positive shape → compute_elements_from_shape s shape = Ok n →
  (∀ idx, in_box shape idx → 0 ≤ address (compute_strides_from_shape s shape) idx < n) ∧
  (∀ idx idx', in_box shape idx → in_box shape idx' →
    address (compute_strides_from_shape s shape) idx = address (compute_strides_from_shape s shape) idx' → idx = idx').
Proof.
  intros Hp Hn. unfold compute_strides_from_shape.
  assert (roomy s 0 shape ∧ span s 0 shape ≤ n) as [Hr Hs].
  { unfold compute_elements_from_shape, Stride_is_valid in Hn. destruct (Z.leb_spec 0 (ax s)) as [Ha|Ha]; simpl in Hn.
    - apply bind_Ok in Hn as (_ & Hlt%py_assert_Ok%Z.ltb_lt & Hn). apply bind_Ok in Hn as (_ & Hle%py_assert_Ok%Z.leb_le & [= <-]).
      set (k := Z.to_nat (ax s + 1)) in *. pose proof Hle as Hall. rewrite <- (take_drop k shape), prod_app in Hle at 1.
      pose proof (prod_pos _ (Forall_take _ k _ Hp)) as Hpos.
      assert (prod (drop k shape) ≤ stride s) as Hst by nia. unfold roomy. rewrite Z.sub_0_r. split; [done|].
      destruct (decide (ax s < len shape - 1)) as [Hax|Hax]; [rewrite span_strided, Z.sub_0_r by lia; done|].
      rewrite span_plain by lia. exact Hall.
    - injection Hn as <-. split; [intros ?; lia|]. rewrite span_plain by lia. done. }
  destruct (address_span s 0 shape Hp Hr) as [Hb Hi]. split; [|done]. intros idx Hbox. specialize (Hb _ Hbox). lia.
Qed.

Module RollerHintsEx.
Lemma strided_addresses_witness :
  compute_elements_from_shape (MkStride 24 0) [8; 16] = Ok 192 ∧ address (compute_strides_from_shape (MkStride 24 0) [8; 16]) [7; 15] < 192.
Proof.
  split; [done|]. apply (strided_addresses (MkStride 24 0) [8; 16] 192); [by repeat constructor|done|]. by repeat constructor.
Defined.

(** A reduction (block 1) of what block 0 computes, with an epilogue (block 2). *)
Definition epilogue : PrimFunc :=
  let b n := MkBuffer n [16; 16] 16 in
  MkPrimFunc [MkTirBlock (b "X") [b "A"] false [1%nat]; MkTirBlock (b "Y") [b "X"] true [2%nat]; MkTirBlock (b "C") [b "Y"] false []]
    (Some 1%nat) [("k", 16)] [16; 16] [b "A"] [b "C"].

(** The block before the reduction counts as after it, the epilogue does not. *)
Lemma after_reduce_inverted : (is_after_reduce_stage epilogue <$> [0; 1; 2]%nat) = [Some true; Some false; Some false].
Proof. done. Qed.

(** No vector of the plan has more than 32 bits, where a DMA line has 32 bytes. *)
Lemma vector_size_bits s dtype sizes v :
  vector_size s dtype sizes = Ok v → v = 1 ∨ dtype * v ≤ 32.
Proof.
  induction sizes as [|w sizes IH]; simpl; [intros [= <-]; by left|]. intros (ok & _ & E)%bind_Ok.
  destruct (ok && is_type_allowed dtype w) eqn:A; [|by apply IH]. injection E as <-. right.
  by apply andb_true_iff in A as [_ A%Z.leb_le].
Qed.

(** A device of the 910_95 series has the memories of a 910B. *)
Lemma arch_910_95_specs :
  (prod_map id chip_name <$> get_arch_obj "Ascend910_9589" None) = Ok (AscendArch910_95, "Ascend910B"%string).
Proof. done. Qed.
End RollerHintsEx.
