(* ===== verification/RollerTotal.v ===== *)
(** * The Ascend policy returns

    For a function whose buffers and axes are sensible and a shape inference that
    answers for every buffer, [emit_config] raises no exception: it returns hints. *)
From stdpp Require Import base strings gmap numbers sorting list.
From Stdlib Require Import SpecFloat QArith.
From S2P Require Import Prelude BestFit Factors Graph SmemUsage TileSearch RollerPolicy RollerHints.
#[local] Open Scope Z_scope.

(** A shape of (a part of) a buffer. *)
Record part_of (b : Buffer) (s : list Z) : Prop := {
  part_nonempty : s ≠ [];
  part_rank : (length s ≤ length (shape b))%nat;
  part_positive : positive s;
}.

(** All buffers of a function. *)
Definition buffers (f : PrimFunc) : list Buffer :=
  args f ++ concat ((λ blk, output_buffer blk :: read_buffers blk) <$> blocks f).

Record func_ok (f : PrimFunc) : Prop := {
  fo_dims : Forall (λ d, 1 ≤ d < 2 ^ 52) (space_dim f);
  fo_axes : Forall (λ d, 1 ≤ d < 2 ^ 52) (raxis f).*2;
  fo_shape b : b ∈ buffers f → shape b ≠ [] ∧ positive (shape b);
  fo_bits b : b ∈ buffers f → 0 < bits b ≤ 256;
  fo_outputs : (0 < length (output_buffers f) ≤ length (input_buffers f))%nat;
  fo_reduction : raxis f ≠ [] → is_Some (reduction_block f);
  fo_block r : reduction_block f = Some r → (r < length (blocks f))%nat;
  fo_consumers n blk c : blocks f !! n = Some blk → c ∈ consumers blk → (c < length (blocks f))%nat;
}.

(** What the analyzer documents: a shape for every buffer it is asked for, and for
    no other one. *)
Record infer_ok (f : PrimFunc)
    (infer : list Z → list (string * Z) → option (list string) → list (string * list Z) * list string) : Prop := {
  io_all b tile st : b ∈ buffers f → length tile = length (space_dim f) → positive tile → positive st.*2 →
    ∃ s, dict_get (infer tile st None).1 (name b) = Ok s ∧ part_of b s;
  io_some b tile st ts : b ∈ buffers f → name b ∈ ts → length tile = length (space_dim f) → positive tile → positive st.*2 →
    ∃ s, dict_get (infer tile st (Some ts)).1 (name b) = Ok s ∧ part_of b s;
  io_keys tile st ts k : k ∈ (infer tile st (Some ts)).1.*1 → k ∈ ts;
}.

(** ** Shapes *)

Lemma min_part b s t : part_of b s → t ≠ [] → positive t → part_of b (zip_with Z.min s t).
Proof.
  intros [Hn Hr Hp] Ht Hpt. split.
  - destruct s, t; done.
  - rewrite length_zip_with. lia.
  - clear Hn Hr Ht. revert t Hpt. induction Hp as [|x s Hx Hp IH]; intros t Hpt; [constructor|].
    destruct Hpt as [|y t Hy Hpt]; constructor; [lia|auto].
Qed.

Lemma coalesced_total b s : part_of b s → positive (shape b) → ∃ c, coalesced_factor s (shape b) = Ok c ∧ 0 < c.
Proof.
  intros [Hn Hr Hp] Hb. unfold coalesced_factor.
  assert (∀ u v, u ≠ [] → (length u ≤ length v)%nat → positive u → ∃ c, coalesced_rev u v = Ok c ∧ 0 < c) as Hgen.
  { intros u. induction u as [|x u IH]; intros [|y v] Hu Hl Hpu; simpl in *; try done; [lia|].
    apply Forall_cons in Hpu as [Hx Hpu]. destruct (negb (x =? y) || bool_decide (u = [])) eqn:E; [eauto|].
    apply orb_false_iff in E as [_ E%bool_decide_eq_false]. destruct (IH v E) as (c & -> & Hc); [lia|done|].
    simpl. eexists. split; [done|]. by apply Z.mul_pos_pos. }
  apply Hgen; [|by rewrite !length_reverse|by rewrite Forall_reverse].
  intros E. apply Hn. rewrite <- (reverse_involutive s), E. done.
Qed.

Lemma nbytes_range z : 0 < z ≤ 256 → 0 < nbytes z ≤ 32.
Proof. intros Hz. unfold nbytes. split; [apply Z.div_str_pos; lia|]. apply Z.lt_succ_r, Z.div_lt_upper_bound; lia. Qed.

Lemma dtype_bits_range b : 0 < bits b ≤ 256 → 0 < dtype_bits b ≤ 256.
Proof. intros Hb. unfold dtype_bits. destruct (bits b =? 1); lia. Qed.

Lemma buffer_traffic_total acc b s :
  part_of b s → positive (shape b) → 0 < bits b ≤ 256 →
  ∃ t, buffer_traffic acc s (shape b) (nbytes (dtype_bits b)) 32 = Ok t.
Proof.
  intros Hs Hb Hbits%dtype_bits_range%nbytes_range. unfold buffer_traffic, py_floordiv.
  destruct (Z.eqb_spec (nbytes (dtype_bits b)) 0); [lia|]. simpl. unfold coalesced_tensor_shape.
  destruct (prod s =? 0); [by eexists|]. destruct (coalesced_total b s Hs Hb) as (c & -> & Hc). simpl.
  assert (0 < 32 / nbytes (dtype_bits b)) by (apply Z.div_str_pos; lia).
  destruct (Z.eqb_spec (Z.min (32 / nbytes (dtype_bits b)) c) 0); [lia|]. by eexists.
Qed.

(** Tiles the analyses are called with. *)
Record tile_ok (f : PrimFunc) (tile : list Z) : Prop := {
  to_rank : length tile = length (space_dim f);
  to_positive : positive tile;
}.

(** What the shared code of the policies relies on: lists of positive candidates
    for the axes, and a cost for every tile. *)
Class MethodLaws (f : PrimFunc) (M : Methods) : Prop := {
  ml_lines :: WholeLines M;
  ml_candidates : ∃ cands, get_node_reduce_step_candidates M = Some cands ∧
    length cands = length (raxis f) ∧ Forall (λ l, l ≠ [] ∧ positive l) cands;
  ml_usage tile rs : tile_ok f tile → positive rs → ∃ x, infer_node_smem_usage M tile rs = Ok x;
}.

Section total.
Context `{!NumPy, !NumPyLaws} (arch : AscendArch) (f : PrimFunc) (custom_mem_mul : num).
Context (infer : list Z → list (string * Z) → option (list string) → list (string * list Z) * list string).
Context (F : func_ok f) (I : infer_ok f infer).
Context (cores_pos : 0 < compute_max_core arch) (transactions : transaction_size arch = (32, 32)).

Lemma args_buffers b : b ∈ input_buffers f ∨ b ∈ output_buffers f → b ∈ buffers f.
Proof using Type. intros Hb. unfold buffers, args. rewrite !elem_of_app. tauto. Qed.

Lemma block_buffers blk b : blk ∈ blocks f → b = output_buffer blk ∨ b ∈ read_buffers blk → b ∈ buffers f.
Proof using Type.
  intros Hblk Hb. unfold buffers. rewrite elem_of_app. right. apply list_elem_of_In, in_concat.
  exists (output_buffer blk :: read_buffers blk). split; apply list_elem_of_In.
  - by apply (list_elem_of_fmap_2 (λ blk, output_buffer blk :: read_buffers blk)).
  - apply elem_of_cons. tauto.
Qed.

Lemma axis_steps_positive rs : positive rs → positive (axis_steps f rs).*2.
Proof using Type.
  intros Hrs. unfold axis_steps. apply Forall_forall. intros x (p & -> & Hp)%list_elem_of_fmap. destruct p as [k z].
  apply elem_of_zip_r in Hp. rewrite Forall_forall in Hrs. auto.
Qed.

Lemma propagate_inputs_total tile rs :
  tile_ok f tile → positive rs → ∃ l, propagate_inputs f infer tile rs = Ok l ∧ Forall2 part_of (input_buffers f) l.
Proof using F I.
  intros [Hr Hp] Hrs. unfold propagate_inputs.
  set (ts := name <$> input_buffers f).
  pose proof (λ b Hb Hn, io_some f infer I b tile (axis_steps f rs) ts Hb Hn Hr Hp (axis_steps_positive rs Hrs)) as Hio.
  destruct (infer tile (axis_steps f rs) (Some ts)) as [shapes bound]. simpl in Hio. apply mmap_total.
  intros b Hb. destruct (Hio b) as (s & -> & Hs); [apply args_buffers; auto|by apply list_elem_of_fmap_2|]. simpl.
  destruct (bool_decide _); [eauto|]. eexists. split; [done|]. destruct (fo_shape f F b); [apply args_buffers; auto|].
  by apply min_part.
Qed.

Lemma propagate_outputs_total tile rs :
  tile_ok f tile → positive rs →
  ∃ l, propagate_outputs f infer tile rs = Ok l ∧ length l = length (output_buffers f) ∧
    ∀ k b s, output_buffers f !! k = Some b → l !! k = Some s → part_of b s.
Proof using F I.
  intros [Hr Hp] Hrs. unfold propagate_outputs.
  set (ts := name <$> output_buffers f).
  pose proof (λ b Hb Hn, io_some f infer I b tile (axis_steps f rs) ts Hb Hn Hr Hp (axis_steps_positive rs Hrs)) as Hio.
  destruct (infer tile (axis_steps f rs) (Some ts)) as [shapes bound]. simpl in Hio.
  edestruct (mmap_total (λ (p : Z * Buffer) s, part_of p.2 s)) as (l & Hl & Hf); [|exists l; split; [exact Hl|]].
  - intros [i b] (k & -> & Hk)%zip_seqZ_elem. simpl. pose proof (list_elem_of_lookup_2 _ _ _ Hk) as Hb.
    destruct (Hio b) as (s & -> & Hs); [apply args_buffers; auto|by apply list_elem_of_fmap_2|]. simpl.
    destruct (lookup_lt_is_Some_2 (input_buffers f) k) as [b' Hb'].
    { apply lookup_lt_Some in Hk. pose proof (fo_outputs f F). lia. }
    rewrite (py_index_nat _ _ _ Hb'). simpl. eexists. split; [done|].
    destruct (fo_shape f F b'); [apply args_buffers; left; by eapply list_elem_of_lookup_2|]. by apply min_part.
  - pose proof (Forall2_length _ _ _ Hf) as Hlen. rewrite length_zip_with, length_seqZ in Hlen. unfold len in Hlen.
    split; [lia|]. intros k b s Hb Hs. destruct (Forall2_lookup_r _ _ _ _ _ Hf Hs) as ([i b'] & Hk & Hpart).
    apply lookup_zip_with_Some in Hk as (x & y & E & _ & Hy). simplify_eq. done.
Qed.

Lemma output_tile_map_total tile : tile_ok f tile → output_tile_map f tile = Ok tile.
Proof using F.
  intros [Hr Hp]. pose proof (fo_dims f F) as Hd.
  assert (∃ tm, output_tile_map f tile = Ok tm) as [tm Htm].
  { unfold output_tile_map. edestruct (mmap_total (λ (_ : Z * Z) (_ : Z), True)) as (l & Hl & _); [|by exists l].
    intros [i t] (k & -> & Hk)%zip_seqZ_elem. simpl.
    destruct (lookup_lt_is_Some_2 (space_dim f) k) as [d Hdk]; [apply lookup_lt_Some in Hk; lia|].
    rewrite (py_index_nat _ _ _ Hdk). simpl. unfold py_floordiv. rewrite Forall_forall in Hd.
    specialize (Hd d (list_elem_of_lookup_2 _ _ _ Hdk)). destruct (Z.eqb_spec d 0); [lia|]. eauto. }
  rewrite Htm. f_equal. eapply output_tile_map_id; [|done]. eapply Forall_impl; [exact Hd|]. simpl. lia.
Qed.

Lemma memory_traffic_total tile : tile_ok f tile → ∃ x, compute_memory_traffic arch f infer tile = Ok (x, tile).
Proof using F I transactions.
  intros T. unfold compute_memory_traffic. rewrite (output_tile_map_total tile T). cbn [mbind res_bind].
  destruct (propagate_inputs_total tile [] T) as (ins & -> & Hi); [constructor|]. cbn [mbind res_bind].
  destruct (propagate_outputs_total tile [] T) as (outs & -> & Hlo & Ho); [constructor|]. cbn [mbind res_bind].
  rewrite transactions. cbn [fst snd].
  edestruct (mfold_indexed (λ acc '(i, b), s ← py_index ins i; buffer_traffic acc s (shape b) (nbytes (dtype_bits b)) 32)
    (input_buffers f) (f_of_Z 0)) as [x Hx].
  { intros c k b Hk. destruct (Forall2_lookup_l _ _ _ _ _ Hi Hk) as (s & Hs & Hpart).
    rewrite (py_index_nat _ _ _ Hs). cbn [mbind res_bind].
    assert (b ∈ buffers f) as Hb by (apply args_buffers; left; by eapply list_elem_of_lookup_2).
    apply buffer_traffic_total; [done|by apply (fo_shape f F)|by apply (fo_bits f F)]. }
  rewrite Hx. cbn [mbind res_bind]. pose proof (fo_outputs f F) as [Hpos _].
  destruct (lookup_lt_is_Some_2 (output_buffers f) 0 Hpos) as [out Hout].
  destruct (lookup_lt_is_Some_2 outs 0) as [s Hs]; [lia|].
  change 0 with (Z.of_nat 0). rewrite (py_index_nat _ _ _ Hout), (py_index_nat _ _ _ Hs). cbn [mbind res_bind].
  assert (out ∈ buffers f) as Hb by (apply args_buffers; right; by eapply list_elem_of_lookup_2).
  destruct (buffer_traffic_total x out s) as [y ->]; [by eapply Ho|by apply (fo_shape f F)|by apply (fo_bits f F)|]. eauto.
Qed.

(** The traversal from the reduction block has enough fuel. *)
Lemma reduce_dependent_total r : reduction_block f = Some r → is_Some (reduce_dependent_blocks f r).
Proof using F.
  intros Hr. unfold reduce_dependent_blocks. set (n := length (blocks f)).
  assert (∀ b, b ∈ (list_to_set (seq 0 n) : gset nat) ↔ (b < n)%nat) as Hset by (intros b; rewrite elem_of_list_to_set, elem_of_seq; lia).
  destruct (dfs_spec (λ b, default [] (consumers <$> blocks f !! b)) (list_to_set (seq 0 n))) with (rank := λ _ : nat, 0%nat)
    (fuel := S n) (n := r) (st := (∅ : gset nat, @nil nat)) as (st' & -> & _); [..|done].
  - intros b c _. destruct (blocks f !! b) as [blk|] eqn:E; simpl; [|by intros ?%elem_of_nil].
    intros Hc. apply Hset. by apply (fo_consumers f F b blk).
  - apply Hset. by apply (fo_block f F).
  - apply empty_subseteq.
  - apply Nat.lt_succ_r. transitivity (base.size (list_to_set (seq 0 n) : gset nat)).
    + apply subseteq_size. by intros x [? _]%elem_of_difference.
    + rewrite size_list_to_set by apply NoDup_seq. by rewrite length_seq.
Qed.

Lemma is_after_total b : is_Some (is_after_reduce_stage f b).
Proof using F.
  unfold is_after_reduce_stage. destruct (reduction_block f) as [r|] eqn:E; [|done].
  destruct (reduce_dependent_total r E) as [deps ->]. by eexists.
Qed.

Lemma footprint_total tile rs : tile_ok f tile → positive rs → ∃ x, footprint f infer tile rs [] = Ok x.
Proof using F I.
  intros [Hr Hp] Hrs. unfold footprint.
  pose proof (λ b Hb, io_all f infer I b tile (axis_steps f rs) Hb Hr Hp (axis_steps_positive rs Hrs)) as Hio.
  destruct (infer tile (axis_steps f rs) None) as [shapes bound]. simpl in Hio. apply mfold_total.
  intros acc [i blk] (k & Hk)%list_elem_of_lookup_1. rewrite list_lookup_imap in Hk.
  destruct (blocks f !! k) as [blk'|] eqn:E; simplify_eq/=. destruct (is_after_total i) as [after ->]. cbn [or_raise mbind res_bind].
  pose proof (list_elem_of_lookup_2 _ _ _ E) as Hblk. apply mfold_total. intros [result cached] b Hb.
  destruct (Hio (output_buffer blk)) as (so & Hso & _); [eapply block_buffers; [done|by left]|].
  destruct (Hio b) as (s & Hs & _); [eapply block_buffers; [done|by right]|].
  assert ((list_to_map [] : gmap string Stride) !! name b = None) as Hst by done.
  unfold footprint_buffer, is_broadcast_pattern. rewrite Hso, Hs, Hst. cbn [mbind res_bind].
  destruct (bool_decide (name b ∈ cached)); [by eexists|]. destruct (bool_decide (b ∈ args f)); cbn [negb mbind res_bind];
    destruct (negb _); [by eexists| |by eexists|]; destruct after; by eexists.
Qed.

Context (M : Methods) {ML : MethodLaws f M}.

Lemma shared_memory_total tile rs : tile_ok f tile → positive rs → ∃ x, shared_memory_usage f custom_mem_mul M tile rs = Ok x.
Proof using ML.
  intros T Hrs. rewrite (shared_memory_usage_eq f custom_mem_mul M). destruct (ml_usage tile rs T Hrs) as [[n c] ->]. by eexists.
Qed.

Lemma compute_tile_dict_total capacity tile rs :
  tile_ok f tile → positive rs → ∃ td, compute_tile_dict arch f custom_mem_mul infer M capacity tile rs = Ok td.
Proof using F I ML transactions cores_pos.
  intros T Hrs. unfold compute_tile_dict. destruct (memory_traffic_total tile T) as [x ->]. cbn [mbind res_bind].
  destruct (shared_memory_total tile rs T Hrs) as [[cost cached] ->]. cbn [mbind res_bind].
  destruct (num_gtb cost capacity); [by eexists|]. unfold zip_strict. rewrite decide_True by apply T. cbn [mbind res_bind].
  edestruct (mmap_total (λ (_ : Z * Z) (_ : Z), True) (λ '(x, y), py_floordiv (y + x - 1) x)) as (l & -> & _).
  { intros [a b] Hab%elem_of_zip_l. unfold py_floordiv. destruct T as [_ Hp]. rewrite Forall_forall in Hp. specialize (Hp a Hab).
    destruct (Z.eqb_spec a 0); [lia|]. eauto. }
  cbn [mbind res_bind]. unfold py_truediv, num_ai_cores. destruct (Z.eqb_spec (compute_max_core arch) 0); [lia|]. by eexists.
Qed.

(** ** The grid *)

Lemma workload_total tile : tile_ok f tile → ∃ w, compute_workload_per_item f infer tile = Ok w.
Proof using F I.
  intros T. unfold compute_workload_per_item. rewrite (output_tile_map_total tile T). cbn [mbind res_bind].
  destruct (propagate_inputs_total tile [] T) as (l & -> & _); [constructor|]. cbn [mbind res_bind]. unfold py_truediv.
  assert (0 < prod tile) by (destruct T as [_ Hp]; unfold prod; clear -Hp; induction Hp; simpl; lia).
  destruct (Z.eqb_spec (prod tile) 0); [lia|]. by eexists.
Qed.

(** Every dimension of the base tile is 1 or the whole one. *)
Definition base_ok : list Z → Prop := Forall2 (λ d t, t = 1 ∨ t = d) (space_dim f).

Lemma base_tile_ok tile : base_ok tile → tile_ok f tile.
Proof using F.
  intros Hb. split; [symmetry; by eapply Forall2_length|]. pose proof (fo_dims f F) as Hd. unfold base_ok in Hb.
  apply Forall_forall. intros t [k Hk]%list_elem_of_lookup_1. destruct (Forall2_lookup_r _ _ _ _ _ Hb Hk) as (d & Hdk & Hor).
  rewrite Forall_forall in Hd. specialize (Hd d (list_elem_of_lookup_2 _ _ _ Hdk)). lia.
Qed.

Lemma get_base_tile_total : ∃ tile, get_base_tile f infer = Ok tile ∧ base_ok tile.
Proof using F I.
  unfold get_base_tile. set (ones := replicate (length (space_dim f)) 1).
  assert (base_ok ones) as Ho by (unfold base_ok, ones; clear; induction (space_dim f); constructor; auto).
  destruct (workload_total ones (base_tile_ok _ Ho)) as [w ->]. cbn [mbind res_bind].
  match goal with |- context [mfold ?g ?b ?l] =>
    destruct (mfold_total_inv (λ p, base_ok p.2) g l b) as ([w' base] & Hw & Hb);
      [| |setoid_rewrite Hw; by exists base] end.
  - exact Ho.
  - intros [w0 tile] [i d] (k & -> & Hk)%zip_seqZ_elem Hb. simpl in Hb.
    destruct (Forall2_lookup_l _ _ _ _ _ Hb Hk) as (t & Ht & _). rewrite (py_index_nat _ _ _ Ht). cbn [mbind res_bind].
    destruct (d =? t); [by eexists|].
    assert (py_setitem tile (Z.of_nat k) d = Ok (<[k := d]> tile)) as ->.
    { unfold py_setitem, norm_idx, len. destruct (Z.ltb_spec (Z.of_nat k) 0); [lia|]. apply lookup_lt_Some in Ht.
      destruct (Z.leb_spec (Z.of_nat (length tile)) (Z.of_nat k)); [lia|]. simpl.
      destruct (Z.ltb_spec (Z.of_nat k) 0); [lia|]. simpl. by rewrite Nat2Z.id. }
    assert (base_ok (<[k := d]> tile)) as Hb'.
    { unfold base_ok. replace (space_dim f) with (<[k := d]> (space_dim f)) by (by apply list_insert_id).
      apply Forall2_insert; [done|by right]. }
    cbn [mbind res_bind]. destruct (workload_total _ (base_tile_ok _ Hb')) as [w1 ->]. cbn [mbind res_bind].
    eexists. split; [done|]. by destruct (SFltb w1 w0).
Qed.

Lemma factor_steps_total base : base_ok base → ∃ steps, factor_steps f base = Ok steps ∧ Forall (λ s, s ≠ []) steps.
Proof using F H0.
  intros Hb. pose proof (fo_dims f F) as Hd. unfold factor_steps, zip_strict.
  rewrite decide_True by (rewrite length_fmap; by eapply Forall2_length). cbn [mbind res_bind].
  match goal with |- context [mmap ?g ?l] =>
    destruct (mmap_total (λ (_ : list Z * Z) (s : list Z), s ≠ []) g l) as (steps & -> & Hf) end.
  2: { exists steps. split; [done|]. apply Forall_forall. intros s [k Hk]%list_elem_of_lookup_1.
       by destruct (Forall2_lookup_r _ _ _ _ _ Hf Hk) as (? & _ & ?). }
  intros [step t] (k & (s & u & E & (d & -> & Hdk)%list_lookup_fmap_Some_1 & Hu)%lookup_zip_with_Some)%list_elem_of_lookup_1. simplify_eq.
  pose proof (Forall2_lookup_lr _ _ _ _ _ _ Hb Hdk Hu) as Hor. simpl in Hor.
  rewrite Forall_forall in Hd. specialize (Hd d (list_elem_of_lookup_2 _ _ _ Hdk)).
  destruct (get_all_factors_spec d Hd) as [_ Hdiv].
  assert (u ∈ get_all_factors d) as Hin.
  { apply Hdiv. destruct Hor as [->| ->]; split; [lia|apply Z.divide_1_l|lia|apply Z.divide_refl]. }
  destruct (py_find_lookup u _ Hin) as (j & -> & Hj). cbn [mbind res_bind]. eexists. split; [done|].
  rewrite (py_from_nat _ j u Hj). intros E0. apply (f_equal (λ l : list Z, l !! 0%nat)) in E0.
  rewrite lookup_drop, Nat.add_0_r, Hj in E0. done.
Qed.

Lemma ends_total (s : list Z) : s ≠ [] → (∃ x, py_index s 0 = Ok x) ∧ ∃ y, py_index s (-1) = Ok y.
Proof using Type.
  intros Hs. split; [destruct s as [|x s]; [done|]; exists x; by apply (py_index_nat (x :: s) 0)|].
  destruct s as [|y s _] using rev_ind; [done|]. exists y. apply py_index_last.
Qed.

Lemma add_simd_total steps :
  Forall (λ s, s ≠ []) steps → ∃ steps', mmap add_simd_sizes steps = Ok steps'.
Proof using Type.
  intros Hs. destruct (mmap_total (λ _ _, True) add_simd_sizes steps) as (l & Hl & _); [|eauto].
  intros s Hin. rewrite Forall_forall in Hs. destruct (ends_total s (Hs s Hin)) as [[x Hx] [y Hy]].
  unfold add_simd_sizes. rewrite Hx. cbn [mbind res_bind]. rewrite Hy. cbn [mbind res_bind]. eauto.
Qed.

Lemma calc_total steps : Forall (λ s, s ≠ []) steps → ∃ th, calc_numel_threshold arch f steps = Ok th.
Proof using F cores_pos.
  intros Hs. unfold calc_numel_threshold. pose proof (fo_outputs f F) as [Hpos _].
  destruct (lookup_lt_is_Some_2 (output_buffers f) 0 Hpos) as [out Hout].
  rewrite (py_index_nat _ 0 out Hout : py_index (output_buffers f) 0 = Ok out). cbn [mbind res_bind].
  assert (0 < nbytes (dtype_bits out)) as Hnb.
  { apply nbytes_range, dtype_bits_range, (fo_bits f F), args_buffers. right. by eapply list_elem_of_lookup_2. }
  unfold py_floordiv, num_ai_cores. destruct (Z.eqb_spec (nbytes (dtype_bits out)) 0); [lia|]. cbn [mbind res_bind].
  destruct (mmap_total (λ _ _, True) (λ step, py_index step (-1)) steps) as (l & -> & _).
  { intros s Hin. rewrite Forall_forall in Hs. destruct (ends_total s (Hs s Hin)) as [_ [y Hy]]. eauto. }
  cbn [mbind res_bind]. destruct (Z.eqb_spec (compute_max_core arch * 2) 0); [lia|].
  destruct (prod l <? 128 * 1024); cbn [mbind res_bind]; by eexists.
Qed.

Lemma grid_tile_ok base steps steps' tile :
  base_ok base → factor_steps f base = Ok steps → mmap add_simd_sizes steps = Ok steps' → on_grid steps' tile → tile_ok f tile.
Proof using F H0.
  intros Hb Hs Hs' Hg. destruct (grid_steps_sorted f base steps steps' (fo_dims f F) Hs Hs') as [Hsort Hh].
  destruct (heads_below steps' base tile Hsort Hh Hg) as [_ Hbelow]. destruct (base_tile_ok base Hb) as [Hr Hp].
  split; [by rewrite <- (Forall2_length _ _ _ Hbelow)|].
  clear -Hbelow Hp. induction Hbelow; constructor; apply Forall_cons in Hp as [? ?]; [lia|auto].
Qed.

(** ** Reduction steps *)

Lemma powers_positive fuel last extent l :
  0 < last → powers_of_two fuel last extent = Some l → l ≠ [] ∧ positive l.
Proof using Type.
  clear. revert last l. induction fuel as [|fuel IH]; intros last l Hl E; simpl in E; [done|].
  destruct (last <? extent); [|injection E as <-; split; [done|by repeat constructor]].
  destruct (powers_of_two fuel (last * 2) extent) as [k|] eqn:Ek; [|done]. injection E as <-.
  destruct (IH (last * 2) k) as [_ Hp]; [lia|done|]. split; [done|]. by constructor.
Qed.

Lemma factor_candidates_ok : ∃ cands, factor_candidates f = Some cands ∧
  length cands = length (raxis f) ∧ Forall (λ l, l ≠ [] ∧ positive l) cands.
Proof using F H0.
  destruct (candidates_total f) as [cands Hc]. exists cands. split; [done|].
  unfold factor_candidates in Hc. split; [apply length_mapM in Hc; by rewrite length_fmap in Hc|].
  apply mapM_Some in Hc. pose proof (fo_axes f F) as Hax. apply Forall_forall. intros l [k Hk]%list_elem_of_lookup_1.
  destruct (Forall2_lookup_r _ _ _ _ _ Hc Hk) as (extent & He & E). rewrite Forall_forall in Hax.
  specialize (Hax extent (list_elem_of_lookup_2 _ _ _ He)). unfold step_candidates in E.
  destruct (_ && _); [eapply powers_positive; [|exact E]; lia|]. injection E as <-.
  destruct (get_all_factors_spec extent Hax) as [_ Hd]. split.
  - intros E. assert (1 ∈ get_all_factors extent) as Hin by (apply Hd; split; [lia|apply Z.divide_1_l]).
    rewrite E in Hin. by apply elem_of_nil in Hin.
  - apply Forall_forall. intros d Hdd. by apply Hd.
Qed.

(** A sum over the input buffers of what their shapes give. *)
Lemma score_total {B} (g : B → list Z → Buffer → res B) (b0 : B) ins :
  Forall2 part_of (input_buffers f) ins →
  (∀ c s b, part_of b s → b ∈ buffers f → ∃ c', g c s b = Ok c') →
  ∃ r, mfold (λ score '(i, b), s ← py_index ins i; g score s b) b0
         (zip (seqZ 0 (len (input_buffers f))) (input_buffers f)) = Ok r.
Proof using Type.
  intros Hi Hg. apply mfold_indexed. intros c k b Hk. destruct (Forall2_lookup_l _ _ _ _ _ Hi Hk) as (s & Hs & Hpart).
  rewrite (py_index_nat _ _ _ Hs). cbn [mbind res_bind]. apply Hg; [done|].
  apply args_buffers. left. by eapply list_elem_of_lookup_2.
Qed.

Lemma assign_score_total all_steps ids :
  steps_ok all_steps → in_range all_steps ids → ∃ x, assign_score f infer all_steps ids = Ok x.
Proof using F I.
  intros Hp Hr. unfold assign_score. destruct (steps_at_total all_steps ids Hp Hr) as (rs & -> & Hrs & _). cbn [mbind res_bind].
  destruct (propagate_inputs_total (replicate (length (space_dim f)) 1) rs) as (ins & -> & Hi); [|done|].
  { split; [apply length_replicate|]. apply Forall_replicate. lia. }
  cbn [mbind res_bind].
  apply (score_total (λ score s b, let innermost := default 1 (last s) in
    let dma_score := if (innermost * nbytes (bits b)) mod dma_alignment =? 0 then f_of_Z 1
                     else SFdiv 53 1024 (f_exact 1) (f_exact 2) in
    c ← coalesced_factor s (shape b); Ok (f_add score (f_mul dma_score (f_of_Z c)))) _ _ Hi).
  intros c s b Hs Hb. destruct (coalesced_total b s Hs) as (x & -> & _); [by apply (fo_shape f F)|]. eauto.
Qed.

Lemma assign_loop_total n all_steps ids score :
  steps_ok all_steps → in_range all_steps ids →
  ∃ ids', assign_loop f infer n all_steps ids score = Ok ids' ∧ in_range all_steps ids'.
Proof using F I.
  intros Hp. revert ids score. induction n as [|n IH]; intros ids score Hr; simpl; [eauto|].
  destruct (assign_score_total all_steps ids Hp Hr) as [own ->]. cbn [mbind res_bind].
  destruct (mmap_total (λ c p, c = p.1 ∧ in_range all_steps c) (λ c, s ← assign_score f infer all_steps c; Ok (c, s))
    (enlargements all_steps ids)) as (rest & -> & Hrest).
  { intros c Hc. destruct (enlargements_spec all_steps ids c Hr Hc) as [Hr' _].
    destruct (assign_score_total all_steps c Hp Hr') as [s ->]. eauto. }
  cbn [mbind res_bind].
  match goal with |- context [max_by ?lt ?a ?l] => pose proof (max_by_elem lt a l) as Hm; destruct (max_by lt a l) as [new_ids new_score] end.
  destruct (SFleb new_score score); [eauto|]. apply IH.
  apply elem_of_cons in Hm as [[= -> ->]|Hm]; [done|]. apply list_elem_of_lookup_1 in Hm as [k Hk].
  destruct (Forall2_lookup_r _ _ _ _ _ Hrest Hk) as (c & _ & -> & ?). done.
Qed.

Lemma steps_ok_cands cands : Forall (λ l : list Z, l ≠ [] ∧ positive l) cands → steps_ok cands.
Proof using Type. intros Hc. eapply Forall_impl; [exact Hc|]. by intros l []. Qed.

(** The steps the policy starts from are among the candidates. *)
Lemma assign_reduce_step_ok : ∃ rs, assign_reduce_step f infer M = Some (Ok rs) ∧ positive rs ∧
  (raxis f = [] → rs = []) ∧
  (raxis f ≠ [] → ∀ cands, get_node_reduce_step_candidates M = Some cands → Forall2 (λ (s : list Z) r, r ∈ s) cands rs).
Proof using F I ML.
  unfold assign_reduce_step. destruct (reduction_block f) as [r|] eqn:Er.
  2: { exists []. split_and!; [done|constructor|done|]. intros Hax. apply (fo_reduction f F) in Hax. rewrite Er in Hax. by destruct Hax. }
  case_bool_decide as Hax; [exists []; split_and!; [done|constructor|done|done]|].
  destruct ml_candidates as (cands & Hc & Hlen & Hok). rewrite Hc. cbn [mbind option_bind].
  pose proof (steps_ok_cands cands Hok) as Hp.
  assert (in_range cands (replicate (length (raxis f)) 0%nat)) as Hr.
  { rewrite <- Hlen. clear -Hok. induction Hok as [|l cands [Hl _] _ IH]; constructor; [|exact IH]. destruct l; [done|simpl; lia]. }
  destruct (assign_score_total cands _ Hp Hr) as [score Hs]. rewrite Hs. cbn [mbind res_bind].
  destruct (assign_loop_total 100 cands _ score Hp Hr) as (ids & Hids & Hr'). rewrite Hids. cbn [mbind res_bind].
  destruct (steps_at_total cands ids Hp Hr') as (rs & -> & Hrs & Hin). exists rs. split_and!; [done|done|done|].
  intros _ cands' [= <-]. done.
Qed.

(** ** Growing the steps *)

Lemma expand_score_total tile all_steps ids :
  tile_ok f tile → steps_ok all_steps → in_range all_steps ids → ∃ z, expand_score f infer tile all_steps ids = Ok z.
Proof using F I.
  intros T Hp Hr. unfold expand_score.
  destruct (steps_at_total all_steps ids Hp Hr) as (rs & -> & Hrs & _). cbn [mbind res_bind].
  destruct (propagate_inputs_total tile rs T Hrs) as (ins & -> & Hi). cbn [mbind res_bind].
  destruct (score_total (λ score s b, c ← coalesced_factor s (shape b); Ok (score + c)) 0 ins Hi) as [x ->]; [|eauto].
  intros z s b Hs Hb. destruct (coalesced_total b s Hs) as (y & -> & _); [by apply (fo_shape f F)|]. eauto.
Qed.

(** ** Hints *)

Lemma vector_size_total s dtype sizes :
  0 < dtype ≤ 256 → positive sizes → ∃ v, vector_size s dtype sizes = Ok v.
Proof using Type.
  clear. intros Hd%nbytes_range Hp. induction Hp as [|v sizes Hv Hp [w IH]]; simpl; [eauto|]. rewrite IH.
  destruct (is_aligned s v); cbn [mbind res_bind andb]; [|eauto]. unfold is_dma_aligned, py_mod.
  assert (0 < nbytes dtype * v) by (apply Z.mul_pos_pos; lia).
  destruct (Z.eqb_spec (nbytes dtype * v) 0); [lia|].
  destruct ((nbytes dtype * v) mod dma_alignment =? 0); cbn [mbind res_bind]; destruct (_ && _); eauto.
Qed.

Lemma assign_block_size_total td :
  length (rstep_map td) = length (raxis f) → ∃ h, assign_block_size f infer td = Ok h.
Proof using F I.
  intros Hl. unfold assign_block_size.
  rewrite (steps_of_axes f td Hl). cbn [mbind res_bind]. unfold plan_vectorize_simd, propagate_reduction_inputs.
  assert (∃ v, mmap (λ '(tensor, s), dtype ← dict_get (get_reduce_inputs_dtype f) tensor;
      v ← vector_size s dtype [16; 8; 4; 2; 1]; Ok (tensor, v))
    match reduction_block f with None => [] | Some _ => (infer (tile_map td) (axis_steps f (rstep_map td)) (Some (name <$> reduction_inputs f))).1 end
    = Ok v) as [v ->]; [|by eexists].
  destruct (mmap_total (λ _ _, True) (λ '(tensor, s), dtype ← dict_get (get_reduce_inputs_dtype f) tensor;
      v ← vector_size s dtype [16; 8; 4; 2; 1]; Ok (tensor, v))
    match reduction_block f with None => [] | Some _ => (infer (tile_map td) (axis_steps f (rstep_map td)) (Some (name <$> reduction_inputs f))).1 end)
    as (v & Hv & _); [|eauto].
  intros [tensor s] Hin. destruct (reduction_block f) as [r|] eqn:Er; [|by apply elem_of_nil in Hin].
  assert (tensor ∈ name <$> reduction_inputs f) as Ht by (apply (io_keys f infer I (tile_map td) (axis_steps f (rstep_map td))), fst_elem; eauto).
  assert (∃ d, dict_get (get_reduce_inputs_dtype f) tensor = Ok d ∧ 0 < d ≤ 256) as (d & -> & Hd).
  { unfold dict_get, get_reduce_inputs_dtype. destruct (list_to_map _ !! tensor) as [d|] eqn:E.
    - exists d. split; [done|]. apply elem_of_list_to_map_2, list_elem_of_fmap in E as (b & [= -> ->] & Hb).
      apply (fo_bits f F). unfold reduction_inputs in Hb. rewrite Er in Hb. destruct (blocks f !! r) as [blk|] eqn:Eb; [|by apply elem_of_nil in Hb].
      eapply block_buffers; [by eapply list_elem_of_lookup_2|by right].
    - exfalso. apply not_elem_of_list_to_map_2 in E. apply E. rewrite <- list_fmap_compose. done. }
  cbn [mbind res_bind]. destruct (vector_size_total s d [16; 8; 4; 2; 1] Hd) as [w ->]; [repeat constructor; lia|]. eauto.
Qed.

(** Steps that can be handed to [expand_reduce_axis]. *)
Record start_ok (rs : list Z) : Prop := {
  st_positive : positive rs;
  st_none : raxis f = [] → rs = [];
  st_candidates cands : raxis f ≠ [] → get_node_reduce_step_candidates M = Some cands → startable cands rs;
}.

Lemma candidates_positive cands : Forall (λ l : list Z, l ≠ [] ∧ positive l) cands → Forall positive cands.
Proof using Type. intros Hc. eapply Forall_impl; [exact Hc|]. by intros l []. Qed.

(** Growing returns steps that are multiples, and a cost within the buffer when
    it was so before. *)
Lemma expand_total capacity td :
  tile_ok f (tile_map td) → start_ok (rstep_map td) → priced f custom_mem_mul M capacity td →
  num_gtb (smem_cost td) (ub_capacity arch) = false →
  ∃ td', expand_reduce_axis arch f custom_mem_mul infer M td = Some (Ok td') ∧
    tile_map td' = tile_map td ∧ length (rstep_map td') = length (raxis f) ∧
    Forall2 (λ a b, (a | b)) (rstep_map td) (rstep_map td') ∧
    shared_memory_usage f custom_mem_mul M (tile_map td') (rstep_map td') = Ok (smem_cost td', cached_tensors td') ∧
    num_gtb (smem_cost td') (ub_capacity arch) = false.
Proof using F I ML.
  intros T [Hp Hn Hc] P Hle. unfold expand_reduce_axis.
  assert (∃ rs', (if bool_decide (raxis f = []) then Some (Ok (rstep_map td)) else
      optimize M (expand_score f infer (tile_map td)) (shared_memory_usage f custom_mem_mul M (tile_map td)) (ub_capacity arch) (rstep_map td))
      = Some (Ok rs') ∧ length rs' = length (raxis f) ∧ positive rs' ∧ Forall2 (λ a b, (a | b)) (rstep_map td) rs' ∧
      (rs' = rstep_map td ∨ ∃ n c, shared_memory_usage f custom_mem_mul M (tile_map td) rs' = Ok (n, c) ∧ num_gtb n (ub_capacity arch) = false))
    as (rs' & -> & Hl & Hp' & Hd & Hor).
  { case_bool_decide as Hax; [rewrite (Hn Hax), Hax; exists []; split_and!; by auto|].
    destruct ml_candidates as (cands & Hcands & Hlen & Hok). pose proof (Hc cands Hax Hcands) as Hst.
    destruct (optimize_total M (expand_score f infer (tile_map td)) (shared_memory_usage f custom_mem_mul M (tile_map td)) (ub_capacity arch)
      cands (rstep_map td) Hcands (candidates_positive _ Hok) Hst) as (rs' & ? & ? & ? & ? & ?).
    - intros all_steps ids. by apply expand_score_total.
    - intros rs' _. by apply shared_memory_total.
    - exists rs'. split_and!; try done. rewrite <- Hlen. etransitivity; [done|]. symmetry. by eapply Forall2_length. }
  cbn [mbind option_bind res_bind]. unfold with_rstep.
  destruct (shared_memory_total (tile_map td) rs' T Hp') as [[n c] Hu]. rewrite Hu. cbn [mbind res_bind].
  eexists. split; [done|]. simpl. split_and!; try done.
  destruct Hor as [->|(m & c' & Hm & ?)]; [|congruence]. rewrite (p_cost _ _ _ _ _ P) in Hu. by simplify_eq.
Qed.

Lemma dfs_total capacity base rs :
  base_ok base → positive rs →
  ∃ th tds, dfs_smem_tile arch f custom_mem_mul infer M capacity base rs = Some (Ok (th, tds)).
Proof using F I H0 ML transactions cores_pos.
  intros Hb Hp. unfold dfs_smem_tile. destruct (factor_steps_total base Hb) as (steps & Hs & Hne). rewrite Hs. cbn [mbind res_bind].
  destruct (calc_total steps Hne) as [th ->]. cbn [mbind res_bind].
  destruct (add_simd_total steps Hne) as [steps' Hs']. rewrite Hs'. cbn [mbind res_bind].
  destruct (search_tiles_spec (λ tile, compute_tile_dict arch f custom_mem_mul infer M capacity tile rs) td_valid prio steps' base
    (steps_on_grid f base steps steps' Hs Hs')) as (r & -> & Hr). cbn [mbind option_bind].
  destruct r as [l|e]; [by eexists _, _|]. destruct Hr as (tile & Hg & _ & E).
  destruct (compute_tile_dict_total capacity tile rs) as [td Htd]; [by eapply grid_tile_ok|done|]. rewrite Htd in E. done.
Qed.

(** What the search hands to the loop: valid for the capacity and on the grid. *)
Definition found (capacity : Z) (base rs : list Z) (td : TileDict) : Prop :=
  priced f custom_mem_mul M capacity td ∧ rstep_map td = rs ∧ td_valid td = true ∧ tile_map td = output_tile td ∧ tile_ok f (tile_map td) ∧
  ∃ steps steps', factor_steps f base = Ok steps ∧ mmap add_simd_sizes steps = Ok steps' ∧ on_grid steps' (tile_map td).

Lemma dfs_found capacity base rs :
  base_ok base → positive rs →
  ∃ steps th tds, dfs_smem_tile arch f custom_mem_mul infer M capacity base rs = Some (Ok (th, tds)) ∧
    calc_numel_threshold arch f steps = Ok th ∧ Forall (found capacity base rs) tds.
Proof using F I H0 ML transactions cores_pos.
  intros Hb Hp. destruct (dfs_total capacity base rs Hb Hp) as (th & tds & Hd).
  destruct (dfs_smem_tile_spec arch f custom_mem_mul infer M capacity base rs) as (r & Hr & Hspec). rewrite Hd in Hr. injection Hr as <-.
  destruct (Hspec th tds eq_refl) as (steps & steps' & Hs & Hs' & Hth & _ & Hc). exists steps, th, tds. split_and!; try done.
  eapply Forall_impl; [exact Hc|]. intros td (P & Hrs & Hv & Hg).
  pose proof (grid_tile_ok base steps steps' _ Hb Hs Hs' Hg) as T. pose proof (p_tile _ _ _ _ _ P) as Htm.
  rewrite (output_tile_map_total _ T) in Htm. injection Htm as Htm.
  split_and!; [done|done|done|done|by rewrite <- Htm|]. exists steps, steps'. by rewrite <- Htm.
Qed.

(** A policy with these methods returns hints of the property [R] if its own
    methods return one for every tile found; the elements of a hint fit the
    unified buffer. *)
Lemma emit_config_total (P : Policy) (R : list Z → Hint → Prop) rs topk :
  methods P = M → p_assign_reduce_step P = Some (Ok rs) → positive rs →
  (∀ base td, base_ok base → found (tile_buffer_capacity P) base rs td → ∃ b, p_check P td = Ok b ∧
    (b = true → ∃ td' o, p_expand P td = Some (Ok td') ∧ p_assign P td' = Ok o ∧
      ∀ h, o = Some h → R base h ∧ positive (block h))) →
  ∃ hs base, emit_config arch f custom_mem_mul infer P topk = Some (Ok hs) ∧ get_base_tile f infer = Ok base ∧
    len hs ≤ Z.max 1 topk ∧
    Forall (λ h, R base h ∧ ∃ out, output_buffers f !! 0%nat = Some out ∧ prod (block h) * nbytes (dtype_bits out) ≤ ub_capacity arch) hs.
Proof using F I H0 ML transactions cores_pos.
  intros HM Hrs Hp HP. unfold emit_config. destruct get_base_tile_total as (base & Hbase & Hb). rewrite Hbase, Hrs, HM. cbn [mbind option_bind].
  destruct (dfs_found (tile_buffer_capacity P) base rs Hb Hp) as (steps & th & tds & -> & Hth & Hf). cbn [mbind option_bind].
  destruct (collect_total P (found (tile_buffer_capacity P) base rs) (λ h, R base h ∧ positive (block h)) topk tds []) as (new & -> & Hn & Hlen);
    [auto|done|]. cbn [mbind option_bind res_bind app]. simpl in Hlen.
  eexists _, base. split_and!; [done|done| |].
  - etransitivity; [|apply Hlen; unfold len; simpl; lia]. unfold len. pose proof (verify_results_length topk th new). lia.
  - apply Forall_forall. intros h [Hin Hle]%verify_results_spec. rewrite Forall_forall in Hn. destruct (Hn h Hin) as [HR Hpos]. split; [done|].
    eapply calc_threshold_bound; [done| |intros b Hbo; apply (fo_bits f F), args_buffers; by right].
    unfold calculate_tile_numel in Hle. rewrite tile_numel_prod in Hle. split; [by apply prod_nonneg|done].
Qed.

(** A valid tile stays valid when it shrinks, if the cost grows with the tile. *)
Definition cost_monotone (rs : list Z) : Prop := ∀ t u n m c c',
  tile_ok f t → tile_ok f u → below_tile t u →
  shared_memory_usage f custom_mem_mul M t rs = Ok (n, c) →
  shared_memory_usage f custom_mem_mul M u rs = Ok (m, c') → num_le n m.

Lemma dfs_exhaustive capacity base rs steps steps' :
  base_ok base → positive rs → factor_steps f base = Ok steps → mmap add_simd_sizes steps = Ok steps' →
  (length (grid steps') ≤ 2000)%nat → cost_monotone rs →
  ∃ th tds, dfs_smem_tile arch f custom_mem_mul infer M capacity base rs = Some (Ok (th, tds)) ∧ ascending prio tds ∧ NoDup (output_tile <$> tds) ∧
    ∀ tile, (∃ td, td ∈ tds ∧ output_tile td = tile) ↔
      on_grid steps' tile ∧ ∃ n c, shared_memory_usage f custom_mem_mul M tile rs = Ok (n, c) ∧ num_gtb n capacity = false.
Proof using F I H0 ML transactions cores_pos.
  intros Hb Hp Hs Hs' Hgrid Hmono. set (compute := λ tile, compute_tile_dict arch f custom_mem_mul infer M capacity tile rs).
  assert (∀ tile, on_grid steps' tile → tile_ok f tile) as Hok by (intros tile; by eapply grid_tile_ok).
  assert (∀ tile td, on_grid steps' tile → compute tile = Ok td → output_tile td = tile ∧
    (td_valid td = true ↔ ∃ n c, shared_memory_usage f custom_mem_mul M tile rs = Ok (n, c) ∧ num_gtb n capacity = false)) as Hvalid.
  { intros tile td Hg Hc. destruct (compute_tile_dict_priced arch f custom_mem_mul infer M capacity tile rs td Hc) as (P & Ho & Hr).
    split; [done|]. pose proof (p_tile _ _ _ _ _ P) as Htm. rewrite Ho, (output_tile_map_total tile (Hok _ Hg)) in Htm. injection Htm as Htm.
    pose proof (p_cost _ _ _ _ _ P) as Hcost. rewrite <- Htm, Hr in Hcost. rewrite (p_valid _ _ _ _ _ P), Hcost. split; [eauto|].
    intros (n & c & [= <- <-] & ?). done. }
  destruct (dfs_total capacity base rs Hb Hp) as (th & tds & Hd). exists th, tds. split; [done|].
  unfold dfs_smem_tile in Hd. rewrite Hs in Hd. cbn [mbind res_bind] in Hd.
  destruct (calc_numel_threshold arch f steps); [|done]. cbn [mbind res_bind] in Hd. rewrite Hs' in Hd. cbn [mbind res_bind] in Hd.
  destruct (search_tiles_spec compute td_valid prio steps' base (steps_on_grid f base steps steps' Hs Hs')) as (r & Hr & Hspec).
  unfold compute in Hr. rewrite Hr in Hd. cbn [mbind option_bind] in Hd. destruct r as [l|e]; [|done].
  injection Hd as _ ->. destruct Hspec as (Hasc & (tiles & Hnd & Hf) & _ & Hall). split; [done|].
  assert (tiles = output_tile <$> tds) as Htiles.
  { apply list_eq_Forall2, Forall2_fmap_r. eapply Forall2_impl; [exact Hf|]. intros t td (Hg & _ & Hc & _).
    symmetry. apply (Hvalid t td Hg Hc). }
  split; [by rewrite <- Htiles|].
  destruct (grid_steps_sorted f base steps steps' (fo_dims f F) Hs Hs') as [Hsort Hh]. intros tile. split.
  - intros (td & [k Hk]%list_elem_of_lookup_1 & <-). destruct (Forall2_lookup_r _ _ _ _ _ Hf Hk) as (t & _ & Hg & _ & Hc & Hv).
    destruct (Hvalid t td Hg Hc) as [Ho Hiff]. rewrite Ho. split; [done|]. by apply Hiff.
  - intros [Hg Hcost]. destruct (compute_tile_dict_total capacity tile rs (Hok _ Hg) Hp) as [td Htd].
    destruct (Hvalid tile td Hg Htd) as [Ho Hiff]. exists td. split; [|done]. apply (Hall Hgrid tile); [|done|by apply Hiff].
    eapply (down_closed_reached compute td_valid steps'); [done|done| |done|exact Htd|by apply Hiff].
    intros t u tdu Ht Hu Hbelow Hcu Hvu. destruct (compute_tile_dict_total capacity t rs (Hok _ Ht) Hp) as [tdt Htdt].
    exists tdt. split; [done|]. apply (Hvalid t tdt Ht Htdt). apply (Hvalid u tdu Hu Hcu) in Hvu as (m & c' & Hm & Hle).
    destruct (shared_memory_total t rs (Hok _ Ht) Hp) as [[n c] Hn]. exists n, c. split; [done|].
    eapply num_le_fits; [|exact Hle]. by eapply (Hmono t u); eauto.
Qed.
End total.

(** ** The policy for vector operations *)

Lemma AscendDefaultMethods_laws `{!NumPy, !NumPyLaws} f infer :
  func_ok f → infer_ok f infer → MethodLaws f (AscendDefaultMethods f infer).
Proof.
  intros F I. split; [apply _|by apply factor_candidates_ok|]. intros tile rs. by apply footprint_total.
Qed.

Lemma usage_bytes `{!NumPy} f custom_mem_mul infer tile rs n c :
  shared_memory_usage f custom_mem_mul (AscendDefaultMethods f infer) tile rs = Ok (n, c) →
  ∃ bytes, infer_node_smem_usage (AscendDefaultMethods f infer) tile rs = Ok (bytes, c) ∧
    n = num_mul (PyInt bytes) custom_mem_mul.
Proof.
  rewrite (shared_memory_usage_eq f custom_mem_mul (AscendDefaultMethods f infer)).
  destruct (infer_node_smem_usage _ _ _) as [[bytes c']|]; [|done].
  intros [= <- <-]. by exists bytes.
Qed.

(** What a hint of this policy promises to the code generator: a positive tile of
    the searched grid; the bytes counted for its reduction steps, times the
    multiplier, are not above the unified buffer, and the bytes themselves are not
    for the default multiplier 1; the steps are multiples of those first assigned; no
    threads. *)
Record good_hint `{!NumPy} (arch : AscendArch) (f : PrimFunc) (custom_mem_mul : num)
    (infer : list Z → list (string * Z) → option (list string) → list (string * list Z) * list string) (rs base : list Z) (h : Hint) : Prop := {
  gh_cost : ∃ bytes,
    infer_node_smem_usage (AscendDefaultMethods f infer) (block h) (rstep h) = Ok (bytes, hint_cached h) ∧
    shared_memory_usage f custom_mem_mul (AscendDefaultMethods f infer) (block h) (rstep h) =
      Ok (num_mul (PyInt bytes) custom_mem_mul, hint_cached h) ∧
    num_gtb (num_mul (PyInt bytes) custom_mem_mul) (ub_capacity arch) = false ∧
    (custom_mem_mul = PyInt 1 → bytes ≤ ub_capacity arch);
  gh_positive : positive (block h);
  gh_grid : ∃ steps steps', factor_steps f base = Ok steps ∧ mmap add_simd_sizes steps = Ok steps' ∧ on_grid steps' (block h);
  gh_steps : Forall2 (λ a b, (a | b)) rs (rstep h);
  gh_threads : thread h = replicate (length (block h)) 1 ∧ reduce_thread h = replicate (length (raxis f)) 1;
}.

(** Every chip of the table has cores and 32-byte transactions. *)
Lemma AscendArch_init_ok chip detected :
  default 1 detected > 0 →
  ∃ arch, AscendArch_init chip detected = Ok arch ∧ 0 < compute_max_core arch ∧ transaction_size arch = (32, 32).
Proof.
  intros Hd. unfold AscendArch_init. case_bool_decide as Hin.
  - cbn in Hin. rewrite !elem_of_cons, elem_of_nil in Hin.
    destruct Hin as [->|[->|[->|[]]]]; (eexists; split; [reflexivity|]); destruct detected; simpl in *; split; lia || done.
  - eexists; split; [reflexivity|]. destruct detected; simpl in *; split; lia || done.
Qed.

(** C4: for a function with sensible buffers and axes ([func_ok]), an analyzer that
    answers for every buffer ([infer_ok]), a positive number of cores and any
    multiplier, an [int] or a [float], [emit_config] of the Ascend policy returns: at
    most [max(1, topk)] hints, each a positive tile of the searched grid for which the
    bytes [infer_node_smem_usage] counts for the reduction steps of the hint, times
    the multiplier, are not above the unified buffer of the chip (the bytes themselves
    for the default multiplier 1), whose elements alone fit it, and whose steps are
    multiples of the steps first assigned. *)
Theorem emit_config_correct `{!NumPy, !NumPyLaws} chip detected f custom_mem_mul infer topk :
  default 1 detected > 0 → func_ok f → infer_ok f infer →
  ∃ arch hs base rs, AscendArch_init chip detected = Ok arch ∧
    emit_config arch f custom_mem_mul infer (AscendDefaultPolicy arch f custom_mem_mul infer) topk = Some (Ok hs) ∧
    len hs ≤ Z.max 1 topk ∧ get_base_tile f infer = Ok base ∧
    assign_reduce_step f infer (AscendDefaultMethods f infer) = Some (Ok rs) ∧
    Forall (λ h, good_hint arch f custom_mem_mul infer rs base h ∧
      ∃ out, output_buffers f !! 0%nat = Some out ∧ prod (block h) * nbytes (dtype_bits out) ≤ ub_capacity arch) hs.
Proof.
  intros Hd F I. destruct (AscendArch_init_ok chip detected Hd) as (arch & Ha & Hc & Ht).
  pose proof (AscendDefaultMethods_laws f infer F I) as ML. set (M := AscendDefaultMethods f infer) in *.
  destruct (assign_reduce_step_ok f infer F I M) as (rs & Hrs & Hp & Hn & Hcand).
  destruct (emit_config_total arch f custom_mem_mul infer F I Hc Ht M (AscendDefaultPolicy arch f custom_mem_mul infer)
    (good_hint arch f custom_mem_mul infer rs) rs topk) as (hs & base & He & Hb & Hl & Hg); [done|done|done| |by exists arch, hs, base, rs].
  intros base td Hbase (P & Hr & _ & Htm & T & Hgrid). simpl.
  destruct (check_tile_shape_isvalid arch td) eqn:Hv; eexists; (split; [done|]); [intros _|done].
  destruct (check_spec arch td Hv) as [Hcost Hpos].
  destruct (expand_total arch f custom_mem_mul infer F I M (ub_capacity arch) td T) as (td' & He & Htm' & Hlen & Hdiv & Hu & Hle); [|done|done|].
  { rewrite Hr. split; [done|done|]. intros cands Hax Hcs. apply startable_elem; [done|by apply Hcand]. }
  destruct (assign_block_size_total f infer F I td' Hlen) as [h Hh]. exists td', (Some h). rewrite Hh. split_and!; [done|done|].
  intros h' [= <-]. destruct (assign_block_size_spec f infer td' h Hlen Hh) as (Hblk & Hrst & Hca & Hth).
  split; [|by rewrite Hblk, Htm'].
  destruct (usage_bytes _ _ _ _ _ _ _ Hu) as (bytes & Hby & Hnm).
  split; rewrite ?Hblk, ?Hrst, ?Hca, ?Htm', <- ?Hr; [|done|done|done|by rewrite Hblk, Htm' in Hth].
  rewrite <- Htm'. exists bytes. rewrite <- Hnm. split_and!; [done|done|done|].
  intros ->. rewrite Hnm in Hle. unfold num_mul in Hle. rewrite num_gtb_int in Hle. apply Z.ltb_ge in Hle. lia.
Qed.

(** C14: when the cost of a tile grows with the tile and the grid has at most 2000
    tiles, the search returns exactly the tiles of the grid that fit the capacity,
    each once, in ascending order of priority. *)
Theorem dfs_smem_tile_exhaustive `{!NumPy, !NumPyLaws} chip detected f custom_mem_mul infer capacity base rs steps steps' :
  default 1 detected > 0 → func_ok f → infer_ok f infer →
  base_ok f base → positive rs → factor_steps f base = Ok steps → mmap add_simd_sizes steps = Ok steps' →
  (length (grid steps') ≤ 2000)%nat → cost_monotone f custom_mem_mul (AscendDefaultMethods f infer) rs →
  ∃ arch th tds, AscendArch_init chip detected = Ok arch ∧
    dfs_smem_tile arch f custom_mem_mul infer (AscendDefaultMethods f infer) capacity base rs = Some (Ok (th, tds)) ∧ ascending prio tds ∧ NoDup (output_tile <$> tds) ∧
    ∀ tile, (∃ td, td ∈ tds ∧ output_tile td = tile) ↔
      on_grid steps' tile ∧ ∃ n c, shared_memory_usage f custom_mem_mul (AscendDefaultMethods f infer) tile rs = Ok (n, c) ∧
        num_gtb n capacity = false.
Proof.
  intros Hd F I Hb Hp Hs Hs' Hg Hm. destruct (AscendArch_init_ok chip detected Hd) as (arch & Ha & Hc & Ht).
  pose proof (AscendDefaultMethods_laws f infer F I).
  destruct (dfs_exhaustive arch f custom_mem_mul infer F I Hc Ht (AscendDefaultMethods f infer) capacity base rs steps steps' Hb Hp Hs Hs' Hg Hm)
    as (th & tds & ? & ? & ? & ?). by exists arch, th, tds.
Qed.

(** ** Witnesses *)
Module RollerTotalEx.

(** A product of two 64 by 64 matrices of 16-bit floats. *)
Definition A : Buffer := MkBuffer "A" [64; 64] 16.
Definition B : Buffer := MkBuffer "B" [64; 64] 16.
Definition C : Buffer := MkBuffer "C" [64; 64] 16.

Definition matmul : PrimFunc :=
  MkPrimFunc [MkTirBlock C [A; B] true []] (Some 0%nat) [("k"%string, 64)] [64; 64] [A; B] [C].

(** Its shape inference: the tile [[m; n]] reads [m] rows and [n] columns. *)
Definition matmul_shapes (tile : list Z) (st : list (string * Z)) : list (string * list Z) :=
  let k := default 64 ((list_to_map st : gmap string Z) !! "k"%string) in
  match tile with
  | [m; n] => [("A"%string, [m; k]); ("B"%string, [k; n]); ("C"%string, [m; n])]
  | _ => []
  end.

Definition matmul_infer (tile : list Z) (st : list (string * Z)) (targets : option (list string)) :
    list (string * list Z) * list string :=
  (match targets with
   | None => matmul_shapes tile st
   | Some ts => filter (λ p : string * list Z, p.1 ∈ ts) (matmul_shapes tile st)
   end, []).

Lemma dict_get_filter {X} (d : list (string * X)) (ts : list string) k :
  k ∈ ts → dict_get (filter (λ p : string * X, p.1 ∈ ts) d) k = dict_get d k.
Proof.
  intros Hk. unfold dict_get. f_equal. induction d as [|[j x] d IH]; [done|]. rewrite filter_cons. case_decide as Hj; simpl in *.
  - destruct (decide (j = k)) as [->|]; [by rewrite !lookup_insert_eq|]. by rewrite !lookup_insert_ne.
  - rewrite lookup_insert_ne; [done|]. by intros ->.
Qed.

#[local] Instance np : NumPy := { np_ceil_sqrt := Z.sqrt_up }.
#[local] Instance np_laws : NumPyLaws.
Proof. split. done. Qed.

Lemma matmul_ok : func_ok matmul.
Proof.
  split.
  - cbn [space_dim matmul]. rewrite !Forall_cons, Forall_nil. lia.
  - cbn. rewrite !Forall_cons, Forall_nil. lia.
  - intros b Hb. change (b ∈ [A; B; C; C; A; B]) in Hb. repeat (apply elem_of_cons in Hb as [->|Hb]; [split; [done|cbn; rewrite !Forall_cons, Forall_nil; lia]|]). by apply elem_of_nil in Hb.
  - intros b Hb. change (b ∈ [A; B; C; C; A; B]) in Hb. repeat (apply elem_of_cons in Hb as [->|Hb]; [simpl; lia|]). by apply elem_of_nil in Hb.
  - simpl. lia.
  - intros _. by eexists.
  - intros r [= <-]. simpl. lia.
  - intros [|n] blk c Hn Hc; simplify_eq/=. by apply elem_of_nil in Hc.
Qed.

Lemma matmul_part b tile st :
  b ∈ buffers matmul → length tile = 2%nat → positive tile → positive st.*2 →
  ∃ s, dict_get (matmul_shapes tile st) (name b) = Ok s ∧ part_of b s.
Proof.
  intros Hb Hl Hp Hst. destruct tile as [|m [|n [|]]]; try done. unfold matmul_shapes.
  set (k := default 64 _). assert (0 < k) as Hk.
  { unfold k. destruct (_ !! _) as [z|] eqn:E; simpl; [|lia]. apply elem_of_list_to_map_2 in E.
    rewrite Forall_forall in Hst. apply Hst. by apply (list_elem_of_fmap_2 snd _ ("k"%string, z)). }
  apply Forall_cons in Hp as [Hm Hp]. apply Forall_cons in Hp as [Hn _].
  change (b ∈ [A; B; C; C; A; B]) in Hb.
  assert (∀ X x y, length (shape X) = 2%nat → 0 < x → 0 < y → part_of X [x; y]) as Hpart.
  { intros X x y HX ? ?. split; [done|by rewrite HX|]. rewrite !Forall_cons, Forall_nil. lia. }
  assert (∃ x y, dict_get [("A"%string, [m; k]); ("B"%string, [k; n]); ("C"%string, [m; n])] (name b) = Ok [x; y] ∧ 0 < x ∧ 0 < y ∧
    length (shape b) = 2%nat) as (x & y & E & ? & ? & ?); [|exists [x; y]; split; [exact E|by apply Hpart]].
  repeat (apply elem_of_cons in Hb as [->|Hb]; [do 2 eexists; by split_and!|]).
  by apply elem_of_nil in Hb.
Qed.

Lemma matmul_infer_ok : infer_ok matmul matmul_infer.
Proof.
  split.
  - intros b tile st. apply matmul_part.
  - intros b tile st ts Hb Hn. unfold matmul_infer. simpl. rewrite dict_get_filter by done. by apply matmul_part.
  - intros tile st ts k Hk. unfold matmul_infer in Hk. simpl in Hk. apply list_elem_of_fmap in Hk as (p & -> & Hp).
    by apply list_elem_of_filter in Hp as [? _].
Qed.

Lemma emit_config_correct_witness :
  ∃ arch hs, AscendArch_init "Ascend910B3" None = Ok arch ∧
    emit_config arch matmul (PyInt 1) matmul_infer (AscendDefaultPolicy arch matmul (PyInt 1) matmul_infer) 3 = Some (Ok hs) ∧
    block <$> hs = [[16; 16]; [16; 32]; [32; 16]] ∧ rstep <$> hs = [[64]; [64]; [64]] ∧ len hs ≤ 3.
Proof.
  destruct (emit_config_correct "Ascend910B3" None matmul (PyInt 1) matmul_infer 3) as (arch & hs & base & rs & Ha & He & Hl & _);
    [simpl; lia|exact matmul_ok|exact matmul_infer_ok|].
  exists arch, hs. split; [done|]. split; [done|]. vm_compute in Ha. injection Ha as <-. vm_compute in He. injection He as <-.
  split; [done|]. split; [done|]. exact Hl.
Defined.

(** With the multiplier 1.3 the tile of 16 by 32 no longer fits 6144 bytes, with
    0.5 twice the bytes do. *)
Lemma float_multiplier :
  let mul a b := PyFloat (SFdiv 53 1024 (f_exact a) (f_exact b)) in
  let cost x := shared_memory_usage matmul x (AscendDefaultMethods matmul matmul_infer) [16; 32] [64] in
  let fits x cap := match cost x with Ok (n, _) => negb (num_gtb n cap) | Raise _ => false end in
  fits (PyInt 1) 6144 = true ∧ fits (mul 13 10) 6144 = false ∧ fits (mul 1 2) 3072 = true.
Proof. by vm_compute. Qed.

(** Its inputs of a tile take whole lines. *)
Lemma matmul_usage m n :
  shared_memory_usage matmul (PyInt 1) (AscendDefaultMethods matmul matmul_infer) [m; n] [64] =
  Ok (PyInt ((m * 64 * 2 + 31) / 32 * 32 + (64 * n * 2 + 31) / 32 * 32), ["A"; "B"]%string).
Proof.
  rewrite shared_memory_usage_eq by apply _. cbn [infer_node_smem_usage AscendDefaultMethods].
  assert (footprint matmul matmul_infer [m; n] [64] [] = Ok (0 + (m * (64 * 1) * 2 + 31) / 32 * 32 + (64 * (n * 1) * 2 + 31) / 32 * 32, ["A"; "B"]%string))
    as -> by reflexivity.
  cbn [mbind res_bind num_mul]. by rewrite !Z.mul_1_r.
Qed.

Lemma matmul_monotone : cost_monotone matmul (PyInt 1) (AscendDefaultMethods matmul matmul_infer) [64].
Proof.
  intros t u n m c c' [Ht Hpt] [Hu Hpu] Hb.
  destruct t as [|m1 [|n1 [|]]]; try done. destruct u as [|m2 [|n2 [|]]]; try done. rewrite !matmul_usage.
  inversion Hb as [|? ? ? ? Hm Hb']; subst. inversion Hb' as [|? ? ? ? Hn _]; subst. intros [= <- _] [= <- _].
  apply num_le_int, Z.add_le_mono; apply Z.mul_le_mono_nonneg_r; try done; apply Z.div_le_mono; lia.
Qed.

Lemma dfs_smem_tile_exhaustive_witness :
  ∃ arch th tds, AscendArch_init "Ascend910B3" None = Ok arch ∧
    dfs_smem_tile arch matmul (PyInt 1) matmul_infer (AscendDefaultMethods matmul matmul_infer) 4096 [1; 1] [64] = Some (Ok (th, tds)) ∧ NoDup (output_tile <$> tds) ∧
    ∃ td, td ∈ tds ∧ output_tile td = [16; 16].
Proof.
  destruct (dfs_smem_tile_exhaustive "Ascend910B3" None matmul (PyInt 1) matmul_infer 4096 [1; 1] [64]
    [[1; 2; 4; 8; 16; 32; 64]; [1; 2; 4; 8; 16; 32; 64]] [[1; 2; 4; 8; 16; 32; 64]; [1; 2; 4; 8; 16; 32; 64]]) as (arch & th & tds & Ha & Hd & _ & Hnd & Hall).
  - simpl; lia.
  - exact matmul_ok.
  - exact matmul_infer_ok.
  - by repeat constructor.
  - repeat constructor.
  - by vm_compute.
  - by vm_compute.
  - vm_compute. lia.
  - exact matmul_monotone.
  - exists arch, th, tds. split_and!; try done. apply Hall. split; [repeat constructor|]. rewrite matmul_usage. do 2 eexists. split; [done|]. by vm_compute.
Defined.
End RollerTotalEx.
