(* ===== verification/ShapeInfer.v ===== *)
(** * Shape inference over TIR blocks

    [src/tilelang/carver/roller/shape_inference/tir.py]: which part of every buffer
    a tile of the scheduled blocks needs.  The blocks are given by what the code asks
    the block analyzer: their buffers, their axes and, in the order of the visit, the
    loads of their bodies.  TVM's arithmetic (the simplifier, constant bounds and
    affine maps) is a parameter. *)
From stdpp Require Import base strings gmap numbers relations list.
From S2P Require Import Prelude Tir RollerPolicy.
#[local] Open Scope Z_scope.

(** ** Dicts in insertion order *)

Section dict.
Context {K V : Type} `{EqDecision K}.

Definition dict := list (K * V).

Fixpoint dict_find (k : K) (d : dict) : option V :=
  match d with
  | [] => None
  | (k', v) :: d' => if decide (k = k') then Some v else dict_find k d'
  end.

(** [d[k] = v]: in place, or at the end. *)
Fixpoint dict_set (k : K) (v : V) (d : dict) : dict :=
  match d with
  | [] => [(k, v)]
  | (k', v') :: d' => if decide (k = k') then (k, v) :: d' else (k', v') :: dict_set k v d'
  end.

(** A dict display or comprehension. *)
Definition dict_of (l : list (K * V)) : dict := foldl (λ d kv, dict_set kv.1 kv.2 d) [] l.

Definition dict_item (d : dict) (k : K) : res V := or_raise KeyError (dict_find k d).
End dict.
Arguments dict : clear implicits.

(** ** Index expressions *)

(** Where a variable comes from: declared as an axis, or made by the code where
    an index is not known ([tir.Var("undefined")]), each time a new one. *)
Inductive origin :=
  | Declared (id : nat)
  | Reversed (dep : nat) (input : string) (axis : nat)
  | Unread (dep load dim : nat).

Record var := MkVar { var_id : origin; var_name : string; var_dtype : string }.

Inductive node_kind := NProducerLoad | NCall | NOther.

(** The nodes [walk_indice] tells apart; the operands of those that are not
    followed do not matter. *)
Inductive iexpr :=
  | IVar (v : var)
  | IImm (dtype : string) (z : Z)
  | IBin (op : binop) (a b : iexpr)
  | ICast (dtype : string) (a : iexpr)
  | INode (k : node_kind) (text : string).

#[export] Instance origin_eq_dec : EqDecision origin.
Proof. solve_decision. Defined.
#[export] Instance var_eq_dec : EqDecision var.
Proof. solve_decision. Defined.
#[export] Instance node_kind_eq_dec : EqDecision node_kind.
Proof. solve_decision. Defined.
#[export] Instance binop_eq_dec' : EqDecision binop.
Proof. solve_decision. Defined.
#[export] Instance iexpr_eq_dec : EqDecision iexpr.
Proof. solve_decision. Defined.

Fixpoint dtype_of (e : iexpr) : string :=
  match e with
  | IVar v => var_dtype v
  | IImm d _ => d
  | IBin _ a _ => dtype_of a
  | ICast d _ => d
  | INode _ _ => ""
  end.

(** The value of an expression over the integers; a division by zero has none. *)
Definition eval_bin (op : binop) (x y : Z) : option Z :=
  match op with
  | OpAdd => Some (x + y)
  | OpSub => Some (x - y)
  | OpMul => Some (x * y)
  | OpFloorDiv => if y =? 0 then None else Some (x / y)
  | OpFloorMod => if y =? 0 then None else Some (x mod y)
  | OpDiv => if y =? 0 then None else Some (Z.quot x y)
  | OpMod => if y =? 0 then None else Some (Z.rem x y)
  | OpMax => Some (Z.max x y)
  | OpMin => Some (Z.min x y)
  end.

Fixpoint eval (env : var → Z) (e : iexpr) : option Z :=
  match e with
  | IVar v => Some (env v)
  | IImm _ z => Some z
  | IBin op a b => x ← eval env a; y ← eval env b; eval_bin op x y
  | ICast _ a => eval env a
  | INode _ _ => None
  end.

(** [tir.stmt_functor.substitute]. *)
Fixpoint substitute (vmap : dict var iexpr) (e : iexpr) : iexpr :=
  match e with
  | IVar v => default (IVar v) (dict_find v vmap)
  | IImm d z => IImm d z
  | IBin op a b => IBin op (substitute vmap a) (substitute vmap b)
  | ICast d a => ICast d (substitute vmap a)
  | INode k t => INode k t
  end.

(** ** Regions *)

Notation region := (list iexpr).

(** [structural_equal] of expressions is equality; free variables are the same
    only if they are identical. *)
Definition expr_is_same (a b : iexpr) : bool :=
  match a, b with
  | IImm _ x, IImm _ y => x =? y
  | _, _ => bool_decide (a = b)
  end.

Definition region_is_same (a b : region) : bool := forallb (λ p, expr_is_same p.1 p.2) (zip a b).

Definition region_exist_in_list (a : region) (l : list region) : bool := existsb (region_is_same a) l.

Fixpoint walk_indice (e : iexpr) : res (option iexpr) :=
  match e with
  | IBin _ a b =>
      x ← walk_indice a;
      y ← walk_indice b;
      Ok (if bool_decide (is_Some x) && bool_decide (is_Some y) then Some e else None)
  | IVar _ | IImm _ _ => Ok (Some e)
  | INode NProducerLoad _ => Ok None
  | ICast _ a => x ← walk_indice a; Ok (if bool_decide (is_Some x) then Some e else None)
  | INode NCall _ => Ok None
  | INode NOther _ => Raise Exception
  end.

(** ** Blocks *)

Record Axis := MkAxis { ax_var : var; dom_min : Z; dom_extent : Z }.

Record Load := MkLoad { l_buffer : Buffer; l_indices : list iexpr }.

Record Block := MkBlock {
  block_id : nat;
  out_buffers : list Buffer;
  in_buffers : list Buffer;
  spatial_axis : list Axis;
  reduce_axis : list Axis;
  loads : list Load;
}.

(** [tir.Var("undefined", dtype) % n]. *)
Definition undefined (o : origin) (dtype : string) (n : Z) : iexpr :=
  IBin OpFloorMod (IVar (MkVar o "undefined" dtype)) (IImm "int32" n).

(** The loop over the indices of a load and the shape of its buffer; a constant
    zero is left out. *)
Fixpoint load_index (dep load dim : nat) (l : list (iexpr * Z)) : res region :=
  match l with
  | [] => Ok []
  | (indice, shape_limit) :: l' =>
      w ← walk_indice indice;
      let expr := default (undefined (Unread dep load dim) "int8" shape_limit) w in
      rest ← load_index dep load (S dim) l';
      Ok (match expr with IImm _ 0 => rest | _ => expr :: rest end)
  end.

Definition fvisit (dep : nat) (d : dict string (list region)) (x : nat * Load) : res (dict string (list region)) :=
  let '(n, load) := x in
  match dict_find (name (l_buffer load)) d with
  | None => Ok d
  | Some regions =>
      index ← load_index dep n 0 (zip (l_indices load) (shape (l_buffer load)));
      if region_exist_in_list index regions then Ok d
      else Ok (dict_set (name (l_buffer load)) (regions ++ [index]) d)
  end.

Definition enumerate {A} (l : list A) : list (nat * A) := zip (seq 0 (length l)) l.

Definition _extract_dependent_region (b : Block) : res (dict string (list region)) :=
  mfold (fvisit (block_id b)) (dict_of ((λ buffer, (name buffer, [])) <$> in_buffers b)) (enumerate (loads b)).

(** ** Statements *)

Record Statement := MkStatement {
  block : Block;
  dep_name : string;
  dependent_region : dict string (list region);
}.

Definition Statement_init (b : Block) : res Statement :=
  o ← py_index (out_buffers b) 0;
  d ← _extract_dependent_region b;
  Ok (MkStatement b (name o) d).

(** [arith.ConstIntBound]. *)
Record ConstIntBound := Bound { min_value : Z; max_value : Z }.

Definition _merge_two_bounds (x y : ConstIntBound) : ConstIntBound :=
  Bound (Z.min (min_value x) (min_value y)) (Z.max (max_value x) (max_value y)).

(** TVM's arithmetic. *)
Class Arith := {
  iter_map : Type;
  detect_iter_map : list iexpr → list Axis → option iter_map;    (** [None]: errors *)
  inverse_affine_iter_map : iter_map → list iexpr → res (dict var iexpr);
  simplify : list (var * Z) → iexpr → iexpr;                     (** after [bind]s *)
  const_int_bound : list (var * ConstIntBound) → iexpr → ConstIntBound;   (** after [update]s *)
}.

Section infer.
Context `{Arith}.

Definition make_reverse (s : Statement) (input_name : string) (input_iter : option region) : res (option region) :=
  if bool_decide (reduce_axis (block s) ≠ []) then Ok None
  else
    regions ← dict_item (dependent_region s) input_name;
    match regions with
    | [indices] =>
        match detect_iter_map indices (spatial_axis (block s)) with
        | None => Ok None
        | Some m =>
            iters ← or_raise TypeError input_iter;
            results ← inverse_affine_iter_map m iters;
            Ok (Some (imap (λ i a, default (undefined (Reversed (block_id (block s)) input_name i) "int32" (dom_extent a))
                                     (dict_find (ax_var a) results)) (spatial_axis (block s))))
        end
    | _ => Ok None
    end.

(** ** The graph of tensors *)

Record TensorDepNode := MkDepNode { _next : list string; _prev : list string }.

Definition deduplicate (l : list string) : list string :=
  (foldl (λ acc n, if decide (n ∈ acc) then acc else acc ++ [n]) [] l).

(** Nodes are identified by their names. *)
Definition dep_graph := gmap string TensorDepNode.

Definition dep_node (g : dep_graph) (n : string) : TensorDepNode := default (MkDepNode [] []) (g !! n).

Definition get_or_create_node (n : string) (g : dep_graph) : dep_graph :=
  match g !! n with Some _ => g | None => <[n := MkDepNode [] []]> g end.

Definition add_next (n m : string) (g : dep_graph) : dep_graph :=
  <[n := MkDepNode (deduplicate (_next (dep_node g n) ++ [m])) (_prev (dep_node g n))]> g.

Definition add_prev (n m : string) (g : dep_graph) : dep_graph :=
  <[n := MkDepNode (_next (dep_node g n)) (deduplicate (_prev (dep_node g n) ++ [m]))]> g.

Definition traverse_dependencies (g : dep_graph) (s : Statement) : dep_graph :=
  let node := dep_name s in
  foldl (λ g b, add_prev node (name b) (add_next (name b) node (get_or_create_node (name b) g)))
    (get_or_create_node node g) (in_buffers (block s)).

(** [while f"{base_name}_{i}" in _names: i += 1]. *)
Fixpoint free_name (fuel : nat) (base : string) (i : Z) (names : gset string) : option string :=
  match fuel with
  | O => None
  | S fuel' =>
      let n := base +:+ "_" +:+ str_of_Z i in
      if decide (n ∈ names) then free_name fuel' base (i + 1) names else Some n
  end.

Definition unique_name (base : string) (names : gset string) : option string :=
  if decide (base ∈ names) then free_name (S (size names)) base 1 names else Some base.

Definition _construct_unique_name2dep (deps : list Statement) : option (dict string Statement) :=
  snd <$> foldl (λ acc dep, '(names, d) ← acc;
    n ← unique_name (dep_name dep) names;
    Some ({[n]} ∪ names, dict_set n dep d)) (Some (∅ : gset string, [])) deps.

Definition analyze (name2dep : dict string Statement) : dep_graph := foldl traverse_dependencies ∅ name2dep.*2.

(** The state is the set of visited nodes and the path. *)
Fixpoint _find_path_recursive (g : dep_graph) (target : string) (fuel : nat) (current : string) (st : gset string * list string) :
    option (bool * (gset string * list string)) :=
  match fuel with
  | O => None
  | S fuel' =>
      let '(visited, path) := st in
      if decide (current = target) then Some (true, (visited, path ++ [current]))
      else if decide (current ∈ visited) then Some (false, (visited, path))
      else
        r ← foldl (λ acc n, '(found, st) ← acc;
                if (found : bool) then Some (true, st) else _find_path_recursive g target fuel' n st)
              (Some (false, ({[current]} ∪ visited, path ++ [current]))) (_next (dep_node g current));
        let '(found, (visited, path)) := r in
        Some (if (found : bool) then (true, (visited, path)) else (false, (visited, removelast path)))
  end.

(** The fuel is one more than the number of nodes; running out of it would be
    Python's recursion error. *)
Definition find_path_from_source (g : dep_graph) (start_name target_name : string) : res (list string) :=
  match g !! start_name with
  | None => Raise KeyError
  | Some _ =>
      match _find_path_recursive g target_name (S (size g)) start_name (∅, []) with
      | Some (true, (_, path)) => Ok path
      | Some (false, _) => Ok []
      | None => Raise RuntimeError
      end
  end.

(** ** Propagating regions *)

(** A region is [None] where a statement could not be reversed. *)
Definition mapping := dict string (list (option region)).

Definition region_exists (a : option region) (l : list (option region)) : res bool :=
  match l with
  | [] => Ok false
  | _ =>
      a ← or_raise TypeError a;
      l ← mmap (or_raise TypeError) l;
      Ok (region_exist_in_list a l)
  end.

Definition axis_vars (s : Statement) : list var := ax_var <$> spatial_axis (block s).

(** The targets themselves. *)
Definition add_target (name2dep : dict string Statement) (st : list (list var) * mapping) (target : string) :
    res (list (list var) * mapping) :=
  let '(input_vars, m) := st in
  dep ← dict_item name2dep target;
  Ok (input_vars ++ [axis_vars dep], dict_set target [Some (IVar <$> axis_vars dep)] m).

(** From the targets to the statements that read them. *)
Definition forward_input (targets : list string) (dep : Statement) (m : mapping) (n : string) : res mapping :=
  match dict_find n m with
  | None => Ok m
  | Some l =>
      indices ← py_index l 0;
      output_indices ← make_reverse dep n indices;
      if decide (dep_name dep ∈ targets) then Ok m
      else
        match dict_find (dep_name dep) m with
        | None => Ok (dict_set (dep_name dep) [output_indices] m)
        | Some old =>
            e ← region_exists output_indices old;
            Ok (if (e : bool) then m else dict_set (dep_name dep) (old ++ [output_indices]) m)
        end
  end.

Definition forward (targets : list string) (m : mapping) (dep : Statement) : res mapping :=
  mfold (forward_input targets dep) m (dependent_region dep).*1.

(** The values of variables, cast to their types where these differ. *)
Definition cast_map (l : list (var * iexpr)) : dict var iexpr :=
  dict_of ((λ kv : var * iexpr,
    (kv.1, if decide (dtype_of kv.2 = var_dtype kv.1) then kv.2 else ICast (var_dtype kv.1) kv.2)) <$> l).

(** [reg] of a statement, for the element of its output that [indices] denotes. *)
Definition propagate_region (ax_vars : list var) (indices reg : region) : region :=
  (λ ax, simplify [] (substitute (cast_map (zip ax_vars indices)) ax)) <$> reg.

Definition add_region (l : list (option region)) (r : region) : res (list (option region)) :=
  e ← region_exists (Some r) l;
  Ok (if (e : bool) then l else l ++ [Some r]).

(** From a statement to one of its inputs.  The list of the statement's regions is
    not the one that grows: no statement that is not a target reads its own output. *)
Definition backward_input (targets : list string) (dep : Statement) (indices_list : list (option region)) (m : mapping)
    (input : string * list region) : res mapping :=
  let '(input_name, regions) := input in
  if decide (input_name ∈ targets) then Ok m
  else
    l ← mfold (λ l (indices : option region), mfold (λ l r,
          i ← or_raise TypeError indices;
          add_region l (propagate_region (axis_vars dep) i r)) l regions)
        (default [] (dict_find input_name m)) indices_list;
    Ok (dict_set input_name l m).

Definition backward (targets : list string) (m : mapping) (dep : Statement) : res mapping :=
  indices_list ← dict_item m (dep_name dep);
  mfold (backward_input targets dep indices_list) m (dependent_region dep).

Definition construct_dependency_target (deps : list Statement) (targets : list string) : res (list (list var) * mapping) :=
  let name2dep := dict_of ((λ dep, (dep_name dep, dep)) <$> deps) in
  '(input_vars, m) ← mfold (add_target name2dep) ([], []) targets;
  m ← mfold (forward targets) m deps;
  m ← mfold (backward targets) m (reverse deps);
  Ok (input_vars, m).

(** ** Shapes *)

Definition reduce_axes (deps : list Statement) : list Axis := concat ((λ dep, reduce_axis (block dep)) <$> deps).

Definition axis_bound (rstep : list (string * Z)) (a : Axis) : ConstIntBound :=
  match dict_find (var_name (ax_var a)) rstep with
  | Some step => Bound (dom_min a) (dom_min a + Z.min (dom_extent a) step - 1)
  | None => Bound (dom_min a) (dom_min a + dom_extent a - 1)
  end.

(** The bounds the analyzer is told. *)
Definition updates (deps : list Statement) (input_vars : list (list var)) (shape : list (list ConstIntBound))
    (rstep : list (string * Z)) : list (var * ConstIntBound) :=
  concat ((λ vb : list var * list ConstIntBound, zip vb.1 vb.2) <$> zip input_vars shape) ++
  ((λ a, (ax_var a, axis_bound rstep a)) <$> reduce_axes deps).

Definition some_region (r : option region) : res region := or_raise TypeError r.

(** The loop over the nodes between a buffer and the target. *)
Fixpoint bind_intermediate (m : mapping) (nodes : list string) (regions : list (option region)) (bound : bool) :
    res (list (option region) * bool) :=
  match nodes with
  | [] => Ok (regions, bound)
  | node :: nodes' =>
      iters ← dict_item m node;
      if negb (bool_decide (length iters = length regions)) || negb (bool_decide (length iters = 1%nat)) then
        bind_intermediate m nodes' regions bound
      else
        i ← py_index iters 0; i ← some_region i;
        r ← py_index regions 0; r ← some_region r;
        if negb (bool_decide (length i = length r)) then Ok (regions, bound)
        else bind_intermediate m nodes' iters true
  end.

Definition merge_region (bounds : list (var * ConstIntBound)) (n : string) (results : dict string (list ConstIntBound))
    (r : option region) : res (dict string (list ConstIntBound)) :=
  r ← some_region r;
  let bound := const_int_bound bounds <$> r in
  let bound := match dict_find n results with Some old => zip_with _merge_two_bounds old bound | None => bound end in
  Ok (dict_set n bound results).

Definition infer_name (g : dep_graph) (m : mapping) (compute_targets : list string) (bounds : list (var * ConstIntBound))
    (targets : option (list string)) (st : dict string (list ConstIntBound) * dict string string)
    (item : string * list (option region)) : res (dict string (list ConstIntBound) * dict string string) :=
  let '(results, intermediate_bind) := st in
  let '(n, regions) := item in
  if match targets with Some ts => negb (py_in n ts) | None => false end then Ok st
  else
    match compute_targets with
    | [compute_target] =>
        path ← find_path_from_source g n compute_target;
        '(regions, bound) ← (if bool_decide (2 < length path)%nat
                             then bind_intermediate m (removelast (tail path)) regions false else Ok (regions, false));
        results ← mfold (merge_region bounds n) results regions;
        Ok (results, if (bound : bool) then dict_set n compute_target intermediate_bind else intermediate_bind)
    | _ =>
        results ← mfold (merge_region bounds n) results regions;
        Ok (results, intermediate_bind)
    end.

(** [InputShapeInference]: its statements and their graph. *)
Record InputShapeInference := MkInference { deps : list Statement; dep_analysis : dep_graph }.

Definition InputShapeInference_init (deps : list Statement) : res InputShapeInference :=
  name2dep ← or_raise RuntimeError (_construct_unique_name2dep deps);
  Ok (MkInference deps (analyze name2dep)).

Definition extents (results : list (string * list ConstIntBound)) : list (string * list Z) :=
  (λ nb : string * list ConstIntBound, (nb.1, (λ c, max_value c - min_value c + 1) <$> nb.2)) <$> results.

Definition infer (I : InputShapeInference) (shape : dict string (list ConstIntBound)) (rstep : list (string * Z))
    (targets : option (list string)) : res (dict string (list Z) * dict string string) :=
  let compute_targets := shape.*1 in
  '(input_vars, m) ← construct_dependency_target (deps I) compute_targets;
  let bounds := updates (deps I) input_vars shape.*2 rstep in
  '(results, intermediate_bind) ← mfold (infer_name (dep_analysis I) m compute_targets bounds targets) ([], []) m;
  Ok (extents results, intermediate_bind).

Definition input_expr (binds : list (var * Z)) (vmap : dict var iexpr) (result : dict string region)
    (item : string * list (option region)) : res (dict string region) :=
  r ← py_index item.2 0;
  r ← some_region r;
  Ok (dict_set item.1 ((λ index, simplify binds (substitute vmap index)) <$> r) result).

Definition get_input_exprs (I : InputShapeInference) (output_exprs : dict string region) : res (dict string region) :=
  vm ← construct_dependency_target (deps I) output_exprs.*1;
  let binds := (λ a, (ax_var a, 0)) <$> reduce_axes (deps I) in
  let vmap := cast_map (concat ((λ ve : list var * region, zip ve.1 ve.2) <$> zip vm.1 output_exprs.*2)) in
  mfold (input_expr binds vmap) [] vm.2.

Definition get_analyzer_by_tir (args : list Block) : res InputShapeInference :=
  deps ← mmap Statement_init args;
  InputShapeInference_init deps.

(** [PrimFuncNode.propagate]: the tile of each scheduled block. *)
Definition propagate (I : InputShapeInference) (stages : list string) (tile : list Z) (rstep : list (string * Z))
    (targets : option (list string)) : res (dict string (list Z) * dict string string) :=
  infer I (dict_of ((λ s, (s, (λ val, Bound 0 (val - 1)) <$> tile)) <$> stages)) rstep targets.
End infer.
