(* ===== verification/ShapeCover.v ===== *)
(** * The inferred shapes cover what a tile needs

    Correctness of the shape inference of [ShapeInfer]: the search for a path between
    tensors, and that the shape inferred for a buffer covers every element that some
    point of the tile needs, whatever TVM's arithmetic is as long as it is sound. *)
From stdpp Require Import base strings gmap numbers relations list.
From S2P Require Import Prelude Tir RollerPolicy ShapeInfer.
#[local] Open Scope Z_scope.
Set Default Proof Using "Type*".

(** ** Dicts *)

Section dict_lemmas.
Context {K V : Type} `{EqDecision K}.
Implicit Types (d : dict K V).

Lemma dict_find_set k k' (v : V) d : dict_find k (dict_set k' v d) = if decide (k = k') then Some v else dict_find k d.
Proof.
  induction d as [|[k0 v0] d IH]; simpl; [by repeat case_decide; simplify_eq|].
  repeat (case_decide; simplify_eq/=); try done; by rewrite IH.
Qed.

Lemma dict_find_in k (v : V) d : dict_find k d = Some v → (k, v) ∈ d.
Proof. induction d as [|[k0 v0] d IH]; simpl; [done|]. case_decide; [intros [= ->]; subst; by left|]. intros ?. right. auto. Qed.

Lemma dict_find_key k d : is_Some (dict_find k d) ↔ k ∈ d.*1.
Proof.
  induction d as [|[k0 v0] d IH]; simpl; [rewrite elem_of_nil; split; [by intros []|done]|]. rewrite elem_of_cons, <- IH.
  case_decide; [split; eauto|]. naive_solver.
Qed.

Lemma dict_find_nodup k (v : V) d : NoDup d.*1 → (k, v) ∈ d → dict_find k d = Some v.
Proof.
  induction d as [|[k0 v0] d IH]; simpl; [by intros _ ?%elem_of_nil|]. intros [Hn Hd]%NoDup_cons [E|Hin]%elem_of_cons.
  - injection E as -> ->. by rewrite decide_True.
  - case_decide; [|auto]. subst. destruct Hn. by apply (list_elem_of_fmap_2 fst _ (k0, v)).
Qed.

Lemma dict_set_keys k (v : V) d : (dict_set k v d).*1 = if decide (k ∈ d.*1) then d.*1 else d.*1 ++ [k].
Proof.
  induction d as [|[k0 v0] d IH]; csimpl; [done|]. destruct (decide (k = k0)) as [-> |Hk]; csimpl.
  - by rewrite decide_True by set_solver.
  - rewrite IH. destruct (decide (k ∈ d.*1)); [by rewrite decide_True by set_solver|]. by rewrite decide_False by set_solver.
Qed.

Lemma dict_set_nodup k (v : V) d : NoDup d.*1 → NoDup (dict_set k v d).*1.
Proof. rewrite dict_set_keys. case_decide; [done|]. intros. apply NoDup_app. split_and!; [done|set_solver|apply NoDup_singleton]. Qed.

Lemma dict_of_snoc (l : list (K * V)) kv : dict_of (l ++ [kv]) = dict_set kv.1 kv.2 (dict_of l).
Proof. unfold dict_of. by rewrite foldl_app. Qed.

(** The last value of a key stays. *)
Lemma dict_find_of k (v : V) (l : list (K * V)) : NoDup l.*1 → dict_find k (dict_of l) = Some v ↔ (k, v) ∈ l.
Proof.
  induction l as [|[k0 v0] l IH] using rev_ind; [intros _; split; [done|by intros ?%elem_of_nil]|].
  rewrite fmap_app. intros (Hl & Hd & _)%NoDup_app. rewrite dict_of_snoc, dict_find_set, elem_of_app, list_elem_of_singleton. simpl.
  case_decide as E; [|rewrite IH by done; naive_solver]. subst. split; [intros [= ->]; by right|].
  intros [Hin|[= ->]]; [|done]. destruct (Hd k0); [by apply (list_elem_of_fmap_2 fst _ (k0, v))|by left].
Qed.
End dict_lemmas.

(** ** The search for a path *)

Section path.
Context `{Arith} (g : dep_graph) (target : string).

Definition edge (n m : string) : Prop := m ∈ _next (dep_node g n).

(** A path along the edges that ends in the target. *)
Fixpoint leads (n : string) (p : list string) : Prop :=
  match p with
  | [] => False
  | [x] => x = n ∧ n = target
  | x :: ((y :: _) as p') => x = n ∧ edge n y ∧ leads y p'
  end.

Lemma leads_reaches n p : leads n p → rtc edge n target.
Proof.
  revert n. induction p as [|x [|y p] IH]; intros n; simpl; [done|intros [-> ->]; apply rtc_refl|].
  intros (-> & He & Hp). eapply rtc_l; [exact He|by apply IH].
Qed.

Lemma leads_cons n m p : edge n m → leads m p → leads n (n :: p).
Proof. intros He. destruct p; [done|]. intros Hp. simpl. split; [done|]. destruct p as [|y p]; simpl in Hp; destruct Hp as [-> Hp]; done. Qed.

(** What a call that finds nothing leaves behind: the nodes it adds are not the
    target, and all their successors are visited. *)
Definition exhausted (visited visited' : gset string) : Prop :=
  ∀ x, x ∈ visited' → x ∉ visited → x ≠ target ∧ ∀ y, edge x y → y ∈ visited'.

Definition search_spec (cur : list string) (visited : gset string) (path : list string) (U : gset string)
    (r : option (bool * (gset string * list string))) : Prop :=
  ∃ b visited' path', r = Some (b, (visited', path')) ∧ visited ⊆ visited' ∧ visited' ⊆ U ∧
    if (b : bool) then ∃ n q, n ∈ cur ∧ path' = path ++ q ∧ leads n q ∧ NoDup q ∧ (∀ x, x ∈ q → x ∉ visited)
    else path' = path ∧ (∀ n, n ∈ cur → n ≠ target ∧ n ∈ visited') ∧ exhausted visited visited'.

Lemma exhausted_trans a b c : a ⊆ b → b ⊆ c → exhausted a b → exhausted b c → exhausted a c.
Proof.
  intros Hab Hbc H1 H2 x Hx Hna. destruct (decide (x ∈ b)) as [Hb|Hb]; [|by apply H2].
  destruct (H1 x Hb Hna) as [? Hy]. split; [done|]. intros y Hxy. apply Hbc. by apply Hy.
Qed.

Lemma unreachable visited n : n ∈ visited → exhausted ∅ visited → ¬ rtc edge n target.
Proof.
  intros Hn He Hr. assert (∀ x, rtc edge n x → x ∈ visited) as Hall.
  { clear Hr. intros x Hx. induction Hx as [|n m x Hnm _ IH]; [done|]. apply IH. destruct (He n Hn) as [_ Hy]; [set_solver|by apply Hy]. }
  destruct (He target (Hall _ Hr)) as [Ht _]; [set_solver|]. done.
Qed.

Context (U : gset string) (closed : ∀ n m, n ∈ U → edge n m → m ∈ U).

Lemma search_list_spec call l visited path :
  (∀ n vis, n ∈ l → visited ⊆ vis → vis ⊆ U → target ∉ vis → search_spec [n] vis path U (call n (vis, path))) →
  visited ⊆ U → target ∉ visited →
  search_spec l visited path U
    (foldl (λ acc n, '(found, st) ← acc; if (found : bool) then Some (true, st) else call n st) (Some (false, (visited, path))) l).
Proof.
  intros Hcall HU. revert visited HU Hcall. induction l as [|n l IH]; intros visited HU Hcall Ht; simpl.
  { exists false, visited, path. split_and!; [done|done|done|done|by intros ? ?%elem_of_nil|]. by intros x ??. }
  destruct (Hcall n visited) as (b & vis1 & path1 & -> & Hs1 & HU1 & Hb); [by left|done|done|done|]. destruct b; simpl.
  - exists true, vis1, path1. assert (∀ st, foldl (λ acc n, '(found, st) ← acc;
      if (found : bool) then Some (true, st) else call n st) (Some (true, st)) l = Some (true, st)) as Hfold.
    { clear. intros st. induction l as [|m l IH]; [done|]. exact IH. }
    rewrite Hfold. split_and!; try done. destruct Hb as (n' & q & ->%list_elem_of_singleton & Hq).
    exists n, q. split; [by left|done].
  - destruct Hb as (-> & Hn & He). destruct (IH vis1 HU1) as (b2 & vis2 & path2 & E & Hs2 & HU2 & Hb2).
    { intros m vis Hm Hv. apply Hcall; [by right|by transitivity vis1]. }
    { intros Ht1. by destruct (He target Ht1 Ht). }
    exists b2, vis2, path2. split; [exact E|]. split; [by transitivity vis1|]. split; [done|]. destruct b2.
    + destruct Hb2 as (m & q & Hm & -> & Hq & Hd & Hf). exists m, q. split_and!; [by right|done|done|done|].
      intros x Hx Hv. apply (Hf x Hx). by apply Hs1.
    + destruct Hb2 as (-> & Hm & He2). split; [done|]. split.
      * intros m [-> |Hl]%elem_of_cons; [|by apply Hm]. destruct (Hn n) as [? ?]; [by left|]. split; [done|]. by apply Hs2.
      * by eapply exhausted_trans.
Qed.

Lemma find_path_recursive_spec fuel n visited path :
  n ∈ U → visited ⊆ U → (size (U ∖ visited) < fuel)%nat →
  target ∉ visited →
  search_spec [n] visited path U (_find_path_recursive g target fuel n (visited, path)).
Proof using closed.
  revert n visited path. induction fuel as [|fuel IH]; intros n visited path Hn HU Hf Ht; [lia|]. simpl.
  destruct (decide (n = target)) as [-> |Hnt].
  { exists true, visited, (path ++ [target]). split_and!; [done|done|done|]. exists target, [target].
    split_and!; [by left|done|done|apply NoDup_singleton|]. by intros x ->%list_elem_of_singleton. }
  destruct (decide (n ∈ visited)) as [Hv|Hv].
  { exists false, visited, path. split_and!; [done|done|done|done|by intros m ->%list_elem_of_singleton|by intros x ??]. }
  assert (size (U ∖ ({[n]} ∪ visited)) < fuel)%nat as Hsz.
  { apply Nat.lt_le_trans with (size (U ∖ visited)); [|lia]. apply subset_size. set_solver. }
  destruct (search_list_spec (_find_path_recursive g target fuel) (_next (dep_node g n)) ({[n]} ∪ visited) (path ++ [n]))
    as (b & vis & p & -> & Hs & HUv & Hb).
  { intros m vis Hm Hv1 Hv2 Htv. apply IH; [by eapply closed|done| |done].
    apply Nat.le_lt_trans with (size (U ∖ ({[n]} ∪ visited))); [|done]. apply subseteq_size. set_solver. }
  { set_solver. }
  { set_solver. }
  cbn [mbind option_bind]. destruct b.
  - exists true, vis, p. split_and!; [done|set_solver|done|]. destruct Hb as (m & q & Hm & -> & Hq & Hd & Hfr).
    exists n, (n :: q). split_and!; [by left|by rewrite <- (assoc_L (++))|by eapply leads_cons| |].
    + apply NoDup_cons. split; [|done]. intros Hnq. apply (Hfr n Hnq). set_solver.
    + intros x [-> |Hx]%elem_of_cons; [done|]. intros Hxv. apply (Hfr x Hx). set_solver.
  - destruct Hb as (-> & Hm & He). exists false, vis, path. split_and!; [by rewrite removelast_last|set_solver|done|done| |].
    + intros m ->%list_elem_of_singleton. split; [done|set_solver].
    + intros x Hx Hxv. destruct (decide (x = n)) as [-> |Hxn]; [split; [done|]; intros y Hy; by apply Hm|].
      apply He; [done|set_solver].
Qed.

End path.

(** The graph of a list of statements: whoever is read is a node. *)
Definition closed_graph (g : dep_graph) : Prop := ∀ n m, is_Some (g !! n) → m ∈ _next (dep_node g n) → is_Some (g !! m).

Lemma find_path_spec `{Arith} g s t :
  closed_graph g → is_Some (g !! s) →
  ∃ path, find_path_from_source g s t = Ok path ∧
    (path = [] ∧ ¬ rtc (edge g) s t ∨ leads g t s path ∧ NoDup path).
Proof.
  intros Hg [x Hs]. unfold find_path_from_source. rewrite Hs.
  destruct (find_path_recursive_spec g t (dom g)) with (fuel := S (size g)) (n := s) (visited := ∅ : gset string) (path := [] : list string)
    as (b & vis & path & -> & _ & _ & Hb).
  - intros n m Hn He. apply elem_of_dom. eapply Hg; [by apply elem_of_dom|exact He].
  - by apply elem_of_dom_2 in Hs.
  - set_solver.
  - rewrite difference_empty_L. apply Nat.lt_succ_r, Nat.eq_le_incl, (size_dom (g : gmap string TensorDepNode)).
  - set_solver.
  - destruct b.
    + destruct Hb as (n & q & ->%list_elem_of_singleton & -> & Hq & Hd & _). exists q. split; [done|]. by right.
    + destruct Hb as (-> & Hn & He). exists []. split; [done|]. left. split; [done|].
      eapply unreachable; [|exact He]. apply Hn. by left.
Qed.

(** ** What the arithmetic promises *)

(** The range of the analyzer's bounds. *)
Definition in64 (x : Z) : Prop := - 2 ^ 63 < x < 2 ^ 63.

Definition within (b : ConstIntBound) (x : Z) : Prop := min_value b ≤ x ≤ max_value b.

Fixpoint vars (e : iexpr) : list var :=
  match e with
  | IVar v => [v]
  | IBin _ a b => vars a ++ vars b
  | ICast _ a => vars a
  | IImm _ _ | INode _ _ => []
  end.

Definition region_vars (r : region) : list var := concat (vars <$> r).

(** The index a region denotes. *)
Definition evals (env : var → Z) (r : region) (idx : list Z) : Prop := Forall2 (λ e x, eval env e = Some x) r idx.

Definition in_domain (a : var → Z) (axes : list Axis) : Prop :=
  ∀ x, x ∈ axes → 0 ≤ a (ax_var x) < dom_extent x.

(** An index determines the value of an axis. *)
Definition determines (indices : region) (axes : list Axis) (v : var) : Prop :=
  ∀ a a' idx, in_domain a axes → in_domain a' axes → evals a indices idx → evals a' indices idx → a v = a' v.

(** The simplifier and the bounds are sound over the integers and introduce no
    variables; the inverse of an affine map gives the axes the index determines. *)
Class ArithLaws `{Arith} : Prop := {
  simplify_sound binds env e z :
    (∀ v x, (v, x) ∈ binds → env v = x) → eval env e = Some z → eval env (simplify binds e) = Some z;
  simplify_vars e v : v ∈ vars (simplify [] e) → v ∈ vars e;
  bound_sound us env e z :
    (∀ v b, (v, b) ∈ us → within b (env v)) → eval env e = Some z → in64 z → within (const_int_bound us e) z;
  inverse_sound indices axes m iters results a env idx v e :
    detect_iter_map indices axes = Some m → inverse_affine_iter_map m iters = Ok results →
    in_domain a axes → evals a indices idx → evals env iters idx →
    dict_find v results = Some e → determines indices axes v → eval env e = Some (a v);
  inverse_vars m iters results v e w :
    inverse_affine_iter_map m iters = Ok results → dict_find v results = Some e → w ∈ vars e → w ∈ region_vars iters;
}.

(** ** Expressions and regions *)

Lemma eval_agree env env' e : (∀ v, v ∈ vars e → env v = env' v) → eval env e = eval env' e.
Proof.
  induction e as [v|d z|op a IHa b IHb|d a IHa|k t]; simpl; intros Hv; [by rewrite Hv by (by left)|done| |by apply IHa|done].
  rewrite IHa, IHb; [done|..]; intros v Hin; apply Hv; apply elem_of_app; auto.
Qed.

Lemma evals_agree env env' r idx : (∀ v, v ∈ region_vars r → env v = env' v) → evals env r idx → evals env' r idx.
Proof.
  unfold evals, region_vars. intros Hv Hr. induction Hr as [|e x r idx He Hr IH]; constructor; csimpl in Hv.
  - rewrite <- He. symmetry. apply eval_agree. intros v Hin. apply Hv, elem_of_app. by left.
  - apply IH. intros v Hin. apply Hv, elem_of_app. by right.
Qed.

(** The variables a substitution maps take the values of their expressions. *)
Lemma eval_substitute env env' vmap e z :
  (∀ v, v ∈ vars e → eval env (default (IVar v) (dict_find v vmap)) = Some (env' v)) →
  eval env' e = Some z → eval env (substitute vmap e) = Some z.
Proof.
  revert z. induction e as [v|d x|op a IHa b IHb|d a IHa|k t]; simpl; intros z Hv; [|done| |by apply IHa|done].
  - intros [= <-]. apply Hv. by left.
  - intros Hz. destruct (eval env' a) as [x|] eqn:Ea; [|done]. simpl in Hz. destruct (eval env' b) as [y|] eqn:Eb; [|done].
    simpl in Hz. rewrite (IHa x), (IHb y); [done|..]; try done; intros v Hin; apply Hv, elem_of_app; auto.
Qed.

Lemma substitute_vars vmap e w :
  w ∈ vars (substitute vmap e) → ∃ v, v ∈ vars e ∧ w ∈ vars (default (IVar v) (dict_find v vmap)).
Proof.
  induction e as [v|d x|op a IHa b IHb|d a IHa|k t]; simpl; [by exists v; set_solver|by intros ?%elem_of_nil| |done|by intros ?%elem_of_nil].
  intros [Hw|Hw]%elem_of_app; [destruct (IHa Hw) as (v & ? & ?)|destruct (IHb Hw) as (v & ? & ?)]; exists v; split; set_solver.
Qed.

(** Regions that are the same denote the same indices. *)
Lemma expr_is_same_eval a b env : expr_is_same a b = true → eval env a = eval env b ∧ vars a = vars b.
Proof.
  intros E. assert (a = b ∨ ∃ d d' z, a = IImm d z ∧ b = IImm d' z) as [-> |(d & d' & z & -> & ->)]; [|done|done].
  destruct a as [| d x| | |], b as [|d' y| | |]; unfold expr_is_same in E; try (left; by apply bool_decide_eq_true in E).
  apply Z.eqb_eq in E as ->. right. eauto.
Qed.

Lemma region_is_same_evals a b env idx :
  region_is_same a b = true → length a = length b → evals env a idx → evals env b idx.
Proof.
  unfold evals. intros E Hl Ha. revert b E Hl. induction Ha as [|e x a idx He Ha IH]; intros [|e' b] E Hl; try done.
  unfold region_is_same in E. simpl in E. apply andb_true_iff in E as [E1 E2]. apply (expr_is_same_eval _ _ env) in E1 as [E1 _].
  constructor; [by rewrite <- E1|]. apply IH; [exact E2|]. by injection Hl.
Qed.

Lemma region_exist_in l a : region_exist_in_list a l = true → ∃ b, b ∈ l ∧ region_is_same a b = true.
Proof. unfold region_exist_in_list. intros (b & Hb & E)%existsb_exists. exists b. split; [by apply list_elem_of_In|done]. Qed.

Lemma region_is_same_refl r : region_is_same r r = true.
Proof.
  unfold region_is_same. induction r as [|e r IH]; [done|]. simpl. rewrite IH, andb_true_r.
  destruct e; simpl; [|apply Z.eqb_refl|..]; by apply bool_decide_eq_true.
Qed.

Lemma region_vars_elem r v : v ∈ region_vars r ↔ ∃ e, e ∈ r ∧ v ∈ vars e.
Proof.
  unfold region_vars. rewrite list_elem_of_In, in_concat. setoid_rewrite <- list_elem_of_In. split.
  - intros (l & (e & -> & He)%list_elem_of_fmap & Hv). by exists e.
  - intros (e & He & Hv). exists (vars e). split; [by apply list_elem_of_fmap_2|done].
Qed.

(** ** Loads *)

(** The values of the axes in place of those of [env]. *)
Definition assign (env : var → Z) (l : list (var * Z)) : var → Z := λ v, default (env v) (dict_find v l).

(** The index a load denotes, without the dimensions whose index is the constant
    zero; where the index is not analysed it may be anything within the shape. *)
Fixpoint touches (env : var → Z) (l : list (iexpr * Z)) (idx : list Z) : Prop :=
  match l with
  | [] => idx = []
  | (IImm _ 0, _) :: l' => touches env l' idx
  | (e, d) :: l' =>
      match idx with
      | [] => False
      | x :: idx' =>
          match walk_indice e with Ok None => 0 ≤ x < d | _ => eval env e = Some x end ∧ touches env l' idx'
      end
  end.

Definition declared (v : var) : Prop := match var_id v with Declared _ => True | _ => False end.

Definition load_declared (l : list (iexpr * Z)) : Prop := ∀ e d v, (e, d) ∈ l → v ∈ vars e → declared v.

Lemma walk_indice_same e e' : walk_indice e = Ok (Some e') → e' = e.
Proof.
  destruct e as [v|d z|op a b|d a|[] t]; simpl; try (intros; inv_ok; done).
  all: intros E; inv_ok; repeat case_match; by simplify_eq.
Qed.

Lemma touches_agree env env' l idx :
  load_declared l → (∀ v, declared v → env v = env' v) → touches env l idx → touches env' l idx.
Proof.
  intros Hd Hv. revert idx. induction l as [|[e d] l IH]; intros idx; [done|].
  assert (load_declared l) as Hd' by (intros e' d' v Hin; apply (Hd e' d'); by right). specialize (IH Hd').
  assert (eval env e = eval env' e) as He by (apply eval_agree; intros v Hin; apply Hv, (Hd e d); [by left|done]).
  simpl. rewrite He. repeat case_match; naive_solver.
Qed.

Lemma zero_or_not e : (∃ t, e = IImm t 0) ∨ ¬ ∃ t, e = IImm t 0.
Proof. destruct e as [|t [| |]| | |]; try (right; by intros [? ?]). left. by eexists. Qed.

Lemma load_index_covers dep load dim l r env idx :
  load_index dep load dim l = Ok r → load_declared l → touches env l idx →
  ∃ env', (∀ v, (∀ d, var_id v = Unread dep load d → (d < dim)%nat) → env' v = env v) ∧ evals env' r idx.
Proof.
  revert dim r env idx. induction l as [|[e d] l IH]; intros dim r env idx Hr Hd Ht; simpl in Hr.
  { inv_ok. subst. exists env. split; [done|constructor]. }
  assert (load_declared l) as Hd' by (intros e' d' v Hin; apply (Hd e' d'); by right).
  assert (∀ v, v ∈ vars e → declared v) as Hde by (intros v; apply (Hd e d); by left).
  apply bind_Ok in Hr as (w & Hw & Hr). apply bind_Ok in Hr as (rest & Hrest & Hr). destruct w as [e'|]; simpl in Hr.
  - apply walk_indice_same in Hw as Heq. subst e'. destruct (zero_or_not e) as [[t ->]|Hz].
    { injection Hr as <-. simpl in Ht. destruct (IH _ _ _ _ Hrest Hd' Ht) as (env' & Ha & He). exists env'. split; [|done].
      intros v Hv. apply Ha. intros k Hk. specialize (Hv k Hk). lia. }
    assert (r = e :: rest) as -> by (destruct e as [|t [| |]| | |]; simplify_eq/=; try done; by destruct Hz; eexists).
    assert (∃ x idx', idx = x :: idx' ∧ eval env e = Some x ∧ touches env l idx') as (x & idx' & -> & Hx & Ht').
    { destruct e as [|t [| |]| | |]; try (by destruct Hz; eexists); simpl in Ht; destruct idx as [|x idx']; try done;
        exists x, idx'; (split; [done|]); destruct Ht as [Ht1 Ht2]; simpl in Hw; rewrite ?Hw in Ht1; done. }
    destruct (IH _ _ _ _ Hrest Hd' Ht') as (env' & Ha & He). exists env'. split.
    { intros v Hv. apply Ha. intros k Hk. specialize (Hv k Hk). lia. }
    constructor; [|done]. rewrite <- Hx. apply eval_agree. intros v Hin. apply Ha. intros k Hk. specialize (Hde v Hin). unfold declared in Hde. by rewrite Hk in Hde.
  - injection Hr as <-. set (u := MkVar (Unread dep load dim) "undefined" "int8").
    assert (∃ x idx', idx = x :: idx' ∧ 0 ≤ x < d ∧ touches env l idx') as (x & idx' & -> & Hx & Ht').
    { destruct e as [|t [| |]| | |]; try done; simpl in Ht; destruct idx as [|x idx']; try done;
        exists x, idx'; (split; [done|]); destruct Ht as [Ht1 Ht2]; simpl in Hw; rewrite ?Hw in Ht1; done. }
    set (env1 := assign env [(u, x)]).
    destruct (IH _ _ env1 idx' Hrest Hd') as (env' & Ha & He).
    { eapply touches_agree; [done| |exact Ht']. intros v Hv. unfold env1, assign. simpl. case_decide; [by subst|done]. }
    exists env'. split.
    + intros v Hv. rewrite Ha by (intros k Hk; specialize (Hv k Hk); lia). unfold env1, assign. simpl.
      case_decide; [|done]. subst v. specialize (Hv dim eq_refl). lia.
    + constructor; [|done]. simpl. rewrite Ha by (intros k [= ->]; lia). unfold env1, assign. simpl.
      rewrite decide_True by done. simpl. destruct (Z.eqb_spec d 0); [lia|]. f_equal. by apply Z.mod_small.
Qed.

Lemma load_index_vars dep load dim l r v :
  load_index dep load dim l = Ok r → load_declared l → v ∈ region_vars r → declared v ∨ ∃ k, var_id v = Unread dep load k.
Proof.
  revert dim r. induction l as [|[e d] l IH]; intros dim r Hr Hd Hv; simpl in Hr; inv_ok; [by apply elem_of_nil in Hv|].
  assert (load_declared l) as Hd' by (intros e' d' v' Hin; apply (Hd e' d'); by right).
  match goal with E : load_index _ _ _ _ = Ok ?rest |- _ => rename E into Hrest end.
  assert (v ∈ vars (default (undefined (Unread dep load dim) "int8" d) x) ∨ v ∈ region_vars x0) as [Hin|Hin].
  { destruct (default _ x) as [|t [| |]| | |]; simpl in Hv |- *; unfold region_vars in *; csimpl in Hv; set_solver. }
  - destruct x as [e'|]; simpl in Hin.
    + apply walk_indice_same in H as ->. left. apply (Hd e d); [by left|done].
    + apply list_elem_of_singleton in Hin as ->. right. by eexists.
  - by eapply IH.
Qed.

(** The index of a load of a block. *)
Definition index_of_load (dep n : nat) (load : Load) : res region :=
  load_index dep n 0 (zip (l_indices load) (shape (l_buffer load))).

(** The recorded regions: those of the loads, each up to equality. *)
Lemma fvisit_fold_spec dep xs d0 d :
  mfold (fvisit dep) d0 xs = Ok d →
  (∀ n, is_Some (dict_find n d) ↔ is_Some (dict_find n d0)) ∧
  (∀ n l0, dict_find n d0 = Some l0 → ∃ l, dict_find n d = Some l ∧ l0 ⊆ l ∧
     ∀ x, x ∈ l → x ∈ l0 ∨ ∃ k load, (k, load) ∈ xs ∧ name (l_buffer load) = n ∧ index_of_load dep k load = Ok x) ∧
  (∀ k load, (k, load) ∈ xs → is_Some (dict_find (name (l_buffer load)) d0) →
     ∃ r l x, index_of_load dep k load = Ok r ∧ dict_find (name (l_buffer load)) d = Some l ∧ x ∈ l ∧ region_is_same r x = true).
Proof.
  revert d0. induction xs as [|[k load] xs IH]; intros d0 Hd; cbn [mfold] in Hd.
  { injection Hd as <-. split_and!; [done| |by intros ?? ?%elem_of_nil]. intros n l0 Hn. exists l0. split_and!; [done|done|]. by left. }
  apply bind_Ok in Hd as (d1 & H1 & Hd). destruct (IH d1 Hd) as (Hk & Hg & Hc). clear IH.
  set (b := name (l_buffer load)) in *.
  assert ((∀ n, is_Some (dict_find n d1) ↔ is_Some (dict_find n d0)) ∧
    (∀ n l0, dict_find n d0 = Some l0 → ∃ l1, dict_find n d1 = Some l1 ∧ l0 ⊆ l1 ∧
       ∀ x, x ∈ l1 → x ∈ l0 ∨ n = b ∧ index_of_load dep k load = Ok x) ∧
    (is_Some (dict_find b d0) → ∃ r l x, index_of_load dep k load = Ok r ∧ dict_find b d1 = Some l ∧ x ∈ l ∧ region_is_same r x = true))
    as (Hk1 & Hg1 & Hc1).
  { unfold fvisit in H1. fold b in H1. fold (index_of_load dep k load) in H1. destruct (dict_find b d0) as [regions|] eqn:E.
    - apply bind_Ok in H1 as (r & Hr & H1). destruct (region_exist_in_list r regions) eqn:Ex; injection H1 as <-.
      + split_and!; [done| |].
        * intros n l0 Hn. exists l0. split_and!; [done|done|by left].
        * intros _. apply region_exist_in in Ex as (x & Hx & Hs). by exists r, regions, x.
      + split_and!.
        * intros n. rewrite dict_find_set. case_decide; [subst; rewrite E; split; by eexists|done].
        * intros n l0 Hn. rewrite dict_find_set. case_decide as En; [|exists l0; split_and!; [done|done|by left]].
          subst n. rewrite E in Hn. injection Hn as <-. exists (regions ++ [r]). split_and!; [done|set_solver|].
          intros x [?| ->%list_elem_of_singleton]%elem_of_app; [by left|by right].
        * intros _. exists r, (regions ++ [r]), r. rewrite dict_find_set, decide_True by done.
          split_and!; [done|done|set_solver|apply region_is_same_refl].
    - injection H1 as <-. split_and!; [done| |by intros []]. intros n l0 Hn. exists l0. split_and!; [done|done|by left]. }
  split_and!.
  - intros n. by rewrite Hk.
  - intros n l0 Hn. destruct (Hg1 n l0 Hn) as (l1 & Hn1 & Hs1 & Hx1). destruct (Hg n l1 Hn1) as (l & Hn2 & Hs2 & Hx2).
    exists l. split_and!; [done|set_solver|]. intros x [Hx|(k' & load' & Hin & ? & ?)]%Hx2.
    + destruct (Hx1 x Hx) as [?|[-> ?]]; [by left|]. right. exists k, load. split_and!; [by left|done|done].
    + right. exists k', load'. split_and!; [by right|done|done].
  - intros k' load' [E|Hin]%elem_of_cons Hn.
    + injection E as -> ->. destruct (Hc1 Hn) as (r & l & x & Hr & Hl & Hx & Hs). destruct (Hg _ _ Hl) as (l2 & Hl2 & Hsub & _).
      exists r, l2, x. split_and!; [done|done|by apply Hsub|done].
    + apply Hc; [done|]. by apply Hk1.
Qed.

Lemma enumerate_lookup {A} (l : list A) k x : (k, x) ∈ enumerate l ↔ l !! k = Some x.
Proof.
  unfold enumerate. rewrite list_elem_of_lookup. setoid_rewrite lookup_zip_Some. split.
  - intros (i & Hs & Hl). apply lookup_seq in Hs as [-> _]. done.
  - intros Hl. exists k. split; [|done]. apply lookup_seq. split; [done|]. by apply lookup_lt_Some in Hl.
Qed.

Lemma extract_spec b d :
  _extract_dependent_region b = Ok d →
  (∀ n, is_Some (dict_find n d) ↔ n ∈ name <$> in_buffers b) ∧
  (∀ n l x, dict_find n d = Some l → x ∈ l → ∃ k load, loads b !! k = Some load ∧ name (l_buffer load) = n ∧ index_of_load (block_id b) k load = Ok x) ∧
  (∀ k load, loads b !! k = Some load → name (l_buffer load) ∈ name <$> in_buffers b →
     ∃ r l x, index_of_load (block_id b) k load = Ok r ∧ dict_find (name (l_buffer load)) d = Some l ∧ x ∈ l ∧ region_is_same r x = true).
Proof.
  intros (Hk & Hg & Hc)%fvisit_fold_spec. set (d0 := dict_of _) in *.
  assert (∀ n, (is_Some (dict_find n d0) ↔ n ∈ name <$> in_buffers b) ∧ ∀ l, dict_find n d0 = Some l → l = []) as H0.
  { intros n. unfold d0. generalize (in_buffers b). intros l. induction l as [|x l IH] using rev_ind.
    - split; [|done]. rewrite elem_of_nil. split; [by intros []|done].
    - rewrite !fmap_app. cbn [fmap list_fmap]. rewrite dict_of_snoc, dict_find_set, elem_of_app, list_elem_of_singleton. simpl.
      destruct IH as [IH1 IH2]. case_decide; [subst; split; [split; eauto|by intros l0 [= <-]]|]. split; [|done]. rewrite IH1. naive_solver. }
  split_and!.
  - intros n. rewrite Hk. apply H0.
  - intros n l x Hl Hx. destruct (dict_find n d0) as [l0|] eqn:E0; [|exfalso; assert (is_Some (dict_find n d0)) as [? ?]; [apply Hk; by eexists|congruence]].
    destruct (Hg n l0 E0) as (l' & Hl' & _ & Hx'). rewrite Hl in Hl'. injection Hl' as <-. apply H0 in E0 as ->.
    destruct (Hx' x Hx) as [?%elem_of_nil|(k & load & Hin & ? & ?)]; [done|]. exists k, load. by rewrite <- enumerate_lookup.
  - intros k load Hl Hn. apply Hc; [by apply enumerate_lookup|]. by apply H0.
Qed.

Lemma Statement_init_region b s : Statement_init b = Ok s → block s = b ∧ _extract_dependent_region b = Ok (dependent_region s).
Proof. unfold Statement_init. intros. inv_ok. done. Qed.

(** ** What a tile needs *)

Section tile.
Context `{Arith} (deps : list Statement) (targets : list string).

(** The elements that are computed for the point [env] of the tile: those of the
    targets, and what is made of them by the statements that read them. *)
Inductive produced (env : var → Z) : string → list Z → Prop :=
| produced_target dep :
    dep ∈ deps → dep_name dep ∈ targets → produced env (dep_name dep) (env <$> axis_vars dep)
| produced_reader dep n indices idx a :
    dep ∈ deps → dep_name dep ∉ targets → reduce_axis (block dep) = [] →
    dict_find n (dependent_region dep) = Some [indices] → produced env n idx →
    length a = length (axis_vars dep) → in_domain (assign env (zip (axis_vars dep) a)) (spatial_axis (block dep)) →
    evals (assign env (zip (axis_vars dep) a)) indices idx →
    produced env (dep_name dep) a.

(** ... and, for each of them, the elements its statement loads. *)
Inductive needed (env : var → Z) : string → list Z → Prop :=
| needed_produced n idx : produced env n idx → needed env n idx
| needed_load dep idx k load idx' :
    dep ∈ deps → needed env (dep_name dep) idx → length idx = length (axis_vars dep) →
    loads (block dep) !! k = Some load → name (l_buffer load) ∈ name <$> in_buffers (block dep) →
    name (l_buffer load) ∉ targets →
    touches (assign env (zip (axis_vars dep) idx)) (zip (l_indices load) (shape (l_buffer load))) idx' →
    needed env (name (l_buffer load)) idx'.

(** Statements in program order, over variables of their own, with outputs of their
    own; the indices of a buffer have the same constant zeros everywhere. *)
Record deps_ok (rank : string → nat) : Prop := {
  ok_init i dep : deps !! i = Some dep → block_id (block dep) = i ∧ Statement_init (block dep) = Ok dep;
  ok_names : NoDup (dep_name <$> deps);
  ok_loads dep k load : dep ∈ deps → loads (block dep) !! k = Some load →
    load_declared (zip (l_indices load) (shape (l_buffer load))) ∧
    ∀ r, index_of_load (block_id (block dep)) k load = Ok r → length r = rank (name (l_buffer load));
  ok_axes dep : dep ∈ deps →
    NoDup (axis_vars dep) ∧ (∀ v, v ∈ axis_vars dep → declared v) ∧ length (axis_vars dep) = rank (dep_name dep);
  ok_reduce dep a : dep ∈ deps → a ∈ reduce_axis (block dep) → declared (ax_var a);
  ok_order i j di dj : deps !! i = Some di → deps !! j = Some dj → dep_name dj ∈ name <$> in_buffers (block di) → (j < i)%nat;
}.

(** Where a statement is reversed, the index it reads determines the axes the inverse
    gives. *)
Definition reversible : Prop :=
  ∀ dep n indices m iters results v e, dep ∈ deps → dict_find n (dependent_region dep) = Some [indices] →
    detect_iter_map indices (spatial_axis (block dep)) = Some m → inverse_affine_iter_map m iters = Ok results →
    dict_find v results = Some e → determines indices (spatial_axis (block dep)) v.

(** Every buffer that is reached from the targets is reached in one way. *)
Definition regular (m : mapping) : Prop := ∀ n l, dict_find n m = Some l → ∃ r, l = [Some r].

Context (rank : string → nat) (Hdeps : deps_ok rank).
Set Default Proof Using "All".

Lemma dep_region dep n : dep ∈ deps → is_Some (dict_find n (dependent_region dep)) ↔ n ∈ name <$> in_buffers (block dep).
Proof.
  intros [i Hi]%list_elem_of_lookup. destruct (ok_init _ Hdeps i dep Hi) as [_ [_ E]%Statement_init_region].
  by apply (extract_spec _ _ E).
Qed.

Lemma dep_region_from dep n l x :
  dep ∈ deps → dict_find n (dependent_region dep) = Some l → x ∈ l →
  ∃ k load, loads (block dep) !! k = Some load ∧ name (l_buffer load) = n ∧ index_of_load (block_id (block dep)) k load = Ok x.
Proof.
  intros [i Hi]%list_elem_of_lookup. destruct (ok_init _ Hdeps i dep Hi) as [_ [_ E]%Statement_init_region].
  apply (extract_spec _ _ E).
Qed.

Lemma dep_region_of dep k load :
  dep ∈ deps → loads (block dep) !! k = Some load → name (l_buffer load) ∈ name <$> in_buffers (block dep) →
  ∃ r l x, index_of_load (block_id (block dep)) k load = Ok r ∧ dict_find (name (l_buffer load)) (dependent_region dep) = Some l ∧
    x ∈ l ∧ region_is_same r x = true.
Proof.
  intros [i Hi]%list_elem_of_lookup. destruct (ok_init _ Hdeps i dep Hi) as [_ [_ E]%Statement_init_region].
  apply (extract_spec _ _ E).
Qed.

Lemma dep_region_rank dep n l x :
  dep ∈ deps → dict_find n (dependent_region dep) = Some l → x ∈ l → length x = rank n.
Proof.
  intros Hd Hl Hx. destruct (dep_region_from dep n l x Hd Hl Hx) as (k & load & Hk & <- & Hr). by apply (ok_loads _ Hdeps dep k load Hd Hk).
Qed.

Lemma dep_region_vars dep n l x v :
  dep ∈ deps → dict_find n (dependent_region dep) = Some l → x ∈ l → v ∈ region_vars x →
  declared v ∨ ∃ k d, var_id v = Unread (block_id (block dep)) k d.
Proof.
  intros Hd Hl Hx Hv. destruct (dep_region_from dep n l x Hd Hl Hx) as (k & load & Hk & <- & Hr).
  destruct (ok_loads _ Hdeps dep k load Hd Hk) as [Hdec _].
  destruct (load_index_vars _ _ _ _ _ v Hr Hdec Hv) as [?|[d ?]]; [by left|right]. by exists k, d.
Qed.

Lemma same_dep dep dep' : dep ∈ deps → dep' ∈ deps → dep_name dep = dep_name dep' → dep = dep'.
Proof.
  intros [i Hi]%list_elem_of_lookup [j Hj]%list_elem_of_lookup E. pose proof (ok_names _ Hdeps) as Hnd.
  assert (i = j) as ->; [|congruence]. eapply NoDup_lookup; [exact Hnd|by rewrite list_lookup_fmap, Hi|by rewrite list_lookup_fmap, Hj, E].
Qed.

(** A statement does not read its own output. *)
Lemma not_self dep n : dep ∈ deps → is_Some (dict_find n (dependent_region dep)) → n ≠ dep_name dep.
Proof.
  intros Hd Hn%dep_region ->; [|done]. apply list_elem_of_lookup in Hd as [i Hi]. pose proof (ok_order _ Hdeps i i dep dep Hi Hi Hn). lia.
Qed.

(** ** Forward *)

(** A region of a list that stands for another one. *)
Definition same_out (out x : option region) : Prop :=
  x = out ∨ ∃ r y, out = Some r ∧ x = Some y ∧ region_is_same r y = true.

Lemma mmap_some (l : list (option region)) k : mmap (or_raise TypeError) l = Ok k → l = Some <$> k.
Proof.
  rewrite mmap_Ok. intros Hl. induction Hl as [|x y l k Hx _ IH]; [done|]. destruct x; inv_ok. csimpl. by f_equal.
Qed.

Lemma region_exists_true a l : region_exists a l = Ok true → ∃ x, x ∈ l ∧ same_out a x.
Proof.
  unfold region_exists. destruct l as [|x0 l]; [done|]. set (l1 := x0 :: l). intros E. destruct a as [r|]; [|done]. cbn [or_raise mbind res_bind] in E.
  apply bind_Ok in E as (k & Hk%mmap_some & E). injection E as E. apply region_exist_in in E as (y & Hy & Hs).
  exists (Some y). split; [rewrite Hk; by apply list_elem_of_fmap_2|]. right. by exists r, y.
Qed.

(** What reversing one statement for the inputs [ns] does to the regions. *)
Record forward_spec (dep : Statement) (ns : list string) (m m' : mapping) : Prop := {
  fs_other k : k ≠ dep_name dep → dict_find k m' = dict_find k m;
  fs_target : dep_name dep ∈ targets → m' = m;
  fs_grow l0 : dict_find (dep_name dep) m = Some l0 → ∃ l, dict_find (dep_name dep) m' = Some l ∧ l0 `prefix_of` l;
  fs_from l x : dict_find (dep_name dep) m' = Some l → x ∈ l →
    x ∈ default [] (dict_find (dep_name dep) m) ∨
    ∃ n i t, n ∈ ns ∧ dict_find n m = Some (i :: t) ∧ make_reverse dep n i = Ok x;
  fs_cover n i t : dep_name dep ∉ targets → n ∈ ns → dict_find n m = Some (i :: t) →
    ∃ out l x, make_reverse dep n i = Ok out ∧ dict_find (dep_name dep) m' = Some l ∧ x ∈ l ∧ same_out out x;
}.

Lemma forward_input_spec dep n m m' : forward_input targets dep m n = Ok m' → forward_spec dep [n] m m'.
Proof.
  unfold forward_input. destruct (dict_find n m) as [l|] eqn:En.
  2: { intros [= <-]. split; [done|done|eauto| |].
       - intros l x Hl Hx. left. by rewrite Hl.
       - intros n' i t _ ->%list_elem_of_singleton. by rewrite En. }
  intros E. apply bind_Ok in E as (i & Hi & E). destruct l as [|i' t]; [done|]. apply py_index_Ok in Hi as [_ Hi]. injection Hi as ->.
  apply bind_Ok in E as (out & Hout & E). destruct (decide (dep_name dep ∈ targets)) as [Ht|Ht].
  { injection E as <-. split; [done|done|eauto| |done]. intros l x Hl Hx. left. by rewrite Hl. }
  set (dn := dep_name dep) in *.
  assert (∃ l, dict_find dn m' = Some l ∧ (∀ k, k ≠ dn → dict_find k m' = dict_find k m) ∧
    (∀ l0, dict_find dn m = Some l0 → l0 `prefix_of` l) ∧ (∀ x, x ∈ l → x ∈ default [] (dict_find dn m) ∨ x = out) ∧
    ∃ x, x ∈ l ∧ same_out out x) as (l & Hl & Hoth & Hgrow & Hfrom & x & Hx & Hs).
  { destruct (dict_find dn m) as [old|] eqn:Eo.
    - apply bind_Ok in E as (e & He & E). destruct e; injection E as <-.
      + apply region_exists_true in He as (x & Hx & Hs). exists old. split_and!; [done|done|by intros l0 [= <-]|by left|eauto].
      + exists (old ++ [out]). rewrite dict_find_set, decide_True by done. split_and!; [done| | | |].
        * intros k Hk. by rewrite dict_find_set, decide_False.
        * intros l0 [= <-]. by apply prefix_app_r.
        * intros x. rewrite elem_of_app, list_elem_of_singleton. done.
        * exists out. split; [set_solver|by left].
    - injection E as <-. exists [out]. rewrite dict_find_set, decide_True by done. split_and!; [done| |done| |].
      * intros k Hk. by rewrite dict_find_set, decide_False.
      * intros x. rewrite list_elem_of_singleton. by right.
      * exists out. split; [set_solver|by left]. }
  split; fold dn.
  - exact Hoth.
  - done.
  - intros l0 Hl0. exists l. auto.
  - intros l' x' Hl' Hx'. rewrite Hl in Hl'. injection Hl' as <-. destruct (Hfrom x' Hx') as [?| ->]; [by left|]. right.
    exists n, i, t. split; [by left|done].
  - intros n' i' t' _ ->%list_elem_of_singleton Hn. rewrite En in Hn. injection Hn as <- <-. by exists out, l, x.
Qed.

Lemma forward_spec_nil dep m : forward_spec dep [] m m.
Proof.
  split; [done|done|eauto| |by intros ??? _ ?%elem_of_nil]. intros l x Hl Hx. left. by rewrite Hl.
Qed.

Lemma forward_spec_cons dep n ns m m1 m2 :
  dep_name dep ∉ ns → dep_name dep ≠ n → forward_spec dep [n] m m1 → forward_spec dep ns m1 m2 → forward_spec dep (n :: ns) m m2.
Proof.
  intros Hns Hn [O1 T1 G1 F1 C1] [O2 T2 G2 F2 C2]. split.
  - intros k Hk. by rewrite O2, O1.
  - intros Ht. by rewrite T2, T1.
  - intros l0 Hl0. destruct (G1 l0 Hl0) as (l1 & Hl1 & P1). destruct (G2 l1 Hl1) as (l2 & Hl2 & P2). exists l2. split; [done|by etrans].
  - intros l x Hl Hx. destruct (F2 l x Hl Hx) as [Hx1|(n' & i & t & Hn' & Hi & Hr)].
    + destruct (dict_find (dep_name dep) m1) as [l1|] eqn:E; [|by apply elem_of_nil in Hx1].
      destruct (F1 l1 x eq_refl Hx1) as [?|(n' & i & t & Hn' & ?)]; [by left|]. right. exists n', i, t. split; [set_solver|done].
    + right. exists n', i, t. split; [by right|]. rewrite <- O1 by (intros ->; done). done.
  - intros n' i t Ht [-> |Hin]%elem_of_cons Hi.
    + destruct (C1 n i t) as (out & l1 & x & Hr & Hl1 & Hx & Hs); [done|by left|done|].
      destruct (G2 l1 Hl1) as (l2 & Hl2 & [k ->]). exists out, (l1 ++ k), x. split_and!; [done|done|set_solver|done].
    + apply (C2 n' i t); [done|done|]. rewrite O1; [done|]. by intros ->.
Qed.

Lemma forward_fold_spec dep ns m m' :
  dep_name dep ∉ ns → mfold (forward_input targets dep) m ns = Ok m' → forward_spec dep ns m m'.
Proof.
  revert m. induction ns as [|n ns IH]; intros m Hn E; cbn [mfold] in E; [injection E as <-; apply forward_spec_nil|].
  apply not_elem_of_cons in Hn as [Hn Hns]. apply bind_Ok in E as (m1 & E1 & E2).
  eapply forward_spec_cons; [done|done|by apply forward_input_spec|by apply IH].
Qed.

Lemma forward_dep_spec dep m m' :
  dep ∈ deps → forward targets m dep = Ok m' → forward_spec dep (dependent_region dep).*1 m m'.
Proof.
  intros Hd. apply forward_fold_spec. intros Hin%dict_find_key. by apply (not_self dep (dep_name dep)) in Hin.
Qed.

Lemma forward_other ds m m' k :
  (∀ dep, dep ∈ ds → dep ∈ deps) → mfold (forward targets) m ds = Ok m' → k ∉ dep_name <$> ds → dict_find k m' = dict_find k m.
Proof.
  revert m. induction ds as [|dep ds IH]; intros m Hds E Hk; cbn [mfold] in E; [by injection E as <-|].
  apply bind_Ok in E as (m1 & E1 & E2). csimpl in Hk. apply not_elem_of_cons in Hk as [Hk1 Hk2].
  rewrite (IH m1) by (done || intros; apply Hds; by right).
  apply (fs_other dep (dependent_region dep).*1); [|done]. apply forward_dep_spec; [apply Hds; by left|done].
Qed.

Lemma forward_target m m' t :
  mfold (forward targets) m deps = Ok m' → t ∈ targets → dict_find t m' = dict_find t m.
Proof.
  intros E Ht. revert m E. assert (∀ dep, dep ∈ deps → dep ∈ deps) as Hds by done. revert Hds.
  generalize deps at 1 3. intros ds. induction ds as [|dep ds IH]; intros Hds m E; cbn [mfold] in E; [by injection E as <-|].
  apply bind_Ok in E as (m1 & E1 & E2). rewrite (IH) with (m := m1) by (done || intros; apply Hds; by right).
  apply forward_dep_spec in E1; [|apply Hds; by left]. destruct (decide (t = dep_name dep)) as [-> |Hne]; [|by apply (fs_other _ _ _ _ E1)].
  by rewrite (fs_target _ _ _ _ E1).
Qed.

(** The regions at the end are those each statement saw. *)
Lemma forward_at m0 m1 i dep :
  mfold (forward targets) m0 deps = Ok m1 → deps !! i = Some dep →
  ∃ ma mb, forward_spec dep (dependent_region dep).*1 ma mb ∧
    (∀ n, n ∈ (dependent_region dep).*1 → dict_find n m1 = dict_find n ma) ∧
    dict_find (dep_name dep) m1 = dict_find (dep_name dep) mb ∧
    dict_find (dep_name dep) ma = dict_find (dep_name dep) m0.
Proof.
  intros E Hi. pose proof (take_drop_middle _ _ _ Hi) as Hsplit. rewrite <- Hsplit in E. rewrite mfold_app in E.
  apply bind_Ok in E as (ma & Ea & E). cbn [mfold] in E. apply bind_Ok in E as (mb & Eb & Ec).
  assert (∀ d, d ∈ take i deps → d ∈ deps) as Hpre by (intros d (j & ? & ?)%elem_of_take; by eapply list_elem_of_lookup_2).
  assert (∀ d, d ∈ drop (S i) deps → d ∈ deps) as Hpost by (intros d (j & Hj)%list_elem_of_lookup; rewrite lookup_drop in Hj; by eapply list_elem_of_lookup_2).
  assert (dep ∈ deps) as Hd by (by eapply list_elem_of_lookup_2).
  pose proof (forward_dep_spec dep ma mb Hd Eb) as Hs. exists ma, mb.
  pose proof (ok_names _ Hdeps) as Hnd. rewrite <- Hsplit, fmap_app, fmap_cons in Hnd.
  apply NoDup_app in Hnd as (_ & Hnd1 & [Hnd2 _]%NoDup_cons). split_and!; [done| | |].
  - intros n Hn. apply dict_find_key, dep_region in Hn; [|done].
    assert (∀ j dj, deps !! j = Some dj → dep_name dj = n → (j < i)%nat) as Hlt by (intros j dj Hj <-; by eapply (ok_order _ Hdeps)).
    rewrite (forward_other (drop (S i) deps) mb m1 n Hpost Ec).
    + apply (fs_other _ _ _ _ Hs). intros ->. pose proof (Hlt i dep Hi eq_refl). lia.
    + intros (dj & -> & (j & Hj)%list_elem_of_lookup)%list_elem_of_fmap. rewrite lookup_drop in Hj. pose proof (Hlt _ dj Hj eq_refl). lia.
  - by apply (forward_other (drop (S i) deps)).
  - apply (forward_other (take i deps)); [done|done|]. intros Hin. apply (Hnd1 _ Hin). by left.
Qed.

(** ** The regions of the elements that are produced *)

Context (m0 m1 : mapping) (Hm0 : ∀ n l, dict_find n m0 = Some l → ∃ dep, dep ∈ deps ∧ dep_name dep = n ∧ n ∈ targets ∧ l = [Some (IVar <$> axis_vars dep)]).
Context (Hfwd : mfold (forward targets) m0 deps = Ok m1) (Hreg : regular m1).
Context (Htargets : ∀ dep, dep ∈ deps → dep_name dep ∈ targets → is_Some (dict_find (dep_name dep) m0)).

(** Where a region of a statement comes from. *)
Lemma forward_region i dep r :
  deps !! i = Some dep → dict_find (dep_name dep) m1 = Some [Some r] →
  (dep_name dep ∈ targets ∧ r = IVar <$> axis_vars dep) ∨
  (dep_name dep ∉ targets ∧ ∃ n rn, n ∈ (dependent_region dep).*1 ∧ dict_find n m1 = Some [Some rn] ∧ make_reverse dep n (Some rn) = Ok (Some r)).
Proof.
  intros Hi Hr. assert (dep ∈ deps) as Hd by (by eapply list_elem_of_lookup_2). destruct (decide (dep_name dep ∈ targets)) as [Ht|Ht].
  - left. split; [done|]. rewrite (forward_target m0 m1 _ Hfwd Ht) in Hr. destruct (Hm0 _ _ Hr) as (dep' & Hd' & En & _ & [= ->]).
    by rewrite (same_dep dep' dep).
  - right. split; [done|]. destruct (forward_at m0 m1 i dep Hfwd Hi) as (ma & mb & Hs & Hn & Hb & Ha).
    rewrite Hb in Hr. destruct (fs_from _ _ _ _ Hs _ (Some r) Hr) as [Hin|(n & x & t & Hn' & Hx & Hrev)]; [by left| |].
    + rewrite Ha in Hin. destruct (dict_find (dep_name dep) m0) as [l|] eqn:E; [|by apply elem_of_nil in Hin].
      by destruct (Hm0 _ _ E) as (? & _ & _ & ? & _).
    + rewrite <- (Hn n Hn') in Hx. destruct (Hreg n _ Hx) as [rn [= -> ->]]. by exists n, rn.
Qed.

(** Only statements are reached. *)
Lemma forward_keys n l : dict_find n m1 = Some l → n ∈ dep_name <$> deps.
Proof.
  intros Hn. destruct (decide (n ∈ dep_name <$> deps)) as [|Hno]; [done|].
  rewrite (forward_other deps m0 m1 n) in Hn by done. destruct (Hm0 _ _ Hn) as (dep & Hd & <- & _). by apply list_elem_of_fmap_2.
Qed.

Lemma make_reverse_Some dep n rn r :
  make_reverse dep n (Some rn) = Ok (Some r) →
  reduce_axis (block dep) = [] ∧ ∃ indices m results, dict_find n (dependent_region dep) = Some [indices] ∧
    detect_iter_map indices (spatial_axis (block dep)) = Some m ∧ inverse_affine_iter_map m rn = Ok results ∧
    r = imap (λ i a, default (undefined (Reversed (block_id (block dep)) n i) "int32" (dom_extent a)) (dict_find (ax_var a) results))
          (spatial_axis (block dep)).
Proof.
  unfold make_reverse. case_bool_decide as Hr; [done|]. intros E. split; [by destruct (reduce_axis (block dep)); [|destruct Hr]|].
  apply bind_Ok in E as (regions & Hrg & E). unfold dict_item in Hrg. destruct (dict_find n (dependent_region dep)) as [l|]; [|done].
  injection Hrg as ->. destruct regions as [|indices [|]]; try done. destruct (detect_iter_map _ _) as [m|] eqn:Em; [|done].
  cbn [or_raise mbind res_bind] in E. destruct (inverse_affine_iter_map m rn) as [results|] eqn:Ei; [|done]. injection E as <-.
  by exists indices, m, results.
Qed.

Context `{!ArithLaws} (Hrev : reversible).

(** The regions of the i-th statement use the axes and the variables that were made
    for the statements up to it, and have its rank. *)
Lemma forward_vars i dep r :
  deps !! i = Some dep → dict_find (dep_name dep) m1 = Some [Some r] →
  length r = rank (dep_name dep) ∧
  ∀ v, v ∈ region_vars r → declared v ∨ ∃ d n k, var_id v = Reversed d n k ∧ (d ≤ i)%nat.
Proof.
  revert dep r. induction (lt_wf i) as [i _ IH]. intros dep r Hi Hr. assert (dep ∈ deps) as Hd by (by eapply list_elem_of_lookup_2).
  destruct (ok_axes _ Hdeps dep Hd) as (_ & Hdecl & Hlen).
  destruct (forward_region i dep r Hi Hr) as [[_ ->]|(_ & n & rn & Hn & Hrn & Hmr)].
  - split; [by rewrite length_fmap|]. intros v (e & (w & -> & Hw)%list_elem_of_fmap & Hv)%region_vars_elem. simpl in Hv.
    apply list_elem_of_singleton in Hv as ->. left. auto.
  - apply make_reverse_Some in Hmr as (_ & indices & m & results & _ & _ & Hinv & ->). split.
    { rewrite length_imap, <- Hlen. unfold axis_vars. by rewrite length_fmap. }
    intros v (e & (k & He)%list_elem_of_lookup & Hv)%region_vars_elem. rewrite list_lookup_imap in He.
    destruct (spatial_axis (block dep) !! k) as [a|]; [|done]. injection He as <-.
    destruct (dict_find (ax_var a) results) as [e|] eqn:Ee; simpl in Hv.
    + pose proof (inverse_vars _ _ _ _ _ _ Hinv Ee Hv) as Hvn. pose proof (forward_keys _ _ Hrn) as (dj & -> & (j & Hj)%list_elem_of_lookup)%list_elem_of_fmap.
      assert (j < i)%nat as Hji by (apply dict_find_key, dep_region in Hn; [|done]; by eapply (ok_order _ Hdeps)).
      destruct (IH j Hji dj rn Hj Hrn) as [_ Hvs]. destruct (Hvs v Hvn) as [?|(d & n' & k' & ? & ?)]; [by left|]. right. exists d, n', k'. split; [done|lia].
    + apply list_elem_of_singleton in Hv as ->. right. destruct (ok_init _ Hdeps i dep Hi) as [-> _]. by exists i, n, k.
Qed.

Lemma assign_axis env (axes : list var) (a : list Z) k v :
  NoDup axes → length a = length axes → axes !! k = Some v → a !! k = Some (assign env (zip axes a) v).
Proof.
  intros Hnd Hl Hk. unfold assign. destruct (lookup_lt_is_Some_2 a k) as [x Hx]; [rewrite Hl; by eapply lookup_lt_Some|].
  rewrite (dict_find_nodup v x); [done|by rewrite fst_zip by lia|]. apply list_elem_of_lookup. exists k. by apply lookup_zip_Some.
Qed.

Lemma assign_other env (axes : list var) (a : list Z) v : v ∉ axes → assign env (zip axes a) v = env v.
Proof.
  intros Hv. unfold assign. destruct (dict_find v (zip axes a)) as [x|] eqn:E; [|done].
  apply dict_find_in, elem_of_zip_l in E. done.
Qed.

(** The variables made for axis [k] of a reversed statement take the values [a]. *)
Definition with_reversed (env : var → Z) (dep : nat) (n : string) (a : list Z) : var → Z := λ v,
  match var_id v with
  | Reversed d n' k => if decide (d = dep ∧ n' = n) then default 0 (a !! k) else env v
  | _ => env v
  end.

Definition agree (env env' : var → Z) : Prop := ∀ v, declared v → env' v = env v.

Lemma reverse_covers i dep n indices rn r env env' idx a :
  deps !! i = Some dep → dict_find n (dependent_region dep) = Some [indices] → make_reverse dep n (Some rn) = Ok (Some r) →
  (∀ v, v ∈ region_vars rn → declared v ∨ ∃ d n' k, var_id v = Reversed d n' k ∧ (d < i)%nat) →
  agree env env' → evals env' rn idx → length a = length (axis_vars dep) →
  in_domain (assign env (zip (axis_vars dep) a)) (spatial_axis (block dep)) →
  evals (assign env (zip (axis_vars dep) a)) indices idx →
  agree env (with_reversed env' i n a) ∧ evals (with_reversed env' i n a) r a.
Proof.
  intros Hi Hn Hmr Hfresh Hag Hrn Hla Hdom Hind. assert (dep ∈ deps) as Hd by (by eapply list_elem_of_lookup_2).
  destruct (ok_init _ Hdeps i dep Hi) as [Hid _]. destruct (ok_axes _ Hdeps dep Hd) as (Hnd & _ & _).
  apply make_reverse_Some in Hmr as (_ & ind & m & results & Hn' & Hm & Hinv & ->). rewrite Hn in Hn'. injection Hn' as <-.
  set (env2 := with_reversed env' i n a). split.
  { intros v Hv. unfold env2, with_reversed. unfold declared in Hv. rewrite <- (Hag v) by done. by destruct (var_id v). }
  assert (evals env2 rn idx) as Hrn2.
  { eapply evals_agree; [|exact Hrn]. intros v Hv. unfold env2, with_reversed.
    destruct (Hfresh v Hv) as [Hdv|(d & n' & k & -> & Hlt)]; [unfold declared in Hdv; by destruct (var_id v)|].
    rewrite decide_False; [done|]. intros [-> _]. lia. }
  apply Forall2_same_length_lookup. unfold axis_vars in Hla. rewrite length_fmap in Hla. split; [by rewrite length_imap|].
  intros k e x He Hx. rewrite list_lookup_imap in He. destruct (spatial_axis (block dep) !! k) as [ax|] eqn:Eax; [|done]. injection He as <-.
  assert (axis_vars dep !! k = Some (ax_var ax)) as Hk by (unfold axis_vars; by rewrite list_lookup_fmap, Eax).
  assert (assign env (zip (axis_vars dep) a) (ax_var ax) = x) as Ha.
  { rewrite (assign_axis env (axis_vars dep) a k (ax_var ax) Hnd) in Hx; [by injection Hx| |done]. unfold axis_vars. by rewrite length_fmap. }
  destruct (dict_find (ax_var ax) results) as [e|] eqn:Ee; simpl.
  - rewrite <- Ha. eapply inverse_sound; [done|done|done|done|done|done|]. by eapply Hrev.
  - pose proof (Hdom ax) as Hdx. rewrite Ha in Hdx. destruct Hdx as [? ?]; [by eapply list_elem_of_lookup_2|].
    unfold env2, with_reversed. simpl. rewrite Hid, decide_True by done. rewrite Hx. simpl.
    destruct (Z.eqb_spec (dom_extent ax) 0); [lia|]. f_equal. by apply Z.mod_small.
Qed.

(** Elements that are produced are denoted by the region of their statement. *)
Lemma produced_covered env n idx :
  produced env n idx → ∃ r env', dict_find n m1 = Some [Some r] ∧ agree env env' ∧ evals env' r idx.
Proof.
  induction 1 as [dep Hd Ht|dep n indices idx a Hd Ht Hred Hn _ (rn & env' & Hrn & Hag & Hev) Hla Hdom Hind].
  - destruct (Htargets dep Hd Ht) as [l Hl]. destruct (Hm0 _ _ Hl) as (dep' & Hd' & En & _ & ->).
    rewrite <- (forward_target m0 m1 _ Hfwd Ht) in Hl. exists (IVar <$> axis_vars dep'), env. split; [done|]. split; [by intros v|].
    rewrite (same_dep dep' dep) by done. unfold evals. clear. induction (axis_vars dep) as [|v l IH]; constructor; [done|exact IH].
  - apply list_elem_of_lookup in Hd as [i Hi]. destruct (forward_at m0 m1 i dep Hfwd Hi) as (ma & mb & Hs & Hna & Hb & _).
    assert (n ∈ (dependent_region dep).*1) as Hkey by (apply dict_find_key; by eexists).
    rewrite (Hna n Hkey) in Hrn. destruct (fs_cover _ _ _ _ Hs n _ _ Ht Hkey Hrn) as (out & l & x & Hout & Hl & Hx & Hsame).
    rewrite <- (Hna n Hkey) in Hrn. rewrite <- Hb in Hl. destruct (Hreg _ _ Hl) as [r ->]. apply list_elem_of_singleton in Hx as ->.
    pose proof (forward_keys _ _ Hrn) as (dj & -> & (j & Hj)%list_elem_of_lookup)%list_elem_of_fmap.
    assert (j < i)%nat as Hji.
    { apply dict_find_key, dep_region in Hkey; [|by eapply list_elem_of_lookup_2]. by eapply (ok_order _ Hdeps). }
    destruct (forward_vars j dj rn Hj Hrn) as [_ Hvs]. destruct (forward_vars i dep r Hi Hl) as [Hlen _].
    assert (∃ r', out = Some r' ∧ (r = r' ∨ region_is_same r' r = true)) as (r' & -> & Hrr).
    { destruct Hsame as [<-|(r' & y & -> & [= ->] & ?)]; eauto. }
    destruct (reverse_covers i dep _ indices rn r' env env' idx a Hi Hn Hout) as [Hag' Hev']; try done.
    { intros v Hv. destruct (Hvs v Hv) as [?|(d & n' & k & ? & ?)]; [by left|]. right. exists d, n', k. split; [done|lia]. }
    exists r, (with_reversed env' i (dep_name dj) a). split_and!; [done|done|]. destruct Hrr as [-> |Hrr]; [done|].
    eapply region_is_same_evals; [exact Hrr| |exact Hev']. apply Forall2_length in Hev'.
    destruct (ok_axes _ Hdeps dep) as (_ & _ & Hrk); [by eapply list_elem_of_lookup_2|]. congruence.
Qed.

(** ** Backward *)

Lemma add_region_spec l r l' :
  add_region l r = Ok l' → l ⊆ l' ∧ (∀ x, x ∈ l' → x ∈ l ∨ x = Some r) ∧ ∃ x, x ∈ l' ∧ same_out (Some r) x.
Proof.
  unfold add_region. intros E. apply bind_Ok in E as (e & He & E). destruct e; injection E as <-.
  - apply region_exists_true in He as (x & Hx & Hs). split_and!; [done|by left|by exists x].
  - split_and!; [set_solver|set_solver|]. exists (Some r). split; [set_solver|by left].
Qed.

(** Collecting the results of a loop. *)
Lemma collect_spec {A} (f : list (option region) → A → res (list (option region))) (P : A → option region → Prop) (Q : A → list (option region) → Prop) xs l l' :
  (∀ l a l', a ∈ xs → f l a = Ok l' → l ⊆ l' ∧ (∀ x, x ∈ l' → x ∈ l ∨ P a x) ∧ Q a l') → (∀ a l l', l ⊆ l' → Q a l → Q a l') →
  mfold f l xs = Ok l' → l ⊆ l' ∧ (∀ x, x ∈ l' → x ∈ l ∨ ∃ a, a ∈ xs ∧ P a x) ∧ ∀ a, a ∈ xs → Q a l'.
Proof.
  intros Hf HQ. revert l Hf. induction xs as [|a xs IH]; intros l Hf E; cbn [mfold] in E.
  { injection E as <-. split_and!; [done|by left|by intros ? ?%elem_of_nil]. }
  apply bind_Ok in E as (l1 & E1 & E2). destruct (Hf l a l1) as (S1 & F1 & Q1); [by left|done|].
  destruct (IH l1) as (S2 & F2 & Q2); [intros; eapply Hf; [by right|done]|done|]. split_and!.
  - set_solver.
  - intros x [Hx|(b & ? & ?)]%F2; [|right; exists b; split; [by right|done]]. destruct (F1 x Hx); [by left|right]. exists a. split; [by left|done].
  - intros b [-> |Hb]%elem_of_cons; [by eapply HQ|auto].
Qed.

Record backward_spec (dep : Statement) (ils : list (option region)) (items : list (string * list region)) (m m' : mapping) : Prop := {
  bs_other k : k ∉ items.*1 ∨ k ∈ targets → dict_find k m' = dict_find k m;
  bs_grow k l0 : dict_find k m = Some l0 → ∃ l, dict_find k m' = Some l ∧ l0 ⊆ l;
  bs_from k l x : dict_find k m' = Some l → x ∈ l → x ∈ default [] (dict_find k m) ∨
    ∃ regions r ind, (k, regions) ∈ items ∧ r ∈ regions ∧ Some ind ∈ ils ∧ x = Some (propagate_region (axis_vars dep) ind r);
  bs_cover k regions r ind : (k, regions) ∈ items → k ∉ targets → r ∈ regions → Some ind ∈ ils →
    ∃ l x, dict_find k m' = Some l ∧ x ∈ l ∧ same_out (Some (propagate_region (axis_vars dep) ind r)) x;
}.

Lemma backward_input_spec dep ils m item m' : backward_input targets dep ils m item = Ok m' → backward_spec dep ils [item] m m'.
Proof.
  destruct item as [n regions]. unfold backward_input. destruct (decide (n ∈ targets)) as [Ht|Ht].
  { intros [= <-]. split; [done|eauto| |].
    - intros k l x Hk Hx. left. by rewrite Hk.
    - intros k regs r ind [= -> ->]%list_elem_of_singleton. done. }
  intros E. apply bind_Ok in E as (l & El & E). injection E as <-.
  apply (collect_spec _ (λ indices x, ∃ ind r, indices = Some ind ∧ r ∈ regions ∧ x = Some (propagate_region (axis_vars dep) ind r))
    (λ indices l, ∀ ind r, indices = Some ind → r ∈ regions → ∃ x, x ∈ l ∧ same_out (Some (propagate_region (axis_vars dep) ind r)) x)) in El
    as (Hsub & Hfrom & Hcov).
  2: { intros l0 [ind|] l0' _ E.
       - apply (collect_spec _ (λ r x, x = Some (propagate_region (axis_vars dep) ind r))
           (λ r l, ∃ x, x ∈ l ∧ same_out (Some (propagate_region (axis_vars dep) ind r)) x)) in E as (Hsub & Hfrom & Hcov).
         + split_and!; [done| |].
           * intros x [?|(r & ? & ?)]%Hfrom; [by left|]. right. by exists ind, r.
           * intros ind' r [= <-] Hr. by apply Hcov.
         + intros l2 r l2' _ E2. cbn [or_raise mbind res_bind] in E2. by apply add_region_spec.
         + intros r l2 l2' Hs (x & Hx & ?). exists x. split; [by apply Hs|done].
       - destruct regions as [|r regions]; [|done]. injection E as <-. split_and!; [done|by left|done]. }
  2: { intros a l2 l2' Hs Hc ind r Hi Hr. destruct (Hc ind r Hi Hr) as (x & Hx & ?). exists x. split; [by apply Hs|done]. }
  split.
  - intros k [Hk|Hk]; rewrite dict_find_set, decide_False; try done; [|by intros ->]. intros ->. apply Hk. by left.
  - intros k l0 Hk. rewrite dict_find_set. case_decide; [|by exists l0]. subst k. exists l. split; [done|]. by rewrite Hk in Hsub.
  - intros k l' x. rewrite dict_find_set. case_decide; [|intros Hk Hx; left; by rewrite Hk]. subst k. intros [= <-] Hx.
    destruct (Hfrom x Hx) as [?|(i & Hi & ind & r & -> & Hr & ->)]; [by left|]. right. exists regions, r, ind. split_and!; [by left|done|done|done].
  - intros k regs r ind [= -> ->]%list_elem_of_singleton _ Hr Hind. destruct (Hcov (Some ind) Hind ind r eq_refl Hr) as (x & Hx & Hs).
    exists l, x. rewrite dict_find_set, decide_True by done. done.
Qed.

Lemma backward_fold_spec dep ils items m m' :
  mfold (backward_input targets dep ils) m items = Ok m' → backward_spec dep ils items m m'.
Proof.
  revert m. induction items as [|item items IH]; intros m E; cbn [mfold] in E.
  { injection E as <-. split; [done|eauto| |by intros ???? ?%elem_of_nil]. intros k l x Hk Hx. left. by rewrite Hk. }
  apply bind_Ok in E as (m1' & E1 & E2). apply backward_input_spec in E1 as [O1 G1 F1 C1]. apply IH in E2 as [O2 G2 F2 C2]. split.
  - intros k Hk. rewrite O2, O1; [done|..]; destruct Hk as [Hk|Hk]; [|by right| |by right]; left; csimpl in Hk; set_solver.
  - intros k l0 Hk. destruct (G1 k l0 Hk) as (l1 & Hl1 & S1). destruct (G2 k l1 Hl1) as (l2 & ? & ?). exists l2. split; [done|set_solver].
  - intros k l x Hk Hx. destruct (F2 k l x Hk Hx) as [Hx1|(regs & r & ind & Hin & ?)].
    + destruct (dict_find k m1') as [l1|] eqn:E; [|by apply elem_of_nil in Hx1]. destruct (F1 k l1 x E Hx1) as [?|(regs & r & ind & Hin & ?)]; [by left|].
      right. exists regs, r, ind. split; [|done]. apply list_elem_of_singleton in Hin as ->. by left.
    + right. exists regs, r, ind. split; [by right|done].
  - intros k regs r ind [E|Hin]%elem_of_cons Ht Hr Hind.
    + destruct (C1 k regs r ind) as (l & x & Hl & Hx & Hs); [by subst; left|done|done|done|]. destruct (G2 k l Hl) as (l2 & ? & Hsub).
      exists l2, x. split_and!; [done|by apply Hsub|done].
    + by eapply C2.
Qed.

Lemma backward_dep_spec dep m m' :
  backward targets m dep = Ok m' →
  ∃ ils, dict_find (dep_name dep) m = Some ils ∧ backward_spec dep ils (dependent_region dep) m m'.
Proof.
  unfold backward, dict_item. destruct (dict_find (dep_name dep) m) as [ils|]; [|done]. simpl. intros E. exists ils.
  split; [done|]. by apply backward_fold_spec.
Qed.

Lemma backward_grow ds m m' k l0 :
  mfold (backward targets) m ds = Ok m' → dict_find k m = Some l0 → ∃ l, dict_find k m' = Some l ∧ l0 ⊆ l.
Proof.
  revert m l0. induction ds as [|dep ds IH]; intros m l0 E Hk; cbn [mfold] in E; [injection E as <-; eauto|].
  apply bind_Ok in E as (ma & (ils & _ & Hs)%backward_dep_spec & E). destruct (bs_grow _ _ _ _ _ Hs k l0 Hk) as (l1 & Hl1 & S1).
  destruct (IH ma l1 E Hl1) as (l & ? & ?). exists l. split; [done|set_solver].
Qed.

Lemma backward_other ds m m' k :
  mfold (backward targets) m ds = Ok m' → (∀ dep, dep ∈ ds → k ∉ (dependent_region dep).*1) → dict_find k m' = dict_find k m.
Proof.
  revert m. induction ds as [|dep ds IH]; intros m E Hk; cbn [mfold] in E; [by injection E as <-|].
  apply bind_Ok in E as (ma & (ils & _ & Hs)%backward_dep_spec & E). rewrite (IH ma E) by (intros; apply Hk; by right).
  apply (bs_other _ _ _ _ _ Hs). left. apply Hk. by left.
Qed.

Context (m2 : mapping) (Hbwd : mfold (backward targets) m1 (reverse deps) = Ok m2).

(** The regions of a statement are complete when it is its turn. *)
Lemma backward_complete pre dep post ma mb :
  reverse deps = pre ++ dep :: post → backward targets ma dep = Ok mb → mfold (backward targets) mb post = Ok m2 →
  dict_find (dep_name dep) m2 = dict_find (dep_name dep) ma.
Proof.
  intros E Ha Hb. assert (deps = reverse post ++ dep :: reverse pre) as Ed.
  { rewrite <- (reverse_involutive deps), E, reverse_app, reverse_cons. by rewrite <- app_assoc. }
  assert (deps !! length post = Some dep) as Hi by (rewrite Ed; apply list_lookup_middle; by rewrite length_reverse).
  assert (dep ∈ deps) as Hd by (by eapply list_elem_of_lookup_2).
  rewrite (backward_other post mb m2 _ Hb).
  - apply backward_dep_spec in Ha as (ils & _ & Hs). apply (bs_other _ _ _ _ _ Hs). left. intros Hin%dict_find_key.
    by apply (not_self dep (dep_name dep)) in Hin.
  - intros dj Hj Hin%dict_find_key. assert (dj ∈ reverse post) as (j & Hj')%list_elem_of_lookup by (by apply elem_of_reverse).
    assert (j < length post)%nat as Hlt by (rewrite <- length_reverse; by eapply lookup_lt_Some).
    assert (deps !! j = Some dj) as Hdj by (rewrite Ed, lookup_app_l; [done|by rewrite length_reverse]).
    apply dep_region in Hin; [|by eapply list_elem_of_lookup_2]. pose proof (ok_order _ Hdeps _ _ _ _ Hdj Hi Hin). lia.
Qed.

Lemma backward_at i dep :
  deps !! i = Some dep →
  ∃ ils ma mb, dict_find (dep_name dep) m2 = Some ils ∧ backward_spec dep ils (dependent_region dep) ma mb ∧
    ∀ k l, dict_find k mb = Some l → ∃ l', dict_find k m2 = Some l' ∧ l ⊆ l'.
Proof.
  intros Hi. assert (dep ∈ reverse deps) as (pre & post & E)%list_elem_of_split
    by (apply elem_of_reverse; by eapply list_elem_of_lookup_2).
  pose proof Hbwd as Hb. rewrite E, mfold_app in Hb. apply bind_Ok in Hb as (ma & _ & Hb). cbn [mfold] in Hb. apply bind_Ok in Hb as (mb & Ha & Hb).
  pose proof (backward_complete pre dep post ma mb E Ha Hb) as Hc. apply backward_dep_spec in Ha as (ils & Hils & Hs).
  exists ils, ma, mb. split; [by rewrite Hc|]. split; [done|]. intros k l Hk. by eapply backward_grow.
Qed.

(** Where the regions of a buffer come from. *)
Lemma backward_from k l x :
  dict_find k m2 = Some l → x ∈ l →
  x ∈ default [] (dict_find k m1) ∨
  ∃ dep ils regions r ind, dep ∈ deps ∧ dict_find (dep_name dep) m2 = Some ils ∧ (k, regions) ∈ dependent_region dep ∧ r ∈ regions ∧
    Some ind ∈ ils ∧ x = Some (propagate_region (axis_vars dep) ind r).
Proof.
  intros Hk Hx. assert (∀ ds pre ma, reverse deps = pre ++ ds → mfold (backward targets) ma ds = Ok m2 →
    x ∈ default [] (dict_find k ma) ∨ ∃ dep ils regions r ind, dep ∈ deps ∧ dict_find (dep_name dep) m2 = Some ils ∧
      (k, regions) ∈ dependent_region dep ∧ r ∈ regions ∧ Some ind ∈ ils ∧ x = Some (propagate_region (axis_vars dep) ind r)) as Hgen.
  { intros ds. induction ds as [|dep ds IH]; intros pre ma E Hb; cbn [mfold] in Hb; [injection Hb as ->; left; by rewrite Hk|].
    apply bind_Ok in Hb as (mb & Ha & Hb). destruct (IH (pre ++ [dep]) mb) as [Hin|]; [by rewrite <- app_assoc|done| |by right].
    pose proof (backward_complete pre dep ds ma mb E Ha Hb) as Hc. apply backward_dep_spec in Ha as (ils & Hils & Hs).
    destruct (dict_find k mb) as [lb|] eqn:Ekb; [|by apply elem_of_nil in Hin].
    destruct (bs_from _ _ _ _ _ Hs k lb x Ekb Hin) as [?|(regions & r & ind & ? & ? & ? & ?)]; [by left|]. right.
    exists dep, ils, regions, r, ind. split_and!; try done; [|by rewrite Hc]. apply elem_of_reverse. rewrite E. set_solver. }
  apply (Hgen (reverse deps) [] m1); [done|done].
Qed.

Lemma dep_region_nodup dep : dep ∈ deps → NoDup (dependent_region dep).*1.
Proof.
  intros [i Hi]%list_elem_of_lookup. destruct (ok_init _ Hdeps i dep Hi) as [_ [_ E]%Statement_init_region].
  unfold _extract_dependent_region in E. eapply (mfold_inv (λ d, NoDup d.*1)) in E; [done| |].
  - generalize (in_buffers (block dep)). intros bs. induction bs as [|b bs IH] using rev_ind; [apply NoDup_nil_2|].
    rewrite fmap_app. cbn [fmap list_fmap]. rewrite dict_of_snoc. by apply dict_set_nodup.
  - intros d [k load] d' Hd _ E'. unfold fvisit in E'. destruct (dict_find _ d); [|by injection E' as <-].
    apply bind_Ok in E' as (r & _ & E'). destruct (region_exist_in_list _ _); injection E' as <-; [done|by apply dict_set_nodup].
Qed.

Lemma cast_map_find axes ind v e :
  NoDup axes → dict_find v (cast_map (zip axes ind)) = Some e →
  ∃ k x, axes !! k = Some v ∧ ind !! k = Some x ∧ (e = x ∨ ∃ d, e = ICast d x).
Proof.
  intros Hnd Hv. unfold cast_map in Hv. apply dict_find_of in Hv.
  - apply list_elem_of_fmap in Hv as ([v' x] & [= -> ->] & (k & Hk)%list_elem_of_lookup). apply lookup_zip_Some in Hk as [? ?].
    exists k, x. split_and!; [done|done|]. simpl. case_decide; [by left|right; by eexists].
  - rewrite <- list_fmap_compose. clear Hv. revert ind. induction Hnd as [|a axes Ha Hnd IH]; intros [|x ind]; csimpl; try apply NoDup_nil_2.
    apply NoDup_cons. split; [|apply IH]. intros ([b y] & Hb & Hin)%list_elem_of_fmap. simpl in Hb. subst. by apply elem_of_zip_l in Hin.
Qed.

Lemma cast_map_axis axes ind k v x :
  NoDup axes → axes !! k = Some v → ind !! k = Some x →
  ∃ e, dict_find v (cast_map (zip axes ind)) = Some e ∧ ∀ env, eval env e = eval env x.
Proof.
  intros Hnd Hv Hx. assert (is_Some (dict_find v (cast_map (zip axes ind)))) as [e He].
  { unfold cast_map. set (f := λ kv : var * iexpr, _). assert ((v, (f (v, x)).2) ∈ f <$> zip axes ind) as Hin.
    { apply (list_elem_of_fmap_2 f _ (v, x)). apply list_elem_of_lookup. exists k. by apply lookup_zip_Some. }
    revert Hin. generalize (f <$> zip axes ind), (f (v, x)).2. clear. intros l y. induction l as [|[v' e'] l IH] using rev_ind; [by intros ?%elem_of_nil|].
    rewrite dict_of_snoc, dict_find_set. simpl. intros [Hin|E%list_elem_of_singleton]%elem_of_app; case_decide; [by eexists|by apply IH|by eexists|congruence]. }
  exists e. split; [done|]. apply cast_map_find in He as (k' & x' & Hk' & Hx' & He); [|done].
  assert (k' = k) as -> by (by eapply NoDup_lookup). rewrite Hx in Hx'. injection Hx' as <-. by destruct He as [-> |[d ->]].
Qed.

Lemma propagate_vars dep ind r v :
  dep ∈ deps → v ∈ region_vars (propagate_region (axis_vars dep) ind r) → v ∈ region_vars r ∨ v ∈ region_vars ind.
Proof.
  intros Hd (e & (a & -> & Ha)%list_elem_of_fmap & Hv)%region_vars_elem. apply simplify_vars, substitute_vars in Hv as (w & Hw & Hv).
  destruct (dict_find w _) as [e|] eqn:E; simpl in Hv.
  - apply cast_map_find in E as (k & x & _ & Hx & He); [|by apply (ok_axes _ Hdeps)]. right. apply region_vars_elem. exists x.
    split; [by eapply list_elem_of_lookup_2|]. by destruct He as [-> |[d ->]].
  - apply list_elem_of_singleton in Hv as ->. left. apply region_vars_elem. by exists a.
Qed.

(** The variables made for the loads of a statement do not occur in the regions of
    that statement. *)
Lemma backward_vars i dep l r :
  deps !! i = Some dep → dict_find (dep_name dep) m2 = Some l → Some r ∈ l →
  ∀ v d k j, v ∈ region_vars r → var_id v = Unread d k j → (i < d)%nat.
Proof.
  revert dep l r. remember (length deps - i)%nat as c eqn:Ec. revert i Ec. induction (lt_wf c) as [c _ IH]. intros i -> dep l r Hi Hl Hr v d k j Hv Hid.
  destruct (backward_from _ _ _ Hl Hr) as [Hin|(di & ils & regions & r0 & ind & Hdi & Hils & Hreg0 & Hr0 & Hind & [= ->])].
  - destruct (dict_find (dep_name dep) m1) as [l1|] eqn:E; [|by apply elem_of_nil in Hin]. destruct (Hreg _ _ E) as [r1 ->].
    apply list_elem_of_singleton in Hin as [= ->]. destruct (forward_vars i dep r1 Hi E) as [_ Hvs].
    destruct (Hvs v Hv) as [Hdv|(d' & n' & k' & Hid' & _)]; [unfold declared in Hdv; by rewrite Hid in Hdv|congruence].
  - pose proof Hdi as (i' & Hi')%list_elem_of_lookup. apply (dict_find_nodup _ _ _ (dep_region_nodup di Hdi)) in Hreg0.
    assert (i < i')%nat as Hlt by (eapply (ok_order _ Hdeps i' i di dep); [done|done|]; apply dep_region; [done|by eexists]).
    destruct (propagate_vars di ind r0 v Hdi Hv) as [Hv0|Hv0].
    + destruct (dep_region_vars di _ _ _ v Hdi Hreg0 Hr0 Hv0) as [Hdv|(k' & j' & Hid')]; [unfold declared in Hdv; by rewrite Hid in Hdv|].
      rewrite Hid in Hid'. injection Hid' as -> _ _. destruct (ok_init _ Hdeps i' di Hi') as [-> _]. done.
    + pose proof (lookup_lt_Some _ _ _ Hi'). transitivity i'; [done|]. eapply (IH (length deps - i')%nat); [lia|done|done|done|done|done|done].
Qed.

Lemma backward_rank k l r : dict_find k m2 = Some l → Some r ∈ l → length r = rank k.
Proof.
  intros Hl Hr. destruct (backward_from _ _ _ Hl Hr) as [Hin|(di & ils & regions & r0 & ind & Hdi & Hils & Hreg0 & Hr0 & Hind & [= ->])].
  - destruct (dict_find k m1) as [l1|] eqn:E; [|by apply elem_of_nil in Hin]. destruct (Hreg _ _ E) as [r1 ->].
    apply list_elem_of_singleton in Hin as [= ->]. pose proof (forward_keys _ _ E) as (dep & -> & (i & Hi)%list_elem_of_lookup)%list_elem_of_fmap.
    by apply (forward_vars i dep r1 Hi E).
  - unfold propagate_region. rewrite length_fmap. eapply dep_region_rank; [done| |done]. by apply dict_find_nodup; [apply dep_region_nodup|].
Qed.

(** The variables made for load [k] of a statement as in [env1]. *)
Definition with_unread (env env1 : var → Z) (dep k : nat) : var → Z := λ v,
  match var_id v with Unread d k' _ => if decide (d = dep ∧ k' = k) then env1 v else env v | _ => env v end.

Lemma propagate_evals dep ind x env env1 k idx idx' :
  dep ∈ deps → evals (with_unread env env1 (block_id (block dep)) k) ind idx → length idx = length (axis_vars dep) →
  (∀ v, (∀ d, var_id v ≠ Unread (block_id (block dep)) k d) → env1 v = assign env (zip (axis_vars dep) idx) v) →
  evals env1 x idx' →
  evals (with_unread env env1 (block_id (block dep)) k) (propagate_region (axis_vars dep) ind x) idx'.
Proof.
  intros Hd Hind Hla Henv1 Hx. destruct (ok_axes _ Hdeps dep Hd) as (Hnd & Hdecl & _). set (env2 := with_unread _ _ _ _) in *.
  apply Forall2_fmap_l. eapply Forall2_impl; [exact Hx|]. intros e z Hz. simpl. apply simplify_sound; [by intros ?? ?%elem_of_nil|].
  eapply eval_substitute; [|exact Hz]. intros v Hv. destruct (decide (v ∈ axis_vars dep)) as [[j Hj]%list_elem_of_lookup|Hno].
  - assert (v ∈ axis_vars dep) as Hva by (by eapply list_elem_of_lookup_2).
    destruct (lookup_lt_is_Some_2 idx j) as [y Hy]; [rewrite Hla; by eapply lookup_lt_Some|].
    destruct (Forall2_lookup_r _ _ _ _ _ Hind Hy) as (x0 & Hx0 & He0).
    destruct (cast_map_axis (axis_vars dep) ind j v x0 Hnd Hj Hx0) as (e' & -> & He'). simpl. rewrite He', He0. f_equal.
    rewrite Henv1 by (specialize (Hdecl v Hva); unfold declared in Hdecl; intros d Hd'; by rewrite Hd' in Hdecl).
    pose proof (assign_axis env (axis_vars dep) idx j v Hnd Hla Hj) as Ha. rewrite Hy in Ha. by injection Ha.
  - destruct (dict_find v (cast_map (zip (axis_vars dep) ind))) as [e'|] eqn:E.
    { apply cast_map_find in E as (j & ? & Hj & _); [|done]. destruct Hno. by eapply list_elem_of_lookup_2. }
    simpl. f_equal. unfold env2, with_unread. destruct (var_id v) as [|?|d k' j] eqn:Ev; try case_decide as Hdk; try done.
    all: rewrite Henv1; [by rewrite assign_other|]; rewrite Ev; intros d' Hd'; simplify_eq; naive_solver.
Qed.

(** Every element that is needed is denoted by a region of its buffer. *)
Lemma needed_covered env n idx :
  needed env n idx → ∃ l r env', dict_find n m2 = Some l ∧ Some r ∈ l ∧ agree env env' ∧ evals env' r idx.
Proof.
  induction 1 as [n idx Hp|dep idx k load idx' Hd _ (l & ind & env' & Hl & Hin & Hag & Hev) Hla Hload Hbuf Hnt Htouch].
  - destruct (produced_covered env n idx Hp) as (r & env' & Hr & Hag & Hev). destruct (backward_grow _ _ _ _ _ Hbwd Hr) as (l & Hl & Hsub).
    exists l, r, env'. split_and!; [done|apply Hsub; by left|done|done].
  - pose proof Hd as (i & Hi)%list_elem_of_lookup. destruct (ok_init _ Hdeps i dep Hi) as [Hid _].
    destruct (ok_loads _ Hdeps dep k load Hd Hload) as [Hdecl Hrank].
    destruct (dep_region_of dep k load Hd Hload Hbuf) as (r0 & regs & x & Hr0 & Hregs & Hx & Hsame).
    assert (touches (assign env' (zip (axis_vars dep) idx)) (zip (l_indices load) (shape (l_buffer load))) idx') as Ht'.
    { eapply touches_agree; [exact Hdecl| |exact Htouch]. intros v Hv. unfold assign. destruct (dict_find v _); [done|]. simpl. by rewrite Hag. }
    destruct (load_index_covers _ _ _ _ _ _ _ Hr0 Hdecl Ht') as (env1 & Henv1 & Hev1).
    set (env2 := with_unread env' env1 (block_id (block dep)) k).
    assert (evals env2 ind idx) as Hind2.
    { eapply evals_agree; [|exact Hev]. intros v Hv. unfold env2, with_unread. destruct (var_id v) as [| |d k' j] eqn:Ev; try done.
      rewrite decide_False; [done|]. intros [-> ->]. pose proof (backward_vars i dep l ind Hi Hl Hin v _ _ _ Hv Ev). lia. }
    assert (evals env1 x idx') as Hx1.
    { eapply region_is_same_evals; [exact Hsame| |exact Hev1]. rewrite (Hrank r0 Hr0). symmetry. by eapply dep_region_rank. }
    assert (evals env2 (propagate_region (axis_vars dep) ind x) idx') as Hpr.
    { eapply propagate_evals; [done|exact Hind2|done| |exact Hx1]. intros v Hv. apply Henv1. intros d Hd'. by destruct (Hv d). }
    destruct (backward_at i dep Hi) as (ils & ma & mb & Hils & Hs & Hgrow). rewrite Hl in Hils. injection Hils as <-.
    destruct (bs_cover _ _ _ _ _ Hs (name (l_buffer load)) regs x ind) as (l' & y & Hl' & Hy & Hsy); [by apply dict_find_in|done|done|done|].
    destruct (Hgrow _ _ Hl') as (l2 & Hl2 & Hsub).
    assert (∃ r2, y = Some r2 ∧ evals env2 r2 idx') as (r2 & -> & Hr2).
    { destruct Hsy as [-> |(r' & r2 & [= <-] & -> & Hs2)]; [by eexists|]. exists r2. split; [done|].
      eapply region_is_same_evals; [exact Hs2| |exact Hpr]. unfold propagate_region. rewrite length_fmap.
      rewrite (dep_region_rank dep _ _ x Hd Hregs Hx). symmetry. eapply backward_rank; [exact Hl2|by apply Hsub]. }
    exists l2, r2, env2. split_and!; [done|by apply Hsub| |done].
    intros v Hv. unfold env2, with_unread. unfold declared in Hv. rewrite <- (Hag v) by done. by destruct (var_id v).
Qed.
End tile.
Set Default Proof Using "Type*".

(** ** The targets *)

Lemma name2dep_find (deps : list Statement) n dep :
  NoDup (dep_name <$> deps) → dict_find n (dict_of ((λ dep, (dep_name dep, dep)) <$> deps)) = Some dep ↔ dep ∈ deps ∧ dep_name dep = n.
Proof.
  intros Hnd. rewrite dict_find_of by (by rewrite <- list_fmap_compose). split.
  - intros (d & [= -> ->] & Hd)%list_elem_of_fmap. done.
  - intros [Hd <-]. by apply (list_elem_of_fmap_2 (λ dep, (dep_name dep, dep))).
Qed.

Section infer_covers.
Context `{Arith}.

Lemma add_target_spec deps targets vs0 m0 vs m :
  NoDup (dep_name <$> deps) →
  mfold (add_target (dict_of ((λ dep, (dep_name dep, dep)) <$> deps))) (vs0, m0) targets = Ok (vs, m) →
  (∀ n l, dict_find n m = Some l → dict_find n m0 = Some l ∨ ∃ dep, dep ∈ deps ∧ dep_name dep = n ∧ n ∈ targets ∧ l = [Some (IVar <$> axis_vars dep)]) ∧
  (∀ n, is_Some (dict_find n m) ↔ is_Some (dict_find n m0) ∨ n ∈ targets) ∧
  ∃ vs', vs = vs0 ++ vs' ∧ Forall2 (λ t v, ∃ dep, dep ∈ deps ∧ dep_name dep = t ∧ v = axis_vars dep) targets vs'.
Proof.
  intros Hnd. revert vs0 m0. induction targets as [|t targets IH]; intros vs0 m0 E; cbn [mfold] in E.
  { injection E as <- <-. split_and!; [by left|set_solver|]. exists []. by rewrite app_nil_r. }
  apply bind_Ok in E as ([vs1 m1] & E1 & E2). cbn [add_target] in E1. apply bind_Ok in E1 as (dep & Hdep & [= <- <-]).
  unfold dict_item in Hdep. destruct (dict_find t _) as [dep'|] eqn:Ed; [|done]. injection Hdep as ->. apply name2dep_find in Ed as [Hd <-]; [|done].
  destruct (IH _ _ E2) as (Hfrom & Hkeys & vs' & -> & Hvs). split_and!.
  - intros n l [Hn|(d & ? & ? & ? & ?)]%Hfrom; [|right; exists d; split_and!; [done|done|by right|done]].
    rewrite dict_find_set in Hn. case_decide; [|by left]. subst. injection Hn as <-. right. exists dep. split_and!; [done|done|by left|done].
  - intros n. rewrite Hkeys, dict_find_set, elem_of_cons. case_decide; [subst; split; eauto|]. naive_solver.
  - exists (axis_vars dep :: vs'). rewrite <- app_assoc. split; [done|]. constructor; [by exists dep|done].
Qed.

(** The regions of the targets and of the statements that read them. *)
Definition reached (deps : list Statement) (targets : list string) : res mapping :=
  vm ← mfold (add_target (dict_of ((λ dep, (dep_name dep, dep)) <$> deps))) ([], []) targets;
  mfold (forward targets) vm.2 deps.

(** The points of a tile. *)
Record point_of (deps : list Statement) (shape : list (string * list ConstIntBound)) (rstep : list (string * Z)) (env : var → Z) : Prop := {
  po_axis t bs dep v b : (t, bs) ∈ shape → dep ∈ deps → dep_name dep = t → (v, b) ∈ zip (axis_vars dep) bs → within b (env v);
  po_reduce a : a ∈ reduce_axes deps → within (axis_bound rstep a) (env (ax_var a));
}.

Lemma point_updates deps vs shape rstep env v b :
  NoDup (dep_name <$> deps) →
  Forall2 (λ t v, ∃ dep, dep ∈ deps ∧ dep_name dep = t ∧ v = axis_vars dep) shape.*1 vs →
  point_of deps shape rstep env → (v, b) ∈ updates deps vs shape.*2 rstep → within b (env v).
Proof.
  intros Hnd Hvs [Ha Hr] [Hin|(a & [= -> ->] & Hin)%list_elem_of_fmap]%elem_of_app; [|auto].
  apply list_elem_of_In, in_concat in Hin as (l & Hl & Hin). apply list_elem_of_In in Hl, Hin.
  apply list_elem_of_fmap in Hl as ([vars bs] & -> & (k & Hk)%list_elem_of_lookup). apply lookup_zip_Some in Hk as [Hv Hb].
  rewrite list_lookup_fmap in Hb. destruct (shape !! k) as [[t bs']|] eqn:Es; [|done]. injection Hb as ->.
  destruct (Forall2_lookup_l _ _ _ k t Hvs) as (v' & Hv' & dep & Hd & Ht & ->); [by rewrite list_lookup_fmap, Es|].
  rewrite Hv in Hv'. injection Hv' as ->. eapply Ha; [by eapply list_elem_of_lookup_2|done|done|done].
Qed.

(** ** Bounds *)

Context `{!ArithLaws}.

(** Bounds that hold for every value of a region. *)
Definition covers (us : list (var * ConstIntBound)) (bs : list ConstIntBound) (r : region) : Prop :=
  Forall2 (λ b e, ∀ env z, (∀ v b, (v, b) ∈ us → within b (env v)) → eval env e = Some z → in64 z → within b z) bs r.

Lemma covers_bound us r : covers us (const_int_bound us <$> r) r.
Proof. unfold covers. apply Forall2_fmap_l, Forall_Forall2_diag, Forall_true. intros e env z Hus. by apply bound_sound. Qed.

Lemma within_merge x b b' : within b x ∨ within b' x → within (_merge_two_bounds b b') x.
Proof. unfold within. simpl. lia. Qed.

Lemma covers_merge_l us bs bs' r : length bs' = length bs → covers us bs r → covers us (zip_with _merge_two_bounds bs bs') r.
Proof.
  unfold covers. intros Hl Hc. revert bs' Hl. induction Hc as [|b e bs r Hb Hc IH]; intros [|b' bs'] Hl; try done; simpl; constructor.
  - intros env z Hus He Hz. apply within_merge. left. by eapply Hb.
  - apply IH. by injection Hl.
Qed.

Lemma covers_merge_r us bs bs' r : length bs' = length bs → covers us bs' r → covers us (zip_with _merge_two_bounds bs bs') r.
Proof.
  unfold covers. intros Hl Hc. revert bs Hl. induction Hc as [|b e bs' r Hb Hc IH]; intros [|b' bs] Hl; try done; simpl; constructor.
  - intros env z Hus He Hz. apply within_merge. right. by eapply Hb.
  - apply IH. by injection Hl.
Qed.

(** Merging the bounds of regions of the same rank. *)
Lemma merge_regions_spec us n rk regions seen results results' :
  (∀ r, Some r ∈ regions → length r = rk) →
  match dict_find n results with None => seen = [] | Some bs => length bs = rk ∧ Forall (covers us bs) seen end →
  mfold (merge_region us n) results regions = Ok results' →
  (∀ k, k ≠ n → dict_find k results' = dict_find k results) ∧
  (∀ r, Some r ∈ regions ∨ r ∈ seen → ∃ bs, dict_find n results' = Some bs ∧ covers us bs r) ∧
  (∀ x, x ∈ regions → is_Some x).
Proof.
  revert seen results. induction regions as [|x regions IH]; intros seen results Hrk Hinv E; cbn [mfold] in E.
  { injection E as <-. split_and!; [done| |by intros ? ?%elem_of_nil]. intros r [?%elem_of_nil|Hr]; [done|].
    destruct (dict_find n results) as [bs|]; [|by subst; apply elem_of_nil in Hr]. exists bs. split; [done|].
    destruct Hinv as [_ Hall]. rewrite Forall_forall in Hall. auto. }
  apply bind_Ok in E as (results1 & E1 & E2). unfold merge_region, some_region in E1. destruct x as [r|]; [|done].
  cbn [or_raise mbind res_bind] in E1. injection E1 as <-.
  assert (length r = rk) as Hr by (apply Hrk; by left).
  apply (IH (r :: seen)) in E2 as (Hoth & Hcov & Hall).
  - split_and!.
    + intros k Hk. by rewrite Hoth, dict_find_set, decide_False.
    + intros r' [[[= ->]|Hin]%elem_of_cons|Hin]; apply Hcov; [right; by left|by left|right; by right].
    + intros x [-> |Hin]%elem_of_cons; [by eexists|auto].
  - intros r' Hin. apply Hrk. by right.
  - rewrite dict_find_set, decide_True by done. destruct (dict_find n results) as [old|].
    + destruct Hinv as [Hl Hseen]. rewrite length_zip_with, length_fmap. split; [lia|]. constructor.
      * apply covers_merge_r; [rewrite length_fmap; congruence|apply covers_bound].
      * eapply Forall_impl; [exact Hseen|]. intros r'. apply covers_merge_l. rewrite length_fmap. congruence.
    + subst seen. rewrite length_fmap. split; [done|]. constructor; [apply covers_bound|constructor].
Qed.

(** Regions that were not replaced are those of the buffer. *)
Lemma bind_intermediate_same m nodes regions b regions' b' :
  bind_intermediate m nodes regions b = Ok (regions', b') → (b = true → b' = true) ∧ (b' = false → regions' = regions).
Proof.
  revert regions b. induction nodes as [|x nodes IH]; intros regions b E; simpl in E; [by injection E as <- <-|].
  apply bind_Ok in E as (iters & _ & E). destruct (_ || _); [by apply IH|].
  apply bind_Ok in E as (i & _ & E). apply bind_Ok in E as (i' & _ & E). apply bind_Ok in E as (r & _ & E). apply bind_Ok in E as (r' & _ & E).
  destruct (negb _); [by injection E as <- <-|]. apply IH in E as [Ht Hf]. split; [auto|]. intros ->. by specialize (Ht eq_refl).
Qed.

Lemma merge_other us n regions results results' k :
  mfold (merge_region us n) results regions = Ok results' → k ≠ n → dict_find k results' = dict_find k results.
Proof.
  intros E Hk. eapply (mfold_inv (λ d, dict_find k d = dict_find k results)) in E; [exact E|done|].
  intros d x d' Hd _ E'. unfold merge_region in E'. apply bind_Ok in E' as (r & _ & [= <-]). by rewrite dict_find_set, decide_False.
Qed.

Lemma infer_name_spec g m cts us ts results bind n regions results' bind' rk :
  infer_name g m cts us ts (results, bind) (n, regions) = Ok (results', bind') →
  dict_find n results = None → (∀ r, Some r ∈ regions → length r = rk) →
  (∀ k, k ≠ n → dict_find k results' = dict_find k results) ∧ (∀ k, k ∈ bind.*1 → k ∈ bind'.*1) ∧
  (n ∉ bind'.*1 → ∀ bs, dict_find n results' = Some bs → ∀ r, Some r ∈ regions → covers us bs r).
Proof.
  intros E Hn Hrk. unfold infer_name in E. destruct (match ts with Some _ => _ | None => _ end).
  { injection E as <- <-. split_and!; [done|done|]. intros _ bs Hbs. congruence. }
  assert (∀ results', mfold (merge_region us n) results regions = Ok results' →
    ∀ bs, dict_find n results' = Some bs → ∀ r, Some r ∈ regions → covers us bs r) as Hmerge.
  { intros res0 Em bs Hbs r Hr. apply (merge_regions_spec us n rk regions []) in Em as (_ & Hc & _); [|done|by rewrite Hn].
    destruct (Hc r) as (bs' & Hbs' & ?); [by left|]. congruence. }
  assert (∀ res0, (res1 ← mfold (merge_region us n) results regions; Ok (res1, bind)) = Ok (res0, bind') →
    (∀ k, k ≠ n → dict_find k res0 = dict_find k results) ∧ (∀ k, k ∈ bind.*1 → k ∈ bind'.*1) ∧
    (n ∉ bind'.*1 → ∀ bs, dict_find n res0 = Some bs → ∀ r, Some r ∈ regions → covers us bs r)) as Hplain.
  { intros res0 E0. apply bind_Ok in E0 as (res1 & Em & [= <- <-]). split_and!; [intros; by eapply merge_other|done|]. intros _. by apply Hmerge. }
  destruct cts as [|ct [|]]; [by apply Hplain| |by apply Hplain]. clear Hplain.
  apply bind_Ok in E as (path & _ & E). apply bind_Ok in E as ([regions' b] & Eb & E). apply bind_Ok in E as (res1 & Em & [= <- <-]).
  split_and!.
  - intros k Hk. by eapply merge_other.
  - intros k Hk. destruct b; [|done]. rewrite dict_set_keys. destruct (decide (n ∈ bind.*1)); [done|set_solver].
  - intros Hnb bs Hbs. destruct b.
    { destruct Hnb. apply dict_find_key. rewrite dict_find_set, decide_True by done. by eexists. }
    assert (regions' = regions) as -> by (case_bool_decide; [by apply bind_intermediate_same in Eb as [_ ->]|by injection Eb as <-]).
    by apply (Hmerge res1).
Qed.

Lemma infer_names_spec g m cts us ts items results bind results' bind' (rk : string → nat) :
  NoDup items.*1 → (∀ n, n ∈ items.*1 → dict_find n results = None) →
  (∀ n regions r, (n, regions) ∈ items → Some r ∈ regions → length r = rk n) →
  mfold (infer_name g m cts us ts) (results, bind) items = Ok (results', bind') →
  (∀ n, n ∉ items.*1 → dict_find n results' = dict_find n results) ∧ (∀ k, k ∈ bind.*1 → k ∈ bind'.*1) ∧
  (∀ n regions bs r, (n, regions) ∈ items → n ∉ bind'.*1 → dict_find n results' = Some bs → Some r ∈ regions → covers us bs r).
Proof.
  revert results bind. induction items as [|[n regions] items IH]; intros results bind Hnd Hnone Hrk E; cbn [mfold] in E.
  { injection E as <- <-. split_and!; [done|done|by intros ???? ?%elem_of_nil]. }
  apply bind_Ok in E as ([res1 bind1] & E1 & E2). csimpl in Hnd. apply NoDup_cons in Hnd as [Hn Hnd].
  apply (infer_name_spec _ _ _ _ _ _ _ _ _ _ _ (rk n)) in E1 as (Hoth1 & Hb1 & Hc1);
    [|apply Hnone; by left|intros r Hr; eapply Hrk; [by left|done]].
  apply IH in E2 as (Hoth2 & Hb2 & Hc2); [|done| |].
  - split_and!.
    + intros k Hk. csimpl in Hk. apply not_elem_of_cons in Hk as [? ?]. by rewrite Hoth2, Hoth1.
    + auto.
    + intros k regs bs r [[= -> ->]|Hin]%elem_of_cons Hnb Hbs Hr; [|by eapply Hc2].
      rewrite Hoth2 in Hbs by done. eapply Hc1; [|done|done]. intros Hnb1. by apply Hnb, Hb2.
  - intros k Hk. rewrite Hoth1; [apply Hnone; by right|]. intros ->. done.
  - intros k regs r Hin. apply Hrk. by right.
Qed.

(** ** The theorem *)

Lemma updates_declared deps rank vs shape rstep v b :
  deps_ok deps rank → Forall2 (λ t v, ∃ dep, dep ∈ deps ∧ dep_name dep = t ∧ v = axis_vars dep) shape.*1 vs →
  (v, b) ∈ updates deps vs shape.*2 rstep → declared v.
Proof.
  intros Hok Hvs [Hin|(a & [= -> ->] & Hin)%list_elem_of_fmap]%elem_of_app.
  - apply list_elem_of_In, in_concat in Hin as (l & Hl & Hin). apply list_elem_of_In in Hl, Hin.
    apply list_elem_of_fmap in Hl as ([vars bs] & -> & (k & Hk)%list_elem_of_lookup). apply lookup_zip_Some in Hk as [Hv _].
    destruct (Forall2_lookup_r _ _ _ k vars Hvs Hv) as (t & _ & dep & Hd & _ & ->). apply (ok_axes _ _ Hok dep Hd).
    by apply elem_of_zip_l in Hin.
  - apply list_elem_of_In, in_concat in Hin as (l & Hl & Hin). apply list_elem_of_In in Hl, Hin.
    apply list_elem_of_fmap in Hl as (dep & -> & Hd). by eapply (ok_reduce _ _ Hok).
Qed.

Lemma construct_nodup deps targets vs m : construct_dependency_target deps targets = Ok (vs, m) → NoDup m.*1.
Proof.
  unfold construct_dependency_target. intros E. apply bind_Ok in E as ([vs0 m0] & E0 & E). apply bind_Ok in E as (m1 & E1 & E). apply bind_Ok in E as (m2 & E2 & [= <- <-]).
  eapply (mfold_inv (λ m : mapping, NoDup m.*1)); [| |exact E2].
  - eapply (mfold_inv (λ m : mapping, NoDup m.*1)); [| |exact E1].
    + change (NoDup (vs0, m0).2.*1). eapply (mfold_inv (λ vm : list (list var) * mapping, NoDup vm.2.*1)); [| |exact E0]; [apply NoDup_nil_2|].
      intros [vs m] t [vs' m'] Hm _ E. cbn [add_target] in E. apply bind_Ok in E as (dep & _ & [= <- <-]). by apply dict_set_nodup.
    + intros m dep m' Hm _ E. eapply (mfold_inv (λ m : mapping, NoDup m.*1)); [exact Hm| |exact E].
      intros ma n mb Ha _ Eb. unfold forward_input in Eb. destruct (dict_find n ma); [|by injection Eb as <-].
      apply bind_Ok in Eb as (i & _ & Eb). apply bind_Ok in Eb as (out & _ & Eb). case_decide; [by injection Eb as <-|].
      destruct (dict_find (dep_name dep) ma); [|injection Eb as <-; by apply dict_set_nodup].
      apply bind_Ok in Eb as (e & _ & [= <-]). destruct e; [done|by apply dict_set_nodup].
  - intros m dep m' Hm _ E. unfold backward in E. apply bind_Ok in E as (ils & _ & E).
    eapply (mfold_inv (λ m : mapping, NoDup m.*1)); [exact Hm| |exact E].
    intros ma [n regions] mb Ha _ Eb. unfold backward_input in Eb. case_decide; [by injection Eb as <-|].
    apply bind_Ok in Eb as (l & _ & [= <-]). by apply dict_set_nodup.
Qed.

(** C3: under four conditions the shape inferred for a buffer covers what a tile needs
    of it.  The conditions are: the statements come in program order with variables and
    outputs of their own, and the loads of a buffer have their constant zeros in the
    same dimensions ([deps_ok]); an inverse index map that is used determines the axes
    it gives ([reversible]); every buffer reached from the targets is reached by one
    analysable region ([regular]); and the buffer is not bound to an intermediate.
    Then there is an origin such that every element any point of the tile needs - of
    the outputs that are made of the tile, and of every buffer that is loaded on the
    way, also through indices that cannot be analysed - lies within the inferred shape
    from that origin.  Without them it is false: a buffer bound to an intermediate
    that transposes it ([transposed_tile]) and loads with different constant zeros
    ([columns_lost]) get too small a shape. *)
Theorem infer_covers I shape rstep ts rank shapes bind :
  deps_ok (deps I) rank → reversible (deps I) →
  (∀ m, reached (deps I) shape.*1 = Ok m → regular m) →
  infer I shape rstep ts = Ok (shapes, bind) →
  ∀ n sizes, dict_find n shapes = Some sizes → n ∉ bind.*1 →
  ∃ origin, length origin = length sizes ∧
    ∀ env idx, point_of (deps I) shape rstep env → needed (deps I) shape.*1 env n idx → Forall in64 idx →
      Forall2 (λ x os, os.1 ≤ x < os.1 + os.2) idx (zip origin sizes).
Proof.
  intros Hok Hrev Hregular E n sizes Hsizes Hnb. unfold infer in E. apply bind_Ok in E as ([vs m2] & Ec & E).
  apply bind_Ok in E as ([results bind'] & Er & [= <- <-]). pose proof (construct_nodup _ _ _ _ Ec) as Hnd2.
  unfold construct_dependency_target in Ec. apply bind_Ok in Ec as ([vs0 m0] & E0 & Ec). apply bind_Ok in Ec as (m1 & E1 & Ec).
  apply bind_Ok in Ec as (m2' & E2 & [= -> ->]).
  assert (regular m1) as Hreg1 by (apply Hregular; unfold reached; rewrite E0; exact E1).
  destruct (add_target_spec _ _ _ _ _ _ (ok_names _ _ Hok) E0) as (Hfrom & Hkeys & vs' & -> & Hvs).
  assert (∀ k l, dict_find k m0 = Some l → ∃ dep, dep ∈ deps I ∧ dep_name dep = k ∧ k ∈ shape.*1 ∧ l = [Some (IVar <$> axis_vars dep)]) as Hm0
    by (intros k l Hk; by destruct (Hfrom k l Hk)).
  assert (∀ dep, dep ∈ deps I → dep_name dep ∈ shape.*1 → is_Some (dict_find (dep_name dep) m0)) as Htg
    by (intros dep _ Hk; apply Hkeys; by right).
  assert (∃ bs, dict_find n results = Some bs ∧ sizes = (λ c, max_value c - min_value c + 1) <$> bs) as (bs & Hbs & ->).
  { unfold extents in Hsizes. clear -Hsizes. induction results as [|[k bs] results IH]; [done|]. csimpl in Hsizes. simpl.
    case_decide; [|auto]. injection Hsizes as <-. eauto. }
  apply (infer_names_spec _ _ _ _ _ m2 _ _ _ _ rank) in Er as (Hno & _ & Hcov); [|done|done|].
  2: { intros k regs r Hin Hr. eapply (backward_rank (deps I) shape.*1 rank Hok m0 m1 Hm0 E1 Hreg1 Htg Hrev m2 E2); [by apply dict_find_nodup|done]. }
  exists (min_value <$> bs). split; [by rewrite !length_fmap|]. intros env idx Hpt Hneed H64.
  destruct (needed_covered (deps I) shape.*1 rank Hok m0 m1 Hm0 E1 Hreg1 Htg Hrev m2 E2 env n idx Hneed) as (l & r & env' & Hl & Hr & Hag & Hev).
  pose proof (Hcov n l bs r (dict_find_in _ _ _ Hl) Hnb Hbs Hr) as Hc.
  assert (∀ v b, (v, b) ∈ updates (deps I) vs' shape.*2 rstep → within b (env' v)) as Hus.
  { intros v b Hin. pose proof (point_updates _ _ _ _ env v b (ok_names _ _ Hok) Hvs Hpt Hin) as Hw. rewrite Hag; [done|].
    by eapply updates_declared. }
  unfold covers in Hc. clear -Hc Hev Hus H64. revert idx Hev H64. induction Hc as [|b e bs r Hb Hc IH]; intros idx Hev H64.
  - inversion Hev; subst. constructor.
  - inversion Hev as [|? x ? idx' He Hev']; subst. apply Forall_cons in H64 as [Hx H64]. csimpl. constructor; [|by apply IH].
    simpl. specialize (Hb env' x Hus He Hx). unfold within in Hb. lia.
Qed.
End infer_covers.

(** ** Examples *)

Module ShapeCoverEx.

(** Interval arithmetic, and affine maps that only name axes. *)
Fixpoint interval (us : list (var * ConstIntBound)) (e : iexpr) : option (Z * Z) :=
  match e with
  | IVar v => (λ b, (min_value b, max_value b)) <$> dict_find v us
  | IImm _ z => Some (z, z)
  | IBin OpAdd a b => '(l, h) ← interval us a; '(l', h') ← interval us b; Some (l + l', h + h')
  | IBin OpSub a b => '(l, h) ← interval us a; '(l', h') ← interval us b; Some (l - h', h - l')
  | IBin OpMul a (IImm _ n) => '(l, h) ← interval us a; if 0 <=? n then Some (l * n, h * n) else None
  | IBin OpFloorDiv a (IImm _ n) => '(l, h) ← interval us a; if 0 <? n then Some (l / n, h / n) else None
  | IBin OpFloorMod a (IImm _ n) => if 0 <? n then Some (0, n - 1) else None
  | ICast _ a => interval us a
  | _ => None
  end.

Lemma interval_sound us env e l h z :
  (∀ v b, (v, b) ∈ us → within b (env v)) → interval us e = Some (l, h) → eval env e = Some z → l ≤ z ≤ h.
Proof.
  intros Hus. revert l h z. induction e as [v|d x|op a IHa b IHb|d a IHa|k t]; simpl; intros l h z Hi He; [| | |by eapply IHa|done].
  - destruct (dict_find v us) as [b|] eqn:E; [|done]. simplify_eq/=. apply (Hus v b). by apply dict_find_in.
  - simplify_eq. lia.
  - destruct (eval env a) as [x|] eqn:Ea; [|done]. simpl in He. destruct (eval env b) as [y|] eqn:Eb; [|done]. simpl in He.
    destruct op; try done; simpl in He.
    + destruct (interval us a) as [[l1 h1]|]; [|done]. simpl in Hi. destruct (interval us b) as [[l2 h2]|]; [|done]. simplify_eq/=.
      specialize (IHa _ _ _ eq_refl eq_refl). specialize (IHb _ _ _ eq_refl eq_refl). lia.
    + destruct (interval us a) as [[l1 h1]|]; [|done]. simpl in Hi. destruct (interval us b) as [[l2 h2]|]; [|done]. simplify_eq/=.
      specialize (IHa _ _ _ eq_refl eq_refl). specialize (IHb _ _ _ eq_refl eq_refl). lia.
    + destruct b as [|d n| | |]; try done. simpl in Eb. destruct (interval us a) as [[l1 h1]|]; [|done]. simpl in Hi.
      destruct (Z.leb_spec 0 n); simplify_eq/=. specialize (IHa _ _ _ eq_refl eq_refl). nia.
    + destruct b as [|d n| | |]; try done. simpl in Eb. destruct (interval us a) as [[l1 h1]|]; [|done]. simpl in Hi.
      destruct (Z.ltb_spec 0 n); simplify_eq/=. specialize (IHa _ _ _ eq_refl eq_refl). destruct (Z.eqb_spec y 0); [done|]. simplify_eq.
      split; apply Z.div_le_mono; lia.
    + destruct b as [|d n| | |]; try done. simpl in Eb. destruct (Z.ltb_spec 0 n); simplify_eq/=. destruct (Z.eqb_spec y 0); [done|]. simplify_eq.
      pose proof (Z.mod_pos_bound x y). lia.
Qed.

Definition as_var (e : iexpr) : option var := match e with IVar v => Some v | _ => None end.

#[export] Instance arith_ex : Arith := {|
  iter_map := list var;
  detect_iter_map := λ indices axes, mapM as_var indices;
  inverse_affine_iter_map := λ m iters, Ok (dict_of (zip m iters));
  simplify := λ _ e, e;
  const_int_bound := λ us e, match interval us e with Some (l, h) => Bound l h | None => Bound (1 - 2 ^ 63) (2 ^ 63 - 1) end;
|}.

Lemma dict_of_in {K V} `{EqDecision K} (l : list (K * V)) k v : dict_find k (dict_of l) = Some v → (k, v) ∈ l.
Proof.
  induction l as [|[k0 v0] l IH] using rev_ind; [done|]. rewrite dict_of_snoc, dict_find_set. simpl. case_decide; [intros [= ->]; subst|]; set_solver.
Qed.

(** An axis that is named has the value of its index. *)
Lemma named_axis indices (m : list var) a idx k v :
  mapM as_var indices = Some m → evals a indices idx → m !! k = Some v → idx !! k = Some (a v).
Proof.
  intros Hm%mapM_Some Hev Hk. destruct (Forall2_lookup_r _ _ _ k v Hm Hk) as (e & He & Ev). destruct e; simplify_eq/=.
  destruct (Forall2_lookup_l _ _ _ k _ Hev He) as (x & Hx & Exx). by simplify_eq/=.
Qed.

#[export] Instance arith_laws_ex : ArithLaws.
Proof.
  split; simpl.
  - done.
  - done.
  - intros us env e z Hus He Hz. destruct (interval us e) as [[l h]|] eqn:E; [by eapply interval_sound|]. unfold within, in64 in *. simpl. lia.
  - intros indices axes m iters results a env idx v e Hm [= <-] _ Hev Hit Hv _.
    apply dict_of_in, list_elem_of_lookup in Hv as (k & [Hk He]%lookup_zip_Some). pose proof (named_axis _ _ _ _ _ _ Hm Hev Hk) as Hx.
    destruct (Forall2_lookup_l _ _ _ k e Hit He) as (x & Hx' & ->). congruence.
  - intros m iters results v e w [= <-] Hv Hw. apply dict_of_in, elem_of_zip_r in Hv. apply region_vars_elem. by exists e.
Qed.

(** [C[i, j] += A[i, k] * B[k, f(j)]], then [D[i, j] = C[i, j] + bias[j]]. *)
Definition ax (n : nat) (s : string) (extent : Z) : Axis := MkAxis (MkVar (Declared n) s "int32") 0 extent.
Definition v (a : Axis) : iexpr := IVar (ax_var a).
Definition i1 := ax 0 "i" 64.
Definition j1 := ax 1 "j" 32.
Definition k1 := ax 2 "k" 128.
Definition i2 := ax 3 "i" 64.
Definition j2 := ax 4 "j" 32.

Definition A := MkBuffer "A" [64; 128] 16.
Definition B := MkBuffer "B" [128; 256] 16.
Definition C := MkBuffer "C" [64; 32] 32.
Definition bias := MkBuffer "bias" [32] 32.
Definition D := MkBuffer "D" [64; 32] 32.

Definition product : Block := MkBlock 0 [C] [A; B] [i1; j1] [k1]
  [MkLoad C [v i1; v j1]; MkLoad A [v i1; v k1]; MkLoad B [v k1; INode NCall "f(j)"]].
Definition epilogue : Block := MkBlock 1 [D] [C; bias] [i2; j2] [] [MkLoad C [v i2; v j2]; MkLoad bias [v j2]].

Definition stmt_of (b : Block) : Statement :=
  match Statement_init b with Ok s => s | Raise _ => MkStatement b "" [] end.
Definition analyzer (bs : list Block) : InputShapeInference :=
  match get_analyzer_by_tir bs with Ok a => a | Raise _ => MkInference [] ∅ end.

Definition I1 : InputShapeInference := analyzer [product; epilogue].
Definition tile (m n : Z) : list (string * list ConstIntBound) := [("C"%string, [Bound 0 (m - 1); Bound 0 (n - 1)])].
Definition steps : list (string * Z) := [("k"%string, 16)].

Lemma I1_deps : deps I1 = [stmt_of product; stmt_of epilogue].
Proof. vm_compute. reflexivity. Qed.

Lemma any_reversible ds : reversible ds.
Proof.
  intros dep n indices m iters results w e _ _ Hm [= <-] Hw a a' idx _ _ Ha Ha'.
  apply dict_of_in, list_elem_of_lookup in Hw as (k & [Hk _]%lookup_zip_Some).
  pose proof (named_axis _ _ _ _ _ _ Hm Ha Hk). pose proof (named_axis _ _ _ _ _ _ Hm Ha' Hk). congruence.
Qed.

(** Goes through the elements of a list that is given. *)
Ltac each Hin := repeat (apply elem_of_cons in Hin as [Hin|Hin]; [simplify_eq|]); [..|by apply elem_of_nil in Hin].

Definition rank1 (n : string) : nat := if decide (n = "bias"%string) then 1%nat else 2%nat.

Lemma I1_ok : deps_ok (deps I1) rank1.
Proof.
  rewrite I1_deps. split.
  - intros [|[|]] dep Hi; simplify_eq/=; split; vm_compute; reflexivity.
  - apply (bool_decide_unpack _). vm_compute. exact Logic.I.
  - intros dep k load Hd Hk. each Hd.
    + destruct k as [|[|[|]]]; simplify_eq/=; split.
      all: try (intros e d w Hin Hw; each Hin; simplify_eq; simpl in Hw; each Hw; done).
      all: intros r; vm_compute; by intros [= <-].
    + destruct k as [|[|]]; simplify_eq/=; split.
      all: try (intros e d w Hin Hw; each Hin; simplify_eq; simpl in Hw; each Hw; done).
      all: intros r; vm_compute; by intros [= <-].
  - intros dep Hd. each Hd.
    all: split; [apply (bool_decide_unpack _); vm_compute; exact Logic.I|split; [|reflexivity]].
    all: intros w Hw; simpl in Hw; each Hw; done.
  - intros dep a Hd Ha. each Hd; simpl in Ha; each Ha; done.
  - intros [|[|]] [|[|]] di dj Hi Hj Hin; simplify_eq/=; try lia.
    all: exfalso; simpl in Hin; each Hin; done.
Qed.

Definition shapes1 : list (string * list Z) :=
  [("C", [4; 8]); ("D", [4; 8]); ("bias", [8]); ("A", [4; 16]); ("B", [16; 256])]%string.

Lemma infer_covers_witness :
  infer I1 (tile 4 8) steps None = Ok (shapes1, []) ∧
  ∀ n sizes, (n, sizes) ∈ shapes1 → ∃ origin, length origin = length sizes ∧
    ∀ env idx, point_of (deps I1) (tile 4 8) steps env → needed (deps I1) ["C"%string] env n idx → Forall in64 idx →
      Forall2 (λ x os, os.1 ≤ x < os.1 + os.2) idx (zip origin sizes).
Proof.
  assert (infer I1 (tile 4 8) steps None = Ok (shapes1, [])) as E by (vm_compute; reflexivity).
  split; [exact E|]. intros n sizes Hin.
  apply (infer_covers I1 (tile 4 8) steps None rank1 shapes1 [] I1_ok (any_reversible _)); [|exact E| |intros Hb; by apply elem_of_nil in Hb].
  - intros m Hm. vm_compute in Hm. injection Hm as <-. intros k l Hk. simpl in Hk. repeat (case_decide; [injection Hk as <-; eexists; reflexivity|]). discriminate Hk.
  - apply dict_find_nodup; [|exact Hin]. apply (bool_decide_unpack _). vm_compute. exact Logic.I.
Defined.

(** A point of the tile needs elements of the bias. *)
Lemma bias_needed : needed (deps I1) ["C"%string] (λ _, 3) "bias" [3].
Proof.
  rewrite I1_deps. apply (needed_load _ _ _ (stmt_of epilogue) [3; 3] 1 (MkLoad bias [v j2])); [by right; left| |done|done|by right; left|by intros [? | ?%elem_of_nil]%elem_of_cons|by vm_compute].
  apply needed_produced. apply (produced_reader _ _ _ (stmt_of epilogue) "C" [v i2; v j2] [3; 3]); [by right; left|by intros [? | ?%elem_of_nil]%elem_of_cons|done|done| |done| |].
  - exact (produced_target _ ["C"%string] (λ _, 3) (stmt_of product) ltac:(by left) ltac:(by left)).
  - intros a Ha. simpl in Ha. each Ha; vm_compute; done.
  - repeat constructor.
Qed.

(** [C[i] += T[i, k]] with [T[p, q] = A[q, p]]: the tile of [T] is reported for [A]. *)
Definition p1 := ax 5 "p" 64.
Definition q1 := ax 6 "q" 128.
Definition T := MkBuffer "T" [64; 128] 16.
Definition A' := MkBuffer "A" [128; 64] 16.
Definition C' := MkBuffer "C" [64] 32.
Definition transpose : Block := MkBlock 0 [T] [A'] [p1; q1] [] [MkLoad A' [v q1; v p1]].
Definition row_sum : Block := MkBlock 1 [C'] [T] [i1] [k1] [MkLoad T [v i1; v k1]].
Definition I2 : InputShapeInference := analyzer [transpose; row_sum].

Lemma I2_deps : deps I2 = [stmt_of transpose; stmt_of row_sum].
Proof. vm_compute. reflexivity. Qed.

Lemma transposed_tile :
  (∃ shapes, infer I2 [("C"%string, [Bound 0 3])] steps None = Ok (shapes, [("A", "C")]%string) ∧ dict_find "A"%string shapes = Some [4; 16]) ∧
  ∀ x y, 0 ≤ x < 4 → 0 ≤ y < 16 → ∃ env, point_of (deps I2) [("C"%string, [Bound 0 3])] steps env ∧ needed (deps I2) ["C"%string] env "A" [y; x].
Proof.
  split; [eexists; split; vm_compute; reflexivity|]. intros x y Hx Hy.
  exists (λ w, if decide (w = ax_var i1) then x else if decide (w = ax_var k1) then y else 0). rewrite I2_deps. split.
  - split.
    + intros t bs dep w b Hin Hd Ht Hw. each Hin. each Hd; try done. simpl in Hw. each Hw. unfold within. simpl. lia.
    + intros a Ha. simpl in Ha. each Ha. unfold within. simpl. lia.
  - apply (needed_load _ _ _ (stmt_of transpose) [x; y] 0 (MkLoad A' [v q1; v p1])); [by left| |done|done|by left|by intros [? | ?%elem_of_nil]%elem_of_cons|by vm_compute].
    apply (needed_load _ _ _ (stmt_of row_sum) [x] 0 (MkLoad T [v i1; v k1])); [by right; left| |done|done|by left|by intros [? | ?%elem_of_nil]%elem_of_cons|by vm_compute].
    apply needed_produced. set (env := λ w, _).
    exact (produced_target _ ["C"%string] env (stmt_of row_sum) ltac:(by right; left) ltac:(by left)).
Qed.

(** [C[i, j] = A[i, 0] + A[i, j]]: the second load is taken for the first. *)
Definition first_column : Block := MkBlock 0 [C] [A] [i1; j1] [] [MkLoad A [v i1; IImm "int32" 0]; MkLoad A [v i1; v j1]].

Lemma columns_lost : dependent_region (stmt_of first_column) = [("A"%string, [[v i1]])].
Proof. vm_compute. reflexivity. Qed.

(** An index that is itself loaded is not followed but raises. *)
Definition gather : Block := MkBlock 0 [C] [A] [i1; j1] [] [MkLoad A [INode NOther "rows[i]"; v j1]].

Lemma gather_raises : get_analyzer_by_tir [gather] = Raise Exception.
Proof. vm_compute. reflexivity. Qed.
End ShapeCoverEx.
