(* ===== verification/ShapeTotal.v ===== *)
(** * The shape inference answers

    For statements that are connected to the scheduled one, the inference of
    [ShapeInfer] returns a positive shape for every buffer: it is an analyzer of the
    kind the roller policies are verified against ([RollerTotal.infer_ok]). *)
From stdpp Require Import base strings gmap numbers relations list.
From S2P Require Import Prelude Tir RollerPolicy RollerHints RollerTotal ShapeInfer ShapeCover.
#[local] Open Scope Z_scope.
Set Default Proof Using "Type*".

(** ** Unique names *)

Lemma numbered_inj base i j : base +:+ "_" +:+ str_of_Z i = base +:+ "_" +:+ str_of_Z j → i = j.
Proof. intros E. induction base as [|c base IH]; [|by injection E as E%IH]. injection E as E. by apply str_of_Z_inj. Qed.

Lemma free_name_none fuel base i names :
  free_name fuel base i names = None → ∀ j, (j < fuel)%nat → base +:+ "_" +:+ str_of_Z (i + Z.of_nat j) ∈ names.
Proof.
  revert i. induction fuel as [|fuel IH]; intros i E j Hj; [lia|]. simpl in E. case_decide as Hin; [|done].
  destruct j as [|j]; [by rewrite Z.add_0_r|]. replace (i + Z.of_nat (S j)) with (i + 1 + Z.of_nat j) by lia. apply IH; [done|lia].
Qed.

Lemma free_name_fresh fuel base i names n : free_name fuel base i names = Some n → n ∉ names.
Proof. revert i. induction fuel as [|fuel IH]; intros i E; [done|]. simpl in E. case_decide; [by eapply IH|by injection E as <-]. Qed.

(** Among one more candidates than names there is a free one. *)
Lemma unique_name_spec base names : ∃ n, unique_name base names = Some n ∧ n ∉ names.
Proof.
  unfold unique_name. case_decide as Hb; [|by eexists]. destruct (free_name (S (size names)) base 1 names) as [n|] eqn:E.
  { exists n. split; [done|]. by eapply free_name_fresh. }
  pose proof (free_name_none _ _ _ _ E) as Hall. set (c := (λ j : nat, base +:+ "_" +:+ str_of_Z (1 + Z.of_nat j)) <$> seq 0 (S (size names))).
  assert (NoDup c) as Hnd by (apply NoDup_fmap_2_strong; [|apply NoDup_seq]; intros j k _ _ Ejk%numbered_inj; lia).
  assert (list_to_set c ⊆@{gset string} names) as Hsub.
  { intros x Hx. apply elem_of_list_to_set, list_elem_of_fmap in Hx as (j & -> & Hj). apply Hall. apply elem_of_seq in Hj. lia. }
  apply subseteq_size in Hsub. rewrite size_list_to_set in Hsub by done. unfold c in Hsub. rewrite length_fmap, length_seq in Hsub. lia.
Qed.

Lemma name2dep_spec deps : ∃ d, _construct_unique_name2dep deps = Some d ∧ d.*2 = deps ∧ NoDup d.*1.
Proof.
  unfold _construct_unique_name2dep.
  set (f := λ (acc : option (gset string * dict string Statement)) (dep : Statement), _).
  assert (∃ names d, foldl f (Some (∅, [])) deps = Some (names, d) ∧ d.*2 = deps ∧ NoDup d.*1 ∧ ∀ n, n ∈ d.*1 → n ∈ names)
    as (names & d & -> & ? & ? & _); [|by exists d].
  induction deps as [|dep deps (names & d & IH & Hv & Hnd & Hn)] using rev_ind.
  { exists ∅, []. split_and!; [done|done|apply NoDup_nil_2|by intros ? ?%elem_of_nil]. }
  rewrite foldl_app, IH. simpl. destruct (unique_name_spec (dep_name dep) names) as (n & -> & Hfresh). simpl.
  assert (n ∉ d.*1) as Hnd1 by auto. exists ({[n]} ∪ names), (dict_set n dep d). split; [done|].
  assert (dict_set n dep d = d ++ [(n, dep)]) as ->.
  { clear -Hnd1. induction d as [|[k v] d IHd]; [done|]. csimpl in Hnd1. apply not_elem_of_cons in Hnd1 as [? ?]. simpl.
    by rewrite decide_False, IHd. }
  rewrite !fmap_app. simpl. rewrite Hv. split_and!; [done| |set_solver].
  apply NoDup_app. split_and!; [done|set_solver|apply NoDup_singleton].
Qed.

(** ** The graph of the statements *)

Lemma elem_of_deduplicate x l : x ∈ deduplicate l ↔ x ∈ l.
Proof.
  unfold deduplicate. induction l as [|y l IH] using rev_ind; [done|]. rewrite foldl_app. simpl. case_decide; set_solver.
Qed.

Lemma edge_insert (g : dep_graph) a x n m :
  edge (<[a := x]> g) n m ↔ if decide (n = a) then m ∈ _next x else edge g n m.
Proof.
  unfold edge, dep_node. case_decide as E; [subst; by rewrite (lookup_insert_eq (g : gmap string TensorDepNode))|].
  by rewrite (lookup_insert_ne (g : gmap string TensorDepNode)).
Qed.

Lemma node_insert_some (g : dep_graph) a x n : is_Some (<[a := x]> g !! n) ↔ n = a ∨ is_Some (g !! n).
Proof. rewrite (lookup_insert_is_Some' (g : gmap string TensorDepNode)). naive_solver. Qed.

Lemma get_or_create_spec a g :
  (∀ n m, edge (get_or_create_node a g) n m ↔ edge g n m) ∧ ∀ n, is_Some (get_or_create_node a g !! n) ↔ n = a ∨ is_Some (g !! n).
Proof.
  unfold get_or_create_node. destruct (g !! a) eqn:E.
  - split; [done|]. intros n. split; [auto|]. intros [-> |?]; [by eexists|done].
  - split; [|apply node_insert_some]. intros n m. rewrite edge_insert. case_decide; [|done]. subst. unfold edge, dep_node. by rewrite E.
Qed.

Lemma traverse_spec g s :
  (∀ n m, edge (traverse_dependencies g s) n m ↔ edge g n m ∨ (m = dep_name s ∧ n ∈ name <$> in_buffers (block s))) ∧
  (∀ n, is_Some (traverse_dependencies g s !! n) ↔ is_Some (g !! n) ∨ n = dep_name s ∨ n ∈ name <$> in_buffers (block s)).
Proof.
  unfold traverse_dependencies. induction (in_buffers (block s)) as [|b bs IH] using rev_ind.
  { simpl. destruct (get_or_create_spec (dep_name s) g) as [He Hn]. split; [intros n m; rewrite He|intros n; rewrite Hn]; set_solver. }
  rewrite foldl_app. cbn [foldl]. set (g1 := foldl _ _ bs) in *. destruct IH as [He Hn].
  destruct (get_or_create_spec (name b) g1) as [He1 Hn1]. set (g2 := get_or_create_node (name b) g1) in *.
  rewrite fmap_app. cbn [fmap list_fmap]. split.
  - intros n m. unfold add_prev. rewrite edge_insert. unfold add_next at 1.
    assert (edge (add_next (name b) (dep_name s) g2) n m ↔ edge g n m ∨ (m = dep_name s ∧ n ∈ (name <$> bs) ++ [name b])) as Hadd.
    { unfold add_next. rewrite edge_insert. case_decide as E.
      - subst. cbn [_next]. rewrite elem_of_deduplicate, elem_of_app, list_elem_of_singleton. fold (edge g2 (name b) m). rewrite He1, He. set_solver.
      - rewrite He1, He. set_solver. }
    case_decide as E; [|exact Hadd]. subst. cbn [_next]. exact Hadd.
  - intros n. unfold add_prev, add_next. rewrite !node_insert_some, Hn1, Hn. set_solver.
Qed.

Lemma analyze_spec (name2dep : dict string Statement) :
  (∀ n m, edge (analyze name2dep) n m ↔ ∃ s, s ∈ name2dep.*2 ∧ m = dep_name s ∧ n ∈ name <$> in_buffers (block s)) ∧
  (∀ n, is_Some (analyze name2dep !! n) ↔ ∃ s, s ∈ name2dep.*2 ∧ (n = dep_name s ∨ n ∈ name <$> in_buffers (block s))).
Proof.
  unfold analyze. induction (name2dep.*2) as [|s l IH] using rev_ind.
  { assert (∀ n, (∅ : dep_graph) !! n = None) as Hempty by (intros n; apply (lookup_empty (M := gmap string))).
    simpl. split; [intros n m; unfold edge, dep_node|intros n]; rewrite Hempty; split.
    - by intros ?%elem_of_nil.
    - by intros (? & ?%elem_of_nil & _).
    - by intros [].
    - by intros (? & ?%elem_of_nil & _). }
  rewrite foldl_app. cbn [foldl]. destruct IH as [He Hn]. destruct (traverse_spec (foldl traverse_dependencies ∅ l) s) as [He1 Hn1]. split.
  - intros n m. rewrite He1, He. setoid_rewrite elem_of_app. setoid_rewrite list_elem_of_singleton. naive_solver.
  - intros n. rewrite Hn1, Hn. setoid_rewrite elem_of_app. setoid_rewrite list_elem_of_singleton. naive_solver.
Qed.

(** ** Every statement is reached *)

Lemma mfold_total_each {A B} (P : B → Prop) (Q : A → B → Prop) (g : B → A → res B) l b :
  P b → (∀ c x, x ∈ l → P c → ∃ c', g c x = Ok c' ∧ P c' ∧ Q x c' ∧ ∀ y, Q y c → Q y c') →
  ∃ b', mfold g b l = Ok b' ∧ P b' ∧ (∀ x, x ∈ l → Q x b') ∧ ∀ y, Q y b → Q y b'.
Proof.
  revert b. induction l as [|x l IH]; intros b Hb Hg; cbn [mfold].
  { exists b. split_and!; [done|done|by intros ? ?%elem_of_nil|done]. }
  destruct (Hg b x) as (c & -> & Hc & Hx & Hm); [by left|done|]. destruct (IH c Hc) as (b' & E & Hb' & Hl & Hm'); [intros; apply Hg; [by right|done]|].
  exists b'. split_and!; [exact E|done| |auto]. intros y [-> |Hy]%elem_of_cons; auto.
Qed.

Section reach.
Context `{Arith} (targets : list string).

(** All regions are known. *)
Definition known (l : list (option region)) : Prop := ∀ x, x ∈ l → is_Some x.
Definition all_known (m : mapping) : Prop := ∀ n l, dict_find n m = Some l → l ≠ [] ∧ known l.

Lemma region_exists_total r l : known l → ∃ b, region_exists (Some r) l = Ok b.
Proof.
  intros Hl. unfold region_exists. destruct l as [|x l]; [by eexists|]. cbn [or_raise mbind res_bind].
  destruct (mmap_total (λ _ _, True) (or_raise TypeError) (x :: l)) as (k & Hk & _); [|rewrite Hk; by eexists].
  intros y Hy. destruct (Hl y Hy) as [z ->]. by exists z.
Qed.

Lemma add_region_total l r : known l → ∃ l', add_region l r = Ok l' ∧ l' ≠ [] ∧ known l'.
Proof.
  intros Hl. unfold add_region. destruct (region_exists_total r l Hl) as [b Hb]. rewrite Hb. destruct b; eexists; (split; [done|]).
  - split; [|done]. by intros ->.
  - split; [by destruct l|]. intros x [?| ->%list_elem_of_singleton]%elem_of_app; [auto|by eexists].
Qed.

Lemma backward_input_total dep ils m n regions :
  all_known m → ils ≠ [] → known ils → regions ≠ [] →
  ∃ m', backward_input targets dep ils m (n, regions) = Ok m' ∧ all_known m' ∧
    (n ∈ targets ∨ is_Some (dict_find n m')) ∧ ∀ k, is_Some (dict_find k m) → is_Some (dict_find k m').
Proof.
  intros Hm Hils Hk Hr. unfold backward_input. case_decide as Ht; [exists m; split_and!; [done|done|by left|done]|].
  set (l0 := default [] (dict_find n m)). assert (known l0) as Hl0.
  { unfold l0. destruct (dict_find n m) as [l|] eqn:E; [by apply Hm in E as [_ ?]|by intros ? ?%elem_of_nil]. }
  destruct ils as [|i0 ils]; [done|].
  destruct (mfold_total_each known (λ _ l, l ≠ []) (λ l (indices : option region), mfold (λ l r, i ← or_raise TypeError indices;
      add_region l (propagate_region (axis_vars dep) i r)) l regions) (i0 :: ils) l0 Hl0) as (l' & El & Hkn & Hne & _).
  { intros l indices Hin Hl. destruct (Hk indices Hin) as [i ->]. cbn [or_raise mbind res_bind]. destruct regions as [|r0 regions]; [done|].
    destruct (mfold_total_each known (λ _ l, l ≠ []) (λ l r, add_region l (propagate_region (axis_vars dep) i r)) (r0 :: regions) l Hl)
      as (l' & El & Hl' & Hne & _).
    - intros l1 r _ Hl1. destruct (add_region_total l1 (propagate_region (axis_vars dep) i r) Hl1) as (l2 & E2 & ? & ?). by exists l2.
    - exists l'. split_and!; [exact El|done|apply (Hne r0); by left|]. intros _ _. apply (Hne r0). by left. }
  rewrite El. cbn [mbind res_bind]. eexists. split; [done|]. split_and!.
  - intros k l. rewrite dict_find_set. case_decide; [|apply Hm]. intros [= <-]. split; [apply (Hne i0); by left|done].
  - right. rewrite dict_find_set, decide_True by done. by eexists.
  - intros k Hk'. rewrite dict_find_set. case_decide; [by eexists|done].
Qed.

Lemma backward_total dep m :
  all_known m → is_Some (dict_find (dep_name dep) m) → (∀ n l, (n, l) ∈ dependent_region dep → l ≠ []) →
  ∃ m', backward targets m dep = Ok m' ∧ all_known m' ∧
    (∀ n, n ∈ (dependent_region dep).*1 → n ∈ targets ∨ is_Some (dict_find n m')) ∧ ∀ k, is_Some (dict_find k m) → is_Some (dict_find k m').
Proof.
  intros Hm [ils Hils] Hl. unfold backward, dict_item. rewrite Hils. cbn [or_raise mbind res_bind]. destruct (Hm _ _ Hils) as [Hne Hk].
  destruct (mfold_total_each (λ m', all_known m' ∧ ∀ k, is_Some (dict_find k m) → is_Some (dict_find k m'))
    (λ (item : string * list region) m', item.1 ∈ targets ∨ is_Some (dict_find item.1 m')) (backward_input targets dep ils) (dependent_region dep) m)
    as (m' & E & [Hm' Hg] & Hall & _); [done| |].
  - intros m1 [n regions] Hin [Hm1 Hg1]. destruct (backward_input_total dep ils m1 n regions) as (m2 & E2 & ? & ? & ?); [done|done|done|by eapply Hl|].
    exists m2. split_and!; [done|done|auto|auto|]. intros [k l'] [?|?]; [by left|right]; auto.
  - exists m'. split_and!; [done|done| |done]. intros n ([n' l] & -> & Hin)%list_elem_of_fmap. apply (Hall _ Hin).
Qed.

Context (deps : list Statement) (rank : string → nat) (Hok : deps_ok deps rank) (m1 : mapping).
Context (Hm1 : all_known m1) (Hloaded : ∀ dep n l, dep ∈ deps → (n, l) ∈ dependent_region dep → l ≠ []).
Context (Hconn : ∀ dep, dep ∈ deps → is_Some (dict_find (dep_name dep) m1) ∨ ∃ dj, dj ∈ deps ∧ dep_name dep ∈ (dependent_region dj).*1).
Context (Htg : ∀ n, n ∈ targets → is_Some (dict_find n m1)).

Lemma backward_all_total :
  ∃ m2, mfold (backward targets) m1 (reverse deps) = Ok m2 ∧ all_known m2 ∧
    (∀ k, is_Some (dict_find k m1) → is_Some (dict_find k m2)) ∧
    ∀ dep n, dep ∈ deps → n ∈ (dependent_region dep).*1 → is_Some (dict_find n m2).
Proof using All.
  assert (∀ ds pre m, reverse deps = pre ++ ds → all_known m → (∀ k, is_Some (dict_find k m1) → is_Some (dict_find k m)) →
    (∀ dep n, dep ∈ pre → n ∈ (dependent_region dep).*1 → is_Some (dict_find n m)) →
    ∃ m2, mfold (backward targets) m ds = Ok m2 ∧ all_known m2 ∧ (∀ k, is_Some (dict_find k m1) → is_Some (dict_find k m2)) ∧
      ∀ dep n, dep ∈ pre ++ ds → n ∈ (dependent_region dep).*1 → is_Some (dict_find n m2)) as Hgen.
  { intros ds. induction ds as [|dep ds IH]; intros pre m E Hm Hg Hpre; cbn [mfold].
    { exists m. split_and!; [done|done|done|]. intros dep n. rewrite app_nil_r. apply Hpre. }
    assert (deps = reverse ds ++ dep :: reverse pre) as Ed by (rewrite <- (reverse_involutive deps), E, reverse_app, reverse_cons; by rewrite <- app_assoc).
    assert (deps !! length ds = Some dep) as Hi by (rewrite Ed; apply list_lookup_middle; by rewrite length_reverse).
    assert (dep ∈ deps) as Hd by (by eapply list_elem_of_lookup_2).
    destruct (backward_total dep m Hm) as (m' & -> & Hm' & Hin & Hg').
    - destruct (Hconn dep Hd) as [?|(dj & Hdj & Hread)]; [auto|]. eapply Hpre; [|exact Hread].
      pose proof Hdj as (j & Hj)%list_elem_of_lookup.
      assert (length ds < j)%nat as Hlt by (eapply (ok_order _ _ Hok); [exact Hj|exact Hi|]; eapply (dep_region _ targets _ Hok); [done|by apply dict_find_key]).
      rewrite Ed, lookup_app_r, length_reverse in Hj by (rewrite length_reverse; lia).
      destruct (j - length ds)%nat as [|j'] eqn:Ej; [lia|]. simpl in Hj. apply elem_of_reverse. by eapply list_elem_of_lookup_2.
    - intros n l. by apply Hloaded.
    - cbn [mbind res_bind]. destruct (IH (pre ++ [dep]) m') as (m2 & E2 & Hm2 & Hg2 & Hall); [by rewrite <- app_assoc|done|auto| |].
      + intros d n [Hdp| ->%list_elem_of_singleton]%elem_of_app Hn; [by eapply Hg', Hpre|].
        destruct (Hin n Hn) as [?|?]; [|done]. auto.
      + exists m2. split_and!; [done|done|done|]. intros d n Hdp. apply Hall. by rewrite <- app_assoc. }
  destruct (Hgen (reverse deps) [] m1) as (m2 & ? & ? & ? & Hall); [done|done|done|by intros ?? ?%elem_of_nil|].
  exists m2. split_and!; [done|done|done|]. intros dep n Hd. apply Hall. by apply elem_of_reverse.
Qed.
End reach.

(** ** Shapes *)

(** The bounds of an expression are never empty. *)
Class BoundsNonempty `{Arith} : Prop :=
  bound_nonempty us e : (∀ v b, (v, b) ∈ us → min_value b ≤ max_value b) → min_value (const_int_bound us e) ≤ max_value (const_int_bound us e).

Section shapes.
Context `{Arith, !BoundsNonempty} (us : list (var * ConstIntBound)).
Context (Hus : ∀ v b, (v, b) ∈ us → min_value b ≤ max_value b).

Definition good (rk : nat) (bs : list ConstIntBound) : Prop := length bs = rk ∧ Forall (λ b, min_value b ≤ max_value b) bs.

Lemma merge_total n rk regions results :
  regions ≠ [] → known regions → (∀ r, Some r ∈ regions → length r = rk) → dict_find n results = None →
  ∃ results' bs, mfold (merge_region us n) results regions = Ok results' ∧ dict_find n results' = Some bs ∧ good rk bs ∧
    ∀ k, k ≠ n → dict_find k results' = dict_find k results.
Proof using All.
  intros Hne Hk Hrk Hn. destruct regions as [|r0 regions]; [done|].
  destruct (mfold_total_each (λ d, (∀ k, k ≠ n → dict_find k d = dict_find k results) ∧ ∀ bs, dict_find n d = Some bs → good rk bs)
    (λ _ d, is_Some (dict_find n d)) (merge_region us n) (r0 :: regions) results) as (results' & E & [Hoth Hgood] & Hsome & _).
  - split; [done|]. by rewrite Hn.
  - intros d x Hx [Hoth Hgood]. destruct (Hk x Hx) as [r ->]. unfold merge_region, some_region. cbn [or_raise mbind res_bind].
    assert (good rk (const_int_bound us <$> r)) as Hnew.
    { split; [rewrite length_fmap; by apply Hrk|]. apply Forall_fmap, Forall_true. intros e. by apply bound_nonempty. }
    eexists. split; [done|]. split_and!.
    + intros k Hkn. by rewrite dict_find_set, decide_False, Hoth.
    + intros bs. rewrite dict_find_set, decide_True by done. intros [= <-]. destruct (dict_find n d) as [old|]; [|done].
      destruct (Hgood old eq_refl) as [Ho1 Ho2]. destruct Hnew as [Hn1 Hn2]. split; [rewrite length_zip_with; lia|].
      clear -Ho2. revert Ho2. generalize (const_int_bound us <$> r). intros l Ho2. revert l. induction Ho2 as [|b old Hb Ho2 IH]; intros [|b' l]; simpl; constructor; [simpl; lia|apply IH].
    + rewrite dict_find_set, decide_True by done. by eexists.
    + intros _ _. rewrite dict_find_set, decide_True by done. by eexists.
  - destruct (Hsome r0) as [bs Hbs]; [by left|]. exists results', bs. split_and!; [done|done|auto|done].
Qed.

Lemma bind_intermediate_total m rk nodes regions b :
  (∀ n, n ∈ nodes → ∃ l, dict_find n m = Some l ∧ known l) → regions ≠ [] → known regions → (∀ r, Some r ∈ regions → length r = rk) →
  ∃ regions' b', bind_intermediate m nodes regions b = Ok (regions', b') ∧ regions' ≠ [] ∧ known regions' ∧ ∀ r, Some r ∈ regions' → length r = rk.
Proof.
  revert regions b. induction nodes as [|x nodes IH]; intros regions b Hn Hne Hk Hrk; simpl; [by exists regions, b|].
  destruct (Hn x) as (iters & Hx & Hki); [by left|]. unfold dict_item. rewrite Hx. cbn [or_raise mbind res_bind].
  destruct (negb _ || negb _) eqn:E; [apply IH; [intros; apply Hn; by right|done..]|].
  apply orb_false_iff in E as [E1 E2]. apply negb_false_iff, bool_decide_eq_true in E1, E2. rewrite E2 in E1.
  destruct iters as [|oi [|]]; try done. destruct regions as [|orr [|]]; try done.
  destruct (Hki oi) as [i ->]; [by left|]. destruct (Hk orr) as [r ->]; [by left|].
  change (py_index [Some i] 0) with (Ok (Some i)). change (py_index [Some r] 0) with (Ok (Some r)).
  cbn [some_region or_raise mbind res_bind].
  destruct (negb (bool_decide (length i = length r))) eqn:El; [exists [Some r], b; by split_and!|].
  apply negb_false_iff, bool_decide_eq_true in El. apply IH; [intros; apply Hn; by right|done|done|].
  intros r' [= ->]%list_elem_of_singleton. rewrite El. apply Hrk. by left.
Qed.

Lemma leads_tail g t n p y : leads g t n p → y ∈ tail p → ∃ x, edge g x y.
Proof.
  revert n. induction p as [|x [|z p] IH]; intros n Hl Hy; [done|by apply elem_of_nil in Hy|].
  simpl in Hl. destruct Hl as (-> & He & Hl). simpl in Hy. apply elem_of_cons in Hy as [-> |Hy]; [by exists n|]. by eapply IH.
Qed.

Lemma removelast_sub {A} (l : list A) x : x ∈ removelast l → x ∈ l.
Proof. induction l as [|y [|z l] IH]; [done|by intros ?%elem_of_nil|]. simpl. intros [-> |?]%elem_of_cons; [by left|right; auto]. Qed.

Context (g : dep_graph) (Hg : closed_graph g) (m : mapping) (Hm : all_known m).
Context (Hnext : ∀ n y, edge g n y → is_Some (dict_find y m)) (rank : string → nat).
Context (Hrank : ∀ n l r, dict_find n m = Some l → Some r ∈ l → length r = rank n).

Definition requested (ts : option (list string)) (n : string) : Prop := match ts with Some l => n ∈ l | None => True end.

Lemma infer_name_total cts ts results bind n regions :
  is_Some (g !! n) → dict_find n m = Some regions → dict_find n results = None →
  ∃ results' bind', infer_name g m cts us ts (results, bind) (n, regions) = Ok (results', bind') ∧
    (∀ k, k ≠ n → dict_find k results' = dict_find k results) ∧
    (requested ts n → ∃ bs, dict_find n results' = Some bs ∧ good (rank n) bs) ∧ (is_Some (dict_find n results') → requested ts n).
Proof using All.
  intros Hnode Hreg Hnone. destruct (Hm _ _ Hreg) as [Hne Hk]. unfold infer_name.
  destruct (match ts with Some _ => _ | None => _ end) eqn:Ets.
  { exists results, bind. split_and!; [done|done| |rewrite Hnone; by intros []]. destruct ts as [l|]; [|done]. intros Hin.
    apply negb_true_iff in Ets. unfold py_in in Ets. by apply bool_decide_eq_false in Ets. }
  assert (requested ts n) as Hreq.
  { destruct ts as [l|]; [|done]. apply negb_false_iff in Ets. unfold py_in in Ets. by apply bool_decide_eq_true in Ets. }
  assert (∀ regions' (bind' : dict string string), regions' ≠ [] → known regions' → (∀ r, Some r ∈ regions' → length r = rank n) →
    ∃ results' bind'', (res ← mfold (merge_region us n) results regions'; Ok (res, bind')) = Ok (results', bind'') ∧
      (∀ k, k ≠ n → dict_find k results' = dict_find k results) ∧
      (requested ts n → ∃ bs, dict_find n results' = Some bs ∧ good (rank n) bs) ∧ (is_Some (dict_find n results') → requested ts n)) as Hmerge.
  { intros regions' bind' H1 H2 H3. destruct (merge_total n (rank n) regions' results H1 H2 H3 Hnone) as (res & bs & -> & Hbs & Hgood & Hoth).
    exists res, bind'. split_and!; [done|done|eauto|done]. }
  assert (∀ r, Some r ∈ regions → length r = rank n) as Hrk by (intros r; by apply Hrank).
  destruct cts as [|ct [|]]; [by apply Hmerge| |by apply Hmerge].
  destruct (find_path_spec g n ct Hg Hnode) as (path & -> & Hpath). cbn [mbind res_bind]. case_bool_decide as Hlen.
  - destruct (bind_intermediate_total m (rank n) (removelast (tail path)) regions false) as (regions' & b & -> & H1 & H2 & H3); [|done|done|done|].
    + intros y Hy%removelast_sub. destruct Hpath as [[-> _]|[Hl _]]; [by apply elem_of_nil in Hy|].
      destruct (leads_tail _ _ _ _ _ Hl Hy) as [x Hxy]. destruct (Hnext x y Hxy) as [l Hyl]. exists l. split; [done|]. by apply (Hm y).
    + cbn [mbind res_bind]. by apply Hmerge.
  - cbn [mbind res_bind]. by apply Hmerge.
Qed.

Lemma infer_names_total cts ts items results bind :
  NoDup items.*1 → (∀ n regions, (n, regions) ∈ items → is_Some (g !! n) ∧ dict_find n m = Some regions ∧ dict_find n results = None) →
  ∃ results' bind', mfold (infer_name g m cts us ts) (results, bind) items = Ok (results', bind') ∧
    (∀ k, k ∉ items.*1 → dict_find k results' = dict_find k results) ∧
    ∀ n, n ∈ items.*1 → (requested ts n → ∃ bs, dict_find n results' = Some bs ∧ good (rank n) bs) ∧ (is_Some (dict_find n results') → requested ts n).
Proof using All.
  revert results bind. induction items as [|[n regions] items IH]; intros results bind Hnd Hall; cbn [mfold].
  { exists results, bind. split_and!; [done|done|by intros ? ?%elem_of_nil]. }
  csimpl in Hnd. apply NoDup_cons in Hnd as [Hn Hnd]. destruct (Hall n regions) as (Hnode & Hreg & Hnone); [by left|].
  destruct (infer_name_total cts ts results bind n regions Hnode Hreg Hnone) as (res1 & bind1 & -> & Hoth1 & Hgood1 & Hreq1). cbn [mbind res_bind].
  destruct (IH res1 bind1 Hnd) as (res2 & bind2 & E2 & Hoth2 & Hall2).
  { intros k regs Hin. destruct (Hall k regs) as (? & ? & ?); [by right|]. split_and!; [done|done|]. rewrite Hoth1; [done|]. intros ->. apply Hn. by apply (list_elem_of_fmap_2 fst _ (n, regs)). }
  exists res2, bind2. split_and!; [exact E2| |].
  - intros k Hk. csimpl in Hk. apply not_elem_of_cons in Hk as [? ?]. by rewrite Hoth2, Hoth1.
  - intros k Hk. csimpl in Hk. apply elem_of_cons in Hk as [-> |Hk]; [|auto]. by rewrite Hoth2.
Qed.
End shapes.

(** ** The analyzer of a function *)

(** [propagate] as the roller node uses it. *)
Definition infer_of `{Arith} (I : InputShapeInference) (stage : string) (tile : list Z) (rstep : list (string * Z)) (targets : option (list string)) :
    list (string * list Z) * list string :=
  match propagate I [stage] tile rstep targets with
  | Ok (shapes, intermediate_bind) => (shapes, intermediate_bind.*1)
  | Raise _ => ([], [])
  end.

(** The statements of a function: the scheduled one has the axes of its tiles, every
    other one is read or can be reversed, every declared input is loaded, and the
    buffers of the function belong to them. *)
Record tir_func `{Arith} (f : PrimFunc) (I : InputShapeInference) (stage : string) (rank : string → nat) : Prop := {
  tf_blocks : ∃ bs, get_analyzer_by_tir bs = Ok I;
  tf_deps : deps_ok (deps I) rank;
  tf_reversible : reversible (deps I);
  tf_stage : stage ∈ dep_name <$> deps I;
  tf_loaded dep n l : dep ∈ deps I → (n, l) ∈ dependent_region dep → l ≠ [];
  tf_reached : ∃ m, reached (deps I) [stage] = Ok m ∧ regular m ∧
    ∀ dep, dep ∈ deps I → is_Some (dict_find (dep_name dep) m) ∨ ∃ dj, dj ∈ deps I ∧ dep_name dep ∈ (dependent_region dj).*1;
  tf_axes a : a ∈ reduce_axes (deps I) → 0 < dom_extent a;
  tf_buffers b : b ∈ buffers f → (0 < rank (name b) ≤ length (shape b))%nat ∧
    ∃ dep, dep ∈ deps I ∧ (name b = dep_name dep ∨ name b ∈ name <$> in_buffers (block dep));
}.

Lemma dict_get_find {A} (d : list (string * A)) k : dict_get d k = or_raise KeyError (dict_find k d).
Proof.
  unfold dict_get. f_equal. induction d as [|[k' v] d IH]; [done|]. simpl. case_decide; [subst; by rewrite lookup_insert_eq|].
  by rewrite lookup_insert_ne.
Qed.

Lemma extents_find (results : list (string * list ConstIntBound)) n :
  dict_find n (extents results) = (λ bs : list ConstIntBound, (λ c, max_value c - min_value c + 1) <$> bs) <$> dict_find n results.
Proof. induction results as [|[k bs] results IH]; [done|]. unfold extents in *. csimpl. simpl. case_decide; [done|exact IH]. Qed.

(** Only what is asked for is answered. *)
Lemma infer_keys `{Arith} I shape rstep ts shapes bind k :
  infer I shape rstep (Some ts) = Ok (shapes, bind) → k ∈ shapes.*1 → k ∈ ts.
Proof.
  unfold infer. intros E. apply bind_Ok in E as ([vs m] & _ & E). apply bind_Ok in E as ([results b] & Er & [= <- <-]).
  assert (∀ x, x ∈ results.*1 → x ∈ ts) as Hall.
  { assert (∀ x, x ∈ (results, b).1.*1 → x ∈ ts) as Hx; [|exact Hx].
    eapply (mfold_inv (λ rb : dict string (list ConstIntBound) * dict string string, ∀ x, x ∈ rb.1.*1 → x ∈ ts)); [| |exact Er]; [by intros x ?%elem_of_nil|].
    intros [r1 b1] [n regions] [r2 b2] H1 _ E1. unfold infer_name in E1. destruct (negb (py_in n ts)) eqn:En; [by injection E1 as <- <-|].
    apply negb_false_iff in En. unfold py_in in En. apply bool_decide_eq_true in En.
    assert (∀ us regs r3, mfold (merge_region us n) r1 regs = Ok r3 → ∀ x, x ∈ r3.*1 → x ∈ ts) as Hmerge.
    { intros us regs r3 Em. eapply (mfold_inv (λ r : dict string (list ConstIntBound), ∀ x, x ∈ r.*1 → x ∈ ts)); [exact H1| |exact Em].
      intros r o r' Hr _ Eo. unfold merge_region in Eo. apply bind_Ok in Eo as (rr & _ & [= <-]). intros x Hx. rewrite dict_set_keys in Hx.
      case_decide; [auto|]. apply elem_of_app in Hx as [?| ->%list_elem_of_singleton]; auto. }
    destruct (shape.*1) as [|ct [|]].
    - apply bind_Ok in E1 as (r3 & Em & [= <- <-]). by eapply Hmerge.
    - apply bind_Ok in E1 as (path & _ & E1). apply bind_Ok in E1 as ([regs bd] & _ & E1). apply bind_Ok in E1 as (r3 & Em & [= <- <-]). by eapply Hmerge.
    - apply bind_Ok in E1 as (r3 & Em & [= <- <-]). by eapply Hmerge. }
  intros Hk. apply Hall. unfold extents in Hk. rewrite <- list_fmap_compose in Hk. exact Hk.
Qed.

Section answer.
Context `{Arith, !ArithLaws, !BoundsNonempty} (f : PrimFunc) (I : InputShapeInference) (stage : string) (rank : string → nat).
Context (Hf : tir_func f I stage rank).

Lemma graph_spec :
  closed_graph (dep_analysis I) ∧
  (∀ n y, edge (dep_analysis I) n y → y ∈ dep_name <$> deps I) ∧
  ∀ dep n, dep ∈ deps I → n = dep_name dep ∨ n ∈ name <$> in_buffers (block dep) → is_Some (dep_analysis I !! n).
Proof using Hf.
  destruct (tf_blocks _ _ _ _ Hf) as [bs Hbs]. unfold get_analyzer_by_tir in Hbs. apply bind_Ok in Hbs as (ds & _ & Hbs).
  unfold InputShapeInference_init in Hbs. destruct (name2dep_spec ds) as (d & Hd & Hv & _). rewrite Hd in Hbs. simpl in Hbs. injection Hbs as <-.
  cbn [deps dep_analysis]. destruct (analyze_spec d) as [He Hn]. rewrite Hv in He, Hn. split_and!.
  - intros n y _ Hy. apply He in Hy as (s & Hs & -> & _). apply Hn. exists s. auto.
  - intros n y Hy. apply He in Hy as (s & Hs & -> & _). by apply list_elem_of_fmap_2.
  - intros dep n Hdep Hor. apply Hn. exists dep. auto.
Qed.

Lemma propagate_total tile rstep ts :
  positive tile → positive rstep.*2 →
  ∃ shapes bind, propagate I [stage] tile rstep ts = Ok (shapes, bind) ∧
    (∀ n, is_Some (dict_find n shapes) → requested ts n) ∧
    ∀ dep n, dep ∈ deps I → n = dep_name dep ∨ n ∈ name <$> in_buffers (block dep) → requested ts n →
      ∃ s, dict_find n shapes = Some s ∧ length s = rank n ∧ positive s.
Proof using All.
  intros Htile Hst. destruct Hf as [Hblocks Hok Hrev Hstage Hloaded (m1 & Hm1 & Hreg & Hconn) Haxes _].
  destruct graph_spec as (Hclosed & Hnext & Hnode).
  set (shape := [(stage, (λ val, Bound 0 (val - 1)) <$> tile)]).
  assert (propagate I [stage] tile rstep ts = infer I shape rstep ts) as -> by done. unfold infer.
  change shape.*1 with [stage]. unfold reached in Hm1. unfold construct_dependency_target.
  destruct (mfold (add_target _) ([], []) [stage]) as [[vs m0]|] eqn:E0; [|done]. simpl in Hm1. cbn [mbind res_bind]. rewrite Hm1. cbn [mbind res_bind].
  destruct (add_target_spec _ _ _ _ _ _ (ok_names _ _ Hok) E0) as (Hfrom & Hkeys & vs' & -> & Hvs).
  assert (∀ k l, dict_find k m0 = Some l → ∃ dep, dep ∈ deps I ∧ dep_name dep = k ∧ k ∈ [stage] ∧ l = [Some (IVar <$> axis_vars dep)]) as Hm0
    by (intros k l Hk; by destruct (Hfrom k l Hk)).
  assert (∀ dep, dep ∈ deps I → dep_name dep ∈ [stage] → is_Some (dict_find (dep_name dep) m0)) as Htg0 by (intros dep _ Hk; apply Hkeys; by right).
  assert (∀ n, n ∈ [stage] → is_Some (dict_find n m1)) as Htg.
  { intros n Hn. pose proof Hstage as (dep & Es & Hdep)%list_elem_of_fmap. rewrite (forward_target _ _ _ Hok _ _ n Hm1 Hn). apply Hkeys. by right. }
  assert (all_known m1) as Hk1 by (intros n l Hl; destruct (Hreg n l Hl) as [r ->]; split; [done|]; intros x ->%list_elem_of_singleton; by eexists).
  destruct (backward_all_total [stage] (deps I) rank Hok m1 Hk1 Hloaded Hconn Htg) as (m2 & E2 & Hk2 & Hg2 & Hin2). rewrite E2. cbn [mbind res_bind].
  assert (∀ dep n, dep ∈ deps I → n = dep_name dep ∨ n ∈ name <$> in_buffers (block dep) → is_Some (dict_find n m2)) as Hall2.
  { intros dep n Hdep [-> |Hn].
    - destruct (Hconn dep Hdep) as [?|(dj & Hdj & ?)]; [auto|by eapply Hin2].
    - apply (Hin2 dep); [done|]. apply dict_find_key. by eapply (dep_region _ [stage] _ Hok). }
  assert (construct_dependency_target (deps I) [stage] = Ok (vs', m2)) as Hcons.
  { unfold construct_dependency_target. rewrite E0. cbn [mbind res_bind]. rewrite Hm1. cbn [mbind res_bind]. by rewrite E2. }
  set (us := updates (deps I) ([] ++ vs') shape.*2 rstep).
  assert (∀ v b, (v, b) ∈ us → min_value b ≤ max_value b) as Hus.
  { intros v b [Hin|(a & [= -> ->] & Hin)%list_elem_of_fmap]%elem_of_app.
    - apply list_elem_of_In, in_concat in Hin as (l & Hl & Hin). apply list_elem_of_In in Hl, Hin.
      apply list_elem_of_fmap in Hl as ([vars bs] & -> & Hl%elem_of_zip_r). apply elem_of_zip_r in Hin. simpl in Hin, Hl.
      apply list_elem_of_singleton in Hl as ->. apply list_elem_of_fmap in Hin as (val & -> & Hval). rewrite Forall_forall in Htile.
      specialize (Htile val Hval). simpl. lia.
    - specialize (Haxes a Hin). unfold axis_bound. destruct (dict_find _ rstep) as [step|] eqn:Es; simpl; [|lia].
      apply dict_find_in in Es. rewrite Forall_forall in Hst. specialize (Hst step (list_elem_of_fmap_2 snd _ _ Es)). lia. }
  destruct (infer_names_total us Hus (dep_analysis I) Hclosed m2 Hk2) with (rank := rank) (cts := [stage]) (ts := ts) (items := m2)
    (results := [] : dict string (list ConstIntBound)) (bind := [] : dict string string) as (results & bind & Er & Hno & Hres).
  - intros n y Hy. apply Hnext, list_elem_of_fmap in Hy as (dep & -> & Hdep). apply (Hall2 dep); auto.
  - intros n l r Hl Hr. eapply (backward_rank (deps I) [stage] rank Hok m0 m1 Hm0 Hm1 Hreg Htg0 Hrev m2 E2); done.
  - by eapply construct_nodup.
  - intros n regions Hin. pose proof (construct_nodup _ _ _ _ Hcons) as Hnd2. apply (dict_find_nodup _ _ _ Hnd2) in Hin.
    split_and!; [|done|done]. destruct (Hk2 n regions Hin) as [Hne Hkn]. destruct regions as [|x regions]; [done|].
    destruct (backward_from (deps I) [stage] rank Hok m0 m1 Hm0 Hm1 Hreg Htg0 Hrev m2 E2 n _ x Hin) as
      [Hx|(di & ils & regs & r0 & ind & Hdi & _ & Hkey & _)]; [by left| |].
    + destruct (dict_find n m1) as [l1|] eqn:En; [|by apply elem_of_nil in Hx].
      pose proof (forward_keys (deps I) [stage] rank Hok m0 m1 Hm0 Hm1 Hreg Htg0 n l1 En) as (dep & -> & Hdep)%list_elem_of_fmap.
      apply (Hnode dep); auto.
    + apply (Hnode di); [done|]. right. apply (dep_region _ [stage] _ Hok); [done|]. apply dict_find_key. by apply (list_elem_of_fmap_2 fst _ (n, regs)).
  - exists (extents results), bind. split; [exact (f_equal (λ r : res (dict string (list ConstIntBound) * dict string string), r ≫= λ '(results, b), Ok (extents results, b)) Er)|]. split.
    + intros n Hn. rewrite extents_find in Hn. assert (is_Some (dict_find n results)) as Hn' by (destruct (dict_find n results); [by eexists|by destruct Hn]).
      destruct (decide (n ∈ m2.*1)) as [Hin|Hin]; [by apply (Hres n Hin)|]. rewrite Hno in Hn' by done. by destruct Hn'.
    + intros dep n Hdep Hn Hreq. assert (n ∈ m2.*1) as Hin by (apply dict_find_key; by eapply Hall2).
      destruct (proj1 (Hres n Hin) Hreq) as (bs & Hbs & Hlen & Hne). rewrite extents_find, Hbs. simpl. eexists. split; [done|].
      rewrite length_fmap. split; [done|]. apply Forall_fmap. eapply Forall_impl; [exact Hne|]. simpl. lia.
Qed.

(** C17: for a function as [tir_func] describes, the shape inference is an analyzer of
    the kind the roller policies rely on: it answers, for every tile and all reduction
    steps, with a positive shape of at most the buffer's rank for each buffer of the
    function it is asked for, and for no other one.  [tir_func] asks that the
    statements satisfy [deps_ok] and [reversible], that every declared input is loaded,
    that reduction axes are not empty, that every buffer of the function belongs to a
    statement, that every buffer reached from the scheduled statement is reached by one
    analysable region, and that every statement is reached or read by another one.  A
    second reduction that reads the scheduled statement is outside of this: it cannot
    be reversed ([second_reduction_fails]). *)
Theorem inference_implements : infer_ok f (infer_of I stage).
Proof using All.
  assert (∀ b tile st ts, b ∈ buffers f → requested ts (name b) → positive tile → positive st.*2 →
    ∃ s, dict_get (infer_of I stage tile st ts).1 (name b) = Ok s ∧ part_of b s) as Hgen.
  { intros b tile st ts Hb Hreq Ht Hst. destruct (propagate_total tile st ts Ht Hst) as (shapes & bind & E & _ & Hall).
    destruct (tf_buffers _ _ _ _ Hf b Hb) as ([Hr1 Hr2] & dep & Hdep & Hn). destruct (Hall dep (name b) Hdep Hn Hreq) as (s & Hs & Hl & Hp).
    exists s. unfold infer_of. rewrite E. simpl. rewrite dict_get_find, Hs. split; [done|]. split; [|lia|done]. intros ->. simpl in Hl. lia. }
  split.
  - intros b tile st Hb _ Ht Hst. by apply Hgen.
  - intros b tile st ts Hb Hn _ Ht Hst. by apply Hgen.
  - intros tile st ts k Hk. unfold infer_of in Hk. destruct (propagate I [stage] tile st (Some ts)) as [[shapes bind]|] eqn:E; [|by apply elem_of_nil in Hk].
    by eapply infer_keys.
Qed.
End answer.

(** ** Examples *)

Module ShapeTotalEx.
Import ShapeCoverEx.

Lemma interval_nonempty us e l h :
  (∀ v b, (v, b) ∈ us → min_value b ≤ max_value b) → interval us e = Some (l, h) → l ≤ h.
Proof.
  intros Hus. revert l h. induction e as [w|d x|op a IHa b IHb|d a IHa|k t]; simpl; intros l h Hi; [| | |by eapply IHa|done].
  - destruct (dict_find w us) as [b|] eqn:E; [|done]. simplify_eq/=. apply (Hus w b). by apply dict_find_in.
  - simplify_eq. lia.
  - destruct op; try done.
    + destruct (interval us a) as [[l1 h1]|]; [|done]. simpl in Hi. destruct (interval us b) as [[l2 h2]|]; [|done]. simplify_eq/=.
      specialize (IHa _ _ eq_refl). specialize (IHb _ _ eq_refl). lia.
    + destruct (interval us a) as [[l1 h1]|]; [|done]. simpl in Hi. destruct (interval us b) as [[l2 h2]|]; [|done]. simplify_eq/=.
      specialize (IHa _ _ eq_refl). specialize (IHb _ _ eq_refl). lia.
    + destruct b as [|d n| | |]; try done. destruct (interval us a) as [[l1 h1]|]; [|done]. simpl in Hi.
      destruct (Z.leb_spec 0 n); simplify_eq/=. specialize (IHa _ _ eq_refl). nia.
    + destruct b as [|d n| | |]; try done. destruct (interval us a) as [[l1 h1]|]; [|done]. simpl in Hi.
      destruct (Z.ltb_spec 0 n); simplify_eq/=. specialize (IHa _ _ eq_refl). apply Z.div_le_mono; lia.
    + destruct b as [|d n| | |]; try done. destruct (Z.ltb_spec 0 n); simplify_eq/=. lia.
Qed.

#[export] Instance bounds_nonempty_ex : BoundsNonempty.
Proof.
  intros us e Hus. simpl. destruct (interval us e) as [[l h]|] eqn:E; [|done]. simpl. by eapply interval_nonempty.
Qed.

(** The product with its epilogue as a function of the roller. *)
Definition func : PrimFunc :=
  MkPrimFunc [MkTirBlock C [A; B] true [1%nat]; MkTirBlock D [C; bias] false []] (Some 0%nat) [("k"%string, 128)] [64; 32] [A; B; bias] [D].

Lemma func_analyzed : tir_func func I1 "C" rank1.
Proof.
  split.
  - exists [product; epilogue]. vm_compute. reflexivity.
  - apply I1_ok.
  - apply any_reversible.
  - rewrite I1_deps. by left.
  - rewrite I1_deps. intros dep n l Hd Hin. each Hd; vm_compute in Hin; each Hin; done.
  - eexists. split; [vm_compute; reflexivity|]. split.
    + intros k l Hk. simpl in Hk. repeat (case_decide; [injection Hk as <-; eexists; reflexivity|]). done.
    + rewrite I1_deps. intros dep Hd. left. each Hd; vm_compute; by eexists.
  - rewrite I1_deps. intros a Ha. vm_compute in Ha. each Ha. done.
  - rewrite I1_deps. intros b Hb. vm_compute in Hb. each Hb.
    all: (split; [vm_compute; split; lia|]).
    all: first [exists (stmt_of product); split; [by left|vm_compute; first [by left|right; by left|right; by right; left]]
               |exists (stmt_of epilogue); split; [by right; left|vm_compute; first [by left|right; by left|right; by right; left]]].
Qed.

Lemma inference_implements_witness :
  (infer_of I1 "C" [4; 8] [("k"%string, 16)] (Some ["A"; "bias"]%string)).1 = [("bias", [8]); ("A", [4; 16])]%string ∧
  infer_ok func (infer_of I1 "C").
Proof. split; [vm_compute; reflexivity|]. exact (inference_implements func I1 "C" rank1 func_analyzed). Defined.

(** [row_sum] reads the scheduled [transpose] and reduces: it has no inverse, and its
    inputs cannot be computed from [None]. *)
Lemma second_reduction_fails : propagate I2 ["T"%string] [4; 16] steps None = Raise TypeError.
Proof. vm_compute. reflexivity. Qed.
End ShapeTotalEx.
