(* ===== verification/CubePolicy.v ===== *)
(** * The policy for matrix operations

    [AscendCubePolicy] of [src/tilelang/carver/roller/policy/ascend.py]: tiles for
    the cube unit, searched within L1 and checked against the L0 buffers.  It is a
    [Policy] of [RollerPolicy.v] with its own candidates, costs, check, growth and
    assignment; without the tag [tensorcore_config] it falls back to those of the
    vector policy. *)
From stdpp Require Import base strings gmap numbers sorting list.
From S2P Require Import Prelude BestFit Factors Graph SmemUsage TileSearch RollerPolicy RollerHints RollerTotal.
#[local] Open Scope Z_scope.

(** The tags of an operator that the policy reads. *)
Record Tags := MkTags {
  tensorcore_config : option (Z * Z);
  pipeline_stage_tag : option Z;
  block_reduction_depth_tag : option Z;
  intrin_out_dtype : option string;
}.

(** What the constructor and [_legalize_cube_info] set. *)
Record CubeInfo := MkCubeInfo {
  fractal_m : Z; fractal_n : Z; cube_k : Z;
  stage : Z;
  depth : option Z;
}.

Definition legalize_cube_info (arch : AscendArch) (tags : Tags) : res CubeInfo :=
  m ← py_index (cube_spec arch) 0;
  n ← py_index (cube_spec arch) 1;
  k ← py_index (cube_spec arch) (-1);
  let truthy o := match o with Some z => if z =? 0 then None else Some z | None => None end in
  Ok (MkCubeInfo m n k (default 2 (truthy (pipeline_stage_tag tags))) (truthy (block_reduction_depth_tag tags))).

(** [_align_to_l0] and [_check_l0_usage]. *)
Definition align_to_l0 (size alignment : Z) : Z := (size + alignment - 1) / alignment * alignment.

Definition l0a_alignment : Z := 512.
Definition l0b_alignment : Z := 512.
Definition l0c_alignment : Z := 64.

Definition check_l0_usage (arch : AscendArch) (a_size b_size c_size pipeline_stage : Z) : bool :=
  (a_size * pipeline_stage <=? l0a_cap arch) && (b_size * pipeline_stage <=? l0b_cap arch) && (c_size <=? l0c_cap arch).

Definition get_total_l0_capacity (arch : AscendArch) : Z := l0a_cap arch + l0b_cap arch + l0c_cap arch.

Section cube.
Context `{NumPy} (arch : AscendArch) (f : PrimFunc) (custom_mem_mul : num).
Context (infer : list Z → list (string * Z) → option (list string) → list (string * list Z) * list string).
Context (tags : Tags) (info : CubeInfo).

(** [propagate_inputs_on_reduction] of [node.py]: the trailing dimensions of a
    buffer bound the shape. *)
Definition propagate_inputs_on_reduction (tile rs : list Z) : res (list (list Z)) :=
  let '(shapes, intermediate_bind) := infer tile (axis_steps f rs) (Some (name <$> reduction_inputs f)) in
  mmap (λ arg,
    s ← dict_get shapes (name arg);
    if bool_decide (name arg ∈ intermediate_bind) then Ok s
    else Ok (zip_with Z.min s (drop (length (shape arg) - length s) (shape arg)))) (reduction_inputs f).

Definition cube_usage (tile rs : list Z) : res (Z * list string) :=
  '(value, cached) ← footprint f infer tile rs [];
  Ok (value * stage info, cached).

Definition cube_candidates : option (list (list Z)) :=
  match tensorcore_config tags with
  | None => factor_candidates f
  | Some _ => Some ((λ extent, (λ x, x * cube_k info) <$> get_all_factors (extent / cube_k info)) <$> (raxis f).*2)
  end.

Definition CubeMethods : Methods := MkMethods cube_candidates cube_usage.

(** The loop of [_assign_reduce_step] over the axes; [None] when it leaves the
    choice to the vector policy. *)
Fixpoint cube_steps (basic : Z) (extents : list Z) : res (option (list Z)) :=
  match extents with
  | [] => Ok (Some [])
  | e :: extents' =>
      if 0 <? e mod cube_k info then
        rest ← cube_steps basic extents';
        Ok (option_map (cons (if e <? basic then cube_k info else basic)) rest)
      else
        r ← py_mod e basic;
        if r =? 0 then rest ← cube_steps basic extents'; Ok (option_map (cons basic) rest) else Ok None
  end.

Definition cube_assign_reduce_step : option (res (list Z)) :=
  match tensorcore_config tags with
  | None => assign_reduce_step f infer CubeMethods
  | Some _ =>
      match (b ← py_index (reduction_inputs f) 0; basic ← py_floordiv (512 * 8) (bits b); cube_steps basic (raxis f).*2) with
      | Raise e => Some (Raise e)
      | Ok (Some rs) => Some (Ok rs)
      | Ok None => assign_reduce_step f infer CubeMethods
      end
  end.

(** [_check_node_l0_capacity]: the tiles of the two operands and of the result. *)
Definition check_node_l0_capacity (tile rs : list Z) : res bool :=
  match propagate_reduction_inputs f infer tile rs with
  | (_, a_shape) :: (_, b_shape) :: _ =>
      a ← py_index (reduction_inputs f) 0;
      let b := default a (reduction_inputs f !! 1%nat) in
      c ← or_raise RuntimeError (r ← reduction_block f; output_buffer <$> blocks f !! r);
      let a_size := prod a_shape * nbytes (bits a) in
      let b_size := prod b_shape * nbytes (bits b) in
      let c_size := prod tile * nbytes (bits c) in
      Ok (check_l0_usage arch (align_to_l0 a_size l0a_alignment) (align_to_l0 b_size l0b_alignment)
            (align_to_l0 c_size l0c_alignment) (stage info))
  | _ => Ok true
  end.

Definition cube_check (td : TileDict) : res bool :=
  match tensorcore_config tags with
  | None => Ok (check_tile_shape_isvalid arch td)
  | Some (ax_m, ax_n) =>
      let tile := tile_map td in
      if (len tile <=? ax_m) || (len tile <=? ax_n) then Ok false
      else
        block_m ← py_index tile ax_m;
        block_n ← py_index tile ax_n;
        if (block_m <? fractal_m info) || (block_n <? fractal_n info) then Ok false
        else
          pairs ← zip_strict tile (space_dim f);
          rems ← mmap (λ '(x, y), py_mod y x) pairs;
          if existsb (λ r, negb (r =? 0)) rems then Ok false
          else
            ok ← check_node_l0_capacity tile (rstep_map td);
            if negb ok then Ok false else Ok (check_tile_shape_isvalid arch td)
  end.

(** [_assign_block_size]; [tensorcore_legalization] keeps the last two axes. *)
Definition cube_assign (td : TileDict) : res (option Hint) :=
  match tensorcore_config tags with
  | None => h ← assign_block_size f infer td; Ok (Some h)
  | Some (ax_m, ax_n) =>
      let tile := tile_map td in
      cube_tile ← py_setitem (replicate (length tile) 1) ax_m (fractal_m info);
      cube_tile ← py_setitem cube_tile ax_n (fractal_n info);
      m ← py_index tile ax_m;
      n ← py_index tile ax_n;
      if (m <? fractal_m info) || (n <? fractal_n info) then Ok None
      else
        rsteps ← mmap (λ '(i, _), or_raise KeyError (rstep_map td !! i)) (imap pair (raxis f));
        let out_dtype := default "float16"%string (intrin_out_dtype tags) in
        Ok (Some (MkHint (py_from tile (-2)) (replicate (length tile) 1) rsteps (replicate (length (raxis f)) 1)
                    (cached_tensors td) [] (py_from cube_tile (-2)) true (stage info) (depth info)
                    (Some (bool_decide (out_dtype ∈ ["float32"; "int32"]%string)))))
  end.

(** [_expand_reduce_axis]: the steps of a tile with a small axis grow up to the
    capacity of all L0 buffers together; the depth multiplies the steps last. *)
Definition cube_score (tile : list Z) (all_steps : list (list Z)) (ids : list nat) : res Z :=
  rs ← steps_at all_steps ids;
  shapes ← propagate_inputs_on_reduction tile rs;
  mfold (λ score '(i, b), s ← py_index shapes i; c ← coalesced_factor s (shape b); Ok (score + c))
    0 (zip (seqZ 0 (len (reduction_inputs f))) (reduction_inputs f)).

Definition small_tile (tile : list Z) : bool := existsb (λ t, t <=? 32) tile.

(** The bytes themselves, without the multiplier. *)
Definition plain_usage (tile rs : list Z) : res (num * list string) :=
  '(n, c) ← cube_usage tile rs; Ok (PyInt n, c).

Definition cube_grow (td : TileDict) : option (res TileDict) :=
  r ← (if bool_decide (raxis f = []) then Some (Ok (rstep_map td))
       else optimize CubeMethods (cube_score (tile_map td)) (plain_usage (tile_map td)) (get_total_l0_capacity arch) (rstep_map td));
  Some (rs ← r; with_rstep f custom_mem_mul CubeMethods td rs).

Definition scale_steps (td : TileDict) : TileDict :=
  match depth info with
  | None => td
  | Some d => MkTileDict (output_tile td) (tile_map td) ((λ v, v * d) <$> rstep_map td) (traffic td) (smem_cost td)
                (cached_tensors td) (grid_size td) (num_wave td) (td_valid td)
  end.

Definition cube_expand (td : TileDict) : option (res TileDict) :=
  r ← (if small_tile (tile_map td) then cube_grow td else Some (Ok td));
  Some (td' ← r; Ok (scale_steps td')).

Definition AscendCubePolicy : Policy :=
  MkPolicy CubeMethods (l1_cap arch) cube_assign_reduce_step cube_check cube_expand cube_assign.
End cube.

(** [get_roller_hints_from_func] of [carver/utils.py] on this platform: the cube
    policy for the tensorized function when there is one. *)
Definition get_roller_hints_from_func `{NumPy} (arch : AscendArch) (custom_mem_mul : num) (topk : Z)
    (func : PrimFunc) (infer : list Z → list (string * Z) → option (list string) → list (string * list Z) * list string)
    (tensorized : option (PrimFunc * (list Z → list (string * Z) → option (list string) → list (string * list Z) * list string) * Tags)) :
    option (res (list Hint)) :=
  match tensorized with
  | Some (tfunc, tinfer, tags) =>
      match legalize_cube_info arch tags with
      | Raise e => Some (Raise e)
      | Ok info => emit_config arch tfunc custom_mem_mul tinfer (AscendCubePolicy arch tfunc custom_mem_mul tinfer tags info) topk
      end
  | None => emit_config arch func custom_mem_mul infer (AscendDefaultPolicy arch func custom_mem_mul infer) topk
  end.
