(* ===== verification/CubeTotal.v ===== *)
(** * The hints of the matrix policy

    That [AscendCubePolicy] returns, and what its hints promise: whole tiles of
    the result, at least one fractal large, whose operands fit the L0 buffers for
    the reduction steps first assigned.  The steps the policy grows afterwards are
    compared with the L0 buffers together only; the last module shows where that
    and a short reduction axis fail. *)
From stdpp Require Import base strings gmap numbers sorting list.
From Stdlib Require Import Znumtheory.
From S2P Require Import Prelude BestFit Factors Graph SmemUsage TileSearch RollerPolicy RollerHints RollerTotal CubePolicy.
#[local] Open Scope Z_scope.

Lemma py_setitem_nat {A} (l : list A) (k : nat) x : (k < length l)%nat → py_setitem l (Z.of_nat k) x = Ok (<[k := x]> l).
Proof.
  intros Hk. unfold py_setitem, norm_idx, len. destruct (Z.ltb_spec (Z.of_nat k) 0); [lia|].
  destruct (Z.leb_spec (Z.of_nat (length l)) (Z.of_nat k)); [lia|]. destruct (Z.ltb_spec (Z.of_nat k) 0); [lia|]. simpl. by rewrite Nat2Z.id.
Qed.

(** What the policy expects of the tags and the function it is made for. *)
Record cube_ok (f : PrimFunc) (tags : Tags) (info : CubeInfo) (m n : nat) : Prop := {
  co_config : tensorcore_config tags = Some (Z.of_nat m, Z.of_nat n);
  co_axes : (m < length (space_dim f))%nat ∧ (n < length (space_dim f))%nat;
  co_reduction : is_Some (reduction_block f);
  co_input : ∃ b, reduction_inputs f !! 0%nat = Some b ∧ (cube_k info | 512 * 8 / bits b) ∧ bits b ≤ 512 * 8;
  co_extents : Forall (λ e, cube_k info ≤ e) (raxis f).*2;
  co_info : 0 < fractal_m info ∧ 0 < fractal_n info ∧ 0 < cube_k info ∧ 0 < stage info;
}.

Section cube.
Context `{!NumPy, !NumPyLaws} (arch : AscendArch) (f : PrimFunc) (custom_mem_mul : num).
Context (infer : list Z → list (string * Z) → option (list string) → list (string * list Z) * list string).
Context (tags : Tags) (info : CubeInfo) (m n : nat).
Context (F : func_ok f) (I : infer_ok f infer) (O : cube_ok f tags info m n).

#[local] Notation M := (CubeMethods f infer tags info).

Lemma reduction_buffers b : b ∈ reduction_inputs f → b ∈ buffers f.
Proof using Type.
  intros Hb. unfold reduction_inputs in Hb. destruct (reduction_block f) as [r|]; [|by apply elem_of_nil in Hb].
  destruct (blocks f !! r) as [blk|] eqn:Eb; [|by apply elem_of_nil in Hb].
  eapply block_buffers; [by eapply list_elem_of_lookup_2|by right].
Qed.

(** ** Candidates and steps *)

Definition axis_candidates (extent : Z) : list Z := (λ x, x * cube_k info) <$> get_all_factors (extent / cube_k info).

Lemma cube_candidates_eq : cube_candidates f tags info = Some (axis_candidates <$> (raxis f).*2).
Proof using O. unfold cube_candidates. by rewrite (co_config _ _ _ _ _ O). Qed.

Lemma axis_candidates_spec e x :
  cube_k info ≤ e < 2 ^ 52 → x ∈ axis_candidates e ↔ ∃ y, x = y * cube_k info ∧ 0 < y ∧ (y | e / cube_k info).
Proof using O H0.
  intros He. pose proof (co_info _ _ _ _ _ O) as (_ & _ & Hk & _). unfold axis_candidates. rewrite list_elem_of_fmap.
  destruct (get_all_factors_spec (e / cube_k info)) as [_ Hd]; [split; [apply Z.div_le_lower_bound; lia|]|].
  { apply Z.le_lt_trans with e; [apply Z.div_le_upper_bound; nia|lia]. }
  split; intros (y & -> & Hy); exists y; (split; [done|]); by apply Hd.
Qed.

Lemma extent_range e : e ∈ (raxis f).*2 → cube_k info ≤ e < 2 ^ 52.
Proof using O F.
  intros He. pose proof (co_extents _ _ _ _ _ O) as H1. pose proof (fo_axes f F) as H2. rewrite Forall_forall in H1, H2.
  specialize (H1 e He). specialize (H2 e He). simpl in *. lia.
Qed.

Lemma cube_laws : MethodLaws f M.
Proof using F I O H0.
  split.
  - intros tile rs k c. simpl. unfold cube_usage. intros ([v cached] & E & [= <- <-])%bind_Ok.
    apply footprint_lines in E. by apply Z.divide_mul_l.
  - exists (axis_candidates <$> (raxis f).*2). split; [apply cube_candidates_eq|]. split; [by rewrite !length_fmap|].
    apply Forall_fmap, Forall_forall. intros e He. pose proof (extent_range e He) as Hr. pose proof (co_info _ _ _ _ _ O) as (_ & _ & Hk & _). simpl. split.
    + intros E. assert (1 * cube_k info ∈ axis_candidates e) as Hin; [|rewrite E in Hin; by apply elem_of_nil in Hin].
      apply axis_candidates_spec; [done|]. exists 1. split_and!; [done|done|apply Z.divide_1_l].
    + apply Forall_forall. intros x (y & -> & Hy & _)%axis_candidates_spec; [nia|done].
  - intros tile rs T Hrs. simpl. unfold cube_usage. destruct (footprint_total f infer F I tile rs T Hrs) as [[v c] ->]. by eexists.
Qed.

Lemma cube_steps_total basic extents :
  0 < basic → ∃ o, cube_steps info basic extents = Ok o.
Proof using O.
  intros Hb. induction extents as [|e extents [o IH]]; simpl; [eauto|]. rewrite IH. unfold py_mod.
  destruct (0 <? e mod cube_k info); cbn [mbind res_bind]; [eauto|]. destruct (Z.eqb_spec basic 0); [lia|]. cbn [mbind res_bind].
  destruct (e mod basic =? 0); eauto.
Qed.

(** A step that is a whole number of fractals is a candidate or divides none. *)
Lemma step_startable e r :
  cube_k info ≤ e < 2 ^ 52 → 0 < r → (cube_k info | r) →
  r ∈ axis_candidates e ∨ ∀ x, x ∈ axis_candidates e → ¬ (r | x).
Proof using O H0.
  intros He Hr [b ->]. pose proof (co_info _ _ _ _ _ O) as (_ & _ & Hk & _).
  destruct (Zdivide_dec b (e / cube_k info)) as [Hd|Hd].
  - left. apply axis_candidates_spec; [done|]. exists b. split_and!; [done|nia|done].
  - right. intros x (y & -> & Hy & Hye)%axis_candidates_spec [z Hz]; [|done]. apply Hd.
    transitivity y; [|done]. exists z. nia.
Qed.

Lemma cube_steps_startable basic extents rs :
  0 < basic → (cube_k info | basic) → Forall (λ e, cube_k info ≤ e < 2 ^ 52) extents →
  cube_steps info basic extents = Ok (Some rs) → startable (axis_candidates <$> extents) rs.
Proof using O H0.
  intros Hb Hk. pose proof (co_info _ _ _ _ _ O) as (_ & _ & Hk0 & _). revert rs.
  induction extents as [|e extents IH]; intros rs Hf E; simpl in E; [simplify_eq; constructor|].
  apply Forall_cons in Hf as [He Hf].
  assert (∃ r rest, rs = r :: rest ∧ 0 < r ∧ (cube_k info | r) ∧ cube_steps info basic extents = Ok (Some rest)) as (r & rest & -> & Hr & Hkr & Er).
  { destruct (0 <? e mod cube_k info).
    - apply bind_Ok in E as ([rest|] & Er & [= <-]). eexists _, rest. split_and!; [done| | |done]; by destruct (e <? basic).
    - apply bind_Ok in E as (z & _ & E). destruct (z =? 0); [|done]. apply bind_Ok in E as ([rest|] & Er & [= <-]).
      by exists basic, rest. }
  constructor; [|by apply IH]. split; [done|]. by apply step_startable.
Qed.

Lemma cube_assign_ok : ∃ rs, cube_assign_reduce_step f infer tags info = Some (Ok rs) ∧ start_ok f M rs.
Proof using F I O H0.
  unfold cube_assign_reduce_step. rewrite (co_config _ _ _ _ _ O).
  destruct (co_input _ _ _ _ _ O) as (b & Hb & Hk & Hbits). rewrite (py_index_nat _ 0 b Hb : py_index (reduction_inputs f) 0 = Ok b).
  pose proof (reduction_buffers b (list_elem_of_lookup_2 _ _ _ Hb)) as Hbuf.
  pose proof (fo_bits f F b Hbuf) as Hpos. cbn [mbind res_bind]. unfold py_floordiv.
  destruct (Z.eqb_spec (bits b) 0); [lia|]. cbn [mbind res_bind].
  assert (0 < 512 * 8 / bits b) as Hbasic by (apply Z.div_str_pos; lia).
  destruct (cube_steps_total (512 * 8 / bits b) (raxis f).*2 Hbasic) as [[rs|] Hs]; rewrite Hs.
  - exists rs. split; [done|].
    assert (startable (axis_candidates <$> (raxis f).*2) rs) as Hst.
    { eapply cube_steps_startable; [exact Hbasic|done| |exact Hs]. apply Forall_forall. intros e. apply extent_range. }
    split.
    + apply Forall_forall. intros r [k Hkk]%list_elem_of_lookup_1. by destruct (Forall2_lookup_r _ _ _ _ _ Hst Hkk) as (? & _ & ? & _).
    + intros Hax. rewrite Hax in Hs. simpl in Hs. by simplify_eq.
    + intros cands _ Hc. simpl in Hc. rewrite cube_candidates_eq in Hc. by simplify_eq.
  - pose proof cube_laws as ML. destruct (assign_reduce_step_ok f infer F I M) as (rs & -> & Hp & Hn & Hc). exists rs. split; [done|].
    split; [done|done|]. intros cands Hax Hcs. apply startable_elem; [done|by apply Hc].
Qed.
(** ** Growing the steps *)

Lemma on_reduction_total tile rs :
  tile_ok f tile → positive rs →
  ∃ l, propagate_inputs_on_reduction f infer tile rs = Ok l ∧ Forall2 part_of (reduction_inputs f) l.
Proof using F I.
  intros [Hr Hp] Hrs. unfold propagate_inputs_on_reduction. set (ts := name <$> reduction_inputs f).
  pose proof (λ b Hb Hn, io_some f infer I b tile (axis_steps f rs) ts Hb Hn Hr Hp (axis_steps_positive f rs Hrs)) as Hio.
  destruct (infer tile (axis_steps f rs) (Some ts)) as [shapes bound]. simpl in Hio. apply mmap_total.
  intros b Hb. pose proof (reduction_buffers b Hb) as Hbuf. destruct (Hio b Hbuf) as (s & -> & Hs); [by apply list_elem_of_fmap_2|]. cbn [mbind res_bind].
  destruct (bool_decide _); [eauto|]. eexists. split; [done|]. destruct (fo_shape f F b Hbuf) as [_ Hsh]. pose proof Hs as [Hne Hrank _].
  apply min_part; [done| |by apply Forall_drop].
  intros E. apply (f_equal length) in E. rewrite length_drop in E. destruct s; [done|]. simpl in *. lia.
Qed.

Lemma cube_score_total tile all_steps ids :
  tile_ok f tile → steps_ok all_steps → in_range all_steps ids → ∃ z, cube_score f infer tile all_steps ids = Ok z.
Proof using F I.
  intros T Hp Hr. unfold cube_score. destruct (steps_at_total all_steps ids Hp Hr) as (rs & -> & Hrs & _). cbn [mbind res_bind].
  destruct (on_reduction_total tile rs T Hrs) as (ins & -> & Hi). cbn [mbind res_bind].
  apply mfold_indexed. intros c k b Hk. destruct (Forall2_lookup_l _ _ _ _ _ Hi Hk) as (s & Hs & Hpart).
  rewrite (py_index_nat _ _ _ Hs). cbn [mbind res_bind].
  destruct (coalesced_total b s Hpart) as (y & -> & _); [|eauto].
  apply (fo_shape f F), reduction_buffers. by eapply list_elem_of_lookup_2.
Qed.

Lemma cube_grow_total td :
  tile_ok f (tile_map td) → start_ok f M (rstep_map td) →
  ∃ td', cube_grow arch f custom_mem_mul infer tags info td = Some (Ok td') ∧ tile_map td' = tile_map td ∧
    length (rstep_map td') = length (raxis f) ∧ Forall2 (λ a b, (a | b)) (rstep_map td) (rstep_map td').
Proof using F I O H0.
  intros T [Hp Hn Hc]. pose proof cube_laws as ML. unfold cube_grow.
  assert (∃ rs', (if bool_decide (raxis f = []) then Some (Ok (rstep_map td)) else
      optimize M (cube_score f infer (tile_map td)) (plain_usage f infer info (tile_map td)) (get_total_l0_capacity arch) (rstep_map td))
      = Some (Ok rs') ∧ length rs' = length (raxis f) ∧ positive rs' ∧ Forall2 (λ a b, (a | b)) (rstep_map td) rs')
    as (rs' & -> & Hl & Hp' & Hd).
  { case_bool_decide as Hax; [rewrite (Hn Hax), Hax; exists []; split_and!; by auto|].
    destruct (ml_candidates (M := M)) as (cands & Hcands & Hlen & Hok). pose proof (Hc cands Hax Hcands) as Hst.
    destruct (optimize_total M (cube_score f infer (tile_map td)) (plain_usage f infer info (tile_map td)) (get_total_l0_capacity arch)
      cands (rstep_map td) Hcands (candidates_positive _ Hok) Hst) as (rs' & ? & ? & ? & ? & _).
    - intros all_steps ids. by apply cube_score_total.
    - intros rs' _ Hrs'. unfold plain_usage.
      destruct (ml_usage (M := M) (tile_map td) rs' T Hrs') as [[x c] Hx]. simpl in Hx. rewrite Hx. by eexists.
    - exists rs'. split_and!; try done. rewrite <- Hlen. etransitivity; [done|]. symmetry. by eapply Forall2_length. }
  cbn [mbind option_bind res_bind]. unfold with_rstep.
  destruct (shared_memory_total f custom_mem_mul M (tile_map td) rs' T Hp') as [[k c] ->]. cbn [mbind res_bind]. by eexists.
Qed.

Lemma start_length rs : start_ok f M rs → length rs = length (raxis f).
Proof using F I O H0.
  intros [_ Hn Hc]. destruct (decide (raxis f = [])) as [Hax|Hax]; [by rewrite (Hn Hax), Hax|].
  destruct (ml_candidates (MethodLaws := cube_laws)) as (cands & Hcands & Hlen & _).
  rewrite <- Hlen. symmetry. eapply Forall2_length, Hc; done.
Qed.

Lemma cube_expand_total td :
  tile_ok f (tile_map td) → start_ok f M (rstep_map td) →
  ∃ td', cube_expand arch f custom_mem_mul infer tags info td = Some (Ok td') ∧ tile_map td' = tile_map td ∧
    length (rstep_map td') = length (raxis f) ∧ Forall2 (λ a b, (a | b)) (rstep_map td) (rstep_map td') ∧
    (small_tile (tile_map td) = false → depth info = None → rstep_map td' = rstep_map td).
Proof using F I O H0.
  intros T St. unfold cube_expand.
  assert (∃ td1, (if small_tile (tile_map td) then cube_grow arch f custom_mem_mul infer tags info td else Some (Ok td)) = Some (Ok td1) ∧
    tile_map td1 = tile_map td ∧ length (rstep_map td1) = length (raxis f) ∧ Forall2 (λ a b, (a | b)) (rstep_map td) (rstep_map td1) ∧
    (small_tile (tile_map td) = false → rstep_map td1 = rstep_map td)) as (td1 & -> & Htm & Hl & Hd & Hs).
  { destruct (small_tile (tile_map td)).
    - destruct (cube_grow_total td T St) as (td1 & -> & ? & ? & ?). exists td1. by split_and!.
    - exists td. assert (Forall2 (λ a b, (a | b)) (rstep_map td) (rstep_map td)) by
        (clear; induction (rstep_map td); constructor; [apply Z.divide_refl|done]).
      split_and!; [done|done|by apply start_length|done|done]. }
  cbn [mbind option_bind res_bind]. eexists. split; [done|]. unfold scale_steps. destruct (depth info) as [d|]; simpl; [|by split_and!; auto].
  split_and!; [done|by rewrite length_fmap| |done]. apply Forall2_fmap_r. eapply Forall2_impl; [exact Hd|]. intros a b. apply Z.divide_mul_l.
Qed.
(** ** Check and assignment *)

(** The operands of a tile and its result fit the L0 buffers, the operands once
    per pipeline stage. *)
Definition fits_l0 (tile rs : list Z) : Prop :=
  ∀ na sa nb sb rest, propagate_reduction_inputs f infer tile rs = (na, sa) :: (nb, sb) :: rest →
  ∃ r blk a, reduction_block f = Some r ∧ blocks f !! r = Some blk ∧ reduction_inputs f !! 0%nat = Some a ∧
    prod sa * nbytes (bits a) * stage info ≤ l0a_cap arch ∧
    prod sb * nbytes (bits (default a (reduction_inputs f !! 1%nat))) * stage info ≤ l0b_cap arch ∧
    prod tile * nbytes (bits (output_buffer blk)) ≤ l0c_cap arch.

Lemma align_to_l0_ge x a : 0 < a → x ≤ align_to_l0 x a.
Proof using Type. clear. intros Ha. unfold align_to_l0. pose proof (Z.div_mod (x + a - 1) a). pose proof (Z.mod_pos_bound (x + a - 1) a). nia. Qed.

Lemma check_l0_total tile rs :
  ∃ b, check_node_l0_capacity arch f infer info tile rs = Ok b ∧ (b = true → fits_l0 tile rs).
Proof using F O.
  unfold check_node_l0_capacity, fits_l0.
  destruct (propagate_reduction_inputs f infer tile rs) as [|[na sa] [|[nb sb] rest]]; [eexists; split; [done|]; by intros _ ? ? ? ? ? [=]..|].
  destruct (co_input _ _ _ _ _ O) as (a & Ha & _). rewrite (py_index_nat _ 0 a Ha : py_index (reduction_inputs f) 0 = Ok a). cbn [mbind res_bind].
  destruct (co_reduction _ _ _ _ _ O) as [r Hr]. destruct (lookup_lt_is_Some_2 (blocks f) r (fo_block f F r Hr)) as [blk Hblk].
  rewrite Hr. cbn [mbind option_bind]. rewrite Hblk. cbn [fmap option_fmap option_map or_raise mbind res_bind].
  eexists. split; [done|]. intros E ? ? ? ? ? [= <- <- <- <- <-]. exists r, blk, a. split_and!; try done;
    unfold check_l0_usage in E; apply andb_true_iff in E as [E E3]; apply andb_true_iff in E as [E1 E2];
    apply Z.leb_le in E1, E2, E3; pose proof (co_info _ _ _ _ _ O) as (_ & _ & _ & Hs).
  - etransitivity; [|exact E1]. apply Z.mul_le_mono_nonneg_r; [lia|]. by apply align_to_l0_ge.
  - etransitivity; [|exact E2]. apply Z.mul_le_mono_nonneg_r; [lia|]. by apply align_to_l0_ge.
  - etransitivity; [|exact E3]. by apply align_to_l0_ge.
Qed.

(** What an accepted tile satisfies. *)
Record accepted (tile rs : list Z) : Prop := {
  ac_whole : Forall2 (λ t d, (t | d)) tile (space_dim f);
  ac_fractal : ∃ bm bn, tile !! m = Some bm ∧ fractal_m info ≤ bm ∧ tile !! n = Some bn ∧ fractal_n info ≤ bn;
  ac_l0 : fits_l0 tile rs;
}.

Lemma cube_check_total td :
  tile_ok f (tile_map td) →
  ∃ b, cube_check arch f infer tags info td = Ok b ∧
    (b = true → accepted (tile_map td) (rstep_map td) ∧ num_gtb (smem_cost td) (ub_capacity arch) = false).
Proof using F O.
  intros [Hr Hp]. unfold cube_check. rewrite (co_config _ _ _ _ _ O). destruct (co_axes _ _ _ _ _ O) as [Hm Hn].
  set (tile := tile_map td) in *. destruct (_ || _) eqn:E; [eexists; split; [done|]; by intros [=]|]. clear E.
  destruct (lookup_lt_is_Some_2 tile m) as [bm Hbm]; [lia|]. destruct (lookup_lt_is_Some_2 tile n) as [bn Hbn]; [lia|].
  rewrite (py_index_nat _ _ _ Hbm), (py_index_nat _ _ _ Hbn). cbn [mbind res_bind].
  destruct ((bm <? _) || _) eqn:E; [eexists; split; [done|]; by intros [=]|]. apply orb_false_iff in E as [E1%Z.ltb_ge E2%Z.ltb_ge].
  unfold zip_strict. rewrite decide_True by done. cbn [mbind res_bind].
  destruct (mmap_total (λ (p : Z * Z) r, r = p.2 mod p.1 ∧ p.1 ≠ 0) (λ '(x, y), py_mod y x) (zip tile (space_dim f))) as (rems & -> & Hrems).
  { intros [x y] Hin%elem_of_zip_l. rewrite Forall_forall in Hp. specialize (Hp x Hin). unfold py_mod.
    destruct (Z.eqb_spec x 0); [lia|]. eauto. }
  cbn [mbind res_bind]. destruct (existsb _ rems) eqn:E; [eexists; split; [done|]; by intros [=]|].
  destruct (check_l0_total tile (rstep_map td)) as (b & -> & Hb). cbn [mbind res_bind]. destruct b; [|eexists; split; [done|]; by intros [=]].
  cbn [negb]. eexists. split; [done|]. intros [Hc _]%check_spec. split; [|done]. split; [|by exists bm, bn|by apply Hb].
  apply Forall2_same_length_lookup_2; [done|]. intros k t d Ht Hd.
  assert (zip tile (space_dim f) !! k = Some (t, d)) as Hk by (rewrite lookup_zip_with, Ht; simpl; by rewrite Hd).
  destruct (Forall2_lookup_l _ _ _ _ _ Hrems Hk) as (r & Hrk & -> & Hne). simpl in *. apply Z.mod_divide; [done|].
  destruct (Z.eqb_spec (d mod t) 0) as [|Hnz]; [done|]. apply not_true_iff_false in E. destruct E. apply existsb_exists.
  exists (d mod t). split; [by apply list_elem_of_In; eapply list_elem_of_lookup_2|]. by destruct (Z.eqb_spec (d mod t) 0).
Qed.

(** The last two axes. *)
Definition last_two (l : list Z) : list Z := drop (length l - 2) l.

Lemma py_from_two l : py_from l (-2) = last_two l.
Proof using Type.
  clear. unfold last_two. destruct (decide (2 ≤ length l)%nat).
  - apply (py_from_neg l 2); lia.
  - replace (length l - 2)%nat with 0%nat by lia. apply (py_from_neg_all l 2). lia.
Qed.

Definition fractal_tile (rank : nat) : list Z := <[n := fractal_n info]> (<[m := fractal_m info]> (replicate rank 1)).

Lemma cube_assign_total td :
  tile_ok f (tile_map td) → length (rstep_map td) = length (raxis f) →
  ∃ o, cube_assign f infer tags info td = Ok o ∧ ∀ h, o = Some h →
    block h = last_two (tile_map td) ∧ warp h = last_two (fractal_tile (length (tile_map td))) ∧
    thread h = replicate (length (tile_map td)) 1 ∧ rstep h = rstep_map td ∧ reduce_thread h = replicate (length (raxis f)) 1 ∧
    use_tc h = true ∧ pipeline_stage h = stage info ∧ block_reduction_depth h = depth info.
Proof using F O.
  intros [Hr _] Hl. unfold cube_assign. rewrite (co_config _ _ _ _ _ O). destruct (co_axes _ _ _ _ _ O) as [Hm Hn].
  rewrite py_setitem_nat by (rewrite length_replicate; lia). cbn [mbind res_bind].
  rewrite py_setitem_nat by (rewrite length_insert, length_replicate; lia). cbn [mbind res_bind].
  destruct (lookup_lt_is_Some_2 (tile_map td) m) as [bm Hbm]; [lia|]. destruct (lookup_lt_is_Some_2 (tile_map td) n) as [bn Hbn]; [lia|].
  rewrite (py_index_nat _ _ _ Hbm), (py_index_nat _ _ _ Hbn). cbn [mbind res_bind].
  destruct (_ || _); [eexists; split; [done|]; by intros ? [=]|]. rewrite (steps_of_axes f td Hl). cbn [mbind res_bind].
  eexists. split; [done|]. intros h [= <-]. simpl. rewrite !py_from_two. by split_and!.
Qed.
End cube.

(** What a hint of this policy promises: the last two axes of a tile that divides
    the result, is on the searched grid and at least a fractal large; for the steps
    [rs] first assigned its operands fit the L0 buffers and its cost, the counted
    bytes times the multiplier, L1; the steps of the hint are multiples of [rs], and [rs] itself
    when no axis is small and there is no block reduction. *)
Record good_cube_hint `{!NumPy} (arch : AscendArch) (f : PrimFunc) (custom_mem_mul : num)
    (infer : list Z → list (string * Z) → option (list string) → list (string * list Z) * list string) (tags : Tags) (info : CubeInfo)
    (m n : nat) (rs base : list Z) (h : Hint) (tile : list Z) : Prop := {
  gc_block : block h = last_two tile ∧ warp h = last_two (fractal_tile info m n (length tile));
  gc_grid : ∃ steps steps', factor_steps f base = Ok steps ∧ mmap add_simd_sizes steps = Ok steps' ∧ on_grid steps' tile;
  gc_positive : positive tile;
  gc_accepted : accepted arch f infer info m n tile rs;
  gc_cost : ∃ bytes c, shared_memory_usage f custom_mem_mul (CubeMethods f infer tags info) tile rs = Ok (bytes, c) ∧
    num_gtb bytes (l1_cap arch) = false;
  gc_steps : Forall2 (λ a b, (a | b)) rs (rstep h);
  gc_unchanged : Forall (λ t, 32 < t) tile → depth info = None → rstep h = rs;
  gc_stage : use_tc h = true ∧ pipeline_stage h = stage info ∧ block_reduction_depth h = depth info;
}.

Lemma small_tile_false tile : Forall (λ t, 32 < t) tile → small_tile tile = false.
Proof.
  intros Ht. unfold small_tile. apply not_true_iff_false. intros (t & Hin%list_elem_of_In & Hle%Z.leb_le)%existsb_exists.
  rewrite Forall_forall in Ht. specialize (Ht t Hin). simpl in Ht. lia.
Qed.

(** C10: for a function with sensible buffers and axes and an analyzer that answers
    for every buffer, which is a matrix function whose reduction axes are at least a
    fractal long ([cube_ok]), and any multiplier, the cube policy returns: at most
    [max(1, topk)] hints, each a tile that divides the result, at least one fractal
    large on both matrix axes.  For the reduction steps first assigned, of which the
    steps of the hint are multiples, its operands fit the L0 buffers, once per
    pipeline stage, and the counted bytes times the multiplier are not above L1; the
    steps of the hint itself may be larger when the tile is small or there is a
    block reduction. *)
Theorem cube_config_correct `{!NumPy, !NumPyLaws} chip detected f custom_mem_mul infer tags info m n topk :
  default 1 detected > 0 → func_ok f → infer_ok f infer → cube_ok f tags info m n →
  ∃ arch hs base rs, AscendArch_init chip detected = Ok arch ∧
    emit_config arch f custom_mem_mul infer (AscendCubePolicy arch f custom_mem_mul infer tags info) topk = Some (Ok hs) ∧
    len hs ≤ Z.max 1 topk ∧ get_base_tile f infer = Ok base ∧ cube_assign_reduce_step f infer tags info = Some (Ok rs) ∧
    Forall (λ h, ∃ tile, good_cube_hint arch f custom_mem_mul infer tags info m n rs base h tile) hs.
Proof.
  intros Hd F I O. destruct (AscendArch_init_ok chip detected Hd) as (arch & Ha & Hc & Ht).
  pose proof (cube_laws f infer tags info m n F I O) as ML. destruct (cube_assign_ok f infer tags info m n F I O) as (rs & Hrs & St).
  destruct (emit_config_total arch f custom_mem_mul infer F I Hc Ht (CubeMethods f infer tags info)
    (AscendCubePolicy arch f custom_mem_mul infer tags info) (λ base h, ∃ tile, good_cube_hint arch f custom_mem_mul infer tags info m n rs base h tile)
    rs topk) as (hs & base & He & Hb & Hl & Hg); [done|done|by apply (st_positive _ _ _ St)| |].
  2: { exists arch, hs, base, rs. split_and!; try done. eapply Forall_impl; [exact Hg|]. by intros h [? _]. }
  intros base td Hbase (P & Hr & Hv & Htm & T & Hgrid). simpl. simpl in P. apply (p_valid _ _ _ _ _ P) in Hv.
  destruct (cube_check_total arch f infer tags info m n F O td T) as (b & -> & Hok). exists b. split; [done|]. intros Hb.
  destruct (Hok Hb) as [Hacc Hub]. rewrite <- Hr in St.
  destruct (cube_expand_total arch f custom_mem_mul infer tags info m n F I O td T St) as (td' & -> & Htm' & Hlen & Hdiv & Hsame).
  rewrite <- Htm' in T. destruct (cube_assign_total f infer tags info m n F O td' T Hlen) as (o & Hassign & Ho). exists td', o. split_and!; [done|done|].
  intros h Hh. destruct (Ho h Hh) as (Hblk & Hw & _ & Hst & _ & Htc). rewrite Htm' in *. split.
  - exists (tile_map td). rewrite <- Hr. split; try done.
    + apply T.
    + do 2 eexists. split; [by apply (p_cost _ _ _ _ _ P)|done].
    + by rewrite Hst.
    + intros Hs%small_tile_false Hdep. rewrite Hst. auto.
  - rewrite Hblk. apply Forall_drop. apply T.
Qed.

(** ** Witnesses *)
Module CubeTotalEx.
Import RollerTotalEx.

Definition tags : Tags := MkTags (Some (0, 1)) None None None.
Definition info : CubeInfo := MkCubeInfo 16 16 16 2 None.

Lemma info_ok : ∀ arch, AscendArch_init "Ascend910B" None = Ok arch → legalize_cube_info arch tags = Ok info.
Proof. intros arch [= <-]. done. Qed.

Lemma matmul_cube_ok : cube_ok matmul tags info 0 1.
Proof.
  split; [done|simpl; lia|by eexists| | |simpl; lia].
  - exists A. split; [done|]. split; [by exists 16|simpl; lia].
  - cbn. rewrite Forall_cons, Forall_nil. lia.
Qed.

#[local] Instance np : NumPy := { np_ceil_sqrt := Z.sqrt_up }.
#[local] Instance np_laws : NumPyLaws.
Proof. split. done. Qed.

Lemma cube_config_correct_witness :
  ∃ arch hs, AscendArch_init "Ascend910B" None = Ok arch ∧
    emit_config arch matmul (PyInt 1) matmul_infer (AscendCubePolicy arch matmul (PyInt 1) matmul_infer tags info) 3 = Some (Ok hs) ∧
    block <$> hs = [[16; 16]; [16; 32]; [32; 16]] ∧ warp <$> hs = [[16; 16]; [16; 16]; [16; 16]] ∧ len hs ≤ 3.
Proof.
  destruct (cube_config_correct "Ascend910B" None matmul (PyInt 1) matmul_infer tags info 0 1 3) as (arch & hs & base & rs & Ha & He & Hl & _);
    [simpl; lia|exact matmul_ok|exact matmul_infer_ok|exact matmul_cube_ok|].
  exists arch, hs. split; [done|]. split; [done|]. vm_compute in Ha. injection Ha as <-. vm_compute in He. injection He as <-.
  split; [done|]. split; [done|]. exact Hl.
Defined.

(** A product with a long or a short reduction axis. *)
Definition product (k : Z) : PrimFunc :=
  let A := MkBuffer "A" [64; k] 16 in let B := MkBuffer "B" [k; 64] 16 in let C := MkBuffer "C" [64; 64] 16 in
  MkPrimFunc [MkTirBlock C [A; B] true []] (Some 0%nat) [("k"%string, k)] [64; 64] [A; B] [C].

(** The first hint for an axis of 4096: the steps of a small tile grow to the
    whole axis, although its operand then takes 256 KB of the 64 KB of L0A. *)
Lemma steps_exceed_l0 :
  ∃ arch h, AscendArch_init "Ascend910B" None = Ok arch ∧
    emit_config arch (product 4096) (PyInt 1) matmul_infer (AscendCubePolicy arch (product 4096) (PyInt 1) matmul_infer tags info) 1 = Some (Ok [h]) ∧
    block h = [16; 16] ∧ rstep h = [4096] ∧
    check_node_l0_capacity arch (product 4096) matmul_infer info (block h) (rstep h) = Ok false ∧
    l0a_cap arch < 16 * 4096 * 2 * pipeline_stage h.
Proof. do 2 eexists. split; [vm_compute; reflexivity|]. split; [vm_compute; reflexivity|]. by vm_compute. Qed.

(** For an axis shorter than a fractal the candidates are [[0]], which the step of
    one fractal is not in. *)
Lemma short_axis_raises :
  ∃ arch, AscendArch_init "Ascend910B" None = Ok arch ∧
    emit_config arch (product 8) (PyInt 1) matmul_infer (AscendCubePolicy arch (product 8) (PyInt 1) matmul_infer tags info) 1 = Some (Raise ValueError).
Proof. eexists. split; [vm_compute; reflexivity|]. by vm_compute. Qed.
End CubeTotalEx.
