(* ===== verification/Quantize.v ===== *)
(** * Low-precision numbers

    The conversions of [src/tilelang/quantize/quantization.py] and the packing of
    [quantize/utils.py].  A TIR expression is modelled by its value, an integer
    within its type: additions and left shifts of 32-bit words wrap, a right shift
    of a signed value keeps the sign, a [reinterpret] is the bit pattern.  The
    conversion of a small integer to the result type is exact and left out. *)
From stdpp Require Import base strings numbers list.
From S2P Require Import Prelude.
#[local] Open Scope Z_scope.

(** ** Words *)

Definition u32 (z : Z) : Z := z mod 2 ^ 32.
Definition u16 (z : Z) : Z := z mod 2 ^ 16.
Definition s8 (z : Z) : Z := (z + 2 ^ 7) mod 2 ^ 8 - 2 ^ 7.
Definition s32 (z : Z) : Z := (z + 2 ^ 31) mod 2 ^ 32 - 2 ^ 31.

(** The [pos]-th field of [nbit] bits. *)
Definition field (nbit pos val : Z) : Z := Z.land (Z.shiftr val (pos * nbit)) (Z.shiftl 1 nbit - 1).

Record Dtype := MkDtype { kind : string; width : Z }.

#[export] Instance Dtype_eq_dec : EqDecision Dtype.
Proof. solve_decision. Defined.

(** An expression: its type and its value. *)
Record Expr := MkExpr { dtype : Dtype; value : Z }.

(** ** Packed integers *)

Definition _tir_u32_to_int_to_float (nbit : Z) (val : Expr) (pos : Z) : res Z :=
  py_assert (bool_decide (dtype val = MkDtype "uint" 32));;
  Ok (field nbit pos (value val)).

Definition _tir_packed_uint_to_uint_to_float (storage_nbit nbit : Z) (val : Expr) (pos : Z) : res Z :=
  py_assert (bool_decide (dtype val = MkDtype "uint" storage_nbit));;
  let max_int_value := Z.shiftl 1 (nbit - 1) - 1 in
  Ok (field nbit pos (value val) - max_int_value).

Definition sign_extend (nbit unextended : Z) : Z :=
  Z.shiftr (s32 (Z.shiftl unextended (32 - nbit))) (32 - nbit).

Definition _tir_packed_int_to_int_convert (storage : Dtype) (nbit : Z) (val : Expr) (pos : Z) : res Z :=
  py_assert (bool_decide (dtype val = storage));;
  Ok (sign_extend nbit (field nbit pos (value val))).

Definition _tir_packed_int_to_int_to_float (storage_nbit nbit : Z) (val : Expr) (pos : Z) : res Z :=
  _tir_packed_int_to_int_convert (MkDtype "int" storage_nbit) nbit val pos.

Definition _tir_packed_to_signed_convert (storage : Dtype) (nbit : Z) (val : Expr) (pos : Z) : res Z :=
  py_assert (bool_decide (dtype val = storage));;
  let max_int_value := Z.shiftl 1 (nbit - 1) in
  Ok (field nbit pos (value val) - max_int_value).

Definition _tir_packed_to_unsigned_convert (storage : Dtype) (nbit : Z) (val : Expr) (pos : Z) : res Z :=
  py_assert (bool_decide (dtype val = storage));;
  Ok (field nbit pos (value val)).

(** The difference to the zero point, an expression of the storage type, is
    taken in the storage type. *)
Definition wrap_to (d : Dtype) (z : Z) : Z :=
  if bool_decide (kind d = "uint"%string) then z mod 2 ^ width d
  else (z + 2 ^ (width d - 1)) mod 2 ^ width d - 2 ^ (width d - 1).

Definition _tir_packed_to_unsigned_convert_with_zeros (storage : Dtype) (nbit : Z) (val : Expr) (pos zero : Z) : res Z :=
  py_assert (bool_decide (dtype val = storage));;
  Ok (wrap_to storage (field nbit pos (value val) - zero)).

(** [general_compress] on one row: [int8_weight[j] |= (w << (source_bits * k)).to(int8)]. *)
Fixpoint pack_byte (source_bits k : Z) (ws : list Z) (byte : Z) : Z :=
  match ws with
  | [] => byte
  | w :: ws' => pack_byte source_bits (k + 1) ws' (Z.lor byte (s8 (Z.shiftl w (source_bits * k))))
  end.

Definition general_compress (source_bits : Z) (row : list Z) : res (list Z) :=
  elems_per_byte ← py_floordiv 8 source_bits;
  bytes ← py_floordiv (len row) elems_per_byte;
  Ok ((λ j, pack_byte source_bits 0 (take (Z.to_nat elems_per_byte) (drop (Z.to_nat (j * elems_per_byte)) row)) 0) <$> seqZ 0 bytes).

(** [interleave_weight] on one 32-bit word, a bit pattern; [torch_int32] is the
    call [torch.int32(z)] of the special cases. *)
Definition interleave_shift (nbits bits_stride num_groups offset : Z) : Z :=
  (offset mod num_groups) * bits_stride + (offset / num_groups) * nbits.

Definition scatter (nbits : Z) (shift : Z → Z) (qweight : Z) (offsets : list Z) : Z :=
  foldl (λ acc offset, Z.lor acc (Z.shiftl (field nbits offset qweight) (shift offset))) 0 offsets.

Definition move (word mask right left : Z) : Z := Z.shiftl (Z.shiftr (Z.land word mask) right) left.

Definition interleave_weight (torch_int32 : Z → res Z) (qweight nbits : Z) (target_dtype : string) : res Z :=
  py_assert (bool_decide (target_dtype ∈ ["float16"; "int8"]%string));;
  let int8 := bool_decide (target_dtype = "int8"%string) in
  let bits_stride := if int8 then 8 else 16 in
  let num_groups := 32 / bits_stride in
  elems_per_group ← py_floordiv bits_stride nbits;
  let new_qweight := scatter nbits (interleave_shift nbits bits_stride num_groups) qweight
    (concat ((λ i, (λ j, i * elems_per_group + j) <$> seqZ 0 elems_per_group) <$> seqZ 0 num_groups)) in
  let moves keep ms :=
    k ← torch_int32 keep;
    mfold (λ acc '(m, r, l), m ← torch_int32 m; Ok (Z.lor acc (move new_qweight m r l))) (Z.land new_qweight k) ms in
  if (nbits =? 1) && int8 then
    moves 0xF0F00F0F [(0x000000F0, 4, 16); (0x0000F000, 12, 24); (0x000F0000, 16, 4); (0x0F000000, 24, 12)]
  else if (nbits =? 2) && negb int8 then
    moves 0xFF0000FF [(0x0000FF00, 8, 16); (0x00FF0000, 16, 8)]
  else if (nbits =? 1) && negb int8 then
    moves 0xF000000F [(0x000000F0, 4, 8); (0x00000F00, 8, 16); (0x0000F000, 12, 24); (0x000F0000, 16, 4);
                      (0x00F00000, 20, 12); (0x0F000000, 24, 20)]
  else Ok new_qweight.

(** ** bfloat16 *)

Definition bf16_of_f32 (round_to_even : bool) (data : Z) : Z :=
  let u32_val := if round_to_even then u32 (data + (Z.land (Z.shiftr data 16) 1 + 0x7FFF)) else data in
  Z.land (Z.shiftr u32_val 16) (Z.shiftl 1 16 - 1).

Definition _tir_f32x2_to_bf16x2_to_u32 (v0 v1 : Z) (round_to_even : bool) : Z :=
  Z.lor (bf16_of_f32 round_to_even v0) (u32 (Z.shiftl (bf16_of_f32 round_to_even v1) 16)).

Definition _tir_u32_to_bf16x2_to_f32x2 (x : Z) : Z * Z :=
  let mask := Z.shiftl 1 16 - 1 in
  let x0 := Z.land x mask in
  let x1 := Z.land (Z.shiftr x 16) mask in
  (u32 (Z.shiftl x0 16), u32 (Z.shiftl x1 16)).

(** ** 4-bit floats: a sign and three bits of exponent *)

Definition _tir_f32_to_uint_to_f4 (val : Expr) : res Z :=
  py_assert (bool_decide (dtype val = MkDtype "float" 32));;
  let val_u32 := value val in
  let m_h := Z.land (Z.shiftr val_u32 22) 1 in
  let e_f32 := Z.land (Z.shiftr val_u32 23) 255 in
  let s := Z.shiftr val_u32 31 in
  let e_f4 := if 120 <? e_f32 then Z.min (e_f32 - 120 + m_h) 7 else if e_f32 =? 120 then 1 else 0 in
  Ok (Z.lor (u32 (Z.shiftl s 3)) e_f4).

Definition _tir_f16_to_uint_to_f4 (val : Expr) : res Z :=
  py_assert (bool_decide (dtype val = MkDtype "float" 16));;
  let val_u32 := value val in
  let m_h := Z.land (Z.shiftr val_u32 9) 1 in
  let e_f16 := Z.land (Z.shiftr val_u32 10) 31 in
  let s := Z.shiftr val_u32 15 in
  let e_f4 := if 8 <? e_f16 then Z.min (e_f16 - 8 + m_h) 7 else if e_f16 =? 8 then 1 else 0 in
  Ok (Z.lor (u32 (Z.shiftl s 3)) e_f4).

(** The results are the bits of a float32 and of a float16. *)
Definition _tir_u32_to_f4_to_f32 (nbit : Z) (val : Expr) (pos : Z) (to : Dtype) : res Z :=
  py_assert (nbit =? 4);;
  py_assert (bool_decide (to = MkDtype "float" 32));;
  py_assert (bool_decide (dtype val = MkDtype "uint" 32));;
  let f4 := field nbit pos (value val) in
  let s := Z.shiftr f4 3 in
  let e_f4 := Z.land f4 7 in
  let e_f32 := Z.lor e_f4 120 in
  Ok (if e_f4 =? 0 then 0 else u32 (Z.shiftl (Z.lor e_f32 (u32 (Z.shiftl s 8))) 23)).

(** Arithmetic in the storage type, of [width] bits. *)
Definition _tir_packed_to_fp4_to_f16 (storage : Dtype) (nbit : Z) (val : Expr) (pos : Z) : res Z :=
  py_assert (bool_decide (dtype val = storage));;
  let wrap z := z mod 2 ^ width storage in
  let f4 := field nbit pos (value val) in
  let s := Z.shiftr f4 3 in
  let e_f4 := Z.land f4 7 in
  let e_f16 := Z.lor e_f4 8 in
  Ok (if e_f4 =? 0 then 0 else u16 (wrap (Z.shiftl (Z.lor e_f16 (wrap (Z.shiftl s 5))) 10))).

(** ** 8-bit floats: the bits of a float16 *)

Definition _tir_u8_to_f8_e4m3_to_f16_naive (nbit val : Z) (to : Dtype) : res Z :=
  py_assert (nbit =? 8);;
  py_assert (bool_decide (to = MkDtype "float" 16));;
  let s_f16 := u16 (Z.shiftl (Z.shiftr val 7) 15) in
  let e4 := Z.land val 0x40 in
  let prefix := if e4 =? 0 then 0x2000 else 0x4000 in
  let e_f16 := Z.lor (u16 (Z.shiftl (Z.land val 63) 7)) prefix in
  Ok (Z.lor s_f16 e_f16).

Definition _tir_u8_to_f8_e4m3_to_f16 (nbit val : Z) (to : Dtype) : res Z :=
  py_assert (nbit =? 8);;
  py_assert (bool_decide (to = MkDtype "float" 16));;
  let s_f16 := u16 (Z.shiftl (Z.shiftr val 7) 15) in
  let e4 := Z.land val 0x40 in
  let e_f16 := Z.lor (Z.lor (u16 (Z.shiftl (Z.land val 63) 7)) (u16 (Z.shiftl e4 8))) (u16 (Z.shiftl e4 7)) in
  Ok (Z.lor s_f16 (Z.lxor e_f16 0x2000)).

(** ** Fields *)

Lemma mask_ones n : 0 ≤ n → Z.shiftl 1 n - 1 = Z.ones n.
Proof. intros. rewrite Z.ones_equiv, Z.shiftl_1_l. lia. Qed.

Lemma field_testbit b p x i :
  0 ≤ b → 0 ≤ p → Z.testbit (field b p x) i = (0 <=? i) && (i <? b) && Z.testbit x (p * b + i).
Proof.
  intros Hb Hp. unfold field. rewrite mask_ones, Z.land_spec by done.
  destruct (Z.leb_spec 0 i); [|by rewrite Z.testbit_neg_r by lia].
  rewrite Z.shiftr_spec, Z.add_comm by done. destruct (Z.ltb_spec i b).
  - rewrite Z.ones_spec_low by lia. simpl. by rewrite andb_true_r.
  - rewrite Z.ones_spec_high by lia. simpl. by rewrite andb_false_r.
Qed.

Lemma field_range b p x : 0 ≤ b → 0 ≤ field b p x < 2 ^ b.
Proof. intros Hb. unfold field. rewrite mask_ones, Z.land_ones by done. apply Z.mod_pos_bound. lia. Qed.

Lemma high_bits w b i : 0 ≤ w < 2 ^ b → b ≤ i → Z.testbit w i = false.
Proof.
  intros Hw Hi. destruct (decide (0 ≤ b)) as [Hb|Hb]; [|rewrite Z.pow_neg_r in Hw; lia].
  destruct (decide (w = 0)) as [->|]; [apply Z.testbit_0_l|]. apply Z.bits_above_log2; [lia|].
  assert (Z.log2 w < b); [apply Z.log2_lt_pow2|]; lia.
Qed.

Lemma s8_testbit z i : 0 ≤ i < 8 → Z.testbit (s8 z) i = Z.testbit z i.
Proof.
  intros Hi. rewrite <- (Z.mod_pow2_bits_low (s8 z) 8 i), <- (Z.mod_pow2_bits_low z 8 i) by lia. f_equal.
  unfold s8. rewrite Zminus_mod_idemp_l. f_equal. lia.
Qed.

(** Later elements only touch later bits of the byte. *)
Lemma pack_byte_below b k ws byte i :
  0 < b → 0 ≤ k → 0 ≤ i < 8 → i < b * k → Z.testbit (pack_byte b k ws byte) i = Z.testbit byte i.
Proof.
  intros Hb. revert k byte. induction ws as [|w ws IH]; intros k byte Hk Hi Hlt; simpl; [done|].
  rewrite IH by nia. rewrite Z.lor_spec, s8_testbit, Z.shiftl_spec, (Z.testbit_neg_r w) by lia. apply orb_false_r.
Qed.

Lemma pack_byte_field b k ws byte p w t :
  0 < b → 0 ≤ k → Forall (λ w, 0 ≤ w < 2 ^ b) ws → ws !! p = Some w → 0 ≤ t < b → b * (k + Z.of_nat p) + t < 8 →
  Z.testbit (pack_byte b k ws byte) (b * (k + Z.of_nat p) + t) = Z.testbit byte (b * (k + Z.of_nat p) + t) || Z.testbit w t.
Proof.
  intros Hb. revert k byte p. induction ws as [|w0 ws IH]; intros k byte p Hk Hws Hp Ht Hlt; [done|].
  apply Forall_cons in Hws as [Hw0 Hws]. cbn [pack_byte]. destruct p as [|p]; simplify_eq/=.
  - rewrite Z.add_0_r in *. rewrite pack_byte_below by nia. rewrite Z.lor_spec, s8_testbit, Z.shiftl_spec by nia.
    do 2 f_equal. lia.
  - replace (k + Z.of_nat (S p)) with (k + 1 + Z.of_nat p) in * by lia.
    rewrite IH by (done || lia). rewrite Z.lor_spec, s8_testbit, Z.shiftl_spec by nia.
    rewrite (high_bits w0 b) by (done || nia). by rewrite orb_false_r.
Qed.

Lemma s8_range z : -2 ^ 7 ≤ s8 z < 2 ^ 7.
Proof. unfold s8. pose proof (Z.mod_pos_bound (z + 2 ^ 7) (2 ^ 8)). lia. Qed.

Lemma shiftr_range z : -2 ^ 7 ≤ z < 2 ^ 7 ↔ Z.shiftr z 7 = 0 ∨ Z.shiftr z 7 = -1.
Proof.
  rewrite Z.shiftr_div_pow2 by done. pose proof (Z.div_mod z (2 ^ 7)). pose proof (Z.mod_pos_bound z (2 ^ 7)). lia.
Qed.

Lemma lor_range x y : -2 ^ 7 ≤ x < 2 ^ 7 → -2 ^ 7 ≤ y < 2 ^ 7 → -2 ^ 7 ≤ Z.lor x y < 2 ^ 7.
Proof.
  rewrite !shiftr_range, Z.shiftr_lor. intros [-> | ->] [-> | ->]; rewrite ?Z.lor_0_l, ?Z.lor_0_r, ?Z.lor_diag; auto.
Qed.

Lemma pack_byte_range b k ws byte : -2 ^ 7 ≤ byte < 2 ^ 7 → -2 ^ 7 ≤ pack_byte b k ws byte < 2 ^ 7.
Proof. revert k byte. induction ws as [|w ws IH]; intros k byte Hb; [done|]. apply IH, lor_range; [done|apply s8_range]. Qed.

(** Every element is read back from its byte. *)
Lemma pack_byte_read b ws p w :
  0 < b → Forall (λ w, 0 ≤ w < 2 ^ b) ws → ws !! p = Some w → Z.of_nat p < 8 / b →
  field b (Z.of_nat p) (pack_byte b 0 ws 0) = w.
Proof.
  intros Hb Hws Hp Hlt. assert (b * (8 / b) ≤ 8) as H8 by (by apply Z.mul_div_le).
  apply Z.bits_inj'. intros i Hi. rewrite field_testbit by lia. destruct (Z.leb_spec 0 i); [|lia].
  destruct (Z.ltb_spec i b); simpl.
  - pose proof (pack_byte_field b 0 ws 0 p w i) as Hf. rewrite Z.add_0_l, Z.testbit_0_l in Hf by nia.
    rewrite Z.mul_comm. apply Hf; (done || nia).
  - symmetry. apply (high_bits w b); [|done]. rewrite Forall_forall in Hws. apply Hws. by eapply list_elem_of_lookup_2.
Qed.

(** Two's complement. *)
Definition signed (nbit w : Z) : Z := if w <? 2 ^ (nbit - 1) then w else w - 2 ^ nbit.

Lemma sign_extend_spec nbit w : 0 < nbit ≤ 32 → 0 ≤ w < 2 ^ nbit → sign_extend nbit w = signed nbit w.
Proof.
  intros Hn Hw. unfold sign_extend, signed, s32. rewrite Z.shiftl_mul_pow2, Z.shiftr_div_pow2 by lia.
  assert (2 ^ nbit = 2 * 2 ^ (nbit - 1)) as E1 by (rewrite <- Z.pow_succ_r by lia; f_equal; lia).
  assert (2 ^ 31 = 2 ^ (nbit - 1) * 2 ^ (32 - nbit)) as E2 by (rewrite <- Z.pow_add_r by lia; f_equal; lia).
  assert (2 ^ 32 = 2 ^ nbit * 2 ^ (32 - nbit)) as E3 by (rewrite <- Z.pow_add_r by lia; f_equal; lia).
  assert (0 < 2 ^ (32 - nbit)) as Hp by lia. rewrite E3, E2. rewrite <- Z.mul_add_distr_r, Z.mul_mod_distr_r by lia.
  rewrite <- Z.mul_sub_distr_r, Z.div_mul by lia. destruct (Z.ltb_spec w (2 ^ (nbit - 1))).
  - rewrite Z.mod_small by lia. lia.
  - rewrite <- (Z.mod_add _ (-1)), Z.mod_small by lia. lia.
Qed.

(** C31: weights of [b] bits packed by [general_compress] are read back from their
    byte: as they are by the unsigned conversion, offset by half the range by the
    signed one, and as two's complement by the integer one. *)
Theorem compress_roundtrip b row :
  0 < b < 8 → Forall (λ w, 0 ≤ w < 2 ^ b) row →
  ∃ bytes, general_compress b row = Ok bytes ∧ len bytes = len row / (8 / b) ∧
    ∀ (j k : nat) byte w, bytes !! j = Some byte → Z.of_nat k < 8 / b → row !! (j * Z.to_nat (8 / b) + k)%nat = Some w →
      -2 ^ 7 ≤ byte < 2 ^ 7 ∧
      let val := MkExpr (MkDtype "int" 8) byte in
      _tir_packed_to_unsigned_convert (MkDtype "int" 8) b val (Z.of_nat k) = Ok w ∧
      _tir_packed_to_signed_convert (MkDtype "int" 8) b val (Z.of_nat k) = Ok (w - 2 ^ (b - 1)) ∧
      _tir_packed_int_to_int_convert (MkDtype "int" 8) b val (Z.of_nat k) = Ok (signed b w).
Proof.
  intros Hb Hrow. assert (1 ≤ 8 / b) as He by (apply Z.div_le_lower_bound; lia).
  assert (0 ≤ len row / (8 / b)) as Hl by (apply Z.div_pos; unfold len; lia).
  unfold general_compress, py_floordiv. destruct (Z.eqb_spec b 0); [lia|]. cbn [mbind res_bind].
  destruct (Z.eqb_spec (8 / b) 0); [lia|]. cbn [mbind res_bind]. eexists. split; [done|].
  split; [unfold len; rewrite length_fmap, length_seqZ; unfold len in Hl; lia|].
  intros j k byte w Hj Hk Hw. apply list_lookup_fmap_Some_1 in Hj as (z & -> & Hz). apply lookup_seqZ in Hz as [-> Hz].
  split; [by apply pack_byte_range|]. rewrite Z.add_0_l.
  set (ws := take (Z.to_nat (8 / b)) (drop (Z.to_nat (Z.of_nat j * (8 / b))) row)).
  assert (field b (Z.of_nat k) (pack_byte b 0 ws 0) = w) as Hf.
  { apply pack_byte_read; [lia|by apply Forall_take, Forall_drop| |done].
    unfold ws. rewrite lookup_take_lt, lookup_drop by lia. rewrite <- Hw. f_equal. lia. }
  assert (0 ≤ w < 2 ^ b) as Hr by (rewrite Forall_forall in Hrow; apply Hrow; by eapply list_elem_of_lookup_2).
  unfold _tir_packed_to_unsigned_convert, _tir_packed_to_signed_convert, _tir_packed_int_to_int_convert. simpl. rewrite Hf.
  split_and!; [done| |by rewrite sign_extend_spec by lia]. by rewrite Z.shiftl_1_l.
Qed.

(** ** Interleaving *)

Lemma scatter_testbit b shift q offs acc i :
  0 ≤ i →
  Z.testbit (foldl (λ acc o, Z.lor acc (Z.shiftl (field b o q) (shift o))) acc offs) i =
  Z.testbit acc i || existsb (λ o, Z.testbit (field b o q) (i - shift o)) offs.
Proof.
  intros Hi. revert acc. induction offs as [|o offs IH]; intros acc; simpl; [by rewrite orb_false_r|].
  by rewrite IH, Z.lor_spec, Z.shiftl_spec, orb_assoc.
Qed.

Lemma scatter_nonneg b shift q offs acc :
  0 ≤ b → 0 ≤ acc → 0 ≤ foldl (λ acc o, Z.lor acc (Z.shiftl (field b o q) (shift o))) acc offs.
Proof.
  intros Hb. revert acc. induction offs as [|o offs IH]; intros acc Ha; simpl; [done|]. apply IH, Z.lor_nonneg. split; [done|].
  by apply Z.shiftl_nonneg, field_range.
Qed.

(** A fold that puts the field [o] at the place [place o], without two fields
    meeting. *)
Lemma scatter_field b place N q offs o :
  0 < b → (∀ x, x ∈ offs ↔ 0 ≤ x < N) → (∀ x, 0 ≤ x < N → 0 ≤ place x < N) →
  (∀ x y, 0 ≤ x < N → 0 ≤ y < N → place x = place y → x = y) → 0 ≤ o < N →
  field b (place o) (scatter b (λ o, b * place o) q offs) = field b o q.
Proof.
  intros Hb Hoffs Hplace Hinj Ho. pose proof (Hplace o Ho) as Hp. apply Z.bits_inj'. intros t Ht. rewrite field_testbit by lia.
  destruct (Z.leb_spec 0 t); [|lia]. destruct (Z.ltb_spec t b); simpl;
    [|symmetry; apply (high_bits _ b); [apply field_range; lia|done]].
  unfold scatter. rewrite scatter_testbit, Z.testbit_0_l by nia. simpl.
  destruct (Z.testbit (field b o q) t) eqn:E.
  - apply existsb_exists. exists o. split; [by apply list_elem_of_In, Hoffs|]. rewrite <- E. f_equal. lia.
  - apply not_true_iff_false. intros (x & Hx%list_elem_of_In%Hoffs & Hbit)%existsb_exists. rewrite field_testbit in Hbit by lia.
    apply andb_true_iff in Hbit as [Hbit Hq]. apply andb_true_iff in Hbit as [Ha%Z.leb_le Hc%Z.ltb_lt].
    assert (place x = place o) as Exo by nia. apply Hinj in Exo; [|done|done]. subst x.
    replace (place o * b + t - b * place o) with t in Hq by lia. rewrite field_testbit in E by lia.
    rewrite (proj2 (Z.leb_le 0 t)), (proj2 (Z.ltb_lt t b)) in E by lia. simpl in E.
    replace (o * b + (place o * b + t - b * place o)) with (o * b + t) in Hq by lia. congruence.
Qed.

Lemma scatter_range b place N q offs :
  0 < b → 0 ≤ N → (∀ x, x ∈ offs → 0 ≤ place x < N) → 0 ≤ scatter b (λ o, b * place o) q offs < 2 ^ (b * N).
Proof.
  intros Hb HN Hoffs. unfold scatter. set (r := foldl _ _ _). assert (0 ≤ r) as Hr by (apply scatter_nonneg; lia). split; [done|].
  assert (r = r mod 2 ^ (b * N)) as ->; [|apply Z.mod_pos_bound; apply Z.pow_pos_nonneg; nia].
  apply Z.bits_inj'. intros i Hi. destruct (decide (i < b * N)); [by rewrite Z.mod_pow2_bits_low|].
  rewrite Z.mod_pow2_bits_high by nia. unfold r. rewrite scatter_testbit, Z.testbit_0_l by lia. simpl.
  apply not_true_iff_false. intros (x & Hx%list_elem_of_In & Hbit)%existsb_exists. specialize (Hoffs x Hx).
  rewrite (high_bits _ b) in Hbit; [done|apply field_range; lia|nia].
Qed.

Lemma offsets_elem n e x :
  0 ≤ n → 0 < e →
  x ∈ concat ((λ i, (λ j, i * e + j) <$> seqZ 0 e) <$> seqZ 0 n) ↔ 0 ≤ x < n * e.
Proof.
  intros Hn He. rewrite list_elem_of_In, in_concat. split.
  - intros (l & Hl%list_elem_of_In & Hx%list_elem_of_In). apply list_elem_of_fmap in Hl as (i & -> & Hi%elem_of_seqZ).
    apply list_elem_of_fmap in Hx as (j & -> & Hj%elem_of_seqZ). nia.
  - intros Hx. exists ((λ j, x / e * e + j) <$> seqZ 0 e). pose proof (Z.div_mod x e). pose proof (Z.mod_pos_bound x e).
    split; apply list_elem_of_In, list_elem_of_fmap.
    + exists (x / e). split; [done|]. apply elem_of_seqZ. split; [apply Z.div_pos; lia|].
      apply Z.div_lt_upper_bound; lia.
    + exists (x mod e). split; [lia|]. apply elem_of_seqZ. lia.
Qed.

(** Where [interleave_weight] puts a field: the groups take the fields in turn. *)
Definition interleaved (num_groups elems_per_group offset : Z) : Z :=
  (offset mod num_groups) * elems_per_group + offset / num_groups.

Lemma interleaved_range g e o : 0 < g → 0 ≤ o < g * e → 0 ≤ interleaved g e o < g * e.
Proof.
  intros Hg Ho. unfold interleaved. pose proof (Z.div_mod o g). pose proof (Z.mod_pos_bound o g).
  assert (0 ≤ o / g < e) by (split; [apply Z.div_pos; lia|apply Z.div_lt_upper_bound; lia]). nia.
Qed.

Lemma interleaved_inj g e x y :
  0 < g → 0 ≤ x < g * e → 0 ≤ y < g * e → interleaved g e x = interleaved g e y → x = y.
Proof.
  intros Hg Hx Hy E. unfold interleaved in E.
  assert (∀ o, 0 ≤ o < g * e → 0 ≤ o / g < e) as Hd by (intros; split; [apply Z.div_pos; lia|apply Z.div_lt_upper_bound; lia]).
  pose proof (Hd x Hx). pose proof (Hd y Hy). pose proof (Z.mod_pos_bound x g). pose proof (Z.mod_pos_bound y g).
  rewrite (Z.div_mod x g), (Z.div_mod y g) by lia.
  assert (x mod g = y mod g) as Em by nia. rewrite Em in *. nia.
Qed.

(** The word is its fields. *)
Lemma fields_inj b N x y :
  0 < b → 0 ≤ x < 2 ^ (b * N) → 0 ≤ y < 2 ^ (b * N) → (∀ o, 0 ≤ o < N → field b o x = field b o y) → x = y.
Proof.
  intros Hb Hx Hy Hf. apply Z.bits_inj'. intros i Hi. destruct (decide (i < b * N)) as [Hlt|Hge].
  - pose proof (Z.div_mod i b). pose proof (Z.mod_pos_bound i b).
    assert (0 ≤ i / b < N) as Ho by (split; [apply Z.div_pos; lia|apply Z.div_lt_upper_bound; lia]).
    pose proof (f_equal (λ z, Z.testbit z (i mod b)) (Hf (i / b) Ho)) as E. simpl in E. rewrite !field_testbit in E by lia.
    rewrite (proj2 (Z.leb_le 0 (i mod b))), (proj2 (Z.ltb_lt (i mod b) b)) in E by lia. simpl in E.
    by replace (i / b * b + i mod b) with i in E by lia.
  - by rewrite !(high_bits _ (b * N)) by (done || lia).
Qed.

(** The cases without a second stage. *)
Definition plain_interleave (nbits : Z) (target_dtype : string) : Prop :=
  (target_dtype = "float16"%string ∧ (nbits = 4 ∨ nbits = 8 ∨ nbits = 16)) ∨
  (target_dtype = "int8"%string ∧ (nbits = 2 ∨ nbits = 4 ∨ nbits = 8)).

Lemma interleave_weight_plain torch_int32 q nbits target :
  plain_interleave nbits target →
  let bs := if bool_decide (target = "int8"%string) then 8 else 16 in
  interleave_weight torch_int32 q nbits target =
    Ok (scatter nbits (λ o, nbits * interleaved (32 / bs) (bs / nbits) o) q
      (concat ((λ i, (λ j, i * (bs / nbits) + j) <$> seqZ 0 (bs / nbits)) <$> seqZ 0 (32 / bs)))).
Proof.
  intros Hp bs.
  assert (bs = nbits * (bs / nbits)) as Hbs.
  { unfold bs. destruct Hp as [[-> Hn]|[-> Hn]]; repeat destruct Hn as [->|Hn]; subst; reflexivity. }
  assert (∀ offs, scatter nbits (interleave_shift nbits bs (32 / bs)) q offs =
    scatter nbits (λ o, nbits * interleaved (32 / bs) (bs / nbits) o) q offs) as Hsc.
  { intros offs. unfold scatter. generalize 0. induction offs as [|o offs IH]; intros acc; cbn [foldl]; [done|].
    rewrite IH. do 3 f_equal. unfold interleave_shift, interleaved.
    set (e := bs / nbits) in *. set (x := o mod (32 / bs)). set (y := o / (32 / bs)). clearbody x y e. rewrite Hbs. lia. }
  rewrite <- Hsc. clear Hsc Hbs. unfold bs.
  destruct Hp as [[-> Hn]|[-> Hn]]; repeat destruct Hn as [->|Hn]; subst; lazy -[scatter interleave_shift]; reflexivity.
Qed.

(** C32: interleaving only moves the fields of a word: field [o] is found at place
    [(o mod groups) * elements + o / groups], the result is again a 32-bit word,
    and different words have different results. *)
Theorem interleave_permutes torch_int32 nbits target :
  plain_interleave nbits target →
  ∃ g e, 32 = nbits * (g * e) ∧ ∀ q, 0 ≤ q < 2 ^ 32 →
    ∃ r, interleave_weight torch_int32 q nbits target = Ok r ∧ 0 ≤ r < 2 ^ 32 ∧
      (∀ o, 0 ≤ o < g * e → field nbits (interleaved g e o) r = field nbits o q) ∧
      (∀ q', 0 ≤ q' < 2 ^ 32 → interleave_weight torch_int32 q' nbits target = Ok r → q' = q).
Proof.
  intros Hp. set (bs := if bool_decide (target = "int8"%string) then 8 else 16). exists (32 / bs), (bs / nbits).
  assert (0 < nbits ∧ 0 < 32 / bs ∧ 0 < bs / nbits ∧ 32 = nbits * (32 / bs * (bs / nbits))) as (Hb & Hg & He & H32).
  { unfold bs. destruct Hp as [[-> Hn]|[-> Hn]]; repeat destruct Hn as [->|Hn]; subst; done. }
  assert (2 ^ 32 = 2 ^ (nbits * (32 / bs * (bs / nbits)))) as E32 by (by rewrite <- H32).
  split; [done|]. intros q Hq. set (offs := concat ((λ i, (λ j, i * (bs / nbits) + j) <$> seqZ 0 (bs / nbits)) <$> seqZ 0 (32 / bs))).
  assert (∀ q', interleave_weight torch_int32 q' nbits target = Ok (scatter nbits (λ o, nbits * interleaved (32 / bs) (bs / nbits) o) q' offs)) as Heq.
  { intros q'. apply interleave_weight_plain, Hp. }
  assert (∀ x, x ∈ offs ↔ 0 ≤ x < 32 / bs * (bs / nbits)) as Hoffs by (intros x; apply offsets_elem; lia).
  assert (∀ q' o, 0 ≤ o < 32 / bs * (bs / nbits) →
    field nbits (interleaved (32 / bs) (bs / nbits) o) (scatter nbits (λ o, nbits * interleaved (32 / bs) (bs / nbits) o) q' offs) = field nbits o q') as Hf.
  { intros q' o Ho. eapply (scatter_field nbits (interleaved (32 / bs) (bs / nbits))); try done.
    - intros x Hx. by apply interleaved_range.
    - intros x y Hx Hy. by apply interleaved_inj. }
  eexists. split; [apply Heq|]. split_and!.
  - apply scatter_nonneg; lia.
  - rewrite E32. apply scatter_range; [done|lia|]. intros x Hx%Hoffs. by apply interleaved_range.
  - intros o. apply Hf.
  - intros q' Hq' E. rewrite Heq in E. injection E as E. rewrite E32 in Hq, Hq'.
    eapply fields_inj; [exact Hb|exact Hq'|exact Hq|]. intros o Ho. by rewrite <- (Hf q' o Ho), <- (Hf q o Ho), E.
Qed.

(** ** bfloat16 *)

Lemma bf16_round u :
  0 ≤ u < 2 ^ 32 → bf16_of_f32 true u = (u + (u / 2 ^ 16) mod 2 + 0x7FFF) mod 2 ^ 32 / 2 ^ 16.
Proof.
  intros Hu. unfold bf16_of_f32, u32. rewrite !Z.shiftr_div_pow2 by done. change (Z.shiftl 1 16 - 1) with (Z.ones 16). change 1 with (Z.ones 1) at 1.
  rewrite !Z.land_ones by done. rewrite Z.add_assoc. apply Z.mod_small. split; [apply Z.div_pos; [apply Z.mod_pos_bound|]; done|].
  apply Z.div_lt_upper_bound; [done|]. change (2 ^ 16 * 2 ^ 16) with (2 ^ 32). by apply Z.mod_pos_bound.
Qed.

(** Rounding is to the nearest pattern, ties to even, where it does not leave the
    32 bits. *)
Lemma bf16_nearest_even u :
  0 ≤ u < 2 ^ 32 - 2 ^ 15 →
  let r := bf16_of_f32 true u in
  Z.abs (r * 2 ^ 16 - u) ≤ 2 ^ 15 ∧ (Z.abs (r * 2 ^ 16 - u) = 2 ^ 15 → Z.even r = true).
Proof.
  intros Hu r. unfold r. rewrite bf16_round by lia. set (l := (u / 2 ^ 16) mod 2).
  assert (0 ≤ l < 2) as Hl by (by apply Z.mod_pos_bound). rewrite Z.mod_small by lia.
  set (q := u / 2 ^ 16) in *. set (x := u mod 2 ^ 16).
  assert (u = 2 ^ 16 * q + x) as E by (apply Z.div_mod; done). assert (0 ≤ x < 2 ^ 16) as Hx by (by apply Z.mod_pos_bound).
  destruct (decide (x + l + 0x7FFF < 2 ^ 16)) as [Hlt|Hge].
  - assert ((u + l + 0x7FFF) / 2 ^ 16 = q) as -> by (symmetry; apply Z.div_unique with (x + l + 0x7FFF); lia).
    split; [lia|]. intros Ha. assert (l = 0) as El by lia. apply Zeven_bool_iff, Zeven_ex_iff. exists (q / 2).
    unfold l in El. pose proof (Z.div_mod q 2). lia.
  - assert ((u + l + 0x7FFF) / 2 ^ 16 = q + 1) as -> by (symmetry; apply Z.div_unique with (x + l + 0x7FFF - 2 ^ 16); lia).
    split; [lia|]. intros Ha. assert (l = 1) as El by lia. apply Zeven_bool_iff, Zeven_ex_iff. exists (q / 2 + 1).
    unfold l in El. pose proof (Z.div_mod q 2). lia.
Qed.

Lemma bf16_exact h round : 0 ≤ h < 2 ^ 16 → bf16_of_f32 round (h * 2 ^ 16) = h.
Proof.
  intros Hh. destruct round.
  - rewrite bf16_round by lia. rewrite Z.div_mul by done. pose proof (Z.mod_pos_bound h 2). rewrite Z.mod_small by lia.
    symmetry. apply Z.div_unique with (h mod 2 + 0x7FFF); lia.
  - unfold bf16_of_f32. rewrite Z.shiftr_div_pow2, Z.div_mul by done. change (Z.shiftl 1 16 - 1) with (Z.ones 16).
    rewrite Z.land_ones by done. by apply Z.mod_small.
Qed.

(** Two bfloat16 numbers unpacked to float32 are packed again as they were. *)
Lemma bf16x2_roundtrip x round :
  0 ≤ x < 2 ^ 32 →
  _tir_f32x2_to_bf16x2_to_u32 (_tir_u32_to_bf16x2_to_f32x2 x).1 (_tir_u32_to_bf16x2_to_f32x2 x).2 round = x.
Proof.
  intros Hx. unfold _tir_f32x2_to_bf16x2_to_u32, _tir_u32_to_bf16x2_to_f32x2. simpl (_.1). simpl (_.2).
  change (Z.shiftl 1 16 - 1) with (Z.ones 16). rewrite Z.shiftr_div_pow2, !Z.land_ones by done.
  rewrite (Z.mod_small (x / 2 ^ 16)) by (split; [apply Z.div_pos; lia|apply Z.div_lt_upper_bound; lia]).
  pose proof (Z.mod_pos_bound x (2 ^ 16) ltac:(done)) as Hlo.
  assert (0 ≤ x / 2 ^ 16 < 2 ^ 16) as Hhi by (split; [apply Z.div_pos; lia|apply Z.div_lt_upper_bound; lia]).
  assert (∀ h, 0 ≤ h < 2 ^ 16 → u32 (Z.shiftl h 16) = h * 2 ^ 16) as Hu.
  { intros h Hh. unfold u32. rewrite Z.shiftl_mul_pow2 by done. apply Z.mod_small. lia. }
  rewrite (Hu (x mod 2 ^ 16)), (Hu (x / 2 ^ 16)) by done. rewrite !bf16_exact, (Hu (x / 2 ^ 16)) by done. rewrite <- Z.shiftl_mul_pow2 by done.
  pose proof (Z.add_lor_land (x mod 2 ^ 16) (Z.shiftl (x / 2 ^ 16) 16)) as E. pose proof (Z.div_mod x (2 ^ 16) ltac:(done)) as Ex.
  assert (Z.land (x mod 2 ^ 16) (Z.shiftl (x / 2 ^ 16) 16) = 0) as E0.
  2: { rewrite E0, Z.add_0_r in E. rewrite E, Z.shiftl_mul_pow2 by done. clear -Ex. lia. }
  apply Z.bits_inj'. intros i Hi. rewrite Z.land_spec, Z.testbit_0_l, Z.shiftl_spec by done.
  destruct (decide (i < 16)); [rewrite (Z.testbit_neg_r (x / 2 ^ 16)) by lia; apply andb_false_r|]. by rewrite Z.mod_pow2_bits_high by lia.
Qed.

(** ** 4-bit floats *)

(** The magnitude of a finite float32, as a multiple of [2^-150]. *)
Definition f32_mag (u : Z) : Z :=
  let e := (u / 2 ^ 23) mod 2 ^ 8 in
  let m := u mod 2 ^ 23 in
  if e =? 0 then 2 * m else (2 ^ 23 + m) * 2 ^ e.

(** The magnitudes of the 4-bit codes. *)
Definition f4_mag (e : Z) : Z := if e =? 0 then 0 else 2 ^ (143 + e).

Definition f4_value (c : Z) : res Z := _tir_u32_to_f4_to_f32 4 (MkExpr (MkDtype "uint" 32) c) 0 (MkDtype "float" 32).

Lemma below_16 (P : Z → Prop) : Forall P (seqZ 0 16) → ∀ c, 0 ≤ c < 16 → P c.
Proof. intros Hf c Hc. rewrite Forall_forall in Hf. apply Hf, elem_of_seqZ. lia. Qed.

(** A code of exponent 0 is decoded as 0, any other one as a signed power of two. *)
Lemma f4_value_spec c :
  0 ≤ c < 16 → ∃ v, f4_value c = Ok v ∧ f32_mag v = f4_mag (c mod 8) ∧ v / 2 ^ 31 = if c mod 8 =? 0 then 0 else c / 8.
Proof.
  revert c. apply below_16. repeat (apply Forall_cons; split; [eexists; split; [vm_compute; reflexivity|]; split; vm_compute; reflexivity|]).
  apply Forall_nil. done.
Qed.

Lemma f4_code s e : 0 ≤ s < 2 → 0 ≤ e < 8 → Z.lor (u32 (Z.shiftl s 3)) e = s * 8 + e.
Proof.
  intros Hs He. assert (s = 0 ∨ s = 1) as [-> | ->] by lia;
    assert (e = 0 ∨ e = 1 ∨ e = 2 ∨ e = 3 ∨ e = 4 ∨ e = 5 ∨ e = 6 ∨ e = 7) as Hc by lia;
    repeat destruct Hc as [->|Hc]; subst; reflexivity.
Qed.

(** The exponent the encoder chooses. *)
Definition f4_exponent (u : Z) : Z :=
  let e := (u / 2 ^ 23) mod 2 ^ 8 in
  if 120 <? e then Z.min (e - 120 + (u / 2 ^ 22) mod 2) 7 else if e =? 120 then 1 else 0.

Lemma f4_exponent_range u : 0 ≤ f4_exponent u < 8.
Proof.
  unfold f4_exponent. pose proof (Z.mod_pos_bound (u / 2 ^ 22) 2). destruct (Z.ltb_spec 120 ((u / 2 ^ 23) mod 2 ^ 8)); [lia|].
  destruct (_ =? 120); lia.
Qed.

Lemma encode_f4 u :
  0 ≤ u < 2 ^ 32 → _tir_f32_to_uint_to_f4 (MkExpr (MkDtype "float" 32) u) = Ok (u / 2 ^ 31 * 8 + f4_exponent u).
Proof.
  intros Hu. rewrite <- f4_code; [|split; [apply Z.div_pos; lia|apply Z.div_lt_upper_bound; lia]|apply f4_exponent_range].
  unfold _tir_f32_to_uint_to_f4. cbn [value dtype]. rewrite bool_decide_eq_true_2 by done. cbn [py_assert mbind res_bind].
  rewrite !Z.shiftr_div_pow2 by done. change 255 with (Z.ones 8). change 1 with (Z.ones 1) at 1. by rewrite !Z.land_ones.
Qed.

Lemma f4_mag_mono c d : 0 ≤ c ≤ d → f4_mag c ≤ f4_mag d.
Proof.
  intros Hc. unfold f4_mag. destruct (Z.eqb_spec c 0); [destruct (d =? 0); [done|]; apply Z.pow_nonneg; lia|].
  destruct (Z.eqb_spec d 0); [lia|]. apply Z.pow_le_mono_r; lia.
Qed.

(** The float lies between its two neighbouring powers of two, and its upper
    fraction bit says in which half. *)
Lemma f32_mag_bounds u :
  let e := (u / 2 ^ 23) mod 2 ^ 8 in
  0 < e → 2 ^ (23 + e) ≤ f32_mag u < 2 * 2 ^ (23 + e) ∧
    ((u / 2 ^ 22) mod 2 = 0 → 2 * f32_mag u < 3 * 2 ^ (23 + e)) ∧ ((u / 2 ^ 22) mod 2 = 1 → 3 * 2 ^ (23 + e) ≤ 2 * f32_mag u).
Proof.
  intros e He. unfold f32_mag. fold e. destruct (Z.eqb_spec e 0); [lia|]. set (m := u mod 2 ^ 23).
  assert (0 ≤ m < 2 ^ 23) as Hm by (by apply Z.mod_pos_bound).
  assert ((u / 2 ^ 22) mod 2 = m / 2 ^ 22) as ->.
  { unfold m. change (2 ^ 23) with (2 ^ 22 * 2). rewrite Z.rem_mul_r by done.
    rewrite (Z.mul_comm (2 ^ 22)), Z.div_add by done. rewrite (Z.div_small (u mod 2 ^ 22)) by (by apply Z.mod_pos_bound). done. }
  pose proof (Z.div_mod m (2 ^ 22) ltac:(done)) as Ed. pose proof (Z.mod_pos_bound m (2 ^ 22) ltac:(done)) as Hd.
  rewrite Z.pow_add_r by lia. assert (0 < 2 ^ e) as Hp by lia. split_and!; [nia|nia|intros H0; nia|intros H1; nia].
Qed.

Lemma f4_exponent_nearest u k :
  (u / 2 ^ 23) mod 2 ^ 8 ≠ 255 → 0 ≤ k < 8 →
  Z.abs (f32_mag u - f4_mag (f4_exponent u)) ≤ Z.abs (f32_mag u - f4_mag k).
Proof.
  intros Hfin Hk. pose proof (f32_mag_bounds u) as Hb. unfold f4_exponent. set (e := (u / 2 ^ 23) mod 2 ^ 8) in *. cbv zeta in Hb.
  assert (0 ≤ e < 2 ^ 8) as He by (by apply Z.mod_pos_bound).
  assert (f4_mag 1 = 2 * 2 ^ 143) as E1 by done.
  assert (k = 0 ∨ f4_mag 1 ≤ f4_mag k) as Hk1 by (destruct (decide (k = 0)); [by left|right; apply f4_mag_mono; lia]).
  destruct (Z.ltb_spec 120 e) as [Hgt|Hle].
  - destruct (Hb ltac:(lia)) as (Hrange & H0 & H1). set (j := e - 120) in *. replace (23 + e) with (143 + j) in * by lia.
    assert (f4_mag j = 2 ^ (143 + j)) as Ej by (unfold f4_mag; by destruct (Z.eqb_spec j 0); [lia|]). rewrite <- Ej in *.
    pose proof (Z.mod_pos_bound (u / 2 ^ 22) 2 ltac:(done)) as Hm. set (h := (u / 2 ^ 22) mod 2) in *.
    destruct (decide (7 ≤ j)) as [H7|H7].
    + rewrite Z.min_r by lia. pose proof (f4_mag_mono k 7). pose proof (f4_mag_mono 7 j). lia.
    + assert (f4_mag (j + 1) = 2 * f4_mag j) as Ej1.
      { rewrite Ej. unfold f4_mag. destruct (Z.eqb_spec (j + 1) 0); [lia|]. rewrite <- Z.pow_succ_r by lia. f_equal. lia. }
      rewrite Z.min_l by lia.
      assert (f4_mag k ≤ f4_mag j ∨ 2 * f4_mag j ≤ f4_mag k) as Hkj.
      { destruct (decide (k ≤ j)); [left; apply f4_mag_mono; lia|right]. rewrite <- Ej1. apply f4_mag_mono. lia. }
      assert (h = 0 ∨ h = 1) as [Eh|Eh] by lia; rewrite Eh; [rewrite Z.add_0_r; specialize (H0 Eh)|rewrite Ej1; specialize (H1 Eh)]; lia.
  - destruct (Z.eqb_spec e 120) as [E120|Hne].
    + destruct (Hb ltac:(lia)) as (Hrange & _). rewrite E120 in Hrange. change (23 + 120) with 143 in Hrange. change (f4_mag 0) with 0.
      destruct Hk1 as [->|Hk1]; [change (f4_mag 0) with 0|]; lia.
    + assert (0 ≤ f32_mag u ≤ 2 ^ 143) as Hsmall.
      { destruct (decide (e = 0)) as [E0|Hn0].
        - unfold f32_mag. fold e. rewrite E0. simpl. pose proof (Z.mod_pos_bound u (2 ^ 23) ltac:(done)). lia.
        - destruct (Hb ltac:(lia)) as (Hrange & _). assert (2 * 2 ^ (23 + e) ≤ 2 ^ 143); [|lia].
          rewrite <- Z.pow_succ_r by lia. apply Z.pow_le_mono_r; lia. }
      change (f4_mag 0) with 0 at 1. destruct Hk1 as [->|Hk1]; [change (f4_mag 0) with 0|]; lia.
Qed.

(** C33: the 4-bit code of a finite float32 has its sign, and no code of that sign
    has a value closer to it. *)
Theorem f4_nearest u c :
  0 ≤ u < 2 ^ 32 → (u / 2 ^ 23) mod 2 ^ 8 ≠ 255 → 0 ≤ c < 16 →
  ∃ c0 v0 v, _tir_f32_to_uint_to_f4 (MkExpr (MkDtype "float" 32) u) = Ok c0 ∧ 0 ≤ c0 < 16 ∧ c0 / 8 = u / 2 ^ 31 ∧
    f4_value c0 = Ok v0 ∧ f4_value c = Ok v ∧
    Z.abs (f32_mag u - f32_mag v0) ≤ Z.abs (f32_mag u - f32_mag v).
Proof.
  intros Hu Hfin Hc. rewrite encode_f4 by done. pose proof (f4_exponent_range u) as He4.
  assert (0 ≤ u / 2 ^ 31 < 2) as Hs by (split; [apply Z.div_pos; lia|apply Z.div_lt_upper_bound; lia]).
  set (c0 := u / 2 ^ 31 * 8 + f4_exponent u).
  assert (c0 mod 8 = f4_exponent u) as Em by (unfold c0; rewrite Z.add_comm, Z.mod_add by done; by apply Z.mod_small).
  assert (c0 / 8 = u / 2 ^ 31) as Ed by (unfold c0; rewrite Z.add_comm, Z.div_add by done; rewrite Z.div_small by lia; lia).
  assert (0 ≤ c0 < 16) as Hc0 by lia.
  destruct (f4_value_spec c0 Hc0) as (v0 & Hv0 & Hm0 & _). destruct (f4_value_spec c Hc) as (v & Hv & Hm & _).
  exists c0, v0, v. split_and!; try done; try lia. rewrite Hm0, Hm, Em. apply f4_exponent_nearest; [done|by apply Z.mod_pos_bound].
Qed.

(** Through float16, in words of 16 bits or more: every code but [-0] comes back. *)
Lemma f4_f16_roundtrip w c :
  16 ≤ w → 0 ≤ c < 16 →
  ∃ v, _tir_packed_to_fp4_to_f16 (MkDtype "uint" w) 4 (MkExpr (MkDtype "uint" w) c) 0 = Ok v ∧
    _tir_f16_to_uint_to_f4 (MkExpr (MkDtype "float" 16) v) = Ok (if c =? 8 then 0 else c).
Proof.
  intros Hw Hc. unfold _tir_packed_to_fp4_to_f16. cbn [value dtype]. rewrite bool_decide_eq_true_2 by done. cbn [py_assert mbind res_bind width].
  assert (∀ x, 0 ≤ x < 2 ^ 16 → x mod 2 ^ w = x) as Hmod.
  { intros x Hx. apply Z.mod_small. split; [lia|]. eapply Z.lt_le_trans; [apply Hx|]. apply Z.pow_le_mono_r; lia. }
  assert (∀ c, 0 ≤ c < 16 → 0 ≤ Z.shiftl (Z.shiftr (field 4 0 c) 3) 5 < 2 ^ 16 ∧
    0 ≤ Z.shiftl (Z.lor (Z.lor (Z.land (field 4 0 c) 7) 8) (Z.shiftl (Z.shiftr (field 4 0 c) 3) 5)) 10 < 2 ^ 16) as Hsmall.
  { apply below_16. repeat (apply Forall_cons; split; [by vm_compute|]). by apply Forall_nil. }
  destruct (Hsmall c Hc) as [H1 H2]. rewrite (Hmod _ H1), (Hmod _ H2). clear -Hc. revert c Hc. apply below_16.
  repeat (apply Forall_cons; split; [eexists; split; [vm_compute; reflexivity|]; vm_compute; reflexivity|]). by apply Forall_nil.
Qed.

(** ** 8-bit floats *)

(** The scaled magnitudes of an e4m3 number with an exponent and of a float16. *)
Definition e4m3_mag (v : Z) : Z := (8 + v mod 8) * 2 ^ ((v / 8) mod 16 + 14).
Definition f16_mag (r : Z) : Z := (2 ^ 10 + r mod 2 ^ 10) * 2 ^ ((r / 2 ^ 10) mod 2 ^ 5 - 1).

(** The two conversions agree on every byte, and they are exact wherever the
    exponent is not 0. *)
Lemma e4m3_to_f16 v :
  0 ≤ v < 256 → ∃ r, _tir_u8_to_f8_e4m3_to_f16 8 v (MkDtype "float" 16) = Ok r ∧
    _tir_u8_to_f8_e4m3_to_f16_naive 8 v (MkDtype "float" 16) = Ok r ∧
    r / 2 ^ 15 = v / 2 ^ 7 ∧ ((v / 8) mod 16 ≠ 0 → f16_mag r = e4m3_mag v).
Proof.
  set (check := λ v, match _tir_u8_to_f8_e4m3_to_f16 8 v (MkDtype "float" 16), _tir_u8_to_f8_e4m3_to_f16_naive 8 v (MkDtype "float" 16) with
    | Ok r, Ok r' => (r =? r') && (r / 2 ^ 15 =? v / 2 ^ 7) && (((v / 8) mod 16 =? 0) || (f16_mag r =? e4m3_mag v))
    | _, _ => false end).
  assert (forallb check (seqZ 0 256) = true) as Hall by (vm_compute; reflexivity). intros Hv. rewrite forallb_forall in Hall.
  specialize (Hall v). rewrite <- list_elem_of_In, elem_of_seqZ in Hall. specialize (Hall ltac:(lia)). unfold check in Hall.
  destruct (_tir_u8_to_f8_e4m3_to_f16 8 v _) as [r|]; [|done]. destruct (_tir_u8_to_f8_e4m3_to_f16_naive 8 v _) as [r'|]; [|done].
  apply andb_true_iff in Hall as [Hall H3]. apply andb_true_iff in Hall as [H1%Z.eqb_eq H2%Z.eqb_eq]. subst r'. exists r. split_and!; try done.
  intros He. apply orb_true_iff in H3 as [?%Z.eqb_eq|?%Z.eqb_eq]; done.
Qed.

Module QuantizeEx.
Lemma compress_roundtrip_witness :
  ∃ bytes, general_compress 4 [3; 12; 7; 15] = Ok bytes ∧ len bytes = 2 ∧
    ∀ byte, bytes !! 1%nat = Some byte → _tir_packed_to_unsigned_convert (MkDtype "int" 8) 4 (MkExpr (MkDtype "int" 8) byte) 1 = Ok 15.
Proof.
  destruct (compress_roundtrip 4 [3; 12; 7; 15]) as (bytes & Hc & Hl & Hr); [lia|by repeat constructor|]. exists bytes. split; [done|]. split; [done|].
  intros byte Hb. by destruct (Hr 1%nat 1%nat byte 15 Hb) as (_ & Hu & _).
Defined.

Lemma interleave_permutes_witness :
  plain_interleave 4 "float16" ∧ ∃ r, interleave_weight Ok 0x76543210 4 "float16" = Ok r ∧ r = 0x75316420 ∧ 0 ≤ r < 2 ^ 32.
Proof.
  split; [left; split; [done|by left]|].
  destruct (interleave_permutes Ok 4 "float16") as (g & e & _ & Hq); [left; split; [done|by left]|].
  destruct (Hq 0x76543210) as (r & Hr & Hrange & _); [lia|]. exists r. split; [done|]. split; [|exact Hrange]. vm_compute in Hr. by injection Hr as <-.
Defined.

(** 0.3 is encoded as 0.25. *)
Lemma f4_nearest_witness :
  _tir_f32_to_uint_to_f4 (MkExpr (MkDtype "float" 32) 0x3E99999A) = Ok 5 ∧
  ∃ v0 v, f4_value 5 = Ok v0 ∧ f4_value 6 = Ok v ∧
    Z.abs (f32_mag 0x3E99999A - f32_mag v0) ≤ Z.abs (f32_mag 0x3E99999A - f32_mag v).
Proof.
  split; [done|]. destruct (f4_nearest 0x3E99999A 6) as (c0 & v0 & v & Hc0 & _ & _ & Hv0 & Hv & Hle); [lia|done|lia|].
  vm_compute in Hc0. injection Hc0 as <-. by exists v0, v.
Defined.

(** A NaN whose low bits are set is rounded to -0. *)
Lemma bf16_nan_to_zero : bf16_of_f32 true 0x7FFFFFFF = 0x8000.
Proof. done. Qed.

(** The e4m3 zero becomes 2^-7. *)
Lemma e4m3_zero : _tir_u8_to_f8_e4m3_to_f16 8 0 (MkDtype "float" 16) = Ok 0x2000 ∧ f16_mag 0x2000 = 2 ^ 17.
Proof. done. Qed.

(** [torch.int32] is a dtype object, which cannot be called. *)
Lemma interleave_special_raises :
  interleave_weight (λ _, Raise TypeError) 0x76543210 2 "float16" = Raise TypeError ∧
  interleave_weight (λ _, Raise TypeError) 0x76543210 1 "int8" = Raise TypeError ∧
  interleave_weight (λ _, Raise TypeError) 0x76543210 1 "float16" = Raise TypeError.
Proof. done. Qed.
End QuantizeEx.
