(* ===== verification/KernelCache.v ===== *)
(** * The kernel cache

    [src/tilelang/cache/kernel_cache.py] with the constructor of a kernel and the
    frame of [compile] of [jit/jit_npu.py]: the key of a request, the two levels of
    the cache, and the files of an entry.

    A file of an entry is absent, holds what was written, or is garbled: a write
    that failed half way.  What becomes of a write is an argument, the [fate] of the
    write.  The lowering of a function to a binary, the text of the launcher and
    its C++ compiler, pickling, JSON, SHA-256 and the source text of a function are
    parameters.  So is the environment the processes run in, with the override of
    the workspace size and the architecture of the device: it is the same for all
    processes that share the cache, since no key tells environments apart (see
    [environment_not_in_key]).  [compilations] only records, newest
    first, the keys the compiler was called for. *)
From Stdlib Require Import ZArith.
From stdpp Require Import base strings gmap numbers relations pretty list.
From S2P Require Import Prelude Tir DynShape.
#[local] Open Scope Z_scope.
Set Default Proof Using "Type*".

(** ** Running programs *)

Lemma bind_eq {S A B} (m : prog S A) (f : A → prog S B) c :
  (m ≫= f) c = match (m c).1 with Ok a => f a (m c).2 | Raise e => (Raise e, (m c).2) end.
Proof. unfold mbind, prog_bind. by destruct (m c) as [[a|e] c']. Qed.

Ltac run := do 2 (rewrite ?bind_eq; cbn [lift get raise modify mret prog_ret fst snd]).

(** ** Files *)

Inductive file (A : Type) := Good (a : A) | Garbled (bytes : string).
Arguments Good {A} a.
Arguments Garbled {A} bytes.

(** A write inside [_try_save]: done, refused before the file is touched, or
    failed with a part of it written. *)
Inductive fate := Saved | Untouched | Torn (bytes : string).

Definition _try_save {A} (ft : fate) (a : A) (old : option (file A)) : option (file A) :=
  match ft with Saved => Some (Good a) | Untouched => old | Torn bs => Some (Garbled bs) end.

(** What [read_bytes] gives, by the bytes of good contents. *)
Definition read_bytes (f : option (file string)) : option string :=
  match f with Some (Good s) => Some s | Some (Garbled s) => Some s | None => None end.

(** [cloudpickle.loads], [json.load]: garbled contents raise. *)
Definition loads {A} (f : option (file A)) : option A :=
  match f with Some (Good a) => Some a | _ => None end.

(** What the cache does not look into: tensors' parameters, signatures, modes. *)
Class Opaque := {
  Data : Type;
  Lib : Type;      (** the launcher library [main.so] *)
  Handle : Type;   (** a kernel loaded on the device *)
}.

Section types.
Context `{Opaque}.

(** A [PrimFunc]: its parameters and buffers, and a body. *)
Record Func := MkFunc { header : prim_func; body : Data }.

Record Metadata := {
  symbolic : list (tvar * binding);
  params : list Data;
  m_param_info : list param_info;
  out_idx : option (list Z);
  signature : Data;
  primfunc : Func;
  mlir_content : option string;
  shared : Data;
  m_kernel_name : string;
  gridfunc : string;
  mix_mode : string;
  name : string;
  tensor_kinds : Data;
  kernel_src : string;
}.

(** [JitKernel_NPU]. *)
Record Kernel := {
  kn_symbolic : list (tvar * binding);
  kn_params : list Data;
  kn_param_info : list param_info;
  kn_out_idx : option (list Z);
  kn_signature : Data;
  prim_func_ : Func;
  kn_mlir_content : option string;
  utils_shared : Data;
  kernel_name : string;
  kn_gridfunc : string;
  kn_mix_mode : string;
  utils_name : string;
  kn_tensor_kinds : Data;
  utils_kernel_src : string;
  launch_npu : Lib;
  npu_function : Handle;
  tuner_result : option (Data * Data * Data);   (** latency, config, ref_latency *)
}.

Record Autotune := {
  a_config : option (file Data);
  a_func : option (file Func);
  a_latency : option (file (Data * Data));
}.

(** A directory [<cache_dir>/<key>]. *)
Record Entry := {
  e_mlir : option (file string);
  e_wrapped : option (file string);
  e_so : option (file Lib);
  e_meta : option (file Metadata);
  e_autotune : option Autotune;
}.

Definition empty_entry : Entry := {| e_mlir := None; e_wrapped := None; e_so := None; e_meta := None; e_autotune := None |}.

(** The part of a kernel a call uses. *)
Definition callable (k : Kernel) : JitKernel_NPU :=
  JitKernel (kn_param_info k) (kn_out_idx k) (kn_symbolic k) (kn_gridfunc k).

Record KeyData := {
  kd_version : string;
  kd_func : string;
  kd_out_idx : list Z;
  kd_target : string;
  kd_target_host : option string;
  kd_execution_backend : string;
  kd_verbose : bool;
  kd_pass_configs : option string;
}.

(** A call of [cached_npu]. *)
Record Request := {
  func : Func;
  r_out_idx : out_arg;
  execution_backend : string;
  target : string;
  target_host : option string;
  verbose : bool;
  pass_configs : option (gmap string Data);
}.

Record AutotuneResult := {
  latency : Data;
  config : Data;
  ref_latency : Data;
  libcode : string;
  tuned_func : Func;
  kernel : Kernel;
}.

(** What lowering makes of a function: [Metadata] but for the output positions
    and the parameter information, and what the launcher is generated from. *)
Record Built := {
  b_symbolic : list (tvar * binding);
  b_params : list Data;
  b_signature : Data;
  b_primfunc : Func;
  b_mlir_content : option string;
  b_shared : Data;
  b_kernel_name : string;
  b_gridfunc : string;
  b_mix_mode : string;
  b_name : string;
  b_tensor_kinds : Data;
  b_kernel_src : string;
  b_workspace_size : Z;              (** what the binary asks for *)
  b_lock_num : Z;
  b_lock_ini_val : Z;
  b_need_debug : bool;
  b_force_simt_only : bool;
  b_shared_mem_dynamic_size : option Z;
}.

(** The environment of a process: the override of the workspace size and the
    architecture of the device. *)
Record Environment := {
  TILELANG_ASCEND_WORKSPACE_SIZE : option string;
  get_arch : string;
}.

(** The cache of one process, the disk it shares, and the process' settings. *)
Record Cache := {
  __version__ : string;
  _memory_cache : gmap string Kernel;
  cache_dir : string;
  disk : gmap (string * string) Entry;
  cache_enabled : bool;              (** [CacheState._enabled] *)
  globally_disabled : bool;          (** [is_cache_globally_disabled()] *)
  compilations : list string;
}.

(** The fates of the writes of one call. *)
Record SaveIO := {
  io_mkdir : bool;
  io_mkdir_autotune : bool;
  io_mlir : fate;
  io_wrapped : fate;
  io_so : fate;
  io_meta : fate;
  io_autotune : fate * fate * fate;
}.
End types.

(** Python's [int] of a string: white space around it, a sign, and digits that
    single underscores may separate. *)
Definition is_blank (c : Ascii.ascii) : bool :=
  let n := Ascii.nat_of_ascii c in ((9 <=? n) && (n <=? 13) || (n =? 32))%nat.

Fixpoint int_digits (acc : Z) (after_digit : bool) (s : string) : option Z :=
  match s with
  | EmptyString => if after_digit then Some acc else None
  | String c s' =>
      let d := Z.of_nat (Ascii.nat_of_ascii c) - 48 in
      if (0 <=? d) && (d <=? 9) then int_digits (10 * acc + d) true s'
      else if (Ascii.nat_of_ascii c =? 95)%nat && after_digit then int_digits acc false s'
      else if is_blank c && after_digit && forallb is_blank (Stdlib.Strings.String.list_ascii_of_string s')
      then Some acc else None
  end.

Fixpoint int_of_str (s : string) : option Z :=
  match s with
  | EmptyString => None
  | String c s' =>
      if is_blank c then int_of_str s'
      else if (Ascii.nat_of_ascii c =? 45)%nat then Z.opp <$> int_digits 0 false s'
      else if (Ascii.nat_of_ascii c =? 43)%nat then int_digits 0 false s'
      else int_digits 0 false s
  end.

(** [a in b] of strings. *)
Definition occurs_in (a b : string) : bool := bool_decide (is_Some (String.index 0 a b)).

(** What the cache is used with.  [lower_npu] is the part of [compile] that
    promotes the symbolic variables, lowers the function to MLIR and that to a
    binary; [generate_npu_wrapper_src] writes the C++ text of the launcher and
    [build_launcher] is [make_npu_launcher_stub], which compiles it. *)
Class World `{Opaque} := {
  environment : Environment;
  lower_npu : Environment → string → Func → gmap string Data → res Built;   (** by version *)
  generate_npu_wrapper_src : Data → Z → string → Z → Z → bool → bool → Z → bool → bool → string;
  build_launcher : string → string → res Lib;
  load_binary : string → string → Data → string → res Handle;
  script : Func → string;
  dumps : string → string;
  compute_sha256_hash : string → string;
  json_dumps : KeyData → string;
  json_dumps_configs : gmap string Data → res string;
  json_trip : Data → res Data;       (** a value written as JSON and read back *)
}.

Section cache.
Context `{World}.

(** ** Kernels *)

(** [_launch]. *)
Definition _launch (so : option (file Lib)) : res Lib := or_raise ImportError (loads so).

Definition as_arg (o : option (list Z)) : out_arg := match o with Some l => OList l | None => ONone end.

Definition JitKernel_NPU_init (metadata : Metadata) (so : option (file Lib)) (out : option (list Z)) : res Kernel :=
  out' ← _normalize_out_idx (as_arg (match out with Some _ => out | None => out_idx metadata end)) (len (params metadata));
  launch ← _launch so;
  npu ← load_binary (name metadata) (kernel_src metadata) (shared metadata) (mix_mode metadata);
  Ok {|
    kn_symbolic := symbolic metadata; kn_params := params metadata; kn_param_info := m_param_info metadata;
    kn_out_idx := out'; kn_signature := signature metadata; prim_func_ := primfunc metadata;
    kn_mlir_content := mlir_content metadata; utils_shared := shared metadata; kernel_name := name metadata;
    kn_gridfunc := gridfunc metadata; kn_mix_mode := mix_mode metadata; utils_name := name metadata;
    kn_tensor_kinds := tensor_kinds metadata; utils_kernel_src := kernel_src metadata; launch_npu := launch;
    npu_function := npu; tuner_result := None |}.

Definition from_database (metadata : Metadata) (so : option (file Lib)) : res Kernel := JitKernel_NPU_init metadata so None.

(** The dict [_save_npu_kernel_to_disk] writes. *)
Definition metadata_of (k : Kernel) : Metadata := {|
  symbolic := kn_symbolic k; params := kn_params k; m_param_info := kn_param_info k; out_idx := kn_out_idx k;
  signature := kn_signature k; primfunc := prim_func_ k; mlir_content := kn_mlir_content k; shared := utils_shared k;
  m_kernel_name := kernel_name k; gridfunc := kn_gridfunc k; mix_mode := kn_mix_mode k; name := utils_name k;
  tensor_kinds := kn_tensor_kinds k; kernel_src := utils_kernel_src k |}.

Definition get_kernel_source (k : Kernel) : string := utils_kernel_src k.

Definition update_tuner_result (lat conf ref : Data) (k : Kernel) : Kernel := {|
  kn_symbolic := kn_symbolic k; kn_params := kn_params k; kn_param_info := kn_param_info k; kn_out_idx := kn_out_idx k;
  kn_signature := kn_signature k; prim_func_ := prim_func_ k; kn_mlir_content := kn_mlir_content k;
  utils_shared := utils_shared k; kernel_name := kernel_name k; kn_gridfunc := kn_gridfunc k; kn_mix_mode := kn_mix_mode k;
  utils_name := utils_name k; kn_tensor_kinds := kn_tensor_kinds k; utils_kernel_src := utils_kernel_src k;
  launch_npu := launch_npu k; npu_function := npu_function k; tuner_result := Some (lat, conf, ref) |}.

Definition _is_a5_device : bool :=
  occurs_in "910_95" (get_arch environment) || occurs_in "950" (get_arch environment).

(** The override is only used when it is a number. *)
Definition workspace_size (inferred : Z) : Z :=
  match TILELANG_ASCEND_WORKSPACE_SIZE environment with
  | Some s => default inferred (int_of_str s)
  | None => inferred
  end.

(** The launcher of a lowered function. *)
Definition make_launcher (b : Built) : res Lib :=
  let is_a5 := _is_a5_device in
  let shared_mem_dynamic_size := default (if is_a5 then 221184 else 0) (b_shared_mem_dynamic_size b) in
  let wrapper_src :=
    generate_npu_wrapper_src (b_signature b) (workspace_size (b_workspace_size b)) (b_mix_mode b) (b_lock_num b)
      (b_lock_ini_val b) (b_need_debug b) (b_force_simt_only b) shared_mem_dynamic_size is_a5 (negb is_a5) in
  build_launcher (b_kernel_name b) wrapper_src.

(** [compiler_npu().compile]; [None] and an empty dict of configurations are the same to it. *)
Definition compile (version : string) (f : Func) (out : option (list Z)) (configs : option (gmap string Data)) : res Kernel :=
  infos ← _extract_param_info (header f) out;
  out' ← _normalize_out_idx (as_arg out) (len infos);
  b ← lower_npu environment version f (default ∅ configs);
  launcher ← make_launcher b;
  let metadata := {|
    symbolic := b_symbolic b; params := b_params b; m_param_info := infos; out_idx := out'; signature := b_signature b;
    primfunc := b_primfunc b; mlir_content := b_mlir_content b; shared := b_shared b; m_kernel_name := b_kernel_name b;
    gridfunc := b_gridfunc b; mix_mode := b_mix_mode b; name := b_name b; tensor_kinds := b_tensor_kinds b;
    kernel_src := b_kernel_src b |} in
  JitKernel_NPU_init metadata (Some (Good launcher)) out'.

(** ** Keys *)

Definition nonempty_str (s : string) : bool := negb (bool_decide (s = EmptyString)).

Definition configs_key (configs : option (gmap string Data)) : res (option string) :=
  match configs with
  | None => Ok None
  | Some m => if Nat.eqb (size m) 0 then Ok None else Some <$> json_dumps_configs m
  end.

Definition _generate_compile_key (version : string) (r : Request) (out : option (list Z)) : res string :=
  configs ← configs_key (pass_configs r);
  Ok (compute_sha256_hash (json_dumps {|
    kd_version := version;
    kd_func := compute_sha256_hash (dumps (script (func r)));
    kd_out_idx := default [] out;
    kd_target := target r;
    kd_target_host := match target_host r with Some h => if nonempty_str h then Some h else None | None => None end;
    kd_execution_backend := execution_backend r;
    kd_verbose := verbose r;
    kd_pass_configs := configs |})).

(** ** Saving and loading *)

Definition set_memory (m : gmap string Kernel) (c : Cache) : Cache :=
  {| __version__ := __version__ c; _memory_cache := m; cache_dir := cache_dir c; disk := disk c;
     cache_enabled := cache_enabled c; globally_disabled := globally_disabled c; compilations := compilations c |}.
Definition set_disk (d : gmap (string * string) Entry) (c : Cache) : Cache :=
  {| __version__ := __version__ c; _memory_cache := _memory_cache c; cache_dir := cache_dir c; disk := d;
     cache_enabled := cache_enabled c; globally_disabled := globally_disabled c; compilations := compilations c |}.
Definition set_dir (d : string) (c : Cache) : Cache :=
  {| __version__ := __version__ c; _memory_cache := _memory_cache c; cache_dir := d; disk := disk c;
     cache_enabled := cache_enabled c; globally_disabled := globally_disabled c; compilations := compilations c |}.
Definition set_enabled (b g : bool) (c : Cache) : Cache :=
  {| __version__ := __version__ c; _memory_cache := _memory_cache c; cache_dir := cache_dir c; disk := disk c;
     cache_enabled := b; globally_disabled := g; compilations := compilations c |}.
Definition note_compilation (key : string) (c : Cache) : Cache :=
  {| __version__ := __version__ c; _memory_cache := _memory_cache c; cache_dir := cache_dir c; disk := disk c;
     cache_enabled := cache_enabled c; globally_disabled := globally_disabled c; compilations := key :: compilations c |}.

Definition is_cache_enabled (c : Cache) : bool := negb (globally_disabled c) && cache_enabled c.

Definition _get_cache_path (c : Cache) (key : string) : string * string := (cache_dir c, key).

(** [mkdir(parents=True, exist_ok=True)]: what is there stays. *)
Definition mkdir (ok : bool) (p : string * string) : prog Cache unit :=
  if ok then modify (λ c, set_disk (<[p := default empty_entry (disk c !! p)]> (disk c)) c) else raise OSError.

Definition update_entry (p : string * string) (f : Entry → Entry) : prog Cache unit :=
  modify (λ c, set_disk (alter f p (disk c)) c).

Definition _save_npu_kernel_to_disk (io : SaveIO) (k : Kernel) (e : Entry) : Entry := {|
  e_mlir := match kn_mlir_content k with Some t => _try_save (io_mlir io) t (e_mlir e) | None => e_mlir e end;
  e_wrapped := _try_save (io_wrapped io) (get_kernel_source k) (e_wrapped e);
  e_so := _try_save (io_so io) (launch_npu k) (e_so e);
  e_meta := _try_save (io_meta io) (metadata_of k) (e_meta e);
  e_autotune := e_autotune e |}.

Definition save_compile_result (io : SaveIO) (key : string) (k : Kernel) : prog Cache unit :=
  c ← get;
  let cache_path := _get_cache_path c key in
  mkdir (io_mkdir io) cache_path;;
  update_entry cache_path (_save_npu_kernel_to_disk io k).

(** The files of one entry; [kernel.mlir] is read but not used. *)
Definition _load_npu_kernel_from_disk (entry : option Entry) : res (option Kernel) :=
  match entry with
  | None => Ok None
  | Some e =>
      match read_bytes (e_wrapped e), loads (e_meta e) with
      | Some kernel_global_source, Some metadata =>
          if nonempty_str kernel_global_source then Some <$> from_database metadata (e_so e) else Ok None
      | _, _ => Ok None
      end
  end.

Definition load_compile_result (key : string) : prog Cache (option Kernel) :=
  c ← get;
  let entry := disk c !! _get_cache_path c key in
  match entry ≫= e_meta with
  | None => mret None
  | Some _ => lift (_load_npu_kernel_from_disk entry)
  end.

(** ** Requests *)

Definition canonical_out_idx (r : Request) : res (option (list Z)) :=
  match r_out_idx r with
  | ONone => Ok None
  | o => _normalize_out_idx o (len (pf_params (header (func r))))
  end.

Definition cached_npu (io : SaveIO) (r : Request) : prog Cache Kernel :=
  out ← lift (canonical_out_idx r);
  c ← get;
  _key ← lift (_generate_compile_key (__version__ c) r out);
  hit ← (if is_cache_enabled c then
           match _memory_cache c !! _key with
           | Some mem_hit => mret (Some mem_hit)
           | None =>
               disk_hit ← load_compile_result _key;
               match disk_hit with
               | Some k => modify (λ c, set_memory (<[_key := k]> (_memory_cache c)) c);; mret (Some k)
               | None => mret None
               end
           end
         else mret None);
  match hit with
  | Some k => mret k
  | None =>
      modify (note_compilation _key);;
      k ← lift (compile (__version__ c) (func r) out (pass_configs r));
      if is_cache_enabled c then
        save_compile_result io _key k;;
        modify (λ c, set_memory (<[_key := k]> (_memory_cache c)) c);;
        mret k
      else mret k
  end.

(** ** Maintenance *)

Definition set_cache_dir (d : string) : prog Cache unit := modify (set_dir d).

(** [rmtree] and [makedirs]; an error ends it early and is only logged: the
    entries [survives] tells are then still there. *)
Definition _clear_disk_cache (survives : string → bool) : prog Cache unit :=
  modify (λ c, set_disk (filter (λ pe : (string * string) * Entry, pe.1.1 = cache_dir c → survives pe.1.2 = true) (disk c)) c).

Definition clear_cache (survives : string → bool) : prog Cache unit :=
  modify (set_memory ∅);; _clear_disk_cache survives.

(** A process ends and another one starts: [__new__] with the default directory. *)
Definition restart (version dir : string) (g : bool) (c : Cache) : Cache :=
  {| __version__ := version; _memory_cache := ∅; cache_dir := dir; disk := disk c;
     cache_enabled := true; globally_disabled := g; compilations := compilations c |}.

(** ** Results of the autotuner *)

Definition no_autotune : Autotune := {| a_config := None; a_func := None; a_latency := None |}.

Definition write_autotune (io : SaveIO) (result : AutotuneResult) (e : Entry) : Entry :=
  let '(fc, ff, fl) := io_autotune io in
  let a := default no_autotune (e_autotune e) in {|
  e_mlir := e_mlir e; e_wrapped := e_wrapped e; e_so := e_so e; e_meta := e_meta e;
  e_autotune := Some {|
    a_config := _try_save fc (config result) (a_config a);
    a_func := _try_save ff (tuned_func result) (a_func a);
    a_latency := _try_save fl (latency result, ref_latency result) (a_latency a) |} |}.

Definition save_autotune_result (io : SaveIO) (key : string) (result : AutotuneResult) : prog Cache unit :=
  c ← get;
  let cache_path := _get_cache_path c key in
  mkdir (io_mkdir io) cache_path;;
  (if io_mkdir_autotune io then mret tt else raise OSError);;
  update_entry cache_path (λ e, write_autotune io result (_save_npu_kernel_to_disk io (kernel result) e)).

(** A value of a JSON file: reading what cannot be written as JSON raises. *)
Definition _read_json (f : option (file Data)) : option Data :=
  x ← loads f; match json_trip x with Ok y => Some y | Raise _ => None end.

Definition load_autotune_result (key : string) : prog Cache (option AutotuneResult) :=
  c ← get;
  let entry := disk c !! _get_cache_path c key in
  match entry ≫= e_autotune with
  | None => mret None
  | Some a =>
      match _read_json (a_config a), loads (a_func a),
            _read_json (option_map (λ f, match f with Good x => Good x.1 | Garbled s => Garbled s end) (a_latency a)),
            _read_json (option_map (λ f, match f with Good x => Good x.2 | Garbled s => Garbled s end) (a_latency a)) with
      | Some conf, Some f, Some lat, Some ref =>
          k ← lift (_load_npu_kernel_from_disk entry);
          match k with
          | None => mret None
          | Some k =>
              let k := update_tuner_result lat conf ref k in
              mret (Some {| latency := lat; config := conf; ref_latency := ref; libcode := get_kernel_source k;
                            tuned_func := f; kernel := k |})
          end
      | _, _, _, _ => mret None
      end
  end.
(** ** What happens to a cache *)

(** [k] is what this version makes of a request with this key. *)
Definition origin (v key : string) (k : Kernel) : Prop :=
  ∃ r out, canonical_out_idx r = Ok out ∧ _generate_compile_key v r out = Ok key ∧
    compile v (func r) out (pass_configs r) = Ok k.

Definition is_compile_key (key : string) : Prop := ∃ v r out, _generate_compile_key v r out = Ok key.

(** A file that is lost or damaged. *)
Definition decayed {A} (f f' : option (file A)) : Prop := f' = f ∨ f' = None ∨ ∃ bs, f' = Some (Garbled bs).

(** What another process, of any version, or an accident does to an entry:
    any of the writes of a save, and damage. *)
Inductive touched (key : string) : Entry → Entry → Prop :=
  | touched_save v k io e : origin v key k → touched key e (_save_npu_kernel_to_disk io k e)
  | touched_decay e e' :
      decayed (e_wrapped e) (e_wrapped e') → decayed (e_so e) (e_so e') → decayed (e_meta e) (e_meta e') →
      touched key e e'.

(** What the process itself does between the start and the next clearing. *)
Inductive own_step : Cache → Cache → Prop :=
  | own_call io r c : own_step c (cached_npu io r c).2
  | own_dir d c : own_step c (set_cache_dir d c).2
  | own_enable b g c : own_step c (set_enabled b g c)
  | own_autotune io key result c :
      ¬ is_compile_key key → own_step c (save_autotune_result io key result c).2
  | own_disk p e c :
      touched p.2 (default empty_entry (disk c !! p)) e → own_step c (set_disk (<[p := e]> (disk c)) c)
  | own_gone p c : own_step c (set_disk (delete p (disk c)) c).

Inductive step : Cache → Cache → Prop :=
  | step_own c c' : own_step c c' → step c c'
  | step_clear survives c : step c (clear_cache survives c).2
  | step_restart v d g c : step c (restart v d g c).

Definition fresh (v d : string) : Cache :=
  {| __version__ := v; _memory_cache := ∅; cache_dir := d; disk := ∅; cache_enabled := true;
     globally_disabled := false; compilations := [] |}.

Definition reachable (c : Cache) : Prop := ∃ v d, rtc step (fresh v d) c.

(** ** One call *)

Definition lookup_disk (c : Cache) (key : string) : res (option Kernel) :=
  match disk c !! _get_cache_path c key ≫= e_meta with
  | None => Ok None
  | Some _ => _load_npu_kernel_from_disk (disk c !! _get_cache_path c key)
  end.

Definition remember (key : string) (k : Kernel) (c : Cache) : Cache := set_memory (<[key := k]> (_memory_cache c)) c.

Definition stored (io : SaveIO) (key : string) (k : Kernel) (c : Cache) : Cache :=
  let p := _get_cache_path c key in
  remember key k
    (set_disk (<[p := _save_npu_kernel_to_disk io k (default empty_entry (disk c !! p))]> (disk c)) c).

Definition compile_and_store (io : SaveIO) (r : Request) (out : option (list Z)) (key : string) (c : Cache) : res Kernel * Cache :=
  let c' := note_compilation key c in
  match compile (__version__ c) (func r) out (pass_configs r) with
  | Raise e => (Raise e, c')
  | Ok k => if is_cache_enabled c then if io_mkdir io then (Ok k, stored io key k c') else (Raise OSError, c') else (Ok k, c')
  end.

Lemma load_compile_result_eq key c : load_compile_result key c = (lookup_disk c key, c).
Proof.
  unfold load_compile_result, lookup_disk. rewrite bind_eq. cbn [get fst snd].
  by destruct (disk c !! _get_cache_path c key ≫= e_meta).
Qed.

Lemma save_compile_result_eq io key k c :
  save_compile_result io key k c =
    if io_mkdir io then (Ok tt, set_disk (<[_get_cache_path c key :=
      _save_npu_kernel_to_disk io k (default empty_entry (disk c !! _get_cache_path c key))]> (disk c)) c)
    else (Raise OSError, c).
Proof.
  unfold save_compile_result, mkdir, update_entry. rewrite bind_eq. cbn [get fst snd]. rewrite bind_eq.
  destruct (io_mkdir io); [|done]. unfold modify. cbn [fst snd]. f_equal. unfold set_disk. cbn [disk __version__ _memory_cache cache_dir cache_enabled globally_disabled compilations]. f_equal. apply alter_insert_eq.
Qed.

Lemma save_autotune_result_eq io key result c :
  let p := _get_cache_path c key in
  let e := default empty_entry (disk c !! p) in
  save_autotune_result io key result c =
    if io_mkdir io then
      if io_mkdir_autotune io then
        (Ok tt, set_disk (<[p := write_autotune io result (_save_npu_kernel_to_disk io (kernel result) e)]> (disk c)) c)
      else (Raise OSError, set_disk (<[p := e]> (disk c)) c)
    else (Raise OSError, c).
Proof.
  intros p e. unfold save_autotune_result, mkdir, update_entry. run. destruct (io_mkdir io); [|done]. run.
  destruct (io_mkdir_autotune io); run; [|done]. unfold modify. f_equal. unfold set_disk.
  cbn [disk __version__ _memory_cache cache_dir cache_enabled globally_disabled compilations]. f_equal. etrans; [apply alter_insert_eq|done].
Qed.

Lemma cached_npu_eq io r c out key :
  canonical_out_idx r = Ok out → _generate_compile_key (__version__ c) r out = Ok key →
  cached_npu io r c =
    if is_cache_enabled c then
      match _memory_cache c !! key with
      | Some k => (Ok k, c)
      | None =>
          match lookup_disk c key with
          | Raise e => (Raise e, c)
          | Ok (Some k) => (Ok k, remember key k c)
          | Ok None => compile_and_store io r out key c
          end
      end
    else compile_and_store io r out key c.
Proof.
  intros Ho Hk. unfold cached_npu, compile_and_store. rewrite bind_eq, Ho. run. rewrite Hk. run.
  destruct (is_cache_enabled c) eqn:He.
  - destruct (_memory_cache c !! key) as [k|]; [done|]. run. rewrite load_compile_result_eq. run.
    destruct (lookup_disk c key) as [[k|]|e]; [done| |done]. run.
    destruct (compile _ _ _ _) as [k|e]; [|done]. run. rewrite save_compile_result_eq. by destruct (io_mkdir io).
  - run. by destruct (compile _ _ _ _).
Qed.

Lemma cached_npu_rejects io r c e :
  canonical_out_idx r = Raise e ∨
  (∃ out, canonical_out_idx r = Ok out ∧ _generate_compile_key (__version__ c) r out = Raise e) →
  cached_npu io r c = (Raise e, c).
Proof.
  unfold cached_npu. rewrite bind_eq. intros [-> | (out & -> & Hk)]; run; [done|]. by rewrite Hk.
Qed.
End cache.

(** What the text of the launcher is generated from. *)
Definition launcher_args `{Opaque} (b : Built) : string * Data * Z * string * Z * Z * bool * bool * option Z :=
  (b_kernel_name b, b_signature b, b_workspace_size b, b_mix_mode b, b_lock_num b, b_lock_ini_val b, b_need_debug b,
   b_force_simt_only b, b_shared_mem_dynamic_size b).

(** What the cache relies on. *)
Class WorldLaws `{World} := {
  sha_inj :: Inj (=) (=) compute_sha256_hash;
  dumps_inj :: Inj (=) (=) dumps;
  json_inj :: Inj (=) (=) json_dumps;
  configs_inj m1 m2 s : json_dumps_configs m1 = Ok s → json_dumps_configs m2 = Ok s → m1 = m2;
  (** functions with the same text are lowered alike, as far as the launcher sees *)
  lowered_alike v f g m b b' :
    script f = script g → lower_npu environment v f m = Ok b → lower_npu environment v g m = Ok b' →
    launcher_args b = launcher_args b';
}.

Section laws.
Context `{WorldLaws}.

(** ** Keys *)

(** A kernel this version makes, in the environment, of a function with this
    text, for these outputs and these configurations. *)
Definition made (v src : string) (out : option (list Z)) (configs : gmap string Data) (k : Kernel) : Prop :=
  ∃ f, script f = src ∧ compile v f out (Some configs) = Ok k.

(** The outputs a kernel is compiled for, by those that are asked for: the key
    tells all requests apart that name an output, but not [None] from an empty
    list. *)
Definition same_outputs (out out' : option (list Z)) : Prop :=
  match out with
  | Some (_ :: _) => out' = out
  | _ => out' = None ∨ out' = Some []
  end.

Lemma same_outputs_spec out out' : default [] out' = default [] out → same_outputs out out'.
Proof. destruct out as [[|i l]|], out' as [[|i' l']|]; simpl; intros; simplify_eq; auto. Qed.

Lemma configs_key_spec m co :
  configs_key m = Ok co → match co with None => default ∅ m = ∅ | Some s => json_dumps_configs (default ∅ m) = Ok s end.
Proof.
  destruct m as [m|]; simpl; intros Hm; [|by simplify_eq].
  destruct (Nat.eqb_spec (size m) 0) as [E|E]; simplify_eq/=; [by apply map_size_empty_iff|].
  by destruct (json_dumps_configs m); simplify_eq/=.
Qed.

Lemma key_determines v v' r r' out out' key :
  _generate_compile_key v r out = Ok key → _generate_compile_key v' r' out' = Ok key →
  v = v' ∧ script (func r) = script (func r') ∧ default [] out = default [] out' ∧
  default ∅ (pass_configs r) = default ∅ (pass_configs r').
Proof.
  unfold _generate_compile_key. intros Hk Hk'.
  destruct (configs_key (pass_configs r)) as [co|] eqn:Ec; [|done].
  destruct (configs_key (pass_configs r')) as [co'|] eqn:Ec'; [|done]. apply configs_key_spec in Ec, Ec'. simpl in Hk, Hk'.
  injection Hk as Hk. injection Hk' as Hk'. rewrite <- Hk' in Hk. apply (inj _), (inj _) in Hk.
  injection Hk as -> Hs Ho _ _ _ _ ->. apply (inj _), (inj _) in Hs. split_and!; [done|done|done|].
  destruct co'; [by eapply configs_inj|congruence].
Qed.

Lemma compile_configs v f out configs : compile v f out configs = compile v f out (Some (default ∅ configs)).
Proof. done. Qed.

Lemma origin_made v v' key k r out :
  origin v key k → _generate_compile_key v' r out = Ok key →
  v = v' ∧ ∃ out', same_outputs out out' ∧ made v' (script (func r)) out' (default ∅ (pass_configs r)) k.
Proof.
  intros (r0 & out0 & Ho & Hk & Hc) Hk'. destruct (key_determines _ _ _ _ _ _ _ Hk Hk') as (-> & Hs & Hout & Hp).
  split; [done|]. exists out0. split; [by apply same_outputs_spec|]. exists (func r0). split; [done|].
  by rewrite <- Hp, <- compile_configs.
Qed.

(** ** Kernels read back *)

Lemma normalize_one_idem n i j : normalize_one n i = Ok j → normalize_one n j = Ok j.
Proof.
  unfold normalize_one. destruct (_ || _) eqn:E; [done|]. intros [= <-]. rewrite orb_false_iff, Z.ltb_ge, Z.leb_gt in E.
  destruct E as [E0 E1]. rewrite (proj2 (Z.leb_le 0 _)) by done.
  by rewrite (proj2 (Z.ltb_ge _ 0)), (proj2 (Z.leb_gt n _)) by done.
Qed.

Lemma mmap_normalize_idem n l l' : mmap (normalize_one n) l = Ok l' → mmap (normalize_one n) l' = Ok l'.
Proof.
  revert l'. induction l as [|i l IH]; intros l' Hl; simplify_eq/=; [done|].
  destruct (normalize_one n i) as [j|] eqn:Ej; [|done]. simpl in Hl.
  destruct (mmap (normalize_one n) l) as [l0|] eqn:El; simplify_eq/=. by rewrite (normalize_one_idem n i j), (IH l0).
Qed.

Lemma normalize_idem a n out : _normalize_out_idx a n = Ok out → _normalize_out_idx (as_arg out) n = Ok out.
Proof.
  assert (∀ l, Some <$> mmap (normalize_one n) l = Ok out → _normalize_out_idx (as_arg out) n = Ok out) as Hl.
  { intros l. destruct (mmap (normalize_one n) l) as [l'|] eqn:E; intros; simplify_eq/=. by rewrite (mmap_normalize_idem n l). }
  destruct a; simpl; intros Ha; [by simplify_eq|by apply (Hl [i])|by apply (Hl l)|done].
Qed.

(** A kernel is rebuilt from its metadata and its launcher as it was. *)
Lemma kernel_reload md so out k :
  JitKernel_NPU_init md so out = Ok k → from_database (metadata_of k) (Some (Good (launch_npu k))) = Ok k.
Proof.
  unfold from_database, JitKernel_NPU_init. intros Hk.
  destruct (_normalize_out_idx _ _) as [out'|] eqn:Eo; [|done]. simpl in Hk.
  destruct (_launch so) as [l|] eqn:El; [|done]. simpl in Hk.
  destruct (load_binary _ _ _ _) as [h|] eqn:Eh; simplify_eq/=. apply normalize_idem in Eo. by rewrite Eo, Eh.
Qed.

Lemma compile_reload v f out configs k :
  compile v f out configs = Ok k → from_database (metadata_of k) (Some (Good (launch_npu k))) = Ok k.
Proof.
  unfold compile. intros Hk. destruct (_extract_param_info _ _); [|done]. simpl in Hk.
  destruct (_normalize_out_idx _ _); [|done]. simpl in Hk. destruct (lower_npu _ _ _ _); [|done]. simpl in Hk.
  destruct (make_launcher _); [|done]. by eapply kernel_reload.
Qed.

Lemma compile_launcher v f out configs k :
  compile v f out configs = Ok k →
  ∃ b, lower_npu environment v f (default ∅ configs) = Ok b ∧ make_launcher b = Ok (launch_npu k).
Proof.
  unfold compile. intros Hk. destruct (_extract_param_info _ _); [|done]. simpl in Hk.
  destruct (_normalize_out_idx _ _); [|done]. simpl in Hk.
  destruct (lower_npu _ _ _ _) as [b|]; [|done]. exists b. split; [done|].
  simpl in Hk. destruct (make_launcher b) as [l|]; [|done]. simpl in Hk. unfold JitKernel_NPU_init in Hk. destruct (_normalize_out_idx _ _); [|done]. simpl in Hk.
  destruct (load_binary _ _ _ _); by simplify_eq/=.
Qed.

(** All kernels of a key have the same launcher. *)
Lemma origin_launcher v v' key k k' : origin v key k → origin v' key k' → launch_npu k = launch_npu k'.
Proof.
  intros (r & out & _ & Hk & Hc) (r' & out' & _ & Hk' & Hc').
  destruct (key_determines _ _ _ _ _ _ _ Hk Hk') as (-> & Hs & _ & Hp).
  apply compile_launcher in Hc as (b & Hb & Hl). apply compile_launcher in Hc' as (b' & Hb' & Hl').
  rewrite Hp in Hb. pose proof (lowered_alike _ _ _ _ _ _ Hs Hb Hb') as Ha. unfold launcher_args in Ha.
  injection Ha as Hn Hsig Hw Hx Hln Hli Hd Hf Hsh. unfold make_launcher in Hl, Hl'.
  rewrite Hn, Hsig, Hw, Hx, Hln, Hli, Hd, Hf, Hsh, Hl' in Hl. by injection Hl as ->.
Qed.

(** ** The invariant *)

(** Good files of the entry of a request belong to kernels of this request. *)
Definition entry_ok (key : string) (e : Entry) : Prop :=
  is_compile_key key →
  (∀ m, e_meta e = Some (Good m) → ∃ v k, origin v key k ∧ m = metadata_of k) ∧
  (∀ l, e_so e = Some (Good l) → ∃ v k, origin v key k ∧ l = launch_npu k).

Record cache_ok (c : Cache) : Prop := {
  memory_ok key k : _memory_cache c !! key = Some k → origin (__version__ c) key k;
  disk_ok p e : disk c !! p = Some e → entry_ok p.2 e;
}.

Lemma empty_entry_ok key : entry_ok key empty_entry.
Proof. by intros _. Qed.

Lemma try_save_good {A} ft (a : A) old x : _try_save ft a old = Some (Good x) → x = a ∨ old = Some (Good x).
Proof. destruct ft; simpl; intros; simplify_eq; auto. Qed.

Lemma save_entry_ok io v key k e : origin v key k → entry_ok key e → entry_ok key (_save_npu_kernel_to_disk io k e).
Proof.
  intros Ho He Hkey. destruct (He Hkey) as [Hm Hl]. split; intros x [-> | Hx]%try_save_good; eauto.
Qed.

Lemma decayed_good {A} (f f' : option (file A)) x : decayed f f' → f' = Some (Good x) → f = Some (Good x).
Proof. intros [-> | [-> | [bs ->]]]; naive_solver. Qed.

Lemma touched_ok key e e' : touched key e e' → entry_ok key e → entry_ok key e'.
Proof.
  intros [v k io e0 Ho|e0 e1 _ Hs Hm] He; [by eapply save_entry_ok|]. intros Hkey. destruct (He Hkey) as [HM HL].
  split; intros x Hx; eapply decayed_good in Hx; eauto.
Qed.

(** ** What an entry gives *)

Lemma metadata_load v key k so :
  origin v key k →
  from_database (metadata_of k) so =
    match loads so with None => Raise ImportError | Some l => from_database (metadata_of k) (Some (Good l)) end.
Proof.
  intros (r & out & _ & _ & Hc%compile_reload). destruct (loads so) as [l|] eqn:El.
  - unfold from_database, JitKernel_NPU_init, _launch. by rewrite El.
  - revert Hc. unfold from_database, JitKernel_NPU_init, _launch. rewrite El.
    destruct (_normalize_out_idx _ _); [done|discriminate].
Qed.

Lemma lookup_disk_cases c key :
  cache_ok c → is_compile_key key →
  lookup_disk c key = Ok None ∨
  (∃ v k, origin v key k ∧ lookup_disk c key = Ok (Some k)) ∨
  (lookup_disk c key = Raise ImportError ∧
   ∃ e m, disk c !! (cache_dir c, key) = Some e ∧ e_meta e = Some (Good m) ∧ loads (e_so e) = None).
Proof.
  intros Hc Hkey. unfold lookup_disk, _get_cache_path. destruct (disk c !! (cache_dir c, key)) as [e|] eqn:Ee; [|by left].
  destruct (disk_ok c Hc _ _ Ee Hkey) as [Hm Hl]. simpl. destruct (e_meta e) as [[m|bs]|] eqn:Em; simpl; [| |by left].
  2: { left. by destruct (read_bytes _). }
  destruct (read_bytes (e_wrapped e)) as [w|]; [|by left]. destruct (nonempty_str w); [|by left].
  destruct (Hm m eq_refl) as (v & k & Ho & ->). rewrite (metadata_load v key k) by done.
  destruct (loads (e_so e)) as [l|] eqn:El; [|by right; right; split; [|exists e, (metadata_of k)]].
  right; left. exists v, k. split; [done|]. destruct (e_so e) as [[l'|]|]; simplify_eq/=.
  destruct (Hl l eq_refl) as (v' & k' & Ho' & ->). rewrite <- (origin_launcher _ _ _ _ _ Ho Ho').
  destruct Ho as (r & out & _ & _ & Hcomp). by rewrite (compile_reload _ _ _ _ _ Hcomp).
Qed.

Lemma key_is_key v r out key : _generate_compile_key v r out = Ok key → is_compile_key key.
Proof. intros. by exists v, r, out. Qed.

Lemma origin_version v v' key k r out : origin v key k → _generate_compile_key v' r out = Ok key → origin v' key k.
Proof. intros Ho Hk. by destruct (origin_made _ _ _ _ _ _ Ho Hk) as [-> _]. Qed.

(** ** The invariant is kept *)

Ltac fields H := cbn [remember set_memory set_disk set_dir set_enabled note_compilation _memory_cache disk __version__ cache_dir] in H.

Lemma remember_ok key k c : cache_ok c → origin (__version__ c) key k → cache_ok (remember key k c).
Proof.
  intros [Hm Hd] Ho. split; [|exact Hd]. intros key' k' Hk'. fields Hk'. apply lookup_insert_Some in Hk' as [[<- <-]|[_ Hk']]; auto.
Qed.

Lemma set_disk_ok p e c : cache_ok c → entry_ok p.2 e → cache_ok (set_disk (<[p := e]> (disk c)) c).
Proof.
  intros [Hm Hd] He. split; [exact Hm|]. intros p' e' Hp'. fields Hp'. apply lookup_insert_Some in Hp' as [[<- <-]|[_ Hp']]; auto.
Qed.

Lemma entry_at_ok c p : cache_ok c → entry_ok p.2 (default empty_entry (disk c !! p)).
Proof. intros Hc. destruct (disk c !! p) eqn:E; [by eapply disk_ok|apply empty_entry_ok]. Qed.

Lemma note_ok key c : cache_ok c → cache_ok (note_compilation key c).
Proof. by intros [Hm Hd]. Qed.

Lemma compile_and_store_ok io r out key c :
  cache_ok c → canonical_out_idx r = Ok out → _generate_compile_key (__version__ c) r out = Ok key →
  cache_ok (compile_and_store io r out key c).2.
Proof.
  intros Hc Ho Hk. unfold compile_and_store. destruct (compile _ _ _ _) as [k|e] eqn:Ek; [|by apply note_ok].
  assert (origin (__version__ c) key k) as Hor by (by exists r, out).
  destruct (is_cache_enabled c); [|by apply note_ok]. destruct (io_mkdir io); [|by apply note_ok].
  unfold stored. apply remember_ok; [|exact Hor].
  apply set_disk_ok; [by apply note_ok|]. eapply save_entry_ok; [exact Hor|]. by apply (entry_at_ok c (_, key)).
Qed.

Lemma cached_npu_ok io r c : cache_ok c → cache_ok (cached_npu io r c).2.
Proof.
  intros Hc. destruct (canonical_out_idx r) as [out|e] eqn:Ho; [|by rewrite (cached_npu_rejects _ _ _ e) by auto].
  destruct (_generate_compile_key (__version__ c) r out) as [key|e] eqn:Hk; [|by rewrite (cached_npu_rejects _ _ _ e) by eauto].
  rewrite (cached_npu_eq io r c out key Ho Hk). pose proof (compile_and_store_ok io r out key c Hc Ho Hk) as Hs.
  destruct (is_cache_enabled c); [|done]. destruct (_memory_cache c !! key); [done|].
  destruct (lookup_disk_cases c key Hc (key_is_key _ _ _ _ Hk)) as [-> | [(v & k & Hor & ->) | [-> _]]]; [done| |done].
  apply remember_ok; [done|]. by eapply origin_version.
Qed.

Lemma autotune_ok io key result c :
  ¬ is_compile_key key → cache_ok c → cache_ok (save_autotune_result io key result c).2.
Proof.
  intros Hkey Hc. assert (∀ e, entry_ok key e) as He by done. rewrite save_autotune_result_eq.
  destruct (io_mkdir io); [|done]. destruct (io_mkdir_autotune io); (apply set_disk_ok; [done|apply He]).
Qed.

Lemma own_step_ok c c' : own_step c c' → cache_ok c → cache_ok c'.
Proof.
  intros [io r c0|d c0|b g c0|io key result c0 Hkey|p e c0 Ht|p c0] Hc.
  - by apply cached_npu_ok.
  - by destruct Hc.
  - by destruct Hc.
  - by apply autotune_ok.
  - apply set_disk_ok; [done|]. eapply touched_ok; [done|]. by apply entry_at_ok.
  - destruct Hc as [Hm Hd]. split; [exact Hm|]. intros p' e Hp. fields Hp. apply lookup_delete_Some in Hp as [_ Hp]. by apply Hd.
Qed.

Lemma cache_step_ok c c' : step c c' → cache_ok c → cache_ok c'.
Proof.
  intros [c0 c1 Ho|survives c0|v d g c0] Hc; [by eapply own_step_ok| |].
  - destruct Hc as [_ Hd]. split; [done|]. intros p e Hp. fields Hp. apply map_lookup_filter_Some in Hp as [Hp _]. by apply Hd.
  - destruct Hc as [_ Hd]. by split.
Qed.

Lemma reachable_cache_ok c : reachable c → cache_ok c.
Proof.
  intros (v & d & Hr). remember (fresh v d) as c0 eqn:E. assert (cache_ok c0) as Hc by (subst; by split).
  clear E. induction Hr; eauto using cache_step_ok.
Qed.

(** What the cache returns, in a state that satisfies the invariant. *)
Lemma cached_npu_made io r c k c' :
  cache_ok c → cached_npu io r c = (Ok k, c') →
  ∃ out out', canonical_out_idx r = Ok out ∧ same_outputs out out' ∧
    made (__version__ c) (script (func r)) out' (default ∅ (pass_configs r)) k.
Proof.
  intros Hc Hk. destruct (canonical_out_idx r) as [out|e] eqn:Ho;
    [|by rewrite (cached_npu_rejects _ _ _ e) in Hk by auto].
  destruct (_generate_compile_key (__version__ c) r out) as [key|e] eqn:Hkey;
    [|by rewrite (cached_npu_rejects _ _ _ e) in Hk by eauto].
  assert (∃ v, origin v key k) as [v Hor].
  2: { destruct (origin_made _ _ _ _ _ _ Hor Hkey) as (_ & out' & Hs & Hm). by exists out, out'. }
  rewrite (cached_npu_eq io r c out key Ho Hkey) in Hk.
  assert (compile_and_store io r out key c = (Ok k, c') → ∃ v, origin v key k) as Hcs.
  { unfold compile_and_store. destruct (compile _ _ _ _) as [k'|] eqn:Ek; [|done]. intros Hs. exists (__version__ c), r, out.
    split; [done|]. split; [done|]. destruct (is_cache_enabled c); [destruct (io_mkdir io)|]; by simplify_eq. }
  destruct (is_cache_enabled c); [|by apply Hcs]. destruct (_memory_cache c !! key) as [k0|] eqn:Em.
  - injection Hk as -> _. exists (__version__ c). by eapply memory_ok.
  - destruct (lookup_disk_cases c key Hc (key_is_key _ _ _ _ Hkey)) as [E | [(v & k' & Hor & E) | [E _]]]; rewrite E in Hk;
      [by apply Hcs|simplify_eq; by exists v|done].
Qed.

Lemma cached_npu_settings io r c :
  let c' := (cached_npu io r c).2 in
  __version__ c' = __version__ c ∧ cache_dir c' = cache_dir c ∧ is_cache_enabled c' = is_cache_enabled c.
Proof.
  intros c'. unfold c'. destruct (canonical_out_idx r) as [out|e] eqn:Ho; [|by rewrite (cached_npu_rejects _ _ _ e) by auto].
  destruct (_generate_compile_key (__version__ c) r out) as [key|e] eqn:Hk; [|by rewrite (cached_npu_rejects _ _ _ e) by eauto].
  rewrite (cached_npu_eq io r c out key Ho Hk). unfold compile_and_store. repeat case_match; done.
Qed.


(** No entry of a finished compilation has lost its launcher. *)
Definition launchers_there (c : Cache) : Prop :=
  ∀ p e m, disk c !! p = Some e → e_meta e = Some (Good m) → is_Some (loads (e_so e)).

(** C34: as long as no entry with readable metadata has lost its launcher, a
    request only fails as its key or the compilation itself would, or when the
    directory of its entry cannot be made. *)
Theorem cache_errors io r c e c' :
  reachable c → launchers_there c → cached_npu io r c = (Raise e, c') →
  canonical_out_idx r = Raise e ∨
  ∃ out, canonical_out_idx r = Ok out ∧
    (_generate_compile_key (__version__ c) r out = Raise e ∨
     ∃ key, _generate_compile_key (__version__ c) r out = Ok key ∧
       (compile (__version__ c) (func r) out (pass_configs r) = Raise e ∨
        is_cache_enabled c = true ∧ _memory_cache c' = _memory_cache c ∧ e = OSError ∧ io_mkdir io = false)).
Proof.
  intros Hc%reachable_cache_ok Hso Hk. destruct (canonical_out_idx r) as [out|e0] eqn:Ho;
    [|rewrite (cached_npu_rejects _ _ _ e0) in Hk by auto; left; congruence].
  right. exists out. split; [done|]. destruct (_generate_compile_key (__version__ c) r out) as [key|e0] eqn:Hkey;
    [|rewrite (cached_npu_rejects _ _ _ e0) in Hk by eauto; left; congruence].
  right. exists key. split; [done|]. rewrite (cached_npu_eq io r c out key Ho Hkey) in Hk.
  assert (compile_and_store io r out key c = (Raise e, c') →
    compile (__version__ c) (func r) out (pass_configs r) = Raise e ∨
    is_cache_enabled c = true ∧ _memory_cache c' = _memory_cache c ∧ e = OSError ∧ io_mkdir io = false) as Hcs.
  { unfold compile_and_store. destruct (compile _ _ _ _) as [k'|] eqn:Ek; [|intros; left; congruence]. right.
    destruct (is_cache_enabled c); [destruct (io_mkdir io)|]; by simplify_eq. }
  destruct (is_cache_enabled c); [|naive_solver]. destruct (_memory_cache c !! key) eqn:Em; [done|].
  destruct (lookup_disk_cases c key Hc (key_is_key _ _ _ _ Hkey)) as [E | [(v & k' & Hor & E) | [E Hl]]]; rewrite E in Hk;
    [naive_solver|done|]. destruct Hl as (en & m & He & Hm & Hn). destruct (Hso _ _ _ He Hm) as [l Hl].
    by rewrite Hn in Hl.
Qed.

(** ** Hits *)

Lemma cached_npu_memory io r c key k :
  _memory_cache c !! key = Some k → _memory_cache (cached_npu io r c).2 !! key = Some k.
Proof.
  intros Hm. destruct (canonical_out_idx r) as [out|e] eqn:Ho; [|by rewrite (cached_npu_rejects _ _ _ e) by auto].
  destruct (_generate_compile_key (__version__ c) r out) as [key'|e] eqn:Hk; [|by rewrite (cached_npu_rejects _ _ _ e) by eauto].
  rewrite (cached_npu_eq io r c out key' Ho Hk). unfold compile_and_store, stored, remember.
  destruct (is_cache_enabled c); [|by destruct (compile _ _ _ _)].
  destruct (_memory_cache c !! key') eqn:Em; [done|]. assert (key' ≠ key) as Hne by congruence.
  assert (∀ k', <[key' := k']> (_memory_cache c) !! key = Some k) as Hi by (intros; by rewrite lookup_insert_ne).
  destruct (lookup_disk c key') as [[k'|]|]; [apply Hi| |done].
  destruct (compile _ _ _ _) as [k'|]; [|done]. destruct (io_mkdir io); [apply Hi|done].
Qed.

Lemma own_step_memory c c' :
  own_step c c' → __version__ c' = __version__ c ∧
  ∀ key k, _memory_cache c !! key = Some k → _memory_cache c' !! key = Some k.
Proof.
  intros [io r c0|d c0|b g c0|io key result c0 Hkey|p e c0 Ht|p c0]; try done.
  - split; [|intros; by apply cached_npu_memory]. 
    destruct (canonical_out_idx r) as [out|e] eqn:Ho; [|by rewrite (cached_npu_rejects _ _ _ e) by auto].
    destruct (_generate_compile_key (__version__ c0) r out) as [key'|e] eqn:Hk; [|by rewrite (cached_npu_rejects _ _ _ e) by eauto].
    rewrite (cached_npu_eq io r c0 out key' Ho Hk). unfold compile_and_store.
    repeat case_match; done.
  - rewrite save_autotune_result_eq. by destruct (io_mkdir io), (io_mkdir_autotune io).
Qed.

Lemma own_steps_memory c c' :
  rtc own_step c c' → __version__ c' = __version__ c ∧
  ∀ key k, _memory_cache c !! key = Some k → _memory_cache c' !! key = Some k.
Proof.
  induction 1 as [|c1 c2 c3 Hs _ [IHv IH]]; [done|]. apply own_step_memory in Hs as [Hv Hm].
  split; [congruence|auto].
Qed.

(** What a successful call leaves behind. *)
Lemma cached_npu_stores io r c k c1 :
  is_cache_enabled c = true → cached_npu io r c = (Ok k, c1) →
  ∃ out key, canonical_out_idx r = Ok out ∧ _generate_compile_key (__version__ c) r out = Ok key ∧
    __version__ c1 = __version__ c ∧ _memory_cache c1 !! key = Some k ∧
    (compilations c1 = compilations c ∨
     compile (__version__ c) (func r) out (pass_configs r) = Ok k ∧ c1 = stored io key k (note_compilation key c)).
Proof.
  intros He Hk. destruct (canonical_out_idx r) as [out|e] eqn:Ho; [|by rewrite (cached_npu_rejects _ _ _ e) in Hk by auto].
  destruct (_generate_compile_key (__version__ c) r out) as [key|e] eqn:Hkey; [|by rewrite (cached_npu_rejects _ _ _ e) in Hk by eauto].
  exists out, key. split; [done|]. split; [done|]. rewrite (cached_npu_eq io r c out key Ho Hkey), He in Hk.
  destruct (_memory_cache c !! key) eqn:Em; [by simplify_eq; auto|].
  assert (∀ k, _memory_cache (remember key k c) !! key = Some k) as Hr by (intros; by apply lookup_insert_eq).
  destruct (lookup_disk c key) as [[k'|]|]; [by injection Hk as <- <-; auto| |done].
  unfold compile_and_store in Hk. rewrite He in Hk. destruct (compile _ _ _ _) as [k'|]; [|done].
  destruct (io_mkdir io); [|done]. injection Hk as <- <-. split; [done|]. split; [by apply lookup_insert_eq|]. auto.
Qed.

(** C35: while caching is enabled, a request served once is served by the same
    kernel object from then on, without compiling and without looking at the disk:
    whatever the process does in between but clearing the cache (switching caching
    off and on again included) and whatever happens to the files, as long as caching
    is enabled when the request is first and when it is next served. *)
Theorem compile_once io io' r c k c1 c2 :
  is_cache_enabled c = true → cached_npu io r c = (Ok k, c1) →
  rtc own_step c1 c2 → is_cache_enabled c2 = true →
  cached_npu io' r c2 = (Ok k, c2).
Proof.
  intros He Hk Hs He2. destruct (cached_npu_stores io r c k c1 He Hk) as (out & key & Ho & Hkey & Hv & Hm & _).
  apply own_steps_memory in Hs as [Hv2 Hm2]. rewrite (cached_npu_eq io' r c2 out key Ho); [|by rewrite Hv2, Hv].
  by rewrite He2, (Hm2 key k Hm).
Qed.

Definition all_saved (io : SaveIO) : Prop := io_wrapped io = Saved ∧ io_so io = Saved ∧ io_meta io = Saved.

Lemma saved_entry_loads v f out configs io k e :
  compile v f out configs = Ok k → all_saved io → nonempty_str (utils_kernel_src k) = true →
  _load_npu_kernel_from_disk (Some (_save_npu_kernel_to_disk io k e)) = Ok (Some k).
Proof.
  intros Hc (Hw & Hs & Hm) Hne. unfold _load_npu_kernel_from_disk, _save_npu_kernel_to_disk, get_kernel_source. simpl.
  rewrite Hw, Hs, Hm. simpl. rewrite Hne. by rewrite (compile_reload _ _ _ _ _ Hc).
Qed.

(** C36: a kernel that was compiled and saved is found by the next process of the
    same version that uses the directory: it returns the same kernel and does not
    compile. *)
Theorem restart_hit io io' r c k c1 :
  is_cache_enabled c = true → cached_npu io r c = (Ok k, c1) → compilations c1 ≠ compilations c →
  all_saved io → nonempty_str (utils_kernel_src k) = true →
  ∃ c2, cached_npu io' r (restart (__version__ c) (cache_dir c) false c1) = (Ok k, c2) ∧
    compilations c2 = compilations c1 ∧ disk c2 = disk c1.
Proof.
  intros He Hk Hn Hio Hne. destruct (cached_npu_stores io r c k c1 He Hk) as (out & key & Ho & Hkey & _ & _ & [Hsame|[Hc ->]]); [done|].
  rewrite (cached_npu_eq io' r _ out key Ho) by done. unfold lookup_disk, _get_cache_path.
  cbn [restart is_cache_enabled globally_disabled cache_enabled negb andb _memory_cache cache_dir disk].
  rewrite lookup_empty. unfold stored. fields Hc.
  cbn [remember set_memory set_disk note_compilation disk cache_dir _get_cache_path]. unfold _get_cache_path. cbn [cache_dir note_compilation].
  rewrite lookup_insert_eq. pose proof (saved_entry_loads _ _ _ _ io k (default empty_entry (disk c !! (cache_dir c, key))) Hc Hio Hne) as Hl.
  destruct Hio as (Hw & Hso & Hm). cbn [mbind option_bind _save_npu_kernel_to_disk e_meta]. rewrite Hm. cbn [_try_save].
  rewrite Hl. eexists. split; [done|]. done.
Qed.

(** A result of the autotuner that was saved is loaded by the next process, its
    kernel annotated with the measured times and the configuration. *)
Theorem autotune_roundtrip v f out configs io key result c c1 g v' :
  compile v f out configs = Ok (kernel result) → all_saved io → io_autotune io = (Saved, Saved, Saved) →
  nonempty_str (utils_kernel_src (kernel result)) = true →
  json_trip (config result) = Ok (config result) → json_trip (latency result) = Ok (latency result) →
  json_trip (ref_latency result) = Ok (ref_latency result) →
  save_autotune_result io key result c = (Ok tt, c1) →
  let k := update_tuner_result (latency result) (config result) (ref_latency result) (kernel result) in
  let c2 := restart v' (cache_dir c) g c1 in
  load_autotune_result key c2 =
    (Ok (Some {| latency := latency result; config := config result; ref_latency := ref_latency result;
                 libcode := get_kernel_source k; tuned_func := tuned_func result; kernel := k |}), c2).
Proof.
  intros Hc Hio Ha Hne Hj1 Hj2 Hj3 Hs k c2. rewrite save_autotune_result_eq in Hs.
  destruct (io_mkdir io); [|done]. destruct (io_mkdir_autotune io); [|done]. injection Hs as <-.
  unfold load_autotune_result. run. unfold _get_cache_path, c2. cbn [restart cache_dir disk set_disk].
  rewrite lookup_insert_eq. set (e0 := default empty_entry _).
  pose proof (saved_entry_loads _ _ _ _ io _ e0 Hc Hio Hne) as Hl.
  assert (_load_npu_kernel_from_disk (Some (write_autotune io result (_save_npu_kernel_to_disk io (kernel result) e0))) = Ok (Some (kernel result))) as Hl'.
  { rewrite <- Hl. unfold write_autotune. by rewrite Ha. }
  rewrite Hl'. unfold write_autotune. rewrite Ha. cbn [mbind option_bind e_autotune a_config a_func a_latency _try_save option_map loads fst snd].
  unfold _read_json. cbn [mbind option_bind loads]. rewrite Hj1, Hj2, Hj3. run. done.
Qed.
End laws.

Module KernelCacheEx.
Fixpoint bits (p : positive) : string :=
  match p with xH => "" | xO p => "0" +:+ bits p | xI p => "1" +:+ bits p end.

Lemma bits_inj : Inj (=) (=) bits.
Proof. intros p. induction p as [p IH|p IH|]; intros [q|q|] E; try discriminate; [| |done]; injection E as E%IH; by subst. Qed.

#[export] Instance opaque_ex : Opaque := {| Data := string; Lib := string; Handle := string |}.

Definition built_ex (v : string) (f : Func) (m : gmap string string) : Built := {|
  b_symbolic := []; b_params := ["a"; "b"]%string; b_signature := "sig"; b_primfunc := f; b_mlir_content := Some "module";
  b_shared := "0"; b_kernel_name := "main"; b_gridfunc := "4"; b_mix_mode := "aiv"; b_name := "main"; b_tensor_kinds := "";
  b_kernel_src := v +:+ body f; b_workspace_size := 64; b_lock_num := -1; b_lock_ini_val := 0; b_need_debug := false;
  b_force_simt_only := false; b_shared_mem_dynamic_size := None |}.

(** The same compiler in any environment; the launcher shows the workspace size
    and the device. *)
Definition world_in (env : Environment) : World := {|
  environment := env;
  lower_npu := λ e v f m, Ok (built_ex v f m);
  generate_npu_wrapper_src := λ sig ws mix ln li dbg simt shm a5 ffts,
    sig +:+ pretty ws +:+ (if a5 then "-a5" else "");
  build_launcher := λ n src, Ok (n +:+ ":" +:+ src);
  load_binary := λ n s sh m, Ok s;
  script := body;
  dumps := id;
  compute_sha256_hash := id;
  json_dumps := λ kd, bits (encode (kd_version kd, kd_func kd, kd_out_idx kd, kd_target kd, kd_target_host kd,
                                    kd_execution_backend kd, kd_verbose kd, kd_pass_configs kd));
  json_dumps_configs := λ m, Ok (bits (encode (m : gmap string string)));
  json_trip := Ok |}.

Definition plain_env : Environment := {| TILELANG_ASCEND_WORKSPACE_SIZE := None; get_arch := "Ascend910B3" |}.
Definition override_env : Environment := {| TILELANG_ASCEND_WORKSPACE_SIZE := Some " 1_024 "; get_arch := "Ascend910B3" |}.

#[export] Instance world_ex : World := world_in plain_env.

#[export] Instance world_laws_ex : WorldLaws.
Proof.
  split.
  - by intros x y E.
  - by intros x y E.
  - intros [] [] E%bits_inj%encode_inj. by simplify_eq/=.
  - intros m1 m2 s [= <-] [= E]. by apply bits_inj, (inj encode) in E.
  - by intros v f g m b b' Hs [= <-] [= <-].
Qed.

(** [main(A, B)] over vectors of 8 elements. *)
Definition buf (i : nat) (n : string) : buffer := Buffer i n "float32" "global" [IntImm "int32" 8].
Definition copy_func : Func := MkFunc (PrimFunc [TVar 0 "a" "handle"; TVar 1 "b" "handle"] {[ 0%nat := buf 0 "A"; 1%nat := buf 1 "B" ]}) "copy".
Definition request (o : out_arg) : Request := {|
  func := copy_func; r_out_idx := o; execution_backend := "cython"; target := "npuir"; target_host := None; verbose := false;
  pass_configs := None |}.
Definition all_good : SaveIO := {|
  io_mkdir := true; io_mkdir_autotune := true; io_mlir := Saved; io_wrapped := Saved; io_so := Saved; io_meta := Saved;
  io_autotune := (Saved, Saved, Saved) |}.
Definition start : Cache := fresh "0.1" "/cache".
Definition first_call : res Kernel * Cache := cached_npu all_good (request (OInt (-1))) start.

Lemma start_reachable c : rtc step start c → reachable c.
Proof. intros Hr. by exists "0.1"%string, "/cache"%string. Qed.

Definition kernel_ex (v : string) : Kernel := {|
  kn_symbolic := []; kn_params := ["a"; "b"]%string;
  kn_param_info := [ParamInfo "torch.float32" [IntImm "int32" 8] false; ParamInfo "torch.float32" [IntImm "int32" 8] true];
  kn_out_idx := Some [1]; kn_signature := "sig"; prim_func_ := copy_func; kn_mlir_content := Some "module"; utils_shared := "0";
  kernel_name := "main"; kn_gridfunc := "4"; kn_mix_mode := "aiv"; utils_name := "main"; kn_tensor_kinds := "";
  utils_kernel_src := v +:+ "copy"; launch_npu := "main:sig64"; npu_function := v +:+ "copy"; tuner_result := None |}.

Definition second_process (v : string) : Cache := restart v "/cache" false first_call.2.

Lemma second_process_reachable v : reachable (second_process v).
Proof.
  apply start_reachable. eapply rtc_l; [apply step_own, (own_call all_good (request (OInt (-1))))|]. apply rtc_once, step_restart.
Qed.

(** The result of a call, without the state. *)
Lemma run_result io r c k : (cached_npu io r c).1 = Ok k → cached_npu io r c = (Ok k, (cached_npu io r c).2).
Proof. intros <-. apply surjective_pairing. Qed.

Lemma first_result : (cached_npu all_good (request (OInt (-1))) start).1 = Ok (kernel_ex "0.1").
Proof. vm_compute. reflexivity. Qed.


(** An output position that does not exist. *)
Lemma cache_errors_witness :
  cached_npu all_good (request (OInt 2)) start = (Raise ValueError, start) ∧ canonical_out_idx (request (OInt 2)) = Raise ValueError.
Proof.
  split; [reflexivity|].
  destruct (cache_errors all_good (request (OInt 2)) start ValueError start (start_reachable _ (rtc_refl _ _))
    ltac:(intros p e m He; unfold start, fresh in He; cbn [disk] in He; by rewrite lookup_empty in He) eq_refl)
    as [He|(out & Ho & _)]; [exact He|]. vm_compute in Ho. discriminate Ho.
Defined.

Lemma compile_once_witness :
  let c2 := (set_cache_dir "/other" first_call.2).2 in
  cached_npu all_good (request (OInt (-1))) c2 = (Ok (kernel_ex "0.1"), c2).
Proof.
  intros c2. apply (compile_once all_good all_good (request (OInt (-1))) start _ first_call.2 c2 eq_refl).
  - apply run_result, first_result.
  - apply rtc_once, own_dir.
  - vm_compute. reflexivity.
Defined.

Lemma restart_hit_witness :
  ∃ c2, cached_npu all_good (request (OInt (-1))) (second_process "0.1") = (Ok (kernel_ex "0.1"), c2) ∧
    compilations c2 = compilations first_call.2 ∧ disk c2 = disk first_call.2.
Proof.
  apply (restart_hit all_good all_good (request (OInt (-1))) start (kernel_ex "0.1") first_call.2 eq_refl).
  - apply run_result, first_result.
  - vm_compute. discriminate.
  - done.
  - reflexivity.
Defined.

(** Once the launcher of a saved kernel is lost, the request fails instead of
    being compiled again. *)
Definition lose_launcher (e : Entry) : Entry :=
  {| e_mlir := e_mlir e; e_wrapped := e_wrapped e; e_so := None; e_meta := e_meta e; e_autotune := e_autotune e |}.

Lemma lost_launcher_raises :
  let c := second_process "0.1" in
  (cached_npu all_good (request (OInt (-1))) (set_disk (lose_launcher <$> disk c) c)).1 = Raise ImportError.
Proof. vm_compute. reflexivity. Qed.

(** A process with an override of the workspace size is given the kernel of one
    without it, whose launcher has another size. *)
Lemma environment_not_in_key :
  let c := second_process "0.1" in
  (launch_npu <$> (cached_npu (H0 := world_in override_env) all_good (request (OInt (-1))) c).1) = Ok "main:sig64"%string ∧
  (launch_npu <$> compile (H0 := world_in override_env) "0.1" copy_func (Some [1]) None) = Ok "main:sig1024"%string.
Proof. split; vm_compute; reflexivity. Qed.

(** A request without output positions is answered with the kernel of a request
    with an empty list of them, which returns a list. *)
Lemma none_served_as_empty :
  let c := (cached_npu all_good (request (OList [])) start).2 in
  kn_out_idx <$> (cached_npu all_good (request ONone) c).1 = Ok (Some []) ∧
  kn_out_idx <$> compile "0.1" copy_func None None = Ok None.
Proof. split; vm_compute; reflexivity. Qed.
End KernelCacheEx.
