(* ===== verification/Anneal.v ===== *)
(** * The annealing search for tiles

    [src/tilelang/carver/anneal]: constraints and costs of a tile, simulated
    annealing over tiles in units of 16, and the templates that set it up.

    A configuration is the list of its tile sizes; the search works on a copy for
    every change, so lists stand for the Python lists.  Random numbers come from a
    generator whose state is threaded; [math.exp] is a parameter.  Exponents of
    polynomials are natural numbers, as in every template, and integers are below
    2^1024 where they are turned into floats. *)
From stdpp Require Import base strings gmap numbers sorting list.
From Stdlib Require Import SpecFloat.
From S2P Require Import Prelude Factors TileSearch RollerPolicy.
#[local] Open Scope Z_scope.
Set Default Proof Using "Type*".

(** ** Numbers *)

Definition f_decimal (a b : Z) : float := SFdiv 53 1024 (f_exact a) (f_exact b).

(** ** Constraints ([customtemplate.py]) *)

Record Config := MkConfig { kwargs : list Z; value : float }.

Record PolyConstraints := MkPoly { polynomial : list N; p_other_value : list num }.

Definition poly_results (p : PolyConstraints) (tile : list Z) : res float :=
  if negb (len tile =? len (polynomial p)) then Raise ValueError
  else
    let v := foldl (λ v xy, f_mul v (f_of_Z ((xy.1 * 16) ^ Z.of_N xy.2))) (f_of_Z 1) (zip tile (polynomial p)) in
    Ok (foldl (λ v x, f_mul v (to_float x)) v (p_other_value p)).

(** [func] with its keyword arguments. *)
Record FuncConstraints := MkFuncC { using_tile : list Z; f_other_value : list num; func : list Z → res num }.

(** [max(l)]. *)
Definition py_max (l : list Z) : res Z :=
  match l with [] => Raise ValueError | x :: l' => Ok (foldl Z.max x l') end.

Definition func_results (f : FuncConstraints) (tile : list Z) : res num :=
  m ← py_max (using_tile f);
  if len tile <? m then Raise ValueError
  else
    idx ← mmap (λ u, if 0 <? u then x ← py_index tile (u - 1); Ok (x * 16) else Ok 0) (using_tile f);
    v ← func f idx;
    Ok (foldl num_mul v (f_other_value f)).

Record PolyConstraintsSet := MkSet {
  poly_add : list PolyConstraints;
  poly_mul : list PolyConstraints;
  func_add : list FuncConstraints;
  func_mul : list FuncConstraints;
}.

Definition calc_results (s : PolyConstraintsSet) (tile : list Z) : res float :=
  v ← mfold (λ v p, x ← poly_results p tile; Ok (f_add v x)) (S754_zero false) (poly_add s);
  v ← mfold (λ v f, x ← func_results f tile; Ok (f_add v (to_float x))) v (func_add s);
  v ← mfold (λ v p, x ← poly_results p tile; Ok (f_mul v x)) v (poly_mul s);
  mfold (λ v f, x ← func_results f tile; Ok (f_add v (to_float x))) v (func_mul s).

Record CustomTemplate := MkTemplate {
  init_low_tile : list Z;
  init_tile : list Z;
  only_factor : list bool;
  mem_caps : list PolyConstraintsSet;
}.

Definition byte_per_numel : list (string * Z) :=
  [("float32", 4); ("float64", 8); ("float16", 2); ("bfloat16", 2); ("int32", 4); ("int64", 8); ("int16", 2); ("int8", 1);
   ("uint8", 1); ("bool", 1); ("complex32", 4); ("complex64", 8); ("complex128", 16)]%string.

Definition get_byte_per_numel (dtype : string) : res Z :=
  if bool_decide (dtype = "None"%string) then Ok (-1) else dict_get byte_per_numel dtype.

(** ** The search ([policy.py]) *)

Definition _get_unique_configs (configs : list Config) : list Config :=
  (foldl (λ '(out, seen) c,
     if bool_decide (kwargs c ∈ seen) then (out, seen) else (out ++ [c], kwargs c :: seen)) ([], []) configs).1.

Record Annealparam := MkParam {
  expand_neighbour : Z;
  onestep_chance : float;
  topk : Z;
  number : Z;
  steps : Z;
  temperature : float;
  alpha : float;
  custom_mem_multiply : float;
}.

Definition default_param : Annealparam :=
  MkParam 2 (f_decimal 7 10) 10 100 60 (f_of_Z 100) (f_decimal 97 100) (f_decimal 7 10).

Record AnnealCarver := MkCarver {
  policy : list PolyConstraintsSet;
  caps : list Z;
  custom_kernel : CustomTemplate;
  annealparam : Annealparam;
}.

(** What [get_configs_from_anneal] sets up: the bounds and the factors of every axis. *)
Record Axes := MkAxes { bound : list (Z * Z); tile_factors : list (list Z) }.

(** [random] and [math.exp]. *)
Class Random := {
  rng : Type;
  random : rng → float * rng;
  rand_below : Z → rng → Z * rng;      (** an integer of [0 .. n - 1] *)
  math_exp : float → res float;
}.

Class RandomLaws `{Random} := {
  rand_below_range n g : 0 < n → 0 ≤ (rand_below n g).1 < n;
  (** the exponential of a number that is not positive is a number *)
  exp_of_worsening old new t :
    SFltb new old = false → SFltb (S754_zero false) t = true →
    ∃ p, math_exp (SFdiv 53 1024 (SFopp (SFsub 53 1024 new old)) t) = Ok p;
}.

(** [bisect.bisect_left] on an ascending list. *)
Definition bisect_left (l : list Z) (v : Z) : Z := len (List.filter (λ y, y <? v) l).

Section carver.
Context `{NumPy} `{Random}.
Variable self : AnnealCarver.

Definition randrange (n : Z) : prog rng Z :=
  if n <=? 0 then raise ValueError else λ g, (Ok (rand_below n g).1, (rand_below n g).2).

Definition randint (lo hi : Z) : prog rng Z :=
  if hi <? lo then raise ValueError else x ← randrange (hi - lo + 1); mret (lo + x).

Definition random_ : prog rng float := λ g, (Ok (random g).1, (random g).2).

(** [zip(..., strict=True)]: the lengths are only compared at the end. *)
Fixpoint check_caps (constraints : list PolyConstraintsSet) (caps : list Z) (cfg : list Z) : res bool :=
  match constraints, caps with
  | [], [] => Ok true
  | c :: cs, cap :: caps' =>
      v ← calc_results c cfg;
      if SFltb (f_of_Z cap) (f_mul v (custom_mem_multiply (annealparam self))) then Ok false
      else check_caps cs caps' cfg
  | _, _ => Raise ValueError
  end.

Definition check_valid (cfg : list Z) : res bool := check_caps (mem_caps (custom_kernel self)) (caps self) cfg.

Definition _calc_value_with_constraints (cfg : list Z) : res float :=
  mfold (λ v p, x ← calc_results p cfg; Ok (f_add v x)) (S754_zero false) (policy self).

(** An axis as [get_configs_from_anneal] sets it up. *)
Fixpoint drop_below (lo : Z) (factors : list Z) : res (list Z) :=
  match factors with
  | [] => Raise IndexError
  | f :: fs => if f <? lo then drop_below lo fs else Ok factors
  end.

Definition set_axis (x y : Z) (z : bool) : res ((Z * Z) * list Z) :=
  let lo := Z.max 1 (Z.shiftr x 4) in
  if z then
    if negb (Z.land y 15 =? 0) then Raise ValueError
    else
      factors ← drop_below lo (get_all_factors (Z.shiftr y 4));
      Ok ((1, len factors), factors)
  else Ok ((lo, Z.max 1 (Z.shiftr y 4)), [1]).

Fixpoint set_axes (xs ys : list Z) (zs : list bool) : res Axes :=
  match xs, ys, zs with
  | [], [], [] => Ok (MkAxes [] [])
  | x :: xs', y :: ys', z :: zs' =>
      a ← set_axis x y z;
      r ← set_axes xs' ys' zs';
      Ok (MkAxes (a.1 :: bound r) (a.2 :: tile_factors r))
  | _, _, _ => Raise ValueError
  end.

Section search.
Variable axes : Axes.

Definition n : Z := len (init_tile (custom_kernel self)).

(** [self.tile_factors[x][v - 1] if self.custom_kernel.only_factor[x] is True else v]. *)
Definition pick (x v : Z) : res Z :=
  z ← py_index (only_factor (custom_kernel self)) x;
  if (z : bool) then fs ← py_index (tile_factors axes) x; py_index fs (v - 1) else Ok v.

Definition _get_neighbour (cfg : list Z) (x step_p : Z) : res (list Z) :=
  b ← py_index (bound axes) x;
  let '(lo, hi) := b in
  z ← py_index (only_factor (custom_kernel self)) x;
  old ← py_index cfg x;
  if (z : bool) then
    fs ← py_index (tile_factors axes) x;
    let pos := bisect_left fs old + 1 in
    v ← py_index fs (Z.max lo (Z.min hi (pos + step_p)) - 1);
    py_setitem cfg x v
  else py_setitem cfg x (Z.max lo (Z.min hi (old + step_p))).

(** One of the attempts of [_neighbor]. *)
Definition propose (cfg : list Z) (temp : float) : prog rng (Z * list Z) :=
  x ← randrange n;
  b ← lift (py_index (bound axes) x);
  let '(lo, hi) := b in
  r ← random_;
  if SFltb r (onestep_chance (annealparam self)) then
    let step := if SFltb (f_decimal 1 2) temp then Z.max 1 (hi / 16) else 1 in
    s ← random_;
    new ← lift (_get_neighbour cfg x (if SFltb s (f_decimal 1 2) then step else - step));
    mret (x, new)
  else
    v ← randint lo hi;
    w ← lift (pick x v);
    new ← lift (py_setitem cfg x w);
    mret (x, new).

Fixpoint neighbor_loop (times : nat) (cfg : list Z) (temp : float) : prog rng (Z * list Z) :=
  match times with
  | O => raise ValueError
  | S times' =>
      p ← propose cfg temp;
      ok ← lift (check_valid p.2);
      if (ok : bool) then mret p else neighbor_loop times' cfg temp
  end.

Definition _neighbor (cfg : list Z) (temp : float) : prog rng (Z * list Z) := neighbor_loop 15 cfg temp.

Definition keep_if_valid (new_cfg : list Z) : res (list Config) :=
  ok ← check_valid new_cfg;
  if (ok : bool) then v ← _calc_value_with_constraints new_cfg; Ok [MkConfig new_cfg v] else Ok [].

Definition neighbours_of (config : Config) : res (list Config) :=
  rest ← mmap (λ xp : Z * Z,
    let step_p := xp.2 + 1 in
    up ← _get_neighbour (kwargs config) xp.1 step_p;
    u ← keep_if_valid up;
    down ← _get_neighbour (kwargs config) xp.1 (- step_p);
    d ← keep_if_valid down;
    Ok (u ++ d))
    (concat ((λ x, (λ p, (x, p)) <$> seqZ 0 (expand_neighbour (annealparam self))) <$> seqZ 0 n));
  Ok (config :: concat rest).

Definition _neighbor_configs (configs : list Config) : res (list Config) :=
  l ← mmap neighbours_of configs;
  Ok (_get_unique_configs (concat l)).

Definition _accept (new_value old_value temp : float) : prog rng bool :=
  if SFltb new_value old_value then mret true
  else
    if SFeqb temp (S754_zero false) then raise ZeroDivisionError
    else
      p ← lift (math_exp (SFdiv 53 1024 (SFopp (SFsub 53 1024 new_value old_value)) temp));
      r ← random_;
      mret (SFltb r p).

(** ** The population *)

Fixpoint draw (x : Z) (bs : list (Z * Z)) : prog rng (list Z) :=
  match bs with
  | [] => mret []
  | (lo, hi) :: bs' =>
      v ← randint lo hi;
      w ← lift (pick x v);
      rest ← draw (x + 1) bs';
      mret (w :: rest)
  end.

Fixpoint populate (tries : nat) (number_i : Z) (configs : list Config) : prog rng (list Config) :=
  match tries with
  | O => mret configs
  | S tries' =>
      cfg ← draw 0 (bound axes);
      ok ← lift (check_valid cfg);
      if (ok : bool) then
        v ← lift (_calc_value_with_constraints cfg);
        let configs := configs ++ [MkConfig cfg v] in
        if number_i + 1 =? number (annealparam self) then mret configs
        else populate tries' (number_i + 1) configs
      else populate tries' number_i configs
  end.

(** The inner loop: every configuration moves on its own. *)
Fixpoint sweep (temp : float) (configs : list Config) : prog rng (list Config) :=
  match configs with
  | [] => mret []
  | c :: cs =>
      p ← _neighbor (kwargs c) temp;
      new_value ← lift (_calc_value_with_constraints p.2);
      accept ← _accept new_value (value c) temp;
      rest ← sweep temp cs;
      mret ((if (accept : bool) then MkConfig p.2 new_value else c) :: rest)
  end.

Fixpoint anneal (k : nat) (temp : float) (configs : list Config) : prog rng (list Config) :=
  match k with
  | O => mret configs
  | S k' =>
      configs ← sweep temp configs;
      anneal k' (f_mul temp (alpha (annealparam self))) configs
  end.

Definition scale (c : Config) : res Config :=
  t ← mmap (λ i, a ← py_index (init_tile (custom_kernel self)) i; b ← py_index (kwargs c) i; Ok (Z.min a (b * 16))) (seqZ 0 n);
  Ok (MkConfig t (value c)).

Definition search_configs : prog rng (list Config) :=
  let p := annealparam self in
  configs ← populate (Z.to_nat (number p * 4)) 0 [];
  configs ← anneal (Z.to_nat (steps p)) (temperature p) configs;
  let configs := _get_unique_configs (sorted_by value configs) in
  configs ← lift (_neighbor_configs configs);
  lift (mmap scale (py_to (sorted_by value configs) (topk p))).
End search.

Definition get_configs_from_anneal : prog rng (list Config) :=
  let k := custom_kernel self in
  axes ← lift (set_axes (init_low_tile k) (init_tile k) (only_factor k));
  search_configs axes.
End carver.

(** ** Costs of the templates *)

Definition MIN_BYTES : Z := 32.

Definition _compute_memory_traffic_matmul (idx nbytes : list Z) : res Z :=
  i0 ← py_index idx 0; i1 ← py_index idx 1; n0 ← py_index nbytes 0;
  i2 ← py_index idx 2; n1 ← py_index nbytes 1; n2 ← py_index nbytes 2;
  Ok (Z.max MIN_BYTES (i0 * i1 * n0) + Z.max MIN_BYTES (i0 * i2 * n1) + Z.max MIN_BYTES (i1 * i2 * n2)).

Definition _compute_memory_traffic_vector (idx nbytes : list Z) : res Z :=
  i0 ← py_index idx 0; i1 ← py_index idx 1; n0 ← py_index nbytes 0;
  Ok (Z.max MIN_BYTES (i0 * i1 * n0)).

(** [[(y + x - 1) // x for x, y in zip(idx, init_idx, strict=True)]]. *)
Definition waves_per_axis (idx init_idx : list Z) : res (list Z) :=
  xy ← zip_strict idx init_idx; mmap (λ p : Z * Z, py_floordiv (p.2 + p.1 - 1) p.1) xy.

Definition _compute_num_waves_matmul (idx init_idx : list Z) (num_ai_cores : Z) : res Z :=
  w ← waves_per_axis idx init_idx;
  w0 ← py_index w 0; w2 ← py_index w 2; w1 ← py_index w 1;
  let num_grids := w0 * w2 * w1 * w2 in
  py_floordiv (num_grids + num_ai_cores - 1) num_ai_cores.

Definition _compute_num_waves_vector (idx init_idx : list Z) (num_ai_cores : Z) : res Z :=
  w ← waves_per_axis idx init_idx;
  let num_grids := prod w in
  py_floordiv (num_grids + num_ai_cores - 1) num_ai_cores.

(** A device: the architecture, the size of L2 and its vector cores. *)
Record Device := MkDevice { arch : AscendArch; l2_cache_size_bytes : Z; aivector_core_num : Z }.
Definition aicube_core_num (d : Device) : Z := compute_max_core (arch d).

Definition mem_cap (d : Device) : list (string * Z) :=
  [("UB", ub_cap (arch d)); ("L1", l1_cap (arch d)); ("L0A", l0a_cap (arch d)); ("L0B", l0b_cap (arch d));
   ("L0C", l0c_cap (arch d)); ("L2", l2_cache_size_bytes d)]%string.

(** [default_arch] is the device the process runs on. *)
Definition _get_aivector_cores (default_arch : Device) (num_ai_cores : Z) : Z :=
  if num_ai_cores <? 0 then aivector_core_num default_arch else num_ai_cores.
Definition _get_aicube_cores (default_arch : Device) (num_ai_cores : Z) : Z :=
  if num_ai_cores <? 0 then aicube_core_num default_arch else num_ai_cores.

Definition _compute_carver_policy_matmul (default_arch : Device) (nbytes init_idx : list Z) (num_ai_cores : Z) (idx : list Z) : res num :=
  t ← _compute_memory_traffic_matmul idx nbytes;
  w ← _compute_num_waves_matmul idx init_idx (_get_aicube_cores default_arch num_ai_cores);
  Ok (PyInt (t * w)).

Definition _compute_carver_policy_vector (default_arch : Device) (nbytes init_idx : list Z) (num_ai_cores : Z) (idx : list Z) : res num :=
  t ← _compute_memory_traffic_vector idx nbytes;
  w ← _compute_num_waves_vector idx init_idx (_get_aivector_cores default_arch num_ai_cores);
  Ok (PyInt (t * w)).

Fixpoint real_idx (idx use_idx : list Z) (use_idx_i : Z) (other_idx : list Z) : res (list Z) :=
  match other_idx with
  | [] => Ok []
  | o :: os =>
      if o <=? 0 then
        u ← py_index use_idx use_idx_i; x ← py_index idx u;
        rest ← real_idx idx use_idx (use_idx_i + 1) os; Ok (x :: rest)
      else rest ← real_idx idx use_idx use_idx_i os; Ok (o :: rest)
  end.

Definition _get_real_idx (idx use_idx other_idx : list Z) : res (list Z) := real_idx idx use_idx 0 other_idx.

Definition _compute_carver_policy_matmul_custom_idx (default_arch : Device) (use_idx other_idx nbytes init_idx : list Z) (num_ai_cores : Z) (idx : list Z) : res num :=
  _idx ← _get_real_idx idx use_idx other_idx;
  _compute_carver_policy_matmul default_arch nbytes init_idx num_ai_cores _idx.

Definition _compute_carver_policy_vector_custom_idx (default_arch : Device) (use_idx other_idx nbytes init_idx : list Z) (num_ai_cores : Z) (idx : list Z) : res num :=
  _idx ← _get_real_idx idx use_idx other_idx;
  _compute_carver_policy_vector default_arch nbytes init_idx num_ai_cores _idx.

Definition _get_mem_caps (names : list string) (d : Device) : res (list Z) :=
  mmap (λ cap, match dict_get (mem_cap d) cap with Ok z => Ok z | Raise _ => Raise ValueError end) names.

(** ** [AnnealTemplate] *)

(** Its arguments; a custom template comes with its kernel and its policy. *)
Record TemplateArgs := MkArgs {
  shape : list Z;
  arg_low_tile : option (list Z);
  arg_tile : option (list Z);
  arg_only_factor : option (list bool);
  arg_param : option Annealparam;
  use_template : string;
  arg_dtype : string;
  arg_accum_dtype : string;
  arg_custom : option (CustomTemplate * list PolyConstraintsSet);
  arg_mem_caps : option (list string);
  device : Device;
}.

Record AnnealTemplate := MkAnneal {
  t_args : TemplateArgs;
  t_param : Annealparam;
  t_mem_caps : list string;
  t_low_tile : list Z;
  t_tile : list Z;
  t_only_factor : list bool;
}.

Definition is_flash (a : TemplateArgs) : bool := bool_decide (use_template a = "FlashAttention"%string).

Definition AnnealTemplate_init (a : TemplateArgs) : res AnnealTemplate :=
  if negb (bool_decide (use_template a ∈ ["Elementwise"; "Matmul"; "FlashAttention"; "Custom"]%string)) then Raise ValueError
  else
    caps ← match arg_mem_caps a with
           | Some l => Ok l
           | None =>
               if bool_decide (use_template a = "Custom"%string) then Raise ValueError
               else if bool_decide (use_template a = "Elementwise"%string) then Ok ["UB"]%string
               else if bool_decide (use_template a = "Matmul"%string) then Ok ["L1"]%string
               else Ok ["L1"; "L1"; "UB"]%string
           end;
    low ← match arg_low_tile a with
          | Some l => Ok l
          | None =>
              let l := replicate (length (shape a)) 16 in
              if is_flash a then s2 ← py_index (shape a) 2; py_setitem l 2 s2 else Ok l
          end;
    tile ← match arg_tile a with
           | Some l => Ok l
           | None =>
               if is_flash a then
                 s0 ← py_index (shape a) 0; l ← py_setitem (shape a) 1 (Z.min s0 256);
                 s1 ← py_index (shape a) 1; py_setitem l 1 (Z.min s1 256)
               else Ok (shape a)
           end;
    only ← match arg_only_factor a with
           | Some l => Ok l
           | None =>
               let l := replicate (length (shape a)) true in
               if is_flash a then py_setitem l 0 false else Ok l
           end;
    Ok (MkAnneal a (default default_param (arg_param a)) caps low tile only).

Section templates.
Context `{NumPy} `{Random}.
Variable default_arch : Device.
Variable t : AnnealTemplate.

Definition run_carver (policy : list PolyConstraintsSet) (k : CustomTemplate) : prog rng (list Config) :=
  caps ← lift (_get_mem_caps (t_mem_caps t) (device (t_args t)));
  get_configs_from_anneal (MkCarver policy caps k (t_param t)).

Definition custom_template : prog rng (list Config) :=
  kp ← lift (or_raise AttributeError (arg_custom (t_args t)));
  run_carver kp.2 kp.1.

Definition matmul_kernel (numel : Z) : CustomTemplate :=
  MkTemplate (t_low_tile t) (t_tile t) (t_only_factor t)
    [MkSet [MkPoly [1; 0; 1]%N [PyInt numel]; MkPoly [0; 1; 1]%N [PyInt numel]] [] [] []].

Definition matmul_policy (numel accum : Z) : list PolyConstraintsSet :=
  [MkSet [] [] [MkFuncC [1; 2; 3] []
     (_compute_carver_policy_matmul default_arch [numel; numel; accum] (shape (t_args t)) (aicube_core_num (device (t_args t))))] []].

Definition matmul_template : prog rng (list Config) :=
  numel ← lift (get_byte_per_numel (arg_dtype (t_args t)));
  accum ← lift (get_byte_per_numel (arg_accum_dtype (t_args t)));
  run_carver (matmul_policy numel accum) (matmul_kernel numel).

Definition elementwise_template : prog rng (list Config) :=
  numel ← lift (get_byte_per_numel (arg_dtype (t_args t)));
  accum ← lift (get_byte_per_numel (arg_accum_dtype (t_args t)));
  let n := length (shape (t_args t)) in
  run_carver
    [MkSet [] [] [MkFuncC ((λ x, x + 1) <$> seqZ 0 (Z.of_nat n)) []
       (_compute_carver_policy_vector default_arch (replicate n numel) (shape (t_args t)) (aivector_core_num (device (t_args t))))] []]
    (MkTemplate (t_low_tile t) (t_tile t) (t_only_factor t)
       [MkSet [MkPoly (replicate n 1%N) [PyInt 2; PyInt accum]] [] [] []]).

Definition flash_kernel (numel accum : Z) : CustomTemplate :=
  MkTemplate (t_low_tile t) (t_tile t) (t_only_factor t)
    [MkSet [MkPoly [1; 0; 1]%N [PyInt numel]; MkPoly [0; 1; 1]%N [PyInt numel]] [] [] [];
     MkSet [MkPoly [1; 1; 0]%N [PyInt accum]; MkPoly [0; 1; 1]%N [PyInt numel]] [] [] [];
     MkSet [MkPoly [1; 0; 1]%N [PyInt (numel + 2 * accum)]; MkPoly [1; 1; 0]%N [PyInt (numel + accum)]]
           [MkPoly [0; 0; 0]%N [PyFloat (f_decimal 1 2)]] [] []].

Definition flash_policy (numel accum : Z) (s0 s1 s2 : Z) : list PolyConstraintsSet :=
  let d := device (t_args t) in
  [MkSet [] [] [
     MkFuncC [1; 2; 3] [] (_compute_carver_policy_matmul default_arch [numel; numel; accum] (shape (t_args t)) (aicube_core_num d));
     MkFuncC [1; 3; 2] [] (_compute_carver_policy_matmul default_arch [numel; numel; accum] [s0; s2; s1] (aicube_core_num d));
     MkFuncC [1; 3] [PyInt 512] (_compute_carver_policy_vector default_arch [accum; accum] [s0; s2] (aivector_core_num d))] []].

Definition flashattention_template : prog rng (list Config) :=
  numel ← lift (get_byte_per_numel (arg_dtype (t_args t)));
  accum ← lift (get_byte_per_numel (arg_accum_dtype (t_args t)));
  s0 ← lift (py_index (shape (t_args t)) 0);
  s2 ← lift (py_index (shape (t_args t)) 2);
  s1 ← lift (py_index (shape (t_args t)) 1);
  run_carver (flash_policy numel accum s0 s1 s2) (flash_kernel numel accum).

Definition get_configs : prog rng (list Config) :=
  let u := use_template (t_args t) in
  if bool_decide (u = "Custom"%string) then custom_template
  else if bool_decide (u = "Elementwise"%string) then elementwise_template
  else if bool_decide (u = "Matmul"%string) then matmul_template
  else flashattention_template.
End templates.
