(* ===== verification/AnnealTotal.v ===== *)
(** * The tiles of the annealing search

    That [get_configs_from_anneal] of [src/tilelang/carver/anneal/policy.py] ends,
    which exceptions it can raise, and that the configurations it returns are tiles
    of the searched space that passed the memory constraints, different from each
    other and in order of cost. *)
From stdpp Require Import base strings gmap numbers sorting list.
From Stdlib Require Import SpecFloat.
From S2P Require Import Prelude Factors TileSearch RollerPolicy RollerHints Anneal.
#[local] Open Scope Z_scope.
Set Default Proof Using "Type*".

(** ** Outcomes

    [m] returns a value with [P], or it raises [ValueError], which it only does
    under [E]. *)
Definition yields {S A} (E : Prop) (m : prog S A) (P : A → Prop) : Prop :=
  ∀ g, match (m g).1 with Ok a => P a | Raise e => e = ValueError ∧ E end.

Lemma yields_ret {S A} E (a : A) (P : A → Prop) : P a → yields E (mret a : prog S A) P.
Proof. by intros HP g. Qed.

Lemma yields_lift {S A} E (r : res A) (P : A → Prop) : (∃ a, r = Ok a ∧ P a) → yields E (lift r : prog S A) P.
Proof. by intros (a & -> & HP) g. Qed.

Lemma yields_bind {S A B} E (m : prog S A) (f : A → prog S B) P Q :
  yields E m P → (∀ a, P a → yields E (f a) Q) → yields E (m ≫= f) Q.
Proof.
  intros Hm Hf g. specialize (Hm g). unfold mbind, prog_bind. destruct (m g) as [[a|e] g']; [by apply Hf|done].
Qed.

Lemma yields_mono {S A} E (m : prog S A) (P Q : A → Prop) : yields E m P → (∀ a, P a → Q a) → yields E m Q.
Proof. intros Hm HPQ g. specialize (Hm g). destruct (m g).1; auto. Qed.

(** ** Unique configurations *)

Lemma unique_spec cs :
  NoDup (kwargs <$> _get_unique_configs cs) ∧ (∀ c, c ∈ _get_unique_configs cs → c ∈ cs) ∧
  (cs ≠ [] → _get_unique_configs cs ≠ []).
Proof.
  unfold _get_unique_configs. set (f := λ '(out, seen) c, _).
  assert (∀ l out seen, (∀ t, t ∈ seen ↔ t ∈ kwargs <$> out) → NoDup (kwargs <$> out) →
    NoDup (kwargs <$> (foldl f (out, seen) l).1) ∧ (∀ c, c ∈ (foldl f (out, seen) l).1 → c ∈ out ∨ c ∈ l) ∧
    (out ≠ [] ∨ l ≠ [] → (foldl f (out, seen) l).1 ≠ [])) as Hf.
  { intros l. induction l as [|c l IH]; intros out seen Hs Hn; simpl.
    { split; [done|]. split; [tauto|]. tauto. }
    destruct (bool_decide_reflect (kwargs c ∈ seen)) as [Hin|Hin].
    - destruct (IH out seen Hs Hn) as (I1 & I2 & I3). split; [done|]. split; [set_solver|]. intros _. apply I3. left.
      intros ->. by apply Hs, not_elem_of_nil in Hin.
    - destruct (IH (out ++ [c]) (kwargs c :: seen)) as (I1 & I2 & I3).
      + intros t. rewrite fmap_app, elem_of_app, elem_of_cons, Hs. simpl. rewrite list_elem_of_singleton. tauto.
      + rewrite fmap_app. apply NoDup_app. split; [done|]. split; [|apply NoDup_singleton].
        intros t Ht ->%list_elem_of_singleton. by apply Hin, Hs.
      + split; [done|]. split; [|intros _; apply I3; left; by destruct out].
        intros c' Hc'. apply I2 in Hc' as [Hc'|Hc']; [|set_solver]. apply elem_of_app in Hc' as [?|?%list_elem_of_singleton]; set_solver. }
  destruct (Hf cs [] []) as (I1 & I2 & I3); [set_solver|constructor|]. split; [done|]. split; [|auto]. set_solver.
Qed.

(** ** Axes *)

(** An axis of the search: lower and upper bound, and whether only factors count. *)
Definition axis := (Z * Z * bool)%type.
Definition low (a : axis) : Z := Z.max 1 (a.1.1 / 16).
Definition high (a : axis) : Z := Z.max 1 (a.1.2 / 16).

(** The sizes the search considers, in units of 16. *)
Definition in_axis (a : axis) (v : Z) : Prop :=
  if a.2 then low a ≤ v ∧ (v | a.1.2 / 16) else low a ≤ v ≤ high a.

Definition axis_ok (a : axis) : Prop :=
  if a.2 then (16 | a.1.2) ∧ 16 ≤ a.1.2 < 2 ^ 56 ∧ low a ≤ a.1.2 / 16 else low a ≤ high a.

Definition axes_of (xs ys : list Z) (zs : list bool) : list axis := zip (zip xs ys) zs.

(** What [set_axis] makes of an axis. *)
Definition axis_set (a : axis) (b : (Z * Z) * list Z) : Prop :=
  if a.2 then b.1 = (1, len b.2) ∧ 0 < len b.2 ∧ StronglySorted Z.lt b.2 ∧ ∀ v, v ∈ b.2 ↔ in_axis a v
  else b.1 = (low a, high a) ∧ low a ≤ high a.

Lemma shift_div x : Z.shiftr x 4 = x / 16.
Proof. by rewrite Z.shiftr_div_pow2. Qed.

Lemma drop_below_spec lo l :
  StronglySorted Z.lt l → (∃ x, x ∈ l ∧ lo ≤ x) →
  ∃ l', drop_below lo l = Ok l' ∧ StronglySorted Z.lt l' ∧ ∀ v, v ∈ l' ↔ v ∈ l ∧ lo ≤ v.
Proof.
  induction 1 as [|f l Hl IH Hf]; intros (x & Hx & Hle); simpl; [by apply not_elem_of_nil in Hx|].
  rewrite Forall_forall in Hf. destruct (Z.ltb_spec f lo).
  - destruct IH as (l' & -> & Hs & Hl'); [exists x; split; [|done]; apply elem_of_cons in Hx as [->|]; [lia|done]|].
    exists l'. split; [done|]. split; [done|]. intros v. rewrite Hl', elem_of_cons. split; [naive_solver|].
    intros [[->|] ?]; [lia|done].
  - eexists. split; [done|]. split; [constructor; [done|by apply Forall_forall]|]. intros v. split; [|tauto].
    intros Hv. split; [done|]. apply elem_of_cons in Hv as [->|Hv]; [done|]. specialize (Hf v Hv). lia.
Qed.

Section axes.
Context `{NumPyLaws}.

Lemma set_axis_ok a : axis_ok a → ∃ b, set_axis a.1.1 a.1.2 a.2 = Ok b ∧ axis_set a b.
Proof.
  destruct a as [[x y] z]. unfold axis_ok, set_axis, axis_set, in_axis, low, high. simpl. rewrite !shift_div. destruct z.
  - intros ([q ->] & Hy & Hlo). rewrite Z.div_mul in * by done.
    assert (Z.land (q * 16) 15 = 0) as ->. { change 15 with (Z.ones 4). rewrite Z.land_ones by done. by apply Z.mod_mul. }
    simpl. destruct (get_all_factors_spec q) as [Hs Hd]; [lia|].
    destruct (drop_below_spec (Z.max 1 (x / 16)) (get_all_factors q) Hs) as (l' & -> & Hs' & Hl').
    { exists q. split; [|done]. apply Hd. split; [lia|done]. }
    simpl. eexists. split; [done|]. simpl. split; [done|].
    assert (∀ v, v ∈ l' ↔ Z.max 1 (x / 16) ≤ v ∧ (v | q)) as Hin.
    { intros v. rewrite Hl', Hd. split; [tauto|]. intros [? ?]. split; [split; [lia|done]|done]. }
    split_and!; [|done|done]. assert (q ∈ l') as Hq by (apply Hin; split; [done|done]).
    unfold len. destruct l'; [by apply not_elem_of_nil in Hq|simpl; lia].
  - intros Hlo. eexists. split; [done|]. simpl. split; [done|done].
Qed.

Lemma set_axes_ok xs ys zs :
  length xs = length ys → length zs = length ys → Forall axis_ok (axes_of xs ys zs) →
  ∃ ax, set_axes xs ys zs = Ok ax ∧ length (bound ax) = length ys ∧ length (tile_factors ax) = length ys ∧
    Forall2 axis_set (axes_of xs ys zs) (zip (bound ax) (tile_factors ax)).
Proof.
  revert ys zs. induction xs as [|x xs IH]; intros [|y ys] [|z zs] Hl1 Hl2 Hok; simplify_eq/=.
  { eexists. split; [done|]. split; [done|]. split; [done|constructor]. }
  apply Forall_cons in Hok as [Ha Hok]. destruct (set_axis_ok (x, y, z) Ha) as (b & Hb & Hs). simpl in Hb. rewrite Hb. simpl.
  destruct (IH ys zs Hl1 Hl2 Hok) as (ax & -> & H1 & H2 & H3). simpl. eexists. split; [done|]. simpl.
  split; [by f_equal|]. split; [by f_equal|]. destruct b. by constructor.
Qed.
End axes.

(** ** The search *)

(** The kernel of a search is well formed. *)
Record kernel_ok (k : CustomTemplate) : Prop := {
  low_length : length (init_low_tile k) = length (init_tile k);
  only_length : length (only_factor k) = length (init_tile k);
  some_axis : (0 < length (init_tile k))%nat;
  axes_ok : Forall axis_ok (axes_of (init_low_tile k) (init_tile k) (only_factor k));
}.

Definition kernel_axes (k : CustomTemplate) : list axis := axes_of (init_low_tile k) (init_tile k) (only_factor k).

(** A point of the searched space. *)
Definition block (k : CustomTemplate) (cfg : list Z) : Prop := Forall2 in_axis (kernel_axes k) cfg.

(** The constraints and the cost are defined on the searched space. *)
Record carver_ok (self : AnnealCarver) : Prop := {
  carver_kernel : kernel_ok (custom_kernel self);
  valid_total cfg : block (custom_kernel self) cfg → ∃ b, check_valid self cfg = Ok b;
  value_total cfg : block (custom_kernel self) cfg → ∃ v, _calc_value_with_constraints self cfg = Ok v;
}.

(** The temperature stays positive. *)
Fixpoint warm (k : nat) (temp al : float) : bool :=
  match k with O => true | S k' => SFltb (S754_zero false) temp && warm k' (f_mul temp al) al end.

Definition schedule_ok (p : Annealparam) : bool := warm (Z.to_nat (steps p)) (temperature p) (alpha p).

Section search.
Set Default Proof Using "All".
Context `{NumPyLaws} `{RandomLaws}.
Variable self : AnnealCarver.
Hypothesis Hself : carver_ok self.
Variable ax : Axes.
Let k := custom_kernel self.
Hypothesis Hbound : length (bound ax) = length (init_tile k).
Hypothesis Hfactors : length (tile_factors ax) = length (init_tile k).
Hypothesis Hax : Forall2 axis_set (kernel_axes k) (zip (bound ax) (tile_factors ax)).

(** Some point of the searched space does not fit the memory. *)
Definition misfit : Prop := ∃ cfg, block k cfg ∧ check_valid self cfg = Ok false.

Lemma kernel_axes_length : length (kernel_axes k) = length (init_tile k).
Proof.
  destruct Hself as [[Hlow Honly _ _] _ _]. unfold kernel_axes, axes_of, k. rewrite !length_zip_with. lia.
Qed.

Lemma axis_at x :
  0 ≤ x < n self → ∃ a b fs, kernel_axes k !! Z.to_nat x = Some a ∧ py_index (bound ax) x = Ok b ∧
    py_index (tile_factors ax) x = Ok fs ∧ py_index (only_factor k) x = Ok a.2 ∧ axis_set a (b, fs).
Proof.
  intros Hx. unfold n in Hx. fold k in Hx. unfold len in Hx. destruct Hself as [[Hlow Honly _ _] _ _]. fold k in Hlow, Honly.
  destruct (lookup_lt_is_Some_2 (kernel_axes k) (Z.to_nat x)) as [a Ha]; [rewrite kernel_axes_length; lia|].
  destruct (lookup_lt_is_Some_2 (bound ax) (Z.to_nat x)) as [b Hb]; [lia|].
  destruct (lookup_lt_is_Some_2 (tile_factors ax) (Z.to_nat x)) as [fs Hfs]; [lia|].
  exists a, b, fs. split; [done|].
  assert (∀ {T} (l : list T) t, l !! Z.to_nat x = Some t → py_index l x = Ok t) as Hi.
  { intros T l t Ht. rewrite <- (Z2Nat.id x) by lia. by apply py_index_nat. }
  split; [by apply Hi|]. split; [by apply Hi|]. split.
  - apply Hi. unfold kernel_axes, axes_of in Ha. destruct a as [xy z]. by apply lookup_zip_Some in Ha as [_ Ha].
  - eapply Forall2_lookup_lr; [exact Hax|exact Ha|]. apply lookup_zip_Some. by split.
Qed.

Lemma block_length cfg : block k cfg → length cfg = length (init_tile k).
Proof. intros Hc%Forall2_length. by rewrite <- Hc, kernel_axes_length. Qed.

Lemma pick_ok x v a b fs :
  0 ≤ x < n self → kernel_axes k !! Z.to_nat x = Some a → py_index (bound ax) x = Ok b → py_index (tile_factors ax) x = Ok fs →
  axis_set a (b, fs) → py_index (only_factor k) x = Ok a.2 → b.1 ≤ v ≤ b.2 →
  ∃ w, pick self ax x v = Ok w ∧ in_axis a w.
Proof.
  intros Hx Ha Hb Hfs Hs Hz Hv. unfold pick. fold k. rewrite Hz. simpl. unfold axis_set in Hs. destruct (a.2) eqn:Ea.
  - destruct Hs as (E & Hne & _ & Hin). simpl in *. subst b. simpl in Hv. rewrite Hfs. simpl.
    destruct (lookup_lt_is_Some_2 fs (Z.to_nat (v - 1))) as [w Hw]; [unfold len in Hv; lia|]. exists w. split.
    + rewrite <- (Z2Nat.id (v - 1)) by lia. by apply py_index_nat.
    + apply Hin. by eapply list_elem_of_lookup_2.
  - simpl in Hs. destruct Hs as [-> _]. exists v. split; [done|]. unfold in_axis. by rewrite Ea.
Qed.

Lemma setitem_ok cfg x a w :
  block k cfg → 0 ≤ x < n self → kernel_axes k !! Z.to_nat x = Some a → in_axis a w →
  ∃ new, py_setitem cfg x w = Ok new ∧ block k new.
Proof.
  intros Hc Hx Ha Hw. pose proof (block_length cfg Hc) as Hl. unfold n in Hx. fold k in Hx. unfold len in Hx.
  unfold py_setitem, norm_idx, len. destruct (Z.ltb_spec x 0); [lia|].
  destruct (_ || _) eqn:E; [rewrite orb_true_iff, Z.ltb_lt, Z.leb_le in E; lia|].
  eexists. split; [done|]. unfold block. rewrite <- (list_insert_id (kernel_axes k) (Z.to_nat x) a) by done.
  by apply Forall2_insert.
Qed.

Lemma get_neighbour_ok cfg x s :
  block k cfg → 0 ≤ x < n self → ∃ new, _get_neighbour self ax cfg x s = Ok new ∧ block k new.
Proof.
  intros Hc Hx. destruct (axis_at x Hx) as (a & [lo hi] & fs & Ha & Hb & Hfs & Hz & Hs).
  unfold _get_neighbour. fold k. rewrite Hb, Hz. simpl.
  destruct (Forall2_lookup_l _ _ _ _ _ Hc Ha) as (old & Hold & Hin).
  assert (py_index cfg x = Ok old) as ->. { rewrite <- (Z2Nat.id x) by lia. by apply py_index_nat. }
  simpl. unfold axis_set in Hs. destruct a.2 eqn:Ea; simpl in Hs.
  - destruct Hs as (E & Hne & _ & Hfin). injection E as -> ->. rewrite Hfs. simpl.
    set (j := Z.max 1 (Z.min (len fs) (bisect_left fs old + 1 + s)) - 1).
    destruct (lookup_lt_is_Some_2 fs (Z.to_nat j)) as [w Hw]; [unfold j, len in *; lia|].
    assert (py_index fs j = Ok w) as ->. { rewrite <- (Z2Nat.id j) by (unfold j; lia). by apply py_index_nat. }
    simpl. eapply setitem_ok; [done|done|done|]. apply Hfin. by eapply list_elem_of_lookup_2.
  - destruct Hs as [E Hle]. injection E as -> ->. eapply setitem_ok; [done|done|done|]. unfold in_axis. rewrite Ea. lia.
Qed.

(** ** Random moves *)

Lemma randrange_ok E m : 0 < m → yields E (randrange m) (λ x, 0 ≤ x < m).
Proof. intros Hm g. unfold randrange. destruct (Z.leb_spec m 0); [lia|]. by apply rand_below_range. Qed.

Lemma randint_ok E lo hi : lo ≤ hi → yields E (randint lo hi) (λ v, lo ≤ v ≤ hi).
Proof.
  intros Hle. unfold randint. destruct (Z.ltb_spec hi lo); [lia|]. eapply yields_bind; [apply randrange_ok; lia|].
  intros x Hx. apply yields_ret. simpl in *. lia.
Qed.

Lemma random_ok E : yields E random_ (λ _, True).
Proof. by intros g. Qed.

Lemma n_positive : 0 < n self.
Proof. unfold n, len. pose proof (some_axis _ (carver_kernel _ Hself)). lia. Qed.

Lemma bounds_le a b fs : axis_set a (b, fs) → b.1 ≤ b.2.
Proof. unfold axis_set. destruct a.2; simpl; intros [-> ?]; simpl; lia. Qed.

Lemma propose_ok E cfg temp : block k cfg → yields E (propose self ax cfg temp) (λ p, block k p.2).
Proof.
  intros Hc. unfold propose. eapply yields_bind; [apply randrange_ok, n_positive|]. intros x Hx.
  destruct (axis_at x Hx) as (a & [lo hi] & fs & Ha & Hb & Hfs & Hz & Hs).
  eapply yields_bind; [apply (yields_lift _ _ (eq (lo, hi))); eauto|]. intros ? <-.
  eapply yields_bind; [apply random_ok|]. intros r _. destruct (SFltb r _).
  - eapply yields_bind; [apply random_ok|]. intros s _.
    eapply yields_bind; [apply (yields_lift _ _ (block k)), get_neighbour_ok; done|]. intros new Hnew. by apply yields_ret.
  - eapply yields_bind; [apply randint_ok, (bounds_le _ _ _ Hs)|]. intros v Hv.
    eapply yields_bind; [apply (yields_lift _ _ (in_axis a)); by eapply pick_ok|]. intros w Hw.
    eapply yields_bind; [apply (yields_lift _ _ (block k)); by eapply setitem_ok|]. intros new Hnew. by apply yields_ret.
Qed.

(** A configuration of the population. *)
Record good (c : Config) : Prop := {
  good_block : block k (kwargs c);
  good_valid : check_valid self (kwargs c) = Ok true;
  good_value : _calc_value_with_constraints self (kwargs c) = Ok (value c);
}.

Lemma neighbor_loop_ok times cfg temp (E : Prop) :
  block k cfg → (E ∨ misfit → E) → (times = O → E) →
  yields E (neighbor_loop self ax times cfg temp) (λ p, block k p.2 ∧ check_valid self p.2 = Ok true).
Proof.
  intros Hc HE. induction times as [|times IH]; intros Hz; [intros g; split; [done|by apply Hz]|]. simpl.
  eapply yields_bind; [by apply propose_ok|]. intros [x new] Hnew. simpl in Hnew |- *.
  destruct (valid_total _ Hself new Hnew) as [b Hb].
  eapply yields_bind; [apply (yields_lift _ _ (eq b)); eauto|]. intros ? <-. destruct b; [by apply yields_ret|].
  apply IH. intros _. apply HE. right. by exists new.
Qed.

Lemma neighbor_ok cfg temp :
  block k cfg → yields misfit (_neighbor self ax cfg temp) (λ p, block k p.2 ∧ check_valid self p.2 = Ok true).
Proof. intros Hc. apply neighbor_loop_ok; [done|tauto|done]. Qed.

Lemma accept_ok E new old temp :
  SFltb (S754_zero false) temp = true → yields E (_accept new old temp) (λ _, True).
Proof.
  intros Ht. unfold _accept. destruct (SFltb new old) eqn:El; [by apply yields_ret|].
  assert (SFeqb temp (S754_zero false) = false) as ->.
  { by destruct temp as [[]|[]| |[]]. }
  destruct (exp_of_worsening old new temp El Ht) as [p Hp].
  eapply yields_bind; [apply (yields_lift _ _ (eq p)); eauto|]. intros ? <-.
  eapply yields_bind; [apply random_ok|]. intros. by apply yields_ret.
Qed.

Lemma sweep_ok temp cs :
  SFltb (S754_zero false) temp = true → Forall good cs →
  yields misfit (sweep self ax temp cs) (λ l, Forall good l ∧ length l = length cs).
Proof.
  intros Ht. induction 1 as [|c cs Hc _ IH]; simpl; [apply yields_ret; by split|].
  eapply yields_bind; [apply neighbor_ok, Hc|]. intros [x new] [Hnew Hv]. simpl in Hnew, Hv |- *.
  destruct (value_total _ Hself new Hnew) as [v Hval].
  eapply yields_bind; [apply (yields_lift _ _ (eq v)); eauto|]. intros ? <-.
  eapply yields_bind; [by apply accept_ok|]. intros acc _. eapply yields_bind; [exact IH|]. intros l [Hl Hlen].
  apply yields_ret. split; [|simpl; by f_equal]. constructor; [|done]. by destruct acc.
Qed.

Lemma anneal_ok m temp cs :
  warm m temp (alpha (annealparam self)) = true → Forall good cs →
  yields misfit (anneal self ax m temp cs) (λ l, Forall good l ∧ length l = length cs).
Proof.
  revert temp cs. induction m as [|m IH]; intros temp cs Hw Hcs; simpl; [by apply yields_ret|].
  simpl in Hw. apply andb_true_iff in Hw as [Ht Hw]. eapply yields_bind; [by apply sweep_ok|]. intros l [Hl Hlen].
  rewrite <- Hlen. by apply IH.
Qed.

(** ** The population *)

Lemma draw_ok E i :
  yields E (draw self ax (Z.of_nat i) (drop i (bound ax))) (λ l, Forall2 in_axis (drop i (kernel_axes k)) l).
Proof.
  remember (drop i (bound ax)) as bs eqn:Ebs. revert i Ebs. induction bs as [|[lo hi] bs IH]; intros i Ebs; simpl.
  - apply yields_ret. rewrite drop_ge; [constructor|]. apply (f_equal length) in Ebs. rewrite length_drop in Ebs. simpl in Ebs.
    rewrite kernel_axes_length. lia.
  - assert (bound ax !! i = Some (lo, hi)) as Hi by (rewrite <- (Nat.add_0_r i), <- lookup_drop, <- Ebs; done).
    pose proof (lookup_lt_Some _ _ _ Hi) as Hlt. assert (0 ≤ Z.of_nat i < n self) as Hx by (unfold n, len; fold k; lia).
    destruct (axis_at (Z.of_nat i) Hx) as (a & b & fs & Ha & Hb & Hfs & Hz & Hs).
    rewrite (py_index_nat _ _ _ Hi) in Hb. injection Hb as <-.
    eapply yields_bind; [apply randint_ok, (bounds_le _ _ _ Hs)|]. intros v Hv.
    eapply yields_bind; [apply (yields_lift _ _ (in_axis a)); eapply pick_ok; try done; by apply py_index_nat|]. intros w Hw.
    eapply yields_bind.
    { replace (Z.of_nat i + 1) with (Z.of_nat (S i)) by lia. apply IH. rewrite (drop_S _ _ _ Hi) in Ebs. by injection Ebs. }
    intros l Hl. apply yields_ret. rewrite Nat2Z.id in Ha. apply drop_S in Ha. refine (eq_ind_r (λ d, Forall2 in_axis d (w :: l)) _ Ha). by constructor.
Qed.

Lemma populate_ok tries i cs :
  Forall good cs →
  yields misfit (populate self ax tries i cs)
    (λ l, Forall good l ∧ (cs ≠ [] ∨ (tries ≠ O ∧ ¬ misfit) → l ≠ [])).
Proof.
  revert i cs. induction tries as [|tries IH]; intros i cs Hcs; simpl; [apply yields_ret; split; [done|tauto]|].
  eapply yields_bind; [apply (draw_ok misfit 0)|]. intros cfg Hcfg. rewrite !drop_0 in Hcfg.
  destruct (valid_total _ Hself cfg Hcfg) as [b Hb].
  eapply yields_bind; [apply (yields_lift _ _ (eq b)); eauto|]. intros ? <-. destruct b.
  - destruct (value_total _ Hself cfg Hcfg) as [v Hv].
    eapply yields_bind; [apply (yields_lift _ _ (eq v)); eauto|]. intros ? <-.
    assert (Forall good (cs ++ [MkConfig cfg v])) as Hg by (apply Forall_app; split; [done|by repeat constructor]).
    assert (cs ++ [MkConfig cfg v] ≠ []) as Hne by (by destruct cs).
    destruct (_ =? _); [by apply yields_ret|]. eapply yields_mono; [by apply IH|]. intros l [Hl Hn]. split; [done|]. auto.
  - eapply yields_mono; [by apply IH|]. intros l [Hl Hn]. split; [done|]. intros [?|[_ Hm]]; [auto|].
    exfalso. apply Hm. by exists cfg.
Qed.

(** ** Neighbouring configurations *)

Lemma keep_if_valid_ok cfg : block k cfg → ∃ l, keep_if_valid self cfg = Ok l ∧ Forall good l.
Proof.
  intros Hc. unfold keep_if_valid. destruct (valid_total _ Hself cfg Hc) as [b Hb]. rewrite Hb. simpl.
  destruct b; [|by exists []]. destruct (value_total _ Hself cfg Hc) as [v Hv]. rewrite Hv. simpl.
  eexists. split; [done|]. by repeat constructor.
Qed.

Lemma neighbours_of_ok c : good c → ∃ l, neighbours_of self ax c = Ok (c :: l) ∧ Forall good l.
Proof.
  intros Hc. unfold neighbours_of. destruct (mmap_total (λ _ l, Forall good l)
    (λ xp : Z * Z, up ← _get_neighbour self ax (kwargs c) xp.1 (xp.2 + 1); u ← keep_if_valid self up;
       down ← _get_neighbour self ax (kwargs c) xp.1 (- (xp.2 + 1)); d ← keep_if_valid self down; Ok (u ++ d))
    (concat ((λ x, (λ p, (x, p)) <$> seqZ 0 (expand_neighbour (annealparam self))) <$> seqZ 0 (n self)))) as (l & Hl & Hg).
  { intros [x p] Hxp. apply list_elem_of_In, in_concat in Hxp as (xs & Hxs%list_elem_of_In & Hxp%list_elem_of_In).
    apply list_elem_of_fmap in Hxs as (x' & -> & Hx'%elem_of_seqZ). apply list_elem_of_fmap in Hxp as (p' & [= -> ->] & _).
    simpl. assert (0 ≤ x' < n self) as Hx by lia.
    destruct (get_neighbour_ok (kwargs c) x' (p' + 1) (good_block c Hc) Hx) as (up & -> & Hup). simpl.
    destruct (keep_if_valid_ok up Hup) as (u & -> & Hu). simpl.
    destruct (get_neighbour_ok (kwargs c) x' (- (p' + 1)) (good_block c Hc) Hx) as (down & -> & Hdown). simpl.
    destruct (keep_if_valid_ok down Hdown) as (d & -> & Hd). simpl. eexists. split; [done|]. by apply Forall_app. }
  rewrite Hl. simpl. eexists. split; [done|]. apply Forall_concat. by eapply Forall2_Forall_r; [exact Hg|apply Forall_true].
Qed.

Lemma neighbor_configs_ok cs :
  Forall good cs →
  ∃ l, _neighbor_configs self ax cs = Ok l ∧ Forall good l ∧ NoDup (kwargs <$> l) ∧ (cs ≠ [] → l ≠ []).
Proof.
  intros Hcs. unfold _neighbor_configs. rewrite Forall_forall in Hcs.
  destruct (mmap_total (λ c l, Forall good l ∧ l ≠ []) (neighbours_of self ax) cs) as (l & Hl & Hg).
  { intros c Hc. destruct (neighbours_of_ok c (Hcs c Hc)) as (l & Hl & Hg). exists (c :: l). split; [done|].
    split; [constructor; auto|done]. }
  rewrite Hl. simpl. eexists. split; [done|]. destruct (unique_spec (concat l)) as (I1 & I2 & I3).
  assert (Forall good (concat l)) as Hall.
  { apply Forall_concat. eapply Forall2_Forall_r; [exact Hg|]. apply Forall_forall. by intros c _ l' [? _]. }
  rewrite Forall_forall in Hall. split; [apply Forall_forall; auto|]. split; [done|]. intros Hne. apply I3.
  destruct Hg as [|c l0 cs0 ls [_ Hn] _]; [done|]. simpl. by destruct l0.
Qed.
End search.

(** ** Results *)

(** A point of the searched space in elements. *)
Definition scaled (k : CustomTemplate) (cfg : list Z) : list Z := zip_with (λ y v, Z.min y (v * 16)) (init_tile k) cfg.

(** A size that is returned: a multiple of 16 that divides the upper bound where
    only factors count, else a multiple of 16, or the bound itself if that is
    shorter than 16. *)
Definition tile_ok (a : axis) (t : Z) : Prop :=
  if a.2 then (16 | t) ∧ (t | a.1.2) ∧ low a * 16 ≤ t
  else t ≤ a.1.2 ∧ ((16 | t) ∧ low a * 16 ≤ t ∨ t = a.1.2 ∧ a.1.2 < 16).

Lemma in_axis_tile a v : axis_ok a → in_axis a v → tile_ok a (Z.min a.1.2 (v * 16)).
Proof.
  destruct a as [[x y] z]. unfold axis_ok, in_axis, tile_ok, low, high. simpl. destruct z.
  - intros ([q ->] & Hy & _) [Hlo Hv]. rewrite Z.div_mul in * by done. assert (v ≤ q) by (apply Z.divide_pos_le; [lia|done]).
    rewrite Z.min_r by lia. split; [by exists v|]. split; [by apply Z.mul_divide_mono_r|lia].
  - intros _ [Hlo Hhi]. split; [lia|]. pose proof (Z.div_mod y 16). pose proof (Z.mod_pos_bound y 16).
    destruct (decide (y < 16)); [right; assert (y / 16 < 1) by (apply Z.div_lt_upper_bound; lia); lia|].
    left. assert (1 ≤ y / 16) by (apply Z.div_le_lower_bound; lia). rewrite Z.min_r by lia. split; [by exists v|lia].
Qed.

(** Different points have different tiles. *)
Lemma scale_axis_inj a v w :
  axis_ok a → in_axis a v → in_axis a w → Z.min a.1.2 (v * 16) = Z.min a.1.2 (w * 16) → v = w.
Proof.
  intros Ha Hv Hw E. pose proof (in_axis_tile a v Ha Hv) as Tv. pose proof (in_axis_tile a w Ha Hw) as Tw.
  destruct a as [[x y] z]. unfold axis_ok, in_axis, tile_ok, low, high in *. simpl in *. destruct z.
  - destruct Ha as ([q ->] & Hy & _), Hv as [Hlo Hv], Hw as [Hlo' Hw]. rewrite Z.div_mul in * by done.
    apply Z.divide_pos_le in Hv, Hw; lia.
  - pose proof (Z.div_mod y 16). pose proof (Z.mod_pos_bound y 16).
    destruct (decide (y < 16)); [assert (y / 16 < 1) by (apply Z.div_lt_upper_bound; lia); lia|].
    assert (1 ≤ y / 16) by (apply Z.div_le_lower_bound; lia). lia.
Qed.

Section results.
Context `{NumPyLaws} `{RandomLaws}.

Lemma block_scaled k cfg : kernel_ok k → block k cfg → Forall2 tile_ok (kernel_axes k) (scaled k cfg).
Proof.
  intros [Hlow Honly _ Hok] Hc. unfold scaled, block, kernel_axes in *. revert Hok Hc Hlow Honly. unfold axes_of.
  generalize (init_low_tile k), (only_factor k), cfg. clear. induction (init_tile k) as [|y ys IH]; intros [|x xs] [|z zs] cfg; try done; simpl.
  intros [Ha Hok]%Forall_cons Hc Hlow Honly. apply Forall2_cons_inv_l in Hc as (v & cfg' & Hv & Hc & ->). constructor.
  - by apply (in_axis_tile (x, y, z)).
  - apply IH; [done|done|lia|lia].
Qed.

Lemma scaled_inj k cfg cfg' : kernel_ok k → block k cfg → block k cfg' → scaled k cfg = scaled k cfg' → cfg = cfg'.
Proof.
  intros [Hlow Honly _ Hok]. unfold scaled, block, kernel_axes in *. revert Hok Hlow Honly. unfold axes_of.
  generalize (init_low_tile k), (only_factor k). revert cfg cfg'.
  induction (init_tile k) as [|y ys IH]; intros cfg cfg' [|x xs] [|z zs]; try done; simpl.
  - intros _ _ _ Hc Hc' _. apply Forall2_nil_inv_l in Hc as ->. by apply Forall2_nil_inv_l in Hc' as ->.
  - intros [Ha Hok]%Forall_cons Hlow Honly Hc Hc' E. apply Forall2_cons_inv_l in Hc as (v & l & Hv & Hc & ->).
    apply Forall2_cons_inv_l in Hc' as (w & l' & Hw & Hc' & ->). simpl in E. injection E as E1 E2. f_equal.
    + by apply (scale_axis_inj (x, y, z)).
    + eapply (IH l l' xs zs); [done|lia|lia|done|done|done].
Qed.

Lemma scale_ok self c :
  carver_ok self → block (custom_kernel self) (kwargs c) →
  scale self c = Ok (MkConfig (scaled (custom_kernel self) (kwargs c)) (value c)).
Proof.
  intros Hs Hc. set (k := custom_kernel self) in *. unfold scale. fold k.
  assert (length (kwargs c) = length (init_tile k)) as Hl.
  { apply Forall2_length in Hc. destruct (carver_kernel _ Hs) as [Hlow Honly _ _]. fold k in Hlow, Honly.
    unfold kernel_axes, axes_of in Hc. rewrite !length_zip_with in Hc. lia. }
  assert (mmap (λ i, a ← py_index (init_tile k) i; b ← py_index (kwargs c) i; Ok (Z.min a (b * 16))) (seqZ 0 (n self)) =
    Ok (scaled k (kwargs c))) as ->; [|done].
  apply mmap_Ok, Forall2_same_length_lookup_2.
  - unfold scaled, n, len. fold k. rewrite length_seqZ, length_zip_with. lia.
  - intros i x t Hx Ht. apply lookup_seqZ in Hx as [-> Hx]. unfold scaled in Ht. apply lookup_zip_with_Some in Ht as (y & v & -> & Hy & Hv).
    rewrite Z.add_0_l, (py_index_nat _ _ _ Hy). simpl. by rewrite (py_index_nat _ _ _ Hv).
Qed.

(** What is returned: a tile, the point of the search it comes from, which passed
    the memory constraints, and its cost. *)
Definition result_ok (self : AnnealCarver) (c : Config) : Prop :=
  let k := custom_kernel self in
  Forall2 tile_ok (kernel_axes k) (kwargs c) ∧
  ∃ cfg, block k cfg ∧ kwargs c = scaled k cfg ∧ check_valid self cfg = Ok true ∧
    _calc_value_with_constraints self cfg = Ok (value c).

Lemma py_to_nonneg {A} (l : list A) i : 0 ≤ i → py_to l i = take (Z.to_nat i) l.
Proof.
  intros Hi. unfold py_to, slice_bound, norm_idx, len. destruct (Z.ltb_spec i 0); [lia|].
  destruct (decide (i ≤ Z.of_nat (length l))).
  - f_equal. lia.
  - rewrite !take_ge; [done|lia|lia].
Qed.

Lemma ascending_take (l : list Config) m : ascending value l → ascending value (take m l).
Proof.
  intros Hl. revert m. induction Hl as [|c l Hl IH Hc]; intros [|m]; simpl; try constructor; [apply IH|].
  destruct Hc as [|c' l' Hc]; destruct m; simpl; by constructor.
Qed.

Lemma ascending_fmap (f : Config → Config) l :
  (∀ c, value (f c) = value c) → ascending value l → ascending value (f <$> l).
Proof.
  intros Hf. induction 1 as [|c l Hl IH Hc]; simpl; constructor; [done|].
  destruct Hc as [|c' l' Hc]; simpl; constructor. by rewrite !Hf.
Qed.

Lemma take_sorted_nonempty (l : list Config) m : l ≠ [] → 0 < m → take (Z.to_nat m) (sorted_by value l) ≠ [].
Proof.
  intros Hl Hm E. pose proof (sorted_by_perm value l) as Hp. destruct (sorted_by value l) as [|c l'].
  - by apply Permutation_nil_l in Hp.
  - destruct (Z.to_nat m) eqn:Em; [lia|done].
Qed.

(** The whole search. *)
Lemma anneal_search_ok self g :
  carver_ok self → schedule_ok (annealparam self) = true → 0 ≤ topk (annealparam self) →
  match (get_configs_from_anneal self g).1 with
  | Ok cs =>
      len cs ≤ topk (annealparam self) ∧ NoDup (kwargs <$> cs) ∧ ascending value cs ∧ Forall (result_ok self) cs ∧
      (0 < topk (annealparam self) → 0 < number (annealparam self) → ¬ misfit self → cs ≠ [])
  | Raise e => e = ValueError ∧ misfit self
  end.
Proof.
  intros Hs Hw Htop. set (p := annealparam self) in *. set (k := custom_kernel self).
  destruct (carver_kernel _ Hs) as [Hlow Honly Hn Hok]. fold k in Hlow, Honly, Hn, Hok.
  destruct (set_axes_ok _ _ _ Hlow Honly Hok) as (ax & Eax & Hb & Hf & Hax).
  revert g. refine (_ : yields (misfit self) (get_configs_from_anneal self) _). unfold get_configs_from_anneal. fold k.
  eapply yields_bind; [apply (yields_lift _ _ (eq ax)); eauto|]. intros ? <-. unfold search_configs. fold p.
  eapply yields_bind; [by apply (populate_ok self Hs ax Hb Hf Hax)|]. intros cs0 [Hg0 Hne0].
  eapply yields_bind; [by apply (anneal_ok self Hs ax Hb Hf Hax)|]. intros cs1 [Hg1 Hl1].
  set (cs2 := _get_unique_configs (sorted_by value cs1)).
  assert (Forall (good self) cs2 ∧ (cs1 ≠ [] → cs2 ≠ [])) as [Hg2 Hne2].
  { pose proof (sorted_by_perm value cs1) as Hp. destruct (unique_spec (sorted_by value cs1)) as (_ & I2 & I3). split.
    - apply Forall_forall. intros c Hc%I2. rewrite Hp in Hc. rewrite Forall_forall in Hg1. auto.
    - intros Hne. apply I3. intros E. rewrite E in Hp. by apply Permutation_nil_l in Hp. }
  destruct (neighbor_configs_ok self Hs ax Hb Hf Hax cs2 Hg2) as (cs3 & E3 & Hg3 & Hnd3 & Hne3).
  eapply yields_bind; [apply (yields_lift _ _ (eq cs3)); eauto|]. intros ? <-. apply yields_lift.
  rewrite py_to_nonneg by done. set (cs4 := take _ _). pose proof (sorted_by_perm value cs3) as Hp.
  assert (Forall (good self) cs4) as Hg4.
  { unfold cs4. apply Forall_take. by rewrite Hp. }
  exists ((λ c, MkConfig (scaled k (kwargs c)) (value c)) <$> cs4). split.
  { apply mmap_pure. intros c Hc. rewrite Forall_forall in Hg4. apply scale_ok; [done|]. by apply Hg4. }
  split_and!.
  - unfold len. rewrite length_fmap. unfold cs4. rewrite length_take. lia.
  - rewrite <- list_fmap_compose.
    assert (NoDup (kwargs <$> cs4)) as Hnd.
    { unfold cs4. rewrite fmap_take. eapply sublist_NoDup; [|apply sublist_take]. by rewrite Hp. }
    change (NoDup (scaled k ∘ kwargs <$> cs4)). rewrite list_fmap_compose. apply NoDup_fmap_2_strong; [|done].
    rewrite Forall_forall in Hg4. intros t t' (c & -> & Hc)%list_elem_of_fmap (c' & -> & Hc')%list_elem_of_fmap.
    apply scaled_inj; [by apply carver_kernel|by apply Hg4|by apply Hg4].
  - apply ascending_fmap; [done|]. apply ascending_take, sorted_by_ascending.
  - apply Forall_fmap. eapply Forall_impl; [exact Hg4|]. intros c [Hb' Hv Hc]. split; [|by exists (kwargs c)].
    simpl. by apply block_scaled.
  - intros Ht Hnum Hm E. apply fmap_nil_inv in E. revert E. apply take_sorted_nonempty; [|done].
    apply Hne3, Hne2. intros ->. apply Hne0; [right; split; [lia|done]|]. by destruct cs0.
Qed.

(** C15: for a carver whose axes are as [kernel_ok] says (there is an axis; the size of
    an axis of which only factors count is a multiple of 16 between 16 and 2^56; on
    every axis the lower bound, in units of 16, is not above the upper one), whose constraints
    and cost are defined at every point of the searched space, whose temperature
    stays positive and whose [topk] is not negative, the search ends.  The
    configurations it returns are at most [topk], all different, in ascending order
    of cost, and each is a tile of the searched space that [check_valid] accepts;
    there is one if something was asked for and [check_valid] accepts every point.
    It only raises [ValueError], and only if [check_valid] refuses some point. *)
Theorem anneal_configs_correct self g :
  carver_ok self → schedule_ok (annealparam self) = true → 0 ≤ topk (annealparam self) →
  match (get_configs_from_anneal self g).1 with
  | Ok cs =>
      len cs ≤ topk (annealparam self) ∧ NoDup (kwargs <$> cs) ∧ ascending value cs ∧ Forall (result_ok self) cs ∧
      (0 < topk (annealparam self) → 0 < number (annealparam self) → ¬ misfit self → cs ≠ [])
  | Raise e => e = ValueError ∧ misfit self
  end.
Proof. apply anneal_search_ok. Qed.
End results.

(** ** The template of a matrix product *)

Lemma default_schedule : schedule_ok default_param = true.
Proof. vm_compute. reflexivity. Qed.

Section matmul.
Context `{NumPyLaws} `{RandomLaws}.
Variable default_arch : Device.

Lemma block_positive k cfg : block k cfg → Forall (λ v, 0 < v) cfg.
Proof.
  intros Hc. apply Forall_forall. intros v Hv. apply list_elem_of_lookup in Hv as [i Hi].
  destruct (Forall2_lookup_r _ _ _ _ _ Hc Hi) as (a & _ & Ha). unfold in_axis, low in Ha. destruct a.2; lia.
Qed.

Lemma poly_total p cfg : length cfg = length (polynomial p) → ∃ v, poly_results p cfg = Ok v.
Proof.
  intros Hl. unfold poly_results, len. rewrite Hl, Z.eqb_refl. simpl. eauto.
Qed.

Lemma waves_total idx shape :
  length idx = length shape → Forall (λ x, 0 < x) idx →
  ∃ w, waves_per_axis idx shape = Ok w ∧ length w = length shape.
Proof.
  intros Hl Hp. unfold waves_per_axis, zip_strict. rewrite decide_True by done. simpl.
  destruct (mmap_total (λ _ _, True) (λ p : Z * Z, py_floordiv (p.2 + p.1 - 1) p.1) (zip idx shape)) as (w & -> & Hw).
  { intros [x y] (i & Hi)%list_elem_of_lookup. apply lookup_zip_Some in Hi as [Hx _].
    rewrite Forall_forall in Hp. pose proof (Hp x ltac:(by eapply list_elem_of_lookup_2)) as Hx0. unfold py_floordiv. simpl.
    destruct (Z.eqb_spec x 0); [lia|]. eauto. }
  exists w. split; [done|]. apply Forall2_length in Hw. rewrite <- Hw, length_zip_with. lia.
Qed.

Lemma matmul_cost_total a b c nbytes shape cores :
  length nbytes = 3%nat → length shape = 3%nat → 0 < a → 0 < b → 0 < c → 0 < cores →
  ∃ v, _compute_carver_policy_matmul default_arch nbytes shape cores [a; b; c] = Ok v.
Proof.
  intros Hn Hs Ha Hb Hc Hcores. unfold _compute_carver_policy_matmul, _compute_memory_traffic_matmul, _compute_num_waves_matmul, _get_aicube_cores.
  destruct nbytes as [|n0 [|n1 [|n2 []]]]; try done. destruct (Z.ltb_spec cores 0); [lia|]. cbn -[waves_per_axis].
  destruct (waves_total [a; b; c] shape) as (w & -> & Hw); [done|by repeat constructor|].
  rewrite Hs in Hw. destruct w as [|w0 [|w1 [|w2 []]]]; try done. cbn. unfold py_floordiv. destruct (Z.eqb_spec cores 0); [lia|]. eauto.
Qed.

(** A product of matrices [m x n] with the settings left to the template. *)
Record matmul_args (a : TemplateArgs) (m n p nb ab : Z) : Prop := {
  args_shape : shape a = [m; n; p];
  args_template : use_template a = "Matmul"%string;
  args_defaults : arg_low_tile a = None ∧ arg_tile a = None ∧ arg_only_factor a = None ∧ arg_param a = None ∧ arg_mem_caps a = None;
  args_multiples : Forall (λ d, (16 | d) ∧ 16 ≤ d < 2 ^ 56) [m; n; p];
  args_cores : 0 < aicube_core_num (device a);
  args_dtype : get_byte_per_numel (arg_dtype a) = Ok nb;
  args_accum : get_byte_per_numel (arg_accum_dtype a) = Ok ab;
}.

Definition matmul_setup (a : TemplateArgs) : AnnealTemplate :=
  MkAnneal a default_param ["L1"%string] (replicate (length (shape a)) 16) (shape a) (replicate (length (shape a)) true).

Definition matmul_carver (a : TemplateArgs) (nb ab : Z) : AnnealCarver :=
  MkCarver (matmul_policy default_arch (matmul_setup a) nb ab) [l1_cap (arch (device a))] (matmul_kernel (matmul_setup a) nb) default_param.

Lemma matmul_init a m n p nb ab : matmul_args a m n p nb ab → AnnealTemplate_init a = Ok (matmul_setup a).
Proof.
  intros [Hs Ht (H1' & H2' & H3' & H4' & H5') _ _ _ _]. unfold AnnealTemplate_init, is_flash. rewrite Ht, H1', H2', H3', H4', H5'. done.
Qed.

Lemma matmul_block a m n p nb ab cfg :
  matmul_args a m n p nb ab → block (matmul_kernel (matmul_setup a) nb) cfg → ∃ x y z, cfg = [x; y; z] ∧ 0 < x ∧ 0 < y ∧ 0 < z.
Proof.
  intros [Hs _ _ _ _ _ _] Hb. pose proof (block_positive _ _ Hb) as Hp. apply Forall2_length in Hb.
  unfold kernel_axes, axes_of, matmul_kernel, matmul_setup in Hb. simpl in Hb. rewrite Hs in Hb. simpl in Hb.
  destruct cfg as [|x [|y [|z []]]]; try done. rewrite !Forall_cons in Hp. exists x, y, z. tauto.
Qed.

Lemma matmul_axes a m n p nb ab :
  matmul_args a m n p nb ab → kernel_axes (matmul_kernel (matmul_setup a) nb) = [(16, m, true); (16, n, true); (16, p, true)].
Proof. intros [Hs _ _ _ _ _ _]. unfold kernel_axes, matmul_kernel, matmul_setup. simpl. by rewrite Hs. Qed.

Lemma matmul_axis_ok d : (16 | d) → 16 ≤ d < 2 ^ 56 → axis_ok (16, d, true).
Proof.
  intros Hd Hr. split; [done|]. split; [done|].
  unfold low. simpl. change (16 / 16) with 1.
  apply Z.div_le_lower_bound; lia.
Qed.

Lemma factor_le d v : (16 | d) → 16 ≤ d → in_axis (16, d, true) v → Z.min d (v * 16) = v * 16.
Proof.
  intros [q ->] Hd [_ Hv]. simpl in Hv. rewrite Z.div_mul in Hv by done. apply Z.divide_pos_le in Hv; lia.
Qed.

Lemma func_results_three f x y z :
  func_results (MkFuncC [1; 2; 3] [] f) [x; y; z] = f [x * 16; y * 16; z * 16] ≫= λ v, Ok v.
Proof. reflexivity. Qed.

Lemma matmul_carver_ok a m n p nb ab : matmul_args a m n p nb ab → carver_ok (matmul_carver a nb ab).
Proof.
  intros Ha. pose proof (matmul_axes _ _ _ _ _ _ Ha) as Hax. split; simpl.
  - pose proof (args_shape _ _ _ _ _ _ Ha) as Hs. unfold kernel_axes in Hax. split; [| | |by rewrite Hax; pose proof (args_multiples _ _ _ _ _ _ Ha) as Hm;
      rewrite !Forall_cons in *; destruct_and!; split_and!; try apply Forall_nil_2; apply matmul_axis_ok];
      unfold matmul_kernel, matmul_setup; simpl; rewrite Hs; simpl; lia.
  - intros cfg Hc. destruct (matmul_block _ _ _ _ _ _ _ Ha Hc) as (x & y & z & -> & _).
    unfold check_valid, matmul_carver, matmul_kernel, calc_results. simpl. destruct (SFltb _ _); eauto.
  - intros cfg Hc. destruct (matmul_block _ _ _ _ _ _ _ Ha Hc) as (x & y & z & -> & Hx & Hy & Hz).
    destruct (matmul_cost_total (x * 16) (y * 16) (z * 16) [nb; nb; ab] (shape a) (aicube_core_num (device a))) as [v Hv];
      [done|by rewrite (args_shape _ _ _ _ _ _ Ha)|lia|lia|lia|by apply Ha|].
    unfold _calc_value_with_constraints, matmul_carver, matmul_policy, calc_results. cbn [Anneal.policy mfold poly_add func_add poly_mul func_mul].
    rewrite func_results_three. cbn [shape t_args matmul_setup]. rewrite Hv. simpl. eauto.
Qed.

Lemma get_configs_matmul a m n p nb ab g :
  matmul_args a m n p nb ab →
  get_configs default_arch (matmul_setup a) g = get_configs_from_anneal (matmul_carver a nb ab) g.
Proof.
  intros [_ Ht _ _ _ Hd Hac]. unfold get_configs, matmul_template, run_carver. simpl. rewrite Ht. simpl.
  rewrite Hd. simpl. rewrite Hac. done.
Qed.

(** C37: a matrix product of three sizes that are multiples of 16 below 2^56, with
    known dtypes, a device with cores and everything else left to the template, is
    set up by the template without an exception; the search then returns at most ten
    configurations, all different and in ascending order of cost, each with tiles
    that divide the sizes and are multiples of 16 in every direction, or it raises
    [ValueError]. *)
Theorem matmul_template_correct a m n p nb ab g :
  matmul_args a m n p nb ab →
  ∃ t, AnnealTemplate_init a = Ok t ∧
    match (get_configs default_arch t g).1 with
    | Ok cs =>
        len cs ≤ 10 ∧ NoDup (kwargs <$> cs) ∧ ascending value cs ∧
        ∀ c, c ∈ cs → Forall2 (λ d s, (16 | s) ∧ (s | d)) [m; n; p] (kwargs c)
    | Raise e => e = ValueError
    end.
Proof.
  intros Ha. exists (matmul_setup a). split; [by eapply matmul_init|]. erewrite get_configs_matmul by done.
  pose proof (anneal_search_ok (matmul_carver a nb ab) g (matmul_carver_ok _ _ _ _ _ _ Ha) default_schedule ltac:(done)) as Hr.
  destruct (get_configs_from_anneal _ g).1 as [cs|e]; [|tauto]. destruct Hr as (Hl & Hn & Hasc & Hall & _).
  split_and!; [done|done|done|].
  intros c Hc. rewrite Forall_forall in Hall. destruct (Hall c Hc) as (Ht & _). simpl in Ht.
  rewrite (matmul_axes _ _ _ _ _ _ Ha) in Ht.
  apply Forall2_cons_inv_l in Ht as (s0 & l0 & (A1 & A2 & _) & Ht & ->). apply Forall2_cons_inv_l in Ht as (s1 & l1 & (B1 & B2 & _) & Ht & ->).
  apply Forall2_cons_inv_l in Ht as (s2 & l2 & (C1 & C2 & _) & Ht & ->). apply Forall2_nil_inv_l in Ht as ->. by repeat constructor.
Qed.
End matmul.

Module AnnealTotalEx.
#[export] Instance numpy_ex : NumPy := {| np_ceil_sqrt := Z.sqrt_up |}.
#[export] Instance numpy_laws_ex : NumPyLaws.
Proof. by split. Qed.

Definition next (g : Z) : Z := (g * 1103515245 + 12345) mod 2 ^ 31.

#[export] Instance random_ex : Random := {|
  rng := Z;
  random := λ g, (f_decimal (g / 2 ^ 16 mod 1000) 1000, next g);
  rand_below := λ n g, (g / 2 ^ 16 mod n, next g);
  math_exp := λ _, Ok (f_decimal 1 2) |}.

#[export] Instance random_laws_ex : RandomLaws.
Proof. split; [|eauto]. intros n g Hn. by apply Z.mod_pos_bound. Qed.

Definition a910b : AscendArch := MkArch "Ascend910B" 20 (192 * 1024) (1024 * 1024) (64 * 1024) (64 * 1024) (512 * 1024) [16; 16; 16] (32, 32).
Definition npu : Device := MkDevice a910b (16 * 1024 * 1024) 40.
Definition args (template : string) (sh : list Z) (p : option Annealparam) : TemplateArgs :=
  MkArgs sh None None None p template "float16" "float32" None None npu.

Definition seed : @rng random_ex := 42.

Definition small_param : Annealparam := MkParam 1 (f_decimal 7 10) 3 3 2 (f_of_Z 100) (f_decimal 97 100) (f_decimal 7 10).

Definition configs_of (a : TemplateArgs) (g : Z) : res (list (list Z)) :=
  t ← AnnealTemplate_init a; cs ← (get_configs npu t g).1; Ok (kwargs <$> cs).

Lemma matmul_args_ex : matmul_args (args "Matmul" [128; 256; 64] None) 128 256 64 2 4.
Proof. split; try done. repeat constructor; (by exists 8) || (by exists 16) || (by exists 4) || done. Qed.

Definition carver_ex : AnnealCarver := matmul_carver npu (args "Matmul" [128; 256; 64] None) 2 4.

Lemma anneal_configs_correct_witness :
  carver_ok carver_ex ∧
  match (get_configs_from_anneal carver_ex 42).1 with
  | Ok cs => len cs ≤ 10 ∧ NoDup (kwargs <$> cs) ∧ ascending value cs ∧ Forall (result_ok carver_ex) cs ∧
      (0 < 10 → 0 < 100 → ¬ misfit carver_ex → cs ≠ [])
  | Raise e => e = ValueError ∧ misfit carver_ex
  end.
Proof.
  assert (carver_ok carver_ex) as Hc by (eapply matmul_carver_ok, matmul_args_ex). split; [exact Hc|].
  exact (anneal_configs_correct carver_ex 42 Hc default_schedule (ltac:(done) : 0 ≤ 10)).
Defined.

(** A short run. *)
Lemma matmul_run : configs_of (args "Matmul" [128; 256; 64] (Some small_param)) 42 = Ok [[64; 32; 64]; [32; 64; 64]; [32; 32; 64]].
Proof. vm_compute. reflexivity. Qed.

Lemma matmul_template_correct_witness :
  ∃ t, AnnealTemplate_init (args "Matmul" [128; 256; 64] None) = Ok t ∧
    match (get_configs npu t seed).1 with
    | Ok cs => len cs ≤ 10 ∧ ∀ c, c ∈ cs → Forall2 (λ d s, (16 | s) ∧ (s | d)) [128; 256; 64] (kwargs c)
    | Raise e => e = ValueError
    end.
Proof.
  destruct (matmul_template_correct npu (args "Matmul" [128; 256; 64] None) 128 256 64 2 4 seed matmul_args_ex) as (t & Ht & Hr).
  exists t. split; [exact Ht|]. destruct (get_configs npu t seed).1 as [cs|e]; [|exact Hr]. destruct Hr as (Hl & _ & _ & Hall).
  split; [exact Hl|]. intros c Hc. exact (Hall c Hc).
Defined.

(** The cost of element-wise operators reads two axes. *)
Lemma one_axis_raises : configs_of (args "Elementwise" [64] (Some small_param)) 42 = Raise IndexError.
Proof. vm_compute. reflexivity. Qed.

(** The factor 0.7 is applied to the usage: a tile of 262144 bytes fits the
    196608 bytes of the unified buffer. *)
Lemma usage_beyond_capacity :
  let s := MkSet [MkPoly [1; 1]%N [PyInt 2; PyInt 4]] [] [] [] in
  calc_results s [16; 8] = Ok (f_of_Z 262144) ∧ ub_cap a910b = 196608 ∧
  check_valid (MkCarver [] [ub_cap a910b] (MkTemplate [16; 16] [256; 128] [true; true] [s]) default_param) [16; 8] = Ok true.
Proof. split_and!; vm_compute; reflexivity. Qed.

(** A factor of a set of constraints is added. *)
Lemma func_mul_adds :
  let const z := MkFuncC [1] [] (λ _, Ok (PyInt z)) in
  calc_results (MkSet [] [] [const 3] [const 5]) [1] = Ok (f_of_Z 8).
Proof. vm_compute. reflexivity. Qed.

(** The lower bound of a search is rounded down to a multiple of 16. *)
Lemma lower_bound_rounded_down : set_axis 24 64 false = Ok ((1, 4), [1]) ∧ tile_ok (24, 64, false) 16.
Proof. split; [reflexivity|]. split; [done|]. left. split; [by exists 1|done]. Qed.

(** Only the second axis of flash attention is limited to 256. *)
Lemma flash_first_axis_unlimited : t_tile <$> AnnealTemplate_init (args "FlashAttention" [4096; 4096; 128] None) = Ok [4096; 256; 128].
Proof. reflexivity. Qed.
End AnnealTotalEx.
