(* ===== verification/Autotune.v ===== *)
(** * The autotuner

    [src/tilelang/autotuner/tuner.py] and [param.py] over the kernel cache: the key
    of a tuning, its two caches, how configurations are compiled, measured and the
    best one chosen; and the wrapper of [src/tilelang/jit/__init__.py] through
    which decorated functions are compiled.

    The configurations are compiled one after the other in the order in which the
    pool completes them, an argument of [run]; each compilation is one step of the
    kernel cache.  Measurements, correctness checks and the signatures of Python
    functions are parameters.  A time-out is an argument too.

    The tuner writes latency, configuration and reference latency into the kernel
    object it chose, which the kernel cache holds as well.  These three fields are
    only reported, never read by what is modelled here; [finish] marks the kernel it
    returns and leaves the cache's as it was compiled. *)
From Stdlib Require Import ZArith.
From stdpp Require Import base strings gmap numbers relations list.
From S2P Require Import Prelude Tir DynShape KernelCache.
#[local] Open Scope Z_scope.
Set Default Proof Using "Type*".

(** A dict from names to values, in insertion order. *)
Section dicts.
Context `{Opaque}.

Definition config_dict := list (string * Data).

Definition dict_lookup (d : config_dict) (name : string) : option Data := snd <$> List.find (λ kv, bool_decide (kv.1 = name)) d.

(** A value as [_normalize_param] sees it. *)
Inductive pyval :=
  | PVar (shown : string)               (** a TIR variable, by its [str] *)
  | PSeq (l : list pyval)               (** a list or tuple *)
  | PDict (d : list (string * pyval))   (** keys by their [str] *)
  | PData (d : Data)
  | PStr (s : string).

Fixpoint _normalize_param (v : pyval) : pyval :=
  match v with
  | PVar s => PStr s
  | PSeq l => PSeq (_normalize_param <$> l)
  | PDict d => PDict ((λ kv, (kv.1, _normalize_param kv.2)) <$> d)
  | PData d => PData d
  | PStr s => PStr s
  end.

Record CompileArgs := MkCompileArgs {
  ca_out_idx : out_arg;
  ca_execution_backend : string;
  ca_target : string;
  ca_target_host : option string;
  ca_verbose : bool;
  ca_pass_configs : option (gmap string Data);
}.

(** What [CompileArgs.__hash__] hashes. *)
Record CompileData := MkCompileData {
  cd_execution_backend : string;
  cd_target : string;
  cd_target_host : option string;
  cd_verbose : bool;
  cd_pass_configs : option string;
}.

Record ProfileArgs := MkProfileArgs {
  pa_warmup : Z;
  pa_rep : Z;
  pa_timeout : Z;
  pa_supply_type : string;
  pa_has_ref_prog : bool;
  pa_rtol : Data;
  pa_atol : Data;
  pa_max_mismatched_ratio : Data;
  pa_skip_check : bool;
}.

(** What [ProfileArgs.__hash__] hashes. *)
Record ProfileData := MkProfileData {
  pd_warmup : Z;
  pd_rep : Z;
  pd_timeout : Z;
  pd_supply_type : string;
  pd_rtol : Data;
  pd_atol : Data;
  pd_max_mismatched_ratio : Data;
}.

Definition ProfileArgs_hash_data (p : ProfileArgs) : ProfileData :=
  MkProfileData (pa_warmup p) (pa_rep p) (pa_timeout p) (pa_supply_type p) (pa_rtol p) (pa_atol p) (pa_max_mismatched_ratio p).

Record TunerKey := MkTunerKey {
  tk_version : string;
  tk_op_parameters : list pyval;
  tk_func_source : string;
  tk_configs : list config_dict;
  tk_compile_args : Z;
  tk_profile_args : Z;
}.

(** An [AutoTuner]; the parameters of [fn] with their defaults. *)
Record AutoTuner := MkTuner {
  fn_source : string;
  fn_parameters : list (string * option pyval);
  configs : list config_dict;
  compile_args : CompileArgs;
  profile_args : ProfileArgs;
  _kernel_parameters : option (list pyval * list (string * pyval));
  _function_parameters : list string;
}.
End dicts.

(** Code outside the repository, and the program that is tuned. *)
Class TunerWorld `{World} := {
  fn : string → config_dict → res Func;               (** the tuned function, by call *)
  hash_compile : CompileData → Z;
  hash_profile : ProfileData → Z;
  tuner_json : TunerKey → res string;
  of_dict : config_dict → Data;
  none : Data;
  limit : Data;                                       (** [1e8] *)
  inf : Data;
  lat_ltb : Data → Data → bool;
  get_inputs : Kernel → config_dict → res unit;
  check_correctness : Kernel → config_dict → res unit;
  do_bench : Kernel → config_dict → res Data;
  do_bench_ref : Kernel → config_dict → res Data;
  do_bench_npu : list (Kernel * config_dict) → res (list Data);
}.

Class TunerLaws `{TunerWorld} := {
  lat_irrefl x : lat_ltb x x = false;
  lat_trans x y z : lat_ltb x y = true → lat_ltb y z = true → lat_ltb x z = true;
}.

Section tuner.
Context `{TunerWorld}.

(** The state of a tuning: the results all tuners of the process share, the kernel
    cache, the latency of the reference program, and the kernels a decorated function
    keeps.  A call of the function with certain arguments is given by a name. *)
Record Tuning := MkTuning {
  _memory : gmap string AutotuneResult;
  kcache : Cache;
  ref_latency_cache : option Data;
  _kernel_cache : gmap string Kernel;     (** of the decorated function, by call *)
  _tuner_cache : gmap string Kernel;      (** of the tuned function, by call *)
}.

Definition set_kcache (c : Cache) (s : Tuning) : Tuning :=
  MkTuning (_memory s) c (ref_latency_cache s) (_kernel_cache s) (_tuner_cache s).
Definition remember_result (key : string) (r : AutotuneResult) (s : Tuning) : Tuning :=
  MkTuning (<[key := r]> (_memory s)) (kcache s) (ref_latency_cache s) (_kernel_cache s) (_tuner_cache s).
Definition set_ref_latency (l : option Data) (s : Tuning) : Tuning :=
  MkTuning (_memory s) (kcache s) l (_kernel_cache s) (_tuner_cache s).
Definition remember_kernel (call : string) (k : Kernel) (s : Tuning) : Tuning :=
  MkTuning (_memory s) (kcache s) (ref_latency_cache s) (<[call := k]> (_kernel_cache s)) (_tuner_cache s).
Definition remember_tuned (call : string) (k : Kernel) (s : Tuning) : Tuning :=
  MkTuning (_memory s) (kcache s) (ref_latency_cache s) (_kernel_cache s) (<[call := k]> (_tuner_cache s)).

(** An operation of the kernel cache. *)
Definition on_cache {A} (m : prog Cache A) : prog Tuning A := λ s,
  let '(r, c) := m (kcache s) in (r, set_kcache c s).

(** ** Keys *)

Definition CompileArgs_hash_data (a : CompileArgs) : res CompileData :=
  p ← configs_key (ca_pass_configs a);
  Ok (MkCompileData (ca_execution_backend a) (ca_target a)
        (match ca_target_host a with Some h => if nonempty_str h then Some h else None | None => None end)
        (ca_verbose a) p).

Definition generate_cache_key (version : string) (t : AutoTuner) : res string :=
  let defaults := omap snd (fn_parameters t) in
  let op_parameters := match _kernel_parameters t with
    | None => defaults
    | Some (args, kwargs) =>
        defaults ++ [PSeq (_normalize_param <$> args); PSeq ((λ kv, PSeq [PStr kv.1; _normalize_param kv.2]) <$> kwargs)]
    end in
  c ← CompileArgs_hash_data (compile_args t);
  j ← tuner_json (MkTunerKey version op_parameters (fn_source t) (configs t) (hash_compile c)
                    (hash_profile (ProfileArgs_hash_data (profile_args t))));
  Ok (compute_sha256_hash j).

(** ** Caches *)

Definition _check_cache (key : string) : prog Tuning (option AutotuneResult) :=
  s ← get;
  if is_cache_enabled (kcache s) then
    match _memory s !! key with
    | Some r => mret (Some r)
    | None =>
        r ← on_cache (load_autotune_result key);
        match r with
        | Some r => modify (remember_result key r);; mret (Some r)
        | None => mret None
        end
    end
  else mret None.

Definition _store_cache (io : SaveIO) (key : string) (r : AutotuneResult) : prog Tuning unit :=
  s ← get;
  (if is_cache_enabled (kcache s) then on_cache (save_autotune_result io key r) else mret tt);;
  modify (remember_result key r).

(** ** Configurations *)

Definition build_config (parameters : list string) (config : config_dict) : res config_dict :=
  let new_kwargs := omap (λ name, (λ v, (name, v)) <$> dict_lookup config name) parameters in
  if forallb (λ kv : string * Data, bool_decide (kv.1 ∈ new_kwargs.*1)) config then Ok new_kwargs else Raise ValueError.

Definition _build_config_args (t : AutoTuner) : res (list config_dict) :=
  config_args ← mmap (build_config (fn_parameters t).*1) (configs t);
  if bool_decide (config_args = []) then Raise ValueError else Ok config_args.

(** [params_list.index(key)]. *)
Fixpoint index_of (key : string) (l : list string) : res Z :=
  match l with
  | [] => Raise AssertionError
  | x :: l' => if bool_decide (x = key) then Ok 0 else i ← index_of key l'; Ok (i + 1)
  end.

(** [any] with a condition that may raise. *)
Fixpoint py_any {A} (f : A → res bool) (l : list A) : res bool :=
  match l with [] => Ok false | x :: l' => b ← f x; if (b : bool) then Ok true else py_any f l' end.

Definition _should_skip_tuning (t : AutoTuner) (top_config : config_dict) : res bool :=
  match _kernel_parameters t with
  | None => Ok false
  | Some (key_args, key_kwargs) =>
      if existsb (λ kv : string * pyval, bool_decide (kv.1 ∈ top_config.*1)) key_kwargs then Ok true
      else py_any (λ key, i ← index_of key (_function_parameters t); Ok (i <? len key_args)) top_config.*1
  end.

(** [_compile_kernel]: [compile_program] is [tilelang.compile], hence [cached_npu]. *)
Definition compile_request (a : CompileArgs) (backend : string) (f : Func) : Request := {|
  func := f; r_out_idx := ca_out_idx a; execution_backend := backend; target := ca_target a;
  target_host := ca_target_host a; verbose := ca_verbose a; pass_configs := ca_pass_configs a |}.

Definition _compile_kernel (t : AutoTuner) (io : SaveIO) (config : config_dict) : prog Tuning Kernel :=
  f ← lift (fn EmptyString config);
  on_cache (cached_npu io (compile_request (compile_args t) "cython" f)).

(** [wrapper] of a decorated function, with [__tune_params]. *)
Definition wrapper (t : AutoTuner) (call : string) (io : SaveIO) (tune_params : config_dict) : prog Tuning Kernel :=
  s ← get;
  match _kernel_cache s !! call with
  | Some k => mret k
  | None =>
      f ← lift (fn call tune_params);
      k ← on_cache (cached_npu io (compile_request (compile_args t) (ca_execution_backend (compile_args t)) f));
      modify (remember_kernel call k);;
      mret k
  end.

(** [except Exception: continue]. *)
Definition attempt {A} (m : prog Tuning A) : prog Tuning (option A) := λ s,
  match m s with (Ok a, s') => (Ok (Some a), s') | (Raise _, s') => (Ok None, s') end.

(** The futures, in the order they complete. *)
Fixpoint collect (jit_compile : SaveIO → config_dict → prog Tuning Kernel) (ios : nat → SaveIO) (config_args : list config_dict)
    (order : list nat) : prog Tuning (list (Kernel * config_dict)) :=
  match order with
  | [] => mret []
  | idx :: order' =>
      config ← lift (or_raise KeyError (config_args !! idx));
      k ← attempt (jit_compile (ios idx) config);
      rest ← collect jit_compile ios config_args order';
      mret (match k with Some k => (k, config) :: rest | None => rest end)
  end.

(** ** Measuring *)

Definition measure_ref (t : AutoTuner) (k : Kernel) (config : config_dict) : prog Tuning unit :=
  s ← get;
  match ref_latency_cache s with
  | None =>
      if pa_has_ref_prog (profile_args t) then
        lift (get_inputs k config);;
        l ← lift (do_bench_ref k config);
        modify (set_ref_latency (Some l))
      else mret tt
  | Some _ => mret tt
  end.

Definition checked (t : AutoTuner) : bool := negb (pa_skip_check (profile_args t)) && pa_has_ref_prog (profile_args t).

Definition _measure_latency (t : AutoTuner) (k : Kernel) (config : config_dict) : prog Tuning Data :=
  lift (get_inputs k config);;
  (if checked t then lift (check_correctness k config) else mret tt);;
  l ← lift (do_bench k config);
  measure_ref t k config;;
  mret l.

(** The default way: one configuration after the other; [timed_out] tells which
    are interrupted. *)
Fixpoint bench_each (t : AutoTuner) (timed_out : nat → bool) (i : nat) (ks : list (Kernel * config_dict)) :
    prog Tuning (list (Kernel * config_dict * Data)) :=
  match ks with
  | [] => mret []
  | (k, config) :: ks' =>
      l ← (if timed_out i then mret None else attempt (_measure_latency t k config));
      rest ← bench_each t timed_out (S i) ks';
      mret (match l with Some l => (k, config, l) :: rest | None => rest end)
  end.

(** With [TILELANG_BENCH_METHOD=npu]: all at once. *)
Fixpoint prepare_npu (t : AutoTuner) (ks : list (Kernel * config_dict)) : prog Tuning (list (Kernel * config_dict)) :=
  match ks with
  | [] => mret []
  | (k, config) :: ks' =>
      lift (get_inputs k config);;
      ok ← (if checked t then attempt (lift (check_correctness k config)) else mret (Some tt));
      match ok with
      | None => prepare_npu t ks'
      | Some _ =>
          measure_ref t k config;;
          rest ← prepare_npu t ks';
          mret ((k, config) :: rest)
      end
  end.

Definition bench_npu (t : AutoTuner) (ks : list (Kernel * config_dict)) : prog Tuning (list (Kernel * config_dict * Data)) :=
  ready ← prepare_npu t ks;
  latencies ← attempt (lift (do_bench_npu ready));
  lift (zip_strict ready (default (replicate (length ready) inf) latencies)).

(** [if latency < best_latency: ...]. *)
Definition select_best (measured : list (Kernel * config_dict * Data)) : Data * option (Kernel * config_dict) :=
  foldl (λ best m, if lat_ltb m.2 best.1 then (m.2, Some m.1) else best) (limit, None) measured.

(** ** The run *)

Definition finish (io : SaveIO) (key : string) (measured : list (Kernel * config_dict * Data)) : prog Tuning AutotuneResult :=
  match select_best measured with
  | (_, None) => raise RuntimeError
  | (best_latency, Some (k, config)) =>
      s ← get;
      let ref := default none (ref_latency_cache s) in
      let k := update_tuner_result best_latency (of_dict config) ref k in
      let r := {| latency := best_latency; KernelCache.config := of_dict config; ref_latency := ref;
                  libcode := get_kernel_source k; tuned_func := prim_func_ k; kernel := k |} in
      _store_cache io key r;;
      mret r
  end.

Record RunIO := MkRunIO {
  order : list nat;
  ios : nat → SaveIO;
  timed_out : nat → bool;
  store_io : SaveIO;
  use_npu_profiling : bool;
}.

(** [jit_compile] without a configuration is the call with the arguments given. *)
Definition run (jit_compile : SaveIO → config_dict → prog Tuning Kernel) (t : AutoTuner) (io : RunIO) : prog Tuning AutotuneResult :=
  s ← get;
  key ← lift (generate_cache_key (__version__ (kcache s)) t);
  cached ← _check_cache key;
  match cached with
  | Some r => mret r
  | None =>
      config_args ← lift (_build_config_args t);
      top_config ← lift (or_raise ValueError (head config_args));
      skip ← lift (_should_skip_tuning t top_config);
      if (skip : bool) then
        k ← jit_compile (store_io io) [];
        let r := {| latency := none; KernelCache.config := none; ref_latency := none; libcode := get_kernel_source k;
                    tuned_func := prim_func_ k; kernel := k |} in
        modify (remember_result key r);;
        mret r
      else
        ks ← collect jit_compile (ios io) config_args (order io);
        measured ← (if use_npu_profiling io then bench_npu t ks else bench_each t (timed_out io) 0 ks);
        finish (store_io io) key measured
  end.

(** [AutoTuneImpl.__call__]: a new tuner, whose [jit_compile] is the wrapper of the
    decorated function. *)
Definition AutoTuneImpl_call (t : AutoTuner) (call : string) (io : RunIO) : prog Tuning Kernel :=
  s ← get;
  match _tuner_cache s !! call with
  | Some k => mret k
  | None =>
      modify (set_ref_latency None);;
      artifact ← run (wrapper t call) t io;
      modify (remember_tuned call (kernel artifact));;
      mret (kernel artifact)
  end.
End tuner.

(** ** Choosing *)

Section choice.
Context `{TunerLaws}.

(** The best of a list of measurements: below the limit, and none is better. *)
Definition best_of (measured : list (Kernel * config_dict * Data)) (m : Kernel * config_dict * Data) : Prop :=
  m ∈ measured ∧ lat_ltb m.2 limit = true ∧ ∀ m', m' ∈ measured → lat_ltb m'.2 m.2 = false.

Lemma select_best_spec measured :
  match select_best measured with
  | (l, None) => l = limit ∧ ∀ m, m ∈ measured → lat_ltb m.2 limit = false
  | (l, Some kc) => best_of measured (kc, l)
  end.
Proof.
  unfold select_best, best_of. induction measured as [|[kc' l'] l IH] using rev_ind; simpl; [split; [done|set_solver]|].
  rewrite foldl_app. simpl. destruct (foldl _ _ l) as [b [kc|]]; simpl in *.
  - destruct IH as (Hin & Hlim & Hmin). destruct (lat_ltb l' b) eqn:E.
    + split_and!; [set_solver|by eapply lat_trans|].
      intros m' [Hm'| ->%list_elem_of_singleton]%elem_of_app; [|apply lat_irrefl].
      apply not_true_iff_false. intros Hlt. specialize (Hmin m' Hm'). by rewrite (lat_trans _ _ _ Hlt E) in Hmin.
    + split_and!; [set_solver|done|]. intros m' [Hm'| ->%list_elem_of_singleton]%elem_of_app; auto.
  - destruct IH as [-> Hall]. destruct (lat_ltb l' limit) eqn:E.
    + split_and!; [set_solver|done|]. intros m' [Hm'| ->%list_elem_of_singleton]%elem_of_app; [|apply lat_irrefl].
      apply not_true_iff_false. intros Hlt. specialize (Hall m' Hm'). by rewrite (lat_trans _ _ _ Hlt E) in Hall.
    + split; [done|]. intros m' [Hm'| ->%list_elem_of_singleton]%elem_of_app; auto.
Qed.
End choice.

(** ** What compiling and measuring leave alone *)

Section runs.
Context `{!Opaque, !World, !WorldLaws, !TunerWorld, !TunerLaws}.

(** The settings of the cache and the results stay. *)
Record frame (s s' : Tuning) : Prop := {
  fr_version : __version__ (kcache s') = __version__ (kcache s);
  fr_enabled : is_cache_enabled (kcache s') = is_cache_enabled (kcache s);
  fr_memory : _memory s' = _memory s;
  fr_ok : cache_ok (kcache s) → cache_ok (kcache s');
}.

#[local] Instance frame_preorder : PreOrder frame.
Proof. split; [by intros s; split|]. intros s1 s2 s3 [] []. split; [congruence|congruence|congruence|auto]. Qed.

Definition framed {A} (m : prog Tuning A) : Prop := ∀ s, frame s (m s).2.

Lemma framed_ret {A} (a : A) : framed (mret a).
Proof. by intros s. Qed.

Lemma framed_lift {A} (r : res A) : framed (lift r).
Proof. by intros s. Qed.

Lemma framed_bind {A B} (m : prog Tuning A) (f : A → prog Tuning B) : framed m → (∀ a, framed (f a)) → framed (m ≫= f).
Proof.
  intros Hm Hf s. specialize (Hm s). rewrite bind_eq. destruct (m s).1; [|done]. etrans; [exact Hm|apply Hf].
Qed.

Lemma framed_attempt {A} (m : prog Tuning A) : framed m → framed (attempt m).
Proof. intros Hm s. specialize (Hm s). unfold attempt. by destruct (m s) as [[]]. Qed.

Lemma framed_cached io r : framed (on_cache (cached_npu io r)).
Proof.
  intros s. unfold on_cache. pose proof (cached_npu_settings io r (kcache s)) as (Hv & _ & He).
  pose proof (cached_npu_ok io r (kcache s)) as Hok. destruct (cached_npu io r (kcache s)) as [res c]. by split.
Qed.

Lemma framed_get {B} (f : Tuning → prog Tuning B) : (∀ s, framed (f s)) → framed (get ≫= f).
Proof. intros Hf s. apply Hf. Qed.

Lemma framed_modify f : (∀ s, frame s (f s)) → framed (modify f).
Proof. by intros Hf s. Qed.

Create HintDb framed.
#[local] Hint Resolve framed_ret framed_lift framed_bind framed_attempt framed_cached framed_get framed_modify : framed.

Lemma compile_kernel_framed t io c : framed (_compile_kernel t io c).
Proof. unfold _compile_kernel. eauto with framed. Qed.

Lemma wrapper_framed t call io c : framed (wrapper t call io c).
Proof.
  apply framed_get. intros s. destruct (_kernel_cache s !! call); [apply framed_ret|].
  apply framed_bind; [apply framed_lift|]. intros f. apply framed_bind; [apply framed_cached|]. intros k.
  apply framed_bind; [|intros; apply framed_ret]. apply framed_modify. intros s0. by split.
Qed.

Lemma measure_ref_framed t k c : framed (measure_ref t k c).
Proof.
  apply framed_get. intros s. destruct (ref_latency_cache s); [apply framed_ret|].
  destruct (pa_has_ref_prog (profile_args t)); [|apply framed_ret]. apply framed_bind; [apply framed_lift|]. intros _.
  apply framed_bind; [apply framed_lift|]. intros l. apply framed_modify. intros s0. by split.
Qed.

Lemma measure_framed t k c : framed (_measure_latency t k c).
Proof.
  unfold _measure_latency. apply framed_bind; [apply framed_lift|]. intros _.
  apply framed_bind; [by destruct (checked t)|]. intros _. apply framed_bind; [apply framed_lift|]. intros l.
  apply framed_bind; [apply measure_ref_framed|]. intros _. apply framed_ret.
Qed.

(** ** Compiling the configurations *)

Definition in_range (config_args : list config_dict) (ord : list nat) : Prop := Forall (λ i, i < length config_args)%nat ord.

Lemma collect_configs_total jit ios config_args ord s :
  (∀ io c, framed (jit io c)) → in_range config_args ord →
  ∃ ks, (collect jit ios config_args ord s).1 = Ok ks ∧ frame s (collect jit ios config_args ord s).2.
Proof.
  intros Hjit. revert s. induction ord as [|i ord IH]; intros s Hord; simpl; [by eexists|].
  apply Forall_cons in Hord as [Hi Hord]. destruct (lookup_lt_is_Some_2 config_args i Hi) as [c Hc].
  rewrite bind_eq, Hc. cbn [lift or_raise fst snd]. rewrite bind_eq.
  pose proof (framed_attempt _ (Hjit (ios i) c) s) as Hf. unfold attempt in *.
  destruct (jit (ios i) c s) as [[k|e] s1]; cbn [fst snd] in *; rewrite bind_eq;
    destruct (IH s1 Hord) as (ks & Hks & Hfr); rewrite Hks; cbn [mret prog_ret fst snd]; eexists; (split; [done|]); by etrans.
Qed.

(** Every configuration that is worked on has a kernel, or its compilation
    raised. *)
Lemma collect_covers jit ios config_args ord s ks i c :
  (collect jit ios config_args ord s).1 = Ok ks → i ∈ ord → config_args !! i = Some c →
  (∃ k, (k, c) ∈ ks) ∨ ∃ s' e, (jit (ios i) c s').1 = Raise e.
Proof.
  revert s ks. induction ord as [|j ord IH]; intros s ks; [by intros _ ?%elem_of_nil|]. simpl.
  rewrite bind_eq. destruct (config_args !! j) as [c'|] eqn:Hc'; [|done]. cbn [lift or_raise fst snd]. rewrite bind_eq.
  unfold attempt at 1. destruct (jit (ios j) c' s) as [r s1] eqn:Ej. unfold attempt. rewrite Ej.
  destruct r as [k|e]; cbn [fst snd]; rewrite bind_eq; destruct (collect jit ios config_args ord s1) as [[ks'|] s2] eqn:E;
    cbn [mret prog_ret fst snd]; try done; intros [= <-] [-> | Hi]%elem_of_cons Hc.
  - rewrite Hc in Hc'. injection Hc' as <-. left. exists k. by left.
  - destruct (IH s1 ks') as [[k' Hk]|He]; [by rewrite E|done|done| |by right]. left. exists k'. by right.
  - rewrite Hc in Hc'. injection Hc' as <-. right. exists s, e. by rewrite Ej.
  - apply (IH s1 ks'); [by rewrite E|done|done].
Qed.

(** A kernel that belongs to a configuration of the tuning. *)
Definition compiled_from (v : string) (t : AutoTuner) (config_args : list config_dict) (kc : Kernel * config_dict) : Prop :=
  kc.2 ∈ config_args ∧
  ∃ f out out', fn EmptyString kc.2 = Ok f ∧ canonical_out_idx (compile_request (compile_args t) "cython" f) = Ok out ∧
    same_outputs out out' ∧ made v (script f) out' (default ∅ (ca_pass_configs (compile_args t))) kc.1.

Lemma collect_compiled t ios config_args ord s ks :
  cache_ok (kcache s) → (collect (_compile_kernel t) ios config_args ord s).1 = Ok ks →
  Forall (compiled_from (__version__ (kcache s)) t config_args) ks.
Proof.
  revert s ks. induction ord as [|i ord IH]; intros s ks Hok; simpl; [by intros [= <-]|].
  rewrite bind_eq. destruct (config_args !! i) as [c|] eqn:Hc; [|done]. cbn [lift or_raise fst snd]. rewrite bind_eq.
  pose proof (framed_attempt _ (compile_kernel_framed t (ios i) c) s) as Hf. unfold attempt in *.
  assert (∀ k s1, _compile_kernel t (ios i) c s = (Ok k, s1) → compiled_from (__version__ (kcache s)) t config_args (k, c)) as Hk.
  { intros k s1. unfold _compile_kernel. rewrite bind_eq. cbn [lift fst snd]. destruct (fn EmptyString c) as [f|] eqn:Ef; [|done].
    unfold on_cache. destruct (cached_npu _ _ (kcache s)) as [r0 c0] eqn:Ec. intros [= -> <-].
    apply cached_npu_made in Ec as (out & out' & Ho & Hs & Hm); [|done]. split; [by eapply list_elem_of_lookup_2|].
    by exists f, out, out'. }
  destruct (_compile_kernel t (ios i) c s) as [[k|e] s1]; cbn [fst snd] in *; rewrite bind_eq; destruct Hf as [Hv _ _ Hok1];
    destruct (collect _ ios config_args ord s1).1 as [ks'|] eqn:E; intros Heq; cbn [mret prog_ret fst snd] in Heq; simplify_eq;
    specialize (IH s1 _ (Hok1 Hok) E); rewrite Hv in IH; [|done].
  constructor; [|done]. by eapply Hk.
Qed.

(** ** Measuring them *)

(** A measurement that was made. *)
Definition measured_by (t : AutoTuner) (ks : list (Kernel * config_dict)) (m : Kernel * config_dict * Data) : Prop :=
  m.1 ∈ ks ∧ do_bench m.1.1 m.1.2 = Ok m.2 ∧ (checked t = true → check_correctness m.1.1 m.1.2 = Ok tt).

(** A configuration nothing goes wrong with. *)
Definition measurable (t : AutoTuner) (k : Kernel) (c : config_dict) (l : Data) : Prop :=
  get_inputs k c = Ok tt ∧ (checked t = true → check_correctness k c = Ok tt) ∧ do_bench k c = Ok l ∧
  (pa_has_ref_prog (profile_args t) = true → ∃ r, do_bench_ref k c = Ok r).

Lemma measure_sound t k c s l :
  (_measure_latency t k c s).1 = Ok l → do_bench k c = Ok l ∧ (checked t = true → check_correctness k c = Ok tt).
Proof.
  unfold _measure_latency. rewrite bind_eq. cbn [lift fst snd]. destruct (get_inputs k c); [|done]. rewrite bind_eq.
  destruct (checked t); cbn [lift mret prog_ret fst snd].
  - destruct (check_correctness k c) as [[]|]; [|done]. rewrite bind_eq. cbn [lift fst snd]. destruct (do_bench k c); [|done].
    rewrite bind_eq. destruct (measure_ref t k c s).1; [|done]. by intros [= ->].
  - rewrite bind_eq. cbn [lift fst snd]. destruct (do_bench k c); [|done]. rewrite bind_eq.
    destruct (measure_ref t k c s).1; [|done]. by intros [= ->].
Qed.

Lemma measure_complete t k c s l : measurable t k c l → (_measure_latency t k c s).1 = Ok l.
Proof.
  intros (Hi & Hc & Hb & Hr). unfold _measure_latency. rewrite bind_eq. cbn [lift fst snd]. rewrite Hi, bind_eq.
  assert ((measure_ref t k c s).1 = Ok tt) as Hm.
  { unfold measure_ref. rewrite bind_eq. cbn [get fst snd]. destruct (ref_latency_cache s); [done|].
    destruct (pa_has_ref_prog _); [|done]. rewrite bind_eq. cbn [lift fst snd]. rewrite Hi, bind_eq. cbn [lift fst snd].
    destruct (Hr eq_refl) as [r ->]. done. }
  destruct (checked t); cbn [lift mret prog_ret fst snd]; rewrite ?(Hc eq_refl), bind_eq; cbn [lift fst snd];
    rewrite Hb, bind_eq, Hm; done.
Qed.

Lemma bench_each_spec t late i ks s :
  ∃ ms, (bench_each t late i ks s).1 = Ok ms ∧ frame s (bench_each t late i ks s).2 ∧ Forall (measured_by t ks) ms ∧
    ∀ j k c l, ks !! j = Some (k, c) → late (i + j)%nat = false → measurable t k c l → (k, c, l) ∈ ms.
Proof.
  revert i s. induction ks as [|[k c] ks IH]; intros i s; simpl.
  { eexists. split; [done|]. split; [done|]. split; [constructor|]. done. }
  rewrite bind_eq. set (m := if late i then _ else _).
  assert (∃ lo, (m s).1 = Ok lo ∧ frame s (m s).2 ∧
    match lo with
    | Some l => measured_by t ((k, c) :: ks) (k, c, l)
    | None => late i = true ∨ ∀ l, ¬ measurable t k c l
    end ∧ (late i = false → ∀ l, measurable t k c l → lo = Some l)) as (lo & E & Hf & Hlo & Hcomp).
  { unfold m. destruct (late i); [exists None; split_and!; try done; by left|].
    pose proof (framed_attempt _ (measure_framed t k c) s) as Hf. unfold attempt in *.
    destruct (_measure_latency t k c s) as [[l|e] s1] eqn:E; cbn [fst snd] in *.
    - exists (Some l). split_and!; [done|done| |].
      + destruct (measure_sound t k c s l) as [Hb Hc]; [by rewrite E|]. split; [by left|done].
      + intros _ l' Hl'. apply (measure_complete t k c s) in Hl'. rewrite E in Hl'. by injection Hl' as ->.
    - exists None. assert (∀ l, ¬ measurable t k c l) as Hn.
      { intros l Hl. apply (measure_complete t k c s) in Hl. by rewrite E in Hl. }
      split_and!; [done|done|by right|]. intros _ l Hl. by apply Hn in Hl. }
  rewrite E, bind_eq. destruct (IH (S i) (m s).2) as (ms & -> & Hf2 & Hms & Hall). cbn [mret prog_ret fst snd].
  assert (Forall (measured_by t ((k, c) :: ks)) ms) as Hms'.
  { eapply Forall_impl; [exact Hms|]. intros x [Hx ?]. split; [by right|done]. }
  eexists. split; [done|]. split; [by etrans|]. split.
  - destruct lo; [by constructor|done].
  - intros [|j] k' c' l Hj Hlate Hm; simpl in Hj.
    + injection Hj as <- <-. rewrite Nat.add_0_r in Hlate. rewrite (Hcomp Hlate l Hm). by left.
    + assert ((k', c', l) ∈ ms) as Hin by (eapply Hall; [done|by replace (S i + j)%nat with (i + S j)%nat by lia|done]).
      destruct lo; [by right|done].
Qed.

(** ** The result *)

Lemma save_autotune_errors io key r c :
  (save_autotune_result io key r c).1 = Ok tt ∨
  ((save_autotune_result io key r c).1 = Raise OSError ∧ (io_mkdir io = false ∨ io_mkdir_autotune io = false)).
Proof. rewrite save_autotune_result_eq. destruct (io_mkdir io), (io_mkdir_autotune io); auto. Qed.

Lemma store_cache_spec io key r s :
  ((_store_cache io key r s).1 = Ok tt ∧ _memory (_store_cache io key r s).2 !! key = Some r ∧
   __version__ (kcache (_store_cache io key r s).2) = __version__ (kcache s)) ∨
  (_store_cache io key r s).1 = Raise OSError ∧ (io_mkdir io = false ∨ io_mkdir_autotune io = false).
Proof.
  unfold _store_cache. rewrite bind_eq. cbn [get fst snd]. rewrite bind_eq. destruct (is_cache_enabled (kcache s)).
  - unfold on_cache. pose proof (save_autotune_errors io key r (kcache s)) as He. rewrite save_autotune_result_eq in *.
    destruct (io_mkdir io), (io_mkdir_autotune io); cbn [fst snd] in *; try (right; split; [done|auto]).
    left. split; [done|]. split; [apply lookup_insert_eq|done].
  - left. split; [done|]. split; [apply lookup_insert_eq|done].
Qed.

(** What the tuner reports of its best measurement. *)
Definition reports (r : AutotuneResult) (m : Kernel * config_dict * Data) : Prop :=
  latency r = m.2 ∧ KernelCache.config r = of_dict m.1.2 ∧
  kernel r = update_tuner_result m.2 (of_dict m.1.2) (ref_latency r) m.1.1 ∧
  libcode r = get_kernel_source m.1.1 ∧ tuned_func r = prim_func_ m.1.1.

Lemma finish_spec io key ms s :
  match (finish io key ms s).1 with
  | Ok r => (∃ m, best_of ms m ∧ reports r m) ∧ _memory (finish io key ms s).2 !! key = Some r ∧
      __version__ (kcache (finish io key ms s).2) = __version__ (kcache s)
  | Raise e =>
      e = RuntimeError ∧ (∀ m, m ∈ ms → lat_ltb m.2 limit = false) ∨
      e = OSError ∧ (io_mkdir io = false ∨ io_mkdir_autotune io = false)
  end.
Proof.
  unfold finish. pose proof (select_best_spec ms) as Hs. destruct (select_best ms) as [l [[k c]|]].
  - rewrite bind_eq. cbn [get fst snd]. rewrite bind_eq.
    set (r := {| latency := l |}). destruct (store_cache_spec io key r s) as [(-> & Hm & Hv)|[-> He]]; [|by right].
    cbn [mret prog_ret fst snd]. split; [|done]. exists (k, c, l). split; [done|]. by split_and!.
  - left. split; [done|]. apply Hs.
Qed.

(** A tuning that has to be done: nothing is cached and the tunable arguments are
    not given by the caller. *)
Record fresh_tuning (t : AutoTuner) (s : Tuning) (key : string) (config_args : list config_dict) : Prop := {
  ft_key : generate_cache_key (__version__ (kcache s)) t = Ok key;
  ft_miss : _check_cache key s = (Ok None, s);
  ft_configs : _build_config_args t = Ok config_args;
  ft_no_skip top : head config_args = Some top → _should_skip_tuning t top = Ok false;
}.

Lemma build_config_args_nonempty t config_args : _build_config_args t = Ok config_args → ∃ top, head config_args = Some top.
Proof.
  unfold _build_config_args. destruct (mmap _ _) as [l|]; [|done]. simpl. case_bool_decide; [done|]. intros [= <-].
  destruct l; [done|]. by eexists.
Qed.

Lemma run_fresh jit t io s key config_args :
  fresh_tuning t s key config_args → use_npu_profiling io = false →
  run jit t io s =
    (ks ← collect jit (ios io) config_args (order io);
     measured ← bench_each t (timed_out io) 0 ks;
     finish (store_io io) key measured) s.
Proof.
  intros [Hk Hm Hc Hs] Hnpu. destruct (build_config_args_nonempty t config_args Hc) as [top Htop].
  unfold run. rewrite bind_eq. cbn [get fst snd]. rewrite bind_eq, Hk. cbn [lift fst snd]. rewrite bind_eq, Hm. cbn [fst snd].
  rewrite bind_eq, Hc. cbn [lift fst snd]. rewrite bind_eq, Htop. cbn [lift or_raise fst snd]. rewrite bind_eq, (Hs top Htop).
  cbn [lift fst snd]. by rewrite Hnpu.
Qed.


(** ** Tuning again *)

Lemma load_autotune_state key c : (load_autotune_result key c).2 = c.
Proof.
  unfold load_autotune_result. rewrite bind_eq. cbn [get fst snd].
  destruct (disk c !! _get_cache_path c key ≫= e_autotune); [|done]. repeat case_match; try done.
  all: rewrite bind_eq; cbn [lift fst snd]; repeat case_match; done.
Qed.

Lemma check_cache_spec key s :
  is_cache_enabled (kcache s) = true →
  match (_check_cache key s).1 with
  | Ok (Some r) => _memory (_check_cache key s).2 !! key = Some r
  | _ => _memory (_check_cache key s).2 = _memory s
  end ∧ kcache (_check_cache key s).2 = kcache s.
Proof.
  intros He. unfold _check_cache. rewrite bind_eq. cbn [get fst snd]. rewrite He. destruct (_memory s !! key) eqn:E; [done|].
  rewrite bind_eq. unfold on_cache. pose proof (load_autotune_state key (kcache s)) as Hl.
  destruct (load_autotune_result key (kcache s)) as [[[r|]|e] c]; simpl in Hl; subst c; cbn [fst snd]; try done.
  run. split; [apply lookup_insert_eq|done].
Qed.

Lemma collect_framed jit ios args ord : (∀ io c, framed (jit io c)) → framed (collect jit ios args ord).
Proof.
  intros Hjit. induction ord as [|i ord IH]; simpl; [apply framed_ret|]. apply framed_bind; [apply framed_lift|]. intros c.
  apply framed_bind; [by apply framed_attempt|]. intros k. apply framed_bind; [done|]. intros l. apply framed_ret.
Qed.

Lemma bench_each_framed t late i ks : framed (bench_each t late i ks).
Proof. intros s. by destruct (bench_each_spec t late i ks s) as (ms & _ & Hf & _). Qed.

Lemma prepare_npu_framed t ks : framed (prepare_npu t ks).
Proof.
  induction ks as [|[k c] ks IH]; simpl; [apply framed_ret|]. apply framed_bind; [apply framed_lift|]. intros _.
  apply framed_bind; [destruct (checked t); [apply framed_attempt, framed_lift|apply framed_ret]|]. intros [[]|]; [|done].
  apply framed_bind; [apply measure_ref_framed|]. intros _. apply framed_bind; [done|]. intros l. apply framed_ret.
Qed.

Lemma bench_framed t late (b : bool) ks : framed (if b then bench_npu t ks else bench_each t late 0 ks).
Proof.
  destruct b; [|apply bench_each_framed]. apply framed_bind; [apply prepare_npu_framed|]. intros l.
  apply framed_bind; [apply framed_attempt, framed_lift|]. intros o. apply framed_lift.
Qed.

Lemma run_remembers jit t io s r s1 :
  (∀ io c, framed (jit io c)) → is_cache_enabled (kcache s) = true →
  run jit t io s = (Ok r, s1) →
  ∃ key, generate_cache_key (__version__ (kcache s1)) t = Ok key ∧ _memory s1 !! key = Some r.
Proof.
  intros Hjit He. unfold run. rewrite bind_eq. cbn [get fst snd]. rewrite bind_eq. cbn [lift fst snd].
  destruct (generate_cache_key (__version__ (kcache s)) t) as [key|] eqn:Hk; [|done]. rewrite bind_eq.
  pose proof (check_cache_spec key s He) as [Hc Hkc]. destruct (_check_cache key s) as [[[r0|]|e] s0]; cbn [fst snd] in *; [| |done].
  { intros [= -> ->]. exists key. by rewrite Hkc. }
  rewrite bind_eq. cbn [lift fst snd]. destruct (_build_config_args t) as [args|]; [|done]. rewrite bind_eq. cbn [lift fst snd].
  destruct (or_raise ValueError (head args)) as [top|]; [|done]. rewrite bind_eq. cbn [lift fst snd].
  destruct (_should_skip_tuning t top) as [[|]|]; [| |done].
  - rewrite bind_eq. pose proof (Hjit (store_io io) [] s0) as [Hv _ _ _]. destruct (jit (store_io io) [] s0) as [[k|] s2]; [|done].
    cbn [fst snd] in *. rewrite bind_eq. cbn [modify fst snd]. intros [= <- <-]. exists key. simpl. rewrite Hv, Hkc.
    split; [done|]. apply lookup_insert_eq.
  - rewrite bind_eq. pose proof (collect_framed jit (ios io) args (order io) Hjit s0) as [Hv1 _ _ _].
    destruct (collect jit (ios io) args (order io) s0) as [[ks|] s2]; [|done]. cbn [fst snd] in *. rewrite bind_eq.
    pose proof (bench_framed t (timed_out io) (use_npu_profiling io) ks s2) as [Hv2 _ _ _].
    set (b := if use_npu_profiling io then bench_npu t ks else bench_each t (timed_out io) 0 ks) in *.
    destruct (b s2) as [[ms|] s3]; [|done]. cbn [fst snd] in *.
    pose proof (finish_spec (store_io io) key ms s3) as Hf. intros E. rewrite E in Hf. cbn [fst snd] in Hf.
    destruct Hf as (_ & Hm & Hv3). exists key. by rewrite Hv3, Hv2, Hv1, Hkc.
Qed.

(** A tuning that has returned is not done again: with the cache enabled the
    next run returns the same result and changes nothing, whether configurations are
    compiled directly or through the decorated function. *)
Theorem retune_hits t call io io' s r s1 :
  let jits := [_compile_kernel t; wrapper t call] in
  ∀ jit jit', jit ∈ jits → jit' ∈ jits →
  is_cache_enabled (kcache s) = true → run jit t io s = (Ok r, s1) → is_cache_enabled (kcache s1) = true →
  run jit' t io' s1 = (Ok r, s1).
Proof.
  intros jits jit jit' Hj _ He Hrun He1.
  assert (∀ io c, framed (jit io c)) as Hf.
  { intros io0 c. unfold jits in Hj. rewrite !elem_of_cons, elem_of_nil in Hj.
    destruct Hj as [-> |[-> |[]]]; [apply compile_kernel_framed|apply wrapper_framed]. }
  destruct (run_remembers jit t io s r s1 Hf He Hrun) as (key & Hk & Hm).
  unfold run. rewrite bind_eq. cbn [get fst snd]. rewrite bind_eq, Hk. cbn [lift fst snd]. rewrite bind_eq.
  unfold _check_cache. rewrite bind_eq. cbn [get fst snd]. by rewrite He1, Hm.
Qed.

(** ** Decorated functions *)

(** The wrapper keeps one kernel per call, whatever the configuration. *)
Lemma wrapper_hit t call io c s k : _kernel_cache s !! call = Some k → wrapper t call io c s = (Ok k, s).
Proof. intros Hk. unfold wrapper. rewrite bind_eq. cbn [get fst snd]. by rewrite Hk. Qed.

Lemma wrapper_keeps t call io c s k s1 : wrapper t call io c s = (Ok k, s1) → _kernel_cache s1 !! call = Some k.
Proof.
  unfold wrapper. rewrite bind_eq. cbn [get fst snd]. destruct (_kernel_cache s !! call) eqn:E; [by intros [= <- <-]|].
  rewrite bind_eq. cbn [lift fst snd]. destruct (fn call c); [|done]. rewrite bind_eq.
  destruct (on_cache _ s) as [[k0|] s0]; [|done]. cbn [fst snd]. rewrite bind_eq. cbn [modify fst snd]. intros [= <- <-].
  apply lookup_insert_eq.
Qed.

Lemma collect_wrapper_hit t call ios args ord s k ks :
  _kernel_cache s !! call = Some k → (collect (wrapper t call) ios args ord s).1 = Ok ks → Forall (λ kc, kc.1 = k) ks.
Proof.
  intros Hk. revert ks. induction ord as [|i ord IH]; intros ks; simpl; [by intros [= <-]|].
  rewrite bind_eq. destruct (args !! i) as [c|]; [|done]. cbn [lift or_raise fst snd]. rewrite bind_eq. unfold attempt.
  rewrite (wrapper_hit t call (ios i) c s k Hk). cbn [fst snd]. rewrite bind_eq.
  destruct (collect _ ios args ord s).1 as [ks'|]; [|done]. intros [= <-]. constructor; [done|]. by apply IH.
Qed.

(** All configurations a decorated function is tuned over are measured with one
    and the same kernel: that of the first one that compiles. *)
Lemma decorated_configs_share_kernel t call ios args ord s ks :
  (collect (wrapper t call) ios args ord s).1 = Ok ks → ks = [] ∨ ∃ k, Forall (λ kc, kc.1 = k) ks.
Proof.
  revert s ks. induction ord as [|i ord IH]; intros s ks; simpl; [intros [= <-]; by left|].
  rewrite bind_eq. destruct (args !! i) as [c|]; [|done]. cbn [lift or_raise fst snd]. rewrite bind_eq. unfold attempt.
  destruct (wrapper t call (ios i) c s) as [[k|e] s1] eqn:E; cbn [fst snd]; rewrite bind_eq.
  - apply wrapper_keeps in E. destruct (collect _ ios args ord s1).1 as [ks'|] eqn:E'; [|done].
    intros [= <-]. right. exists k. constructor; [done|]. by eapply collect_wrapper_hit.
  - destruct (collect _ ios args ord s1).1 as [ks'|] eqn:E'; [|done]. intros [= <-]. by eapply IH.
Qed.

(** A decorated function that was tuned for a call is not tuned for it again. *)
Lemma tuned_call_once t call io io' s k s1 :
  AutoTuneImpl_call t call io s = (Ok k, s1) → AutoTuneImpl_call t call io' s1 = (Ok k, s1).
Proof.
  assert (∀ s0, _tuner_cache s0 !! call = Some k → AutoTuneImpl_call t call io' s0 = (Ok k, s0)) as Hhit.
  { intros s0 Hk. unfold AutoTuneImpl_call. rewrite bind_eq. cbn [get fst snd]. by rewrite Hk. }
  unfold AutoTuneImpl_call at 1. rewrite bind_eq. cbn [get fst snd]. destruct (_tuner_cache s !! call) as [k0|] eqn:E.
  - intros [= -> ->]. by apply Hhit.
  - rewrite bind_eq. cbn [modify fst snd]. rewrite bind_eq. destruct (run _ t io _) as [[r|e] s2]; [|done]. cbn [fst snd].
    rewrite bind_eq. cbn [modify fst snd]. intros [= <- <-]. apply Hhit. apply lookup_insert_eq.
Qed.

(** The key of a tuning does not depend on the outputs of the kernel, nor on the
    reference program its results are checked against. *)
Definition with_out_idx (o : out_arg) (t : AutoTuner) : AutoTuner :=
  let a := compile_args t in
  MkTuner (fn_source t) (fn_parameters t) (configs t)
    (MkCompileArgs o (ca_execution_backend a) (ca_target a) (ca_target_host a) (ca_verbose a) (ca_pass_configs a))
    (profile_args t) (_kernel_parameters t) (_function_parameters t).

Lemma key_ignores_out_idx v o t : generate_cache_key v (with_out_idx o t) = generate_cache_key v t.
Proof. done. Qed.
End runs.

(** ** Examples *)

Module AutotuneEx.
Import KernelCacheEx.

(** A function whose body is its [block], and a latency that grows with it: one
    configuration cannot be compiled, one gives wrong results. *)
Definition fn_ex (call : string) (c : config_dict) : res Func :=
  match dict_lookup c "block" with
  | Some b => if bool_decide (b = "invalid"%string) then Raise ValueError else Ok (MkFunc (header copy_func) b)
  | None => Raise TypeError
  end.

#[export] Instance tuner_world_ex : TunerWorld := {|
  fn := fn_ex;
  hash_compile := λ d, len (String.list_ascii_of_string (cd_target d));
  hash_profile := pd_rep;
  tuner_json := λ k, Ok ("tuner " +:+ tk_version k +:+ tk_func_source k);
  of_dict := λ c, default EmptyString (dict_lookup c "block");
  none := "None"%string;
  limit := "a latency of 1e8"%string;
  inf := "a latency beyond 1e8"%string;
  lat_ltb := λ x y, (String.length x <? String.length y)%nat;
  get_inputs := λ _ _, Ok tt;
  check_correctness := λ k _, if bool_decide (body (prim_func_ k) = "w"%string) then Raise AssertionError else Ok tt;
  do_bench := λ k _, Ok (npu_function k);
  do_bench_ref := λ _ _, Ok "0.1reference"%string;
  do_bench_npu := λ l, Ok ((λ kc, npu_function kc.1) <$> l);
|}.

#[export] Instance tuner_laws_ex : TunerLaws.
Proof.
  split; simpl; [intros x; apply Nat.ltb_irrefl|]. intros x y z Hxy%Nat.ltb_lt Hyz%Nat.ltb_lt. apply Nat.ltb_lt.
  exact (Nat.lt_trans _ _ _ Hxy Hyz).
Qed.

Definition block (b : string) : config_dict := [("block"%string, b)].
Definition configs_ex : list config_dict := block <$> ["large"; "w"; "invalid"; "fast"]%string.

Definition tuner (kernel_parameters : option (list pyval * list (string * pyval))) : AutoTuner := {|
  fn_source := "def copy(n, block=32)"; fn_parameters := [("n"%string, None); ("block"%string, Some (PData "32"%string))];
  configs := configs_ex;
  compile_args := MkCompileArgs (OInt (-1)) "cython" "npuir" None false None;
  profile_args := MkProfileArgs 25 100 30 "Auto" true "1e-2" "1e-2" "0.01" false;
  _kernel_parameters := kernel_parameters; _function_parameters := ["n"; "block"]%string |}.

Definition direct : AutoTuner := tuner None.
Definition begin : Tuning := MkTuning ∅ start None ∅ ∅.
Definition run_io (ord : list nat) : RunIO := MkRunIO ord (λ _, all_good) (λ _, false) all_good false.
Definition io_ex : RunIO := run_io [3; 2; 0; 1]%nat.

Lemma begin_fresh : fresh_tuning direct begin "tuner 0.1def copy(n, block=32)" configs_ex.
Proof. split; [reflexivity|vm_compute; reflexivity|vm_compute; reflexivity|]. intros top _. reflexivity. Qed.

Lemma begin_reachable : reachable (kcache begin).
Proof. apply start_reachable. reflexivity. Qed.

(** What a run reports: the latency, and the configuration it belongs to. *)
Definition report (r : res AutotuneResult) : res (string * string) := x ← r; Ok (latency x, KernelCache.config x).


(** When everything is wrong, nothing is returned. *)
Lemma nothing_measured : (run (_compile_kernel direct) direct (run_io [2; 1]%nat) begin).1 = Raise RuntimeError.
Proof. vm_compute. reflexivity. Qed.

(** The code a kernel runs, and the configuration it is measured for. *)
Definition measures (r : res (list (Kernel * config_dict))) : res (list (string * string)) :=
  match r with Ok l => Ok (List.map (λ kc : Kernel * config_dict, (body (prim_func_ kc.1), of_dict kc.2)) l) | Raise e => Raise e end.

(** Through the decorated function every configuration is measured with the kernel of
    the first that was compiled, and the fast one is not found. *)
Lemma decorated_measures_one_kernel :
  measures (collect (wrapper direct "n=8") (λ _, all_good) configs_ex [0; 3]%nat begin).1 = Ok [("large", "large"); ("large", "fast")]%string ∧
  report (run (wrapper direct "n=8") direct (run_io [2; 0; 3]%nat) begin).1 = Ok ("0.1large", "large")%string ∧
  report (run (_compile_kernel direct) direct (run_io [2; 0; 3]%nat) begin).1 = Ok ("0.1fast", "fast")%string.
Proof. split_and!; vm_compute; reflexivity. Qed.

(** A configuration that is given by the caller is not tuned. *)
Lemma given_not_tuned :
  _should_skip_tuning (tuner (Some ([PData "8"; PData "64"], [])))%string (block "fast") = Ok true ∧
  _should_skip_tuning (tuner (Some ([], [("block", PData "64")])))%string (block "fast") = Ok true ∧
  _should_skip_tuning (tuner (Some ([PData "8"], [])))%string (block "fast") = Ok false.
Proof. split_and!; reflexivity. Qed.

Definition tuned : res AutotuneResult * Tuning := run (_compile_kernel direct) direct io_ex begin.

Lemma retune_hits_witness :
  ∃ r, run (wrapper direct "n=8") direct (run_io []) tuned.2 = (Ok r, tuned.2) ∧ report (Ok r) = Ok ("0.1fast", "fast")%string.
Proof.
  assert (report tuned.1 = Ok ("0.1fast", "fast")%string) as Hr by (vm_compute; reflexivity).
  assert (is_cache_enabled (kcache tuned.2) = true) as He by (vm_compute; reflexivity).
  destruct tuned as [[r|e] s1] eqn:E; [|discriminate Hr]. exists r. split; [|exact Hr].
  apply (retune_hits direct "n=8" io_ex (run_io []) begin r s1 (_compile_kernel direct)); [left|right; left|reflexivity|exact E|exact He].
Defined.
End AutotuneEx.
